(** * Hash.h: a shallow embedding of the hash engines and their properties

    The development follows [src/https_server/Hash.h]: the C interface
    ([hash_*] functions) and, where a property depends on it, the C++
    interface of namespace [Hash].  Every engine of the header is modelled,
    whatever the [HASH_ENABLE_*] switches at the top of the header select.

    Conventions of the embedding.
    - The host is a little-endian LP64 machine ([hash_util_is_little_endian]
      returns 1, [size_t] and [long] are 64 bits wide, [unsigned int] 32).
    - A [uintN_t] value is a [Z] in [0, 2^N); every C operation that can
      leave the range is followed by its wrap-around, written [uintN_t _].
    - Memory bytes are [Byte.byte]; an array is a list, an in-place store
      is stdpp's list insert, which leaves the list unchanged out of range
      (C has undefined behaviour there).
    - A C function that mutates the struct it is given returns the new
      struct.  [init] functions only write the fields the source writes: the
      other fields keep the (indeterminate) contents of the object they are
      given, so a one-shot function takes the indeterminate contents of its
      automatic variable as an argument.
    - [transforms] (and [trace] for Keccak) are ghost fields: they count or
      log the calls of the block transform and are read by no operation.
    - A loop whose number of iterations is not bounded by its input is
      run for a number of iterations computed from the arguments; when
      they do not end it the call has no result ([None] for the MD5
      update, [Diverges] for the Keccak sponge). *)

From Stdlib Require Import ZArith List String Ascii Lia Bool.
From Stdlib Require Import Strings.Byte.
From stdpp Require Import base list.
Import ListNotations.
Local Open Scope Z_scope.

(** ** Machine integers, bytes and object representation *)

Definition uint8_t (z : Z) : Z := z mod 2 ^ 8.
Definition uint32_t (z : Z) : Z := z mod 2 ^ 32.
Definition uint64_t (z : Z) : Z := z mod 2 ^ 64.

#[global] Instance byte_inhabited : Inhabited byte := populate x00.

Definition Z_of_byte (b : byte) : Z := Z.of_N (Byte.to_N b).

Definition byte_of_Z (z : Z) : byte :=
  match Byte.of_N (Z.to_N (z mod 256)) with
  | Some b => b
  | None => x00
  end.

(** Little-endian reading and writing of an unsigned integer. *)
Fixpoint le_decode (bs : list byte) : Z :=
  match bs with
  | [] => 0
  | b :: rest => Z_of_byte b + 256 * le_decode rest
  end.

Fixpoint le_encode (n : nat) (u : Z) : list byte :=
  match n with
  | O => []
  | S k => byte_of_Z u :: le_encode k (u / 256)
  end.

(** [hash_util_is_little_endian]: [*(char* )&num == 1] for [int32_t num = 1]. *)
Definition hash_util_is_little_endian : bool := true.

(** The bytes of an integer object on the host, and the integer a run of
    bytes denotes when read through a [uintN_t*]. *)
Definition object_bytes (size : nat) (u : Z) : list byte :=
  if hash_util_is_little_endian then le_encode size u else rev (le_encode size u).

Definition object_value (bs : list byte) : Z :=
  if hash_util_is_little_endian then le_decode bs else le_decode (rev bs).

(** [HASH_DEFINE_UTIL_SWAP_ENDIAN]: [dest.u8[k] = source.u8[sizeof(type) - k - 1]]. *)
Definition hash_util_swap_endian (size : nat) (u : Z) : Z :=
  object_value (rev (object_bytes size u)).

Definition hash_util_swap_endian_uint32_t : Z -> Z := hash_util_swap_endian 4.
Definition hash_util_swap_endian_uint64_t : Z -> Z := hash_util_swap_endian 8.

Definition hash_util_right_rotate_u32 (n c : Z) : Z :=
  Z.lor (Z.shiftr n c) (uint32_t (Z.shiftl n (32 - c))).

Definition hash_util_right_rotate_u64 (n c : Z) : Z :=
  Z.lor (Z.shiftr n c) (uint64_t (Z.shiftl n (64 - c))).

Definition hash_util_left_rotate_u32 (n c : Z) : Z :=
  Z.lor (uint32_t (Z.shiftl n c)) (Z.shiftr n (32 - c)).

(** [~x] on a [uint32_t] and on a [uint64_t]. *)
Definition not32 (x : Z) : Z := Z.lxor x (2 ^ 32 - 1).
Definition not64 (x : Z) : Z := Z.lxor x (2 ^ 64 - 1).

(** [memset(&a[start], v, n)] and [memcpy(&a[start], src, n)] on an array
    [a]; like a single store they do not touch anything out of range. *)
Fixpoint memset (a : list byte) (start : nat) (v : byte) (n : nat) : list byte :=
  match n with
  | O => a
  | S k => memset (<[start := v]> a) (S start) v k
  end.

Fixpoint memcpy (a : list byte) (start : nat) (src : list byte) : list byte :=
  match src with
  | [] => a
  | b :: rest => memcpy (<[start := b]> a) (S start) rest
  end.

(** ** Hexadecimal output *)

Definition hex_chars : list ascii :=
  ["0"; "1"; "2"; "3"; "4"; "5"; "6"; "7"; "8"; "9"; "a"; "b"; "c"; "d"; "e"; "f"]%char.

Definition hex_char (n : Z) : ascii := nth (Z.to_nat n) hex_chars "0"%char.

(** [sprintf(out, "%0<width>x", v)] for an unsigned [v] below [16^width]
    (always the case below: [PRIx32] with width 8, [PRIx64] with width 16,
    a byte with width 2): exactly [width] lowercase digits. *)
Fixpoint sprintf_0x (width : nat) (v : Z) : string :=
  match width with
  | O => EmptyString
  | S k => String (hex_char ((v / 16 ^ Z.of_nat k) mod 16)) (sprintf_0x k v)
  end.

Definition concat_strings (l : list string) : string :=
  fold_right String.append EmptyString l.

(** [hash_util_char_array_to_hex_string]: two digits per byte, high nibble
    first ([(byte & 0xF0) >> 4], then [byte & 0x0F]). *)
Fixpoint hash_util_char_array_to_hex_string (data : list byte) : string :=
  match data with
  | [] => EmptyString
  | b :: rest =>
      String (hex_char (Z.shiftr (Z.land (Z_of_byte b) 0xF0) 4))
        (String (hex_char (Z.land (Z_of_byte b) 0x0F))
           (hash_util_char_array_to_hex_string rest))
  end.

(** ** SHA-256 and SHA-224 (C interface) *)

Module Sha256.

Record Hash_Private_Sha256 := mk {
  bitlen : Z;              (* uint64_t *)
  bufferSize : Z;          (* uint8_t *)
  h : list Z;              (* uint32_t h[8] *)
  buffer : list byte;      (* uint8_t buffer[64] *)
  transforms : nat         (* ghost: calls of hash_private_sha256_transform *)
}.

Definition k : list Z :=
  [ 0x428A2F98; 0x71374491; 0xB5C0FBCF; 0xE9B5DBA5;
    0x3956C25B; 0x59F111F1; 0x923F82A4; 0xAB1C5ED5;
    0xD807AA98; 0x12835B01; 0x243185BE; 0x550C7DC3;
    0x72BE5D74; 0x80DEB1FE; 0x9BDC06A7; 0xC19BF174;
    0xE49B69C1; 0xEFBE4786; 0x0FC19DC6; 0x240CA1CC;
    0x2DE92C6F; 0x4A7484AA; 0x5CB0A9DC; 0x76F988DA;
    0x983E5152; 0xA831C66D; 0xB00327C8; 0xBF597FC7;
    0xC6E00BF3; 0xD5A79147; 0x06CA6351; 0x14292967;
    0x27B70A85; 0x2E1B2138; 0x4D2C6DFC; 0x53380D13;
    0x650A7354; 0x766A0ABB; 0x81C2C92E; 0x92722C85;
    0xA2BFE8A1; 0xA81A664B; 0xC24B8B70; 0xC76C51A3;
    0xD192E819; 0xD6990624; 0xF40E3585; 0x106AA070;
    0x19A4C116; 0x1E376C08; 0x2748774C; 0x34B0BCB5;
    0x391C0CB3; 0x4ED8AA4A; 0x5B9CCA4F; 0x682E6FF3;
    0x748F82EE; 0x78A5636F; 0x84C87814; 0x8CC70208;
    0x90BEFFFA; 0xA4506CEB; 0xBEF9A3F7; 0xC67178F2 ].

(** The eight working variables [a .. h] of the compression loop. *)
Definition vars : Type := (Z * Z * Z * Z * Z * Z * Z * Z)%type.

(** One iteration of the [for (i = 0; i < 64; ++i)] loop of
    [hash_private_sha256_compress]. *)
Definition compress_round (w : list Z) (v : vars) (i : nat) : vars :=
  let '(a, b, c, d, e, f, g, hh) := v in
  let s1 := Z.lxor (Z.lxor (hash_util_right_rotate_u32 e 6) (hash_util_right_rotate_u32 e 11))
                   (hash_util_right_rotate_u32 e 25) in
  let ch := Z.lxor (Z.land e f) (Z.land (not32 e) g) in
  let temp1 := uint32_t (uint32_t (uint32_t (uint32_t (hh + s1) + ch) + k !!! i) + w !!! i) in
  let s0 := Z.lxor (Z.lxor (hash_util_right_rotate_u32 a 2) (hash_util_right_rotate_u32 a 13))
                   (hash_util_right_rotate_u32 a 22) in
  let maj := Z.lxor (Z.lxor (Z.land a b) (Z.land a c)) (Z.land b c) in
  let temp2 := uint32_t (s0 + maj) in
  (uint32_t (temp1 + temp2), a, b, c, uint32_t (d + temp1), e, f, g).

(** The effect of [hash_private_sha256_compress] on the array [h]. *)
Definition compress_words (hs : list Z) (w : list Z) : list Z :=
  let v0 := (hs !!! 0%nat, hs !!! 1%nat, hs !!! 2%nat, hs !!! 3%nat,
             hs !!! 4%nat, hs !!! 5%nat, hs !!! 6%nat, hs !!! 7%nat) in
  let '(a, b, c, d, e, f, g, hh) := fold_left (compress_round w) (seq 0 64) v0 in
  let hs := <[0%nat := uint32_t (hs !!! 0%nat + a)]> hs in
  let hs := <[1%nat := uint32_t (hs !!! 1%nat + b)]> hs in
  let hs := <[2%nat := uint32_t (hs !!! 2%nat + c)]> hs in
  let hs := <[3%nat := uint32_t (hs !!! 3%nat + d)]> hs in
  let hs := <[4%nat := uint32_t (hs !!! 4%nat + e)]> hs in
  let hs := <[5%nat := uint32_t (hs !!! 5%nat + f)]> hs in
  let hs := <[6%nat := uint32_t (hs !!! 6%nat + g)]> hs in
  <[7%nat := uint32_t (hs !!! 7%nat + hh)]> hs.

Definition hash_private_sha256_compress (s : Hash_Private_Sha256) (w : list Z)
  : Hash_Private_Sha256 :=
  mk (bitlen s) (bufferSize s) (compress_words (h s) w) (buffer s) (transforms s).

(** First loop of [hash_private_sha256_transform]: the four bytes
    [buffer[4i .. 4i+3]] are stored into the object [w[i]], which is then
    byte-swapped on a little-endian host. *)
Definition load_word (buf : list byte) (w : list Z) (i : nat) : list Z :=
  let c := [buf !!! (4 * i)%nat; buf !!! (4 * i + 1)%nat;
            buf !!! (4 * i + 2)%nat; buf !!! (4 * i + 3)%nat] in
  let wi := object_value c in
  <[i := if hash_util_is_little_endian then hash_util_swap_endian_uint32_t wi else wi]> w.

(** Second loop: [w[i] = w[i - 16] + s0 + w[i - 7] + s1]. *)
Definition extend_word (w : list Z) (i : nat) : list Z :=
  let w15 := w !!! (i - 15)%nat in
  let w2 := w !!! (i - 2)%nat in
  let s0 := Z.lxor (Z.lxor (hash_util_right_rotate_u32 w15 7) (hash_util_right_rotate_u32 w15 18))
                   (Z.shiftr w15 3) in
  let s1 := Z.lxor (Z.lxor (hash_util_right_rotate_u32 w2 17) (hash_util_right_rotate_u32 w2 19))
                   (Z.shiftr w2 10) in
  <[i := uint32_t (uint32_t (uint32_t (w !!! (i - 16)%nat + s0) + w !!! (i - 7)%nat) + s1)]> w.

(** [static uint32_t w[64]] is written in full before it is read, so it is
    modelled as a local array. *)
Definition message_schedule (buf : list byte) : list Z :=
  let w := fold_left (load_word buf) (seq 0 16) (replicate 64 0) in
  fold_left extend_word (seq 16 48) w.

Definition hash_private_sha256_transform (s : Hash_Private_Sha256) : Hash_Private_Sha256 :=
  let s' := hash_private_sha256_compress s (message_schedule (buffer s)) in
  mk (bitlen s') (bufferSize s') (h s') (buffer s') (S (transforms s')).

Definition hash_sha256_init (s : Hash_Private_Sha256) : Hash_Private_Sha256 :=
  mk 0 0
     [0x6A09E667; 0xBB67AE85; 0x3C6EF372; 0xA54FF53A;
      0x510E527F; 0x9B05688C; 0x1F83D9AB; 0x5BE0CD19]
     (buffer s) (transforms s).

(** Body of the loop of [hash_sha256_update_binary] for the byte [d[i]]. *)
Definition update_byte (s : Hash_Private_Sha256) (d : byte) : Hash_Private_Sha256 :=
  let s := mk (bitlen s) (uint8_t (bufferSize s + 1)) (h s)
              (<[Z.to_nat (bufferSize s) := d]> (buffer s)) (transforms s) in
  if bufferSize s =? 64 then
    let s := hash_private_sha256_transform s in
    mk (uint64_t (bitlen s + 512)) 0 (h s) (buffer s) (transforms s)
  else s.

Definition hash_sha256_update_binary (s : Hash_Private_Sha256) (data : list byte)
  : Hash_Private_Sha256 :=
  fold_left update_byte data s.

Definition hash_sha256_finalize (s : Hash_Private_Sha256) : Hash_Private_Sha256 :=
  let start := bufferSize s in
  let end_ := if bufferSize s <? 56 then 56 else 64 in
  let buf := <[Z.to_nat start := byte_of_Z 0x80]> (buffer s) in
  let start := uint8_t (start + 1) in
  let buf := memset buf (Z.to_nat start) x00 (Z.to_nat (end_ - start)) in
  let s := mk (bitlen s) (bufferSize s) (h s) buf (transforms s) in
  let s :=
    if 56 <=? bufferSize s then
      let s := hash_private_sha256_transform s in
      mk (bitlen s) (bufferSize s) (h s) (memset (buffer s) 0 x00 56) (transforms s)
    else s in
  let bl := uint64_t (bitlen s + bufferSize s * 8) in
  let size := if hash_util_is_little_endian then hash_util_swap_endian_uint64_t bl else bl in
  let s := mk bl (bufferSize s) (h s) (memcpy (buffer s) (64 - 8) (object_bytes 8 size))
              (transforms s) in
  hash_private_sha256_transform s.

(** [sprintf(&buff[i * 8], "%08" PRIx32, s->h[i])] for [i < 8]; the result
    is the string the returned pointer designates. *)
Definition hash_sha256_hexdigest (s : Hash_Private_Sha256) : string :=
  concat_strings (map (fun i => sprintf_0x 8 (h s !!! i)) (seq 0 8)).

(** [Hash_Sha256 s;] is the automatic variable, indeterminate at entry. *)
Definition hash_sha256_binary (s : Hash_Private_Sha256) (str : list byte) : string :=
  let s := hash_sha256_init s in
  let s := hash_sha256_update_binary s str in
  let s := hash_sha256_finalize s in
  hash_sha256_hexdigest s.

(** [typedef Hash_Sha256 Hash_Sha224]: same struct, another initial value and
    seven words of output. *)
Definition hash_sha224_init (s : Hash_Private_Sha256) : Hash_Private_Sha256 :=
  mk 0 0
     [0xC1059ED8; 0x367CD507; 0x3070DD17; 0xF70E5939;
      0xFFC00B31; 0x68581511; 0x64F98FA7; 0xBEFA4FA4]
     (buffer s) (transforms s).

Definition hash_sha224_update_binary := hash_sha256_update_binary.
Definition hash_sha224_finalize := hash_sha256_finalize.

Definition hash_sha224_hexdigest (s : Hash_Private_Sha256) : string :=
  concat_strings (map (fun i => sprintf_0x 8 (h s !!! i)) (seq 0 7)).

Definition hash_sha224_binary (s : Hash_Private_Sha256) (str : list byte) : string :=
  let s := hash_sha224_init s in
  let s := hash_sha224_update_binary s str in
  let s := hash_sha224_finalize s in
  hash_sha224_hexdigest s.

End Sha256.

(** ** Outcomes of a call that can stop at an [assert], fail to compile at a
    [static_assert], or run into undefined behaviour *)

Inductive outcome (A : Type) : Type :=
| Returned (a : A)
| AssertionFailed (msg : string)
| StaticAssertionFailed (msg : string)
| UndefinedBehaviour.
Arguments Returned {A} a.
Arguments AssertionFailed {A} msg.
Arguments StaticAssertionFailed {A} msg.
Arguments UndefinedBehaviour {A}.

Definition is_returned {A} (o : outcome A) : bool :=
  match o with Returned _ => true | _ => false end.

(** [assert(cond && msg)]: with [NDEBUG] defined the macro expands to
    nothing; otherwise a false condition aborts the program. *)
Definition assert {A} (ndebug : bool) (cond : bool) (msg : string)
  (continue : outcome A) : outcome A :=
  if ndebug then continue
  else if cond then continue else AssertionFailed msg.

(** [static_assert(cond, msg)]. *)
Definition static_assert {A} (cond : bool) (msg : string)
  (continue : outcome A) : outcome A :=
  if cond then continue else StaticAssertionFailed msg.

(** [sprintf(out, "%u", n)] and [std::to_string(n)]: the decimal digits of
    an unsigned [n], without leading zeros. *)
Fixpoint decimal_digits (fuel : nat) (n : Z) (acc : list byte) : list byte :=
  match fuel with
  | O => acc
  | S fuel' =>
      let acc := byte_of_Z (48 + n mod 10) :: acc in
      if n / 10 =? 0 then acc else decimal_digits fuel' (n / 10) acc
  end.

(** 20 digits are enough for a 64-bit value. *)
Definition to_decimal (n : Z) : list byte := decimal_digits 20 n [].

(** Value of a hexadecimal digit, [None] for any other character. *)
Definition hex_value (c : ascii) : option Z :=
  let n := Z.of_N (N_of_ascii c) in
  if (48 <=? n) && (n <=? 57) then Some (n - 48)
  else if (97 <=? n) && (n <=? 102) then Some (n - 97 + 10)
  else if (65 <=? n) && (n <=? 70) then Some (n - 65 + 10)
  else None.

(** [strtoull(hex, NULL, 16)] on a string without sign, prefix or leading
    blanks: the leading hexadecimal digits, saturating at [ULLONG_MAX]. *)
Fixpoint strtoull_16_from (acc : Z) (s : string) : Z :=
  match s with
  | EmptyString => acc
  | String c rest =>
      match hex_value c with
      | Some d => strtoull_16_from (Z.min (2 ^ 64 - 1) (acc * 16 + d)) rest
      | None => acc
      end
  end.

Definition strtoull_16 (s : string) : Z := strtoull_16_from 0 s.

(** ** SHA-512, SHA-384 and SHA-512/t (C interface) *)

Module Sha512.

Record Hash_Private_Sha512 := mk {
  bitlen : Z;              (* uint64_t *)
  bufferSize : Z;          (* uint8_t *)
  h : list Z;              (* uint64_t h[8] *)
  buffer : list byte;      (* uint8_t buffer[128] *)
  t : Z;                   (* size_t t, only used for sha512t *)
  transforms : nat         (* ghost: calls of hash_private_sha512_transform *)
}.

Definition k : list Z :=
  [
    0x428A2F98D728AE22; 0x7137449123EF65CD; 0xB5C0FBCFEC4D3B2F;
    0xE9B5DBA58189DBBC; 0x3956C25BF348B538; 0x59F111F1B605D019;
    0x923F82A4AF194F9B; 0xAB1C5ED5DA6D8118; 0xD807AA98A3030242;
    0x12835B0145706FBE; 0x243185BE4EE4B28C; 0x550C7DC3D5FFB4E2;
    0x72BE5D74F27B896F; 0x80DEB1FE3B1696B1; 0x9BDC06A725C71235;
    0xC19BF174CF692694; 0xE49B69C19EF14AD2; 0xEFBE4786384F25E3;
    0x0FC19DC68B8CD5B5; 0x240CA1CC77AC9C65; 0x2DE92C6F592B0275;
    0x4A7484AA6EA6E483; 0x5CB0A9DCBD41FBD4; 0x76F988DA831153B5;
    0x983E5152EE66DFAB; 0xA831C66D2DB43210; 0xB00327C898FB213F;
    0xBF597FC7BEEF0EE4; 0xC6E00BF33DA88FC2; 0xD5A79147930AA725;
    0x06CA6351E003826F; 0x142929670A0E6E70; 0x27B70A8546D22FFC;
    0x2E1B21385C26C926; 0x4D2C6DFC5AC42AED; 0x53380D139D95B3DF;
    0x650A73548BAF63DE; 0x766A0ABB3C77B2A8; 0x81C2C92E47EDAEE6;
    0x92722C851482353B; 0xA2BFE8A14CF10364; 0xA81A664BBC423001;
    0xC24B8B70D0F89791; 0xC76C51A30654BE30; 0xD192E819D6EF5218;
    0xD69906245565A910; 0xF40E35855771202A; 0x106AA07032BBD1B8;
    0x19A4C116B8D2D0C8; 0x1E376C085141AB53; 0x2748774CDF8EEB99;
    0x34B0BCB5E19B48A8; 0x391C0CB3C5C95A63; 0x4ED8AA4AE3418ACB;
    0x5B9CCA4F7763E373; 0x682E6FF3D6B2B8A3; 0x748F82EE5DEFB2FC;
    0x78A5636F43172F60; 0x84C87814A1F0AB72; 0x8CC702081A6439EC;
    0x90BEFFFA23631E28; 0xA4506CEBDE82BDE9; 0xBEF9A3F7B2C67915;
    0xC67178F2E372532B; 0xCA273ECEEA26619C; 0xD186B8C721C0C207;
    0xEADA7DD6CDE0EB1E; 0xF57D4F7FEE6ED178; 0x06F067AA72176FBA;
    0x0A637DC5A2C898A6; 0x113F9804BEF90DAE; 0x1B710B35131C471B;
    0x28DB77F523047D84; 0x32CAAB7B40C72493; 0x3C9EBE0A15C9BEBC;
    0x431D67C49C100D4C; 0x4CC5D4BECB3E42B6; 0x597F299CFC657E2A;
    0x5FCB6FAB3AD6FAEC; 0x6C44198C4A475817 ].

Definition vars : Type := (Z * Z * Z * Z * Z * Z * Z * Z)%type.

(** One iteration of the [for (i = 0; i < 80; ++i)] loop of
    [hash_private_sha512_compress]. *)
Definition compress_round (w : list Z) (v : vars) (i : nat) : vars :=
  let '(a, b, c, d, e, f, g, hh) := v in
  let s1 := Z.lxor (Z.lxor (hash_util_right_rotate_u64 e 14) (hash_util_right_rotate_u64 e 18))
                   (hash_util_right_rotate_u64 e 41) in
  let ch := Z.lxor (Z.land e f) (Z.land (not64 e) g) in
  let temp1 := uint64_t (uint64_t (uint64_t (uint64_t (hh + s1) + ch) + k !!! i) + w !!! i) in
  let s0 := Z.lxor (Z.lxor (hash_util_right_rotate_u64 a 28) (hash_util_right_rotate_u64 a 34))
                   (hash_util_right_rotate_u64 a 39) in
  let maj := Z.lxor (Z.lxor (Z.land a b) (Z.land a c)) (Z.land b c) in
  let temp2 := uint64_t (s0 + maj) in
  (uint64_t (temp1 + temp2), a, b, c, uint64_t (d + temp1), e, f, g).

(** The effect of [hash_private_sha512_compress] on the array [h]. *)
Definition compress_words (hs : list Z) (w : list Z) : list Z :=
  let v0 := (hs !!! 0%nat, hs !!! 1%nat, hs !!! 2%nat, hs !!! 3%nat,
             hs !!! 4%nat, hs !!! 5%nat, hs !!! 6%nat, hs !!! 7%nat) in
  let '(a, b, c, d, e, f, g, hh) := fold_left (compress_round w) (seq 0 80) v0 in
  let hs := <[0%nat := uint64_t (hs !!! 0%nat + a)]> hs in
  let hs := <[1%nat := uint64_t (hs !!! 1%nat + b)]> hs in
  let hs := <[2%nat := uint64_t (hs !!! 2%nat + c)]> hs in
  let hs := <[3%nat := uint64_t (hs !!! 3%nat + d)]> hs in
  let hs := <[4%nat := uint64_t (hs !!! 4%nat + e)]> hs in
  let hs := <[5%nat := uint64_t (hs !!! 5%nat + f)]> hs in
  let hs := <[6%nat := uint64_t (hs !!! 6%nat + g)]> hs in
  <[7%nat := uint64_t (hs !!! 7%nat + hh)]> hs.

Definition hash_private_sha512_compress (s : Hash_Private_Sha512) (w : list Z)
  : Hash_Private_Sha512 :=
  mk (bitlen s) (bufferSize s) (compress_words (h s) w) (buffer s) (t s) (transforms s).

(** First loop of [hash_private_sha512_transform]: [c[0 .. 7]] are the
    bytes of the object [w[i]]. *)
Definition load_word (buf : list byte) (w : list Z) (i : nat) : list Z :=
  let c := [buf !!! (8 * i)%nat; buf !!! (8 * i + 1)%nat;
            buf !!! (8 * i + 2)%nat; buf !!! (8 * i + 3)%nat;
            buf !!! (8 * i + 4)%nat; buf !!! (8 * i + 5)%nat;
            buf !!! (8 * i + 6)%nat; buf !!! (8 * i + 7)%nat] in
  let wi := object_value c in
  <[i := if hash_util_is_little_endian then hash_util_swap_endian_uint64_t wi else wi]> w.

(** Second loop ("extend the first 16 words"). *)
Definition extend_word (w : list Z) (i : nat) : list Z :=
  let w15 := w !!! (i - 15)%nat in
  let w2 := w !!! (i - 2)%nat in
  let s0 := Z.lxor (Z.lxor (hash_util_right_rotate_u64 w15 1) (hash_util_right_rotate_u64 w15 8))
                   (Z.shiftr w15 7) in
  let s1 := Z.lxor (Z.lxor (hash_util_right_rotate_u64 w2 19) (hash_util_right_rotate_u64 w2 61))
                   (Z.shiftr w2 6) in
  <[i := uint64_t (uint64_t (uint64_t (w !!! (i - 16)%nat + s0) + w !!! (i - 7)%nat) + s1)]> w.

(** [static uint64_t w[80]] is written in full before it is read. *)
Definition message_schedule (buf : list byte) : list Z :=
  let w := fold_left (load_word buf) (seq 0 16) (replicate 80 0) in
  fold_left extend_word (seq 16 64) w.

Definition hash_private_sha512_transform (s : Hash_Private_Sha512) : Hash_Private_Sha512 :=
  let s' := hash_private_sha512_compress s (message_schedule (buffer s)) in
  mk (bitlen s') (bufferSize s') (h s') (buffer s') (t s') (S (transforms s')).

Definition hash_sha512_init (s : Hash_Private_Sha512) : Hash_Private_Sha512 :=
  mk 0 0
     [0x6A09E667F3BCC908; 0xBB67AE8584CAA73B; 0x3C6EF372FE94F82B; 0xA54FF53A5F1D36F1;
      0x510E527FADE682D1; 0x9B05688C2B3E6C1F; 0x1F83D9ABFB41BD6B; 0x5BE0CD19137E2179]
     (buffer s) (t s) (transforms s).

Definition hash_sha512_reset (s : Hash_Private_Sha512) : Hash_Private_Sha512 :=
  mk 0 0 (h s) (buffer s) (t s) (transforms s).

(** Body of the loop of [hash_sha512_update_binary] for the byte [d[i]]. *)
Definition update_byte (s : Hash_Private_Sha512) (d : byte) : Hash_Private_Sha512 :=
  let s := mk (bitlen s) (uint8_t (bufferSize s + 1)) (h s)
              (<[Z.to_nat (bufferSize s) := d]> (buffer s)) (t s) (transforms s) in
  if bufferSize s =? 128 then
    let s := hash_private_sha512_transform s in
    mk (uint64_t (bitlen s + 1024)) 0 (h s) (buffer s) (t s) (transforms s)
  else s.

Definition hash_sha512_update_binary (s : Hash_Private_Sha512) (data : list byte)
  : Hash_Private_Sha512 :=
  fold_left update_byte data s.

Definition hash_sha512_finalize (s : Hash_Private_Sha512) : Hash_Private_Sha512 :=
  let start := bufferSize s in
  let end_ := if bufferSize s <? 112 then 120 else 128 in
  let buf := <[Z.to_nat start := byte_of_Z 0x80]> (buffer s) in
  let start := uint8_t (start + 1) in
  let buf := memset buf (Z.to_nat start) x00 (Z.to_nat (end_ - start)) in
  let s := mk (bitlen s) (bufferSize s) (h s) buf (t s) (transforms s) in
  let s :=
    if 112 <=? bufferSize s then
      let s := hash_private_sha512_transform s in
      mk (bitlen s) (bufferSize s) (h s) (memset (buffer s) 0 x00 120) (t s) (transforms s)
    else s in
  let bl := uint64_t (bitlen s + bufferSize s * 8) in
  let size := if hash_util_is_little_endian then hash_util_swap_endian_uint64_t bl else bl in
  let s := mk bl (bufferSize s) (h s) (memcpy (buffer s) (128 - 8) (object_bytes 8 size))
              (t s) (transforms s) in
  hash_private_sha512_transform s.

(** [sprintf(&buff[i * 16], "%016" PRIx64, s->h[i])] for [i < 8]. *)
Definition hash_sha512_hexdigest (s : Hash_Private_Sha512) : string :=
  concat_strings (map (fun i => sprintf_0x 16 (h s !!! i)) (seq 0 8)).

Definition hash_sha512_binary (s : Hash_Private_Sha512) (str : list byte) : string :=
  let s := hash_sha512_init s in
  let s := hash_sha512_update_binary s str in
  let s := hash_sha512_finalize s in
  hash_sha512_hexdigest s.

(** *** SHA-512/t *)

(** The label ["SHA-512/%u"] printed with [(unsigned int)t]. *)
Definition sha512t_label (t : Z) : list byte :=
  list_byte_of_string "SHA-512/" ++ to_decimal (uint32_t t).

(** The last loop of [hash_sha512t_init]: each run of 16 characters of the
    hexdigest is read back with [strtoull(hex, NULL, 16)]. *)
Definition store_word (buff : string) (hs : list Z) (k : nat) : list Z :=
  <[k := strtoull_16 (substring (16 * k) 16 buff)]> hs.

(** The first statements of [hash_sha512t_init]: the fixed initial value
    of the IV generation function, and [s->t = t]. *)
Definition sha512t_seed (s : Hash_Private_Sha512) (t : Z) : Hash_Private_Sha512 :=
  mk 0 0
     [0xCFAC43C256196CAD; 0x1EC20B20216F029E; 0x99CB56D75B315D8E; 0x00EA509FFAB89354;
      0xF4ABF7DA08432774; 0x3EA0CD298E9BC9BA; 0xBA267C0E5EE418CE; 0xFE4568BCB6DB84DC]
     (buffer s) t (transforms s).

(** The statements after [sprintf]: the label [str] is hashed, the
    hexdigest is read back into [h], and the counters are reset. *)
Definition sha512t_generate_iv (s : Hash_Private_Sha512) (str : list byte)
  : Hash_Private_Sha512 :=
  let s := hash_sha512_update_binary s str in
  let s := hash_sha512_finalize s in
  let buff := hash_sha512_hexdigest s in
  let s := hash_sha512_reset s in
  mk (bitlen s) (bufferSize s) (fold_left (store_word buff) (seq 0 8) (h s))
     (buffer s) (t s) (transforms s).

(** [char str[13]] holds the label and its terminator: a longer label is
    written past the end of the array. *)
Definition hash_sha512t_init (ndebug : bool) (s : Hash_Private_Sha512) (t : Z)
  : outcome Hash_Private_Sha512 :=
  assert ndebug (negb (t =? 384)) "t = 384 is not allowed use Hash_Sha384 instead!" (
  assert ndebug ((4 <=? t) && (t <=? 2048)) "t must satisfy t >= 4 && t <= 2048!" (
    if (13 <=? length (sha512t_label t))%nat then UndefinedBehaviour
    else Returned (sha512t_generate_iv (sha512t_seed s t) (sha512t_label t)))).

Definition hash_sha512t_update_binary := hash_sha512_update_binary.
Definition hash_sha512t_finalize := hash_sha512_finalize.

(** The sixteen-digit words are printed as for SHA-512, then
    [buff[s->t / 4] = 0] cuts the string (the terminator of the last
    [sprintf] already ends it after 128 characters). *)
Definition hash_sha512t_hexdigest (s : Hash_Private_Sha512) : string :=
  substring 0 (Z.to_nat (t s / 4)) (hash_sha512_hexdigest s).

Definition hash_sha512t_binary (ndebug : bool) (s : Hash_Private_Sha512) (t : Z)
  (str : list byte) : outcome string :=
  match hash_sha512t_init ndebug s t with
  | Returned s =>
      let s := hash_sha512t_update_binary s str in
      let s := hash_sha512t_finalize s in
      Returned (hash_sha512t_hexdigest s)
  | AssertionFailed msg => AssertionFailed msg
  | StaticAssertionFailed msg => StaticAssertionFailed msg
  | UndefinedBehaviour => UndefinedBehaviour
  end.

(** *** SHA-384 *)

Definition hash_sha384_init (s : Hash_Private_Sha512) : Hash_Private_Sha512 :=
  mk 0 0
     [0xCBBB9D5DC1059ED8; 0x629A292A367CD507; 0x9159015A3070DD17; 0x152FECD8F70E5939;
      0x67332667FFC00B31; 0x8EB44A8768581511; 0xDB0C2E0D64F98FA7; 0x47B5481DBEFA4FA4]
     (buffer s) (t s) (transforms s).

Definition hash_sha384_update_binary := hash_sha512_update_binary.
Definition hash_sha384_finalize := hash_sha512_finalize.

Definition hash_sha384_hexdigest (s : Hash_Private_Sha512) : string :=
  concat_strings (map (fun i => sprintf_0x 16 (h s !!! i)) (seq 0 6)).

Definition hash_sha384_binary (s : Hash_Private_Sha512) (str : list byte) : string :=
  let s := hash_sha384_init s in
  let s := hash_sha384_update_binary s str in
  let s := hash_sha384_finalize s in
  hash_sha384_hexdigest s.

End Sha512.

(** ** SHA-1 (C interface) *)

Module Sha1.

Record Hash_Private_Sha1 := mk {
  bitlen : Z;              (* uint64_t *)
  bufferSize : Z;          (* uint8_t *)
  buffer : list byte;      (* uint8_t buffer[64] *)
  h : list Z;              (* uint32_t h[5] *)
  transforms : nat         (* ghost: calls of hash_private_hash_sha1_transform *)
}.

Definition load_word (buf : list byte) (w : list Z) (i : nat) : list Z :=
  let ptr := [buf !!! (4 * i)%nat; buf !!! (4 * i + 1)%nat;
              buf !!! (4 * i + 2)%nat; buf !!! (4 * i + 3)%nat] in
  let wi := object_value ptr in
  <[i := if hash_util_is_little_endian then hash_util_swap_endian_uint32_t wi else wi]> w.

Definition extend_word (w : list Z) (i : nat) : list Z :=
  <[i := hash_util_left_rotate_u32
           (Z.lxor (Z.lxor (Z.lxor (w !!! (i - 3)%nat) (w !!! (i - 8)%nat)) (w !!! (i - 14)%nat))
                   (w !!! (i - 16)%nat)) 1]> w.

Definition vars : Type := (Z * Z * Z * Z * Z)%type.

(** One iteration of the [for (i = 0; i <= 79; ++i)] loop. *)
Definition round (w : list Z) (v : vars) (i : nat) : vars :=
  let '(a, b, c, d, e) := v in
  let '(f, k) :=
    if (i <=? 19)%nat then (Z.lor (Z.land b c) (Z.land (not32 b) d), 0x5A827999)
    else if (20 <=? i)%nat && (i <=? 39)%nat then (Z.lxor (Z.lxor b c) d, 0x6ED9EBA1)
    else if (40 <=? i)%nat && (i <=? 59)%nat
      then (Z.lor (Z.lor (Z.land b c) (Z.land b d)) (Z.land c d), 0x8F1BBCDC)
    else (Z.lxor (Z.lxor b c) d, 0xCA62C1D6) in
  let tmp := uint32_t (uint32_t (uint32_t (uint32_t (hash_util_left_rotate_u32 a 5 + f) + e) + k)
                       + w !!! i) in
  (tmp, a, hash_util_left_rotate_u32 b 30, c, d).

(** The effect of [hash_private_hash_sha1_transform] on the array [h];
    [uint32_t w[80] = { 0 }] is a local array. *)
Definition transform_words (hs : list Z) (buf : list byte) : list Z :=
  let w := fold_left (load_word buf) (seq 0 16) (replicate 80 0) in
  let w := fold_left extend_word (seq 16 64) w in
  let v0 := (hs !!! 0%nat, hs !!! 1%nat, hs !!! 2%nat, hs !!! 3%nat, hs !!! 4%nat) in
  let '(a, b, c, d, e) := fold_left (round w) (seq 0 80) v0 in
  let hs := <[0%nat := uint32_t (hs !!! 0%nat + a)]> hs in
  let hs := <[1%nat := uint32_t (hs !!! 1%nat + b)]> hs in
  let hs := <[2%nat := uint32_t (hs !!! 2%nat + c)]> hs in
  let hs := <[3%nat := uint32_t (hs !!! 3%nat + d)]> hs in
  <[4%nat := uint32_t (hs !!! 4%nat + e)]> hs.

Definition hash_private_hash_sha1_transform (s : Hash_Private_Sha1) : Hash_Private_Sha1 :=
  mk (bitlen s) (bufferSize s) (buffer s) (transform_words (h s) (buffer s))
     (S (transforms s)).

Definition hash_sha1_init (s : Hash_Private_Sha1) : Hash_Private_Sha1 :=
  mk 0 0 (buffer s)
     [0x67452301; 0xEFCDAB89; 0x98BADCFE; 0x10325476; 0xC3D2E1F0]
     (transforms s).

Definition update_byte (s : Hash_Private_Sha1) (d : byte) : Hash_Private_Sha1 :=
  let s := mk (bitlen s) (uint8_t (bufferSize s + 1))
              (<[Z.to_nat (bufferSize s) := d]> (buffer s)) (h s) (transforms s) in
  if bufferSize s =? 64 then
    let s := hash_private_hash_sha1_transform s in
    mk (uint64_t (bitlen s + 512)) 0 (buffer s) (h s) (transforms s)
  else s.

Definition hash_sha1_update_binary (s : Hash_Private_Sha1) (data : list byte)
  : Hash_Private_Sha1 :=
  fold_left update_byte data s.

Definition hash_sha1_finalize (s : Hash_Private_Sha1) : Hash_Private_Sha1 :=
  let start := bufferSize s in
  let end_ := if bufferSize s <? 56 then 56 else 64 in
  let buf := <[Z.to_nat start := byte_of_Z 0x80]> (buffer s) in
  let start := uint8_t (start + 1) in
  let buf := memset buf (Z.to_nat start) x00 (Z.to_nat (end_ - start)) in
  let s := mk (bitlen s) (bufferSize s) buf (h s) (transforms s) in
  let s :=
    if 56 <=? bufferSize s then
      let s := hash_private_hash_sha1_transform s in
      mk (bitlen s) (bufferSize s) (memset (buffer s) 0 x00 56) (h s) (transforms s)
    else s in
  let bl := uint64_t (bitlen s + bufferSize s * 8) in
  let size := if hash_util_is_little_endian then hash_util_swap_endian_uint64_t bl else bl in
  let s := mk bl (bufferSize s) (memcpy (buffer s) (64 - 8) (object_bytes 8 size)) (h s)
              (transforms s) in
  hash_private_hash_sha1_transform s.

Definition hash_sha1_hexdigest (s : Hash_Private_Sha1) : string :=
  concat_strings (map (fun i => sprintf_0x 8 (h s !!! i)) (seq 0 5)).

Definition hash_sha1_binary (s : Hash_Private_Sha1) (str : list byte) : string :=
  let s := hash_sha1_init s in
  let s := hash_sha1_update_binary s str in
  let s := hash_sha1_finalize s in
  hash_sha1_hexdigest s.

End Sha1.

(** ** MD5 (C interface) *)

Module MD5.

Definition HASH_PRIVATE_MD5_BLOCKSIZE : Z := 64.

Record Hash_Private_MD5 := mk {
  finalized : Z;           (* int *)
  buffer : list byte;      (* uint8_t buffer[64] *)
  count : list Z;          (* uint32_t count[2]: number of bits (lo, hi) *)
  state : list Z;          (* uint32_t state[4] *)
  digest : list byte;      (* uint8_t digest[16] *)
  transforms : nat         (* ghost: calls of hash_private_md5_transform *)
}.

Definition hash_private_md5_F (x y z : Z) : Z := Z.lor (Z.land x y) (Z.land (not32 x) z).
Definition hash_private_md5_G (x y z : Z) : Z := Z.lor (Z.land x z) (Z.land y (not32 z)).
Definition hash_private_md5_H (x y z : Z) : Z := Z.lxor (Z.lxor x y) z.
Definition hash_private_md5_I (x y z : Z) : Z := Z.lxor y (Z.lor x (not32 z)).

Definition hash_private_md5_rotate_left (x n : Z) : Z :=
  Z.lor (uint32_t (Z.shiftl x n)) (Z.shiftr x (32 - n)).

Definition hash_private_md5_FF (a b c d x s ac : Z) : Z :=
  uint32_t (hash_private_md5_rotate_left
              (uint32_t (uint32_t (uint32_t (a + hash_private_md5_F b c d) + x) + ac)) s + b).
Definition hash_private_md5_GG (a b c d x s ac : Z) : Z :=
  uint32_t (hash_private_md5_rotate_left
              (uint32_t (uint32_t (uint32_t (a + hash_private_md5_G b c d) + x) + ac)) s + b).
Definition hash_private_md5_HH (a b c d x s ac : Z) : Z :=
  uint32_t (hash_private_md5_rotate_left
              (uint32_t (uint32_t (uint32_t (a + hash_private_md5_H b c d) + x) + ac)) s + b).
Definition hash_private_md5_II (a b c d x s ac : Z) : Z :=
  uint32_t (hash_private_md5_rotate_left
              (uint32_t (uint32_t (uint32_t (a + hash_private_md5_I b c d) + x) + ac)) s + b).

(** [hash_private_md5_decode]: [len / 4] little-endian words of [input]. *)
Definition hash_private_md5_decode (input : list byte) (len : nat) : list Z :=
  map (fun i =>
         let j := (4 * i)%nat in
         Z.lor (Z.lor (Z.lor (Z_of_byte (input !!! j))
                             (Z.shiftl (Z_of_byte (input !!! (j + 1)%nat)) 8))
                      (Z.shiftl (Z_of_byte (input !!! (j + 2)%nat)) 16))
               (Z.shiftl (Z_of_byte (input !!! (j + 3)%nat)) 24))
      (seq 0 (len / 4)).

(** [hash_private_md5_encode]: the [len] bytes of [len / 4] words, low byte
    first, stored from [output[0]] on. *)
Definition hash_private_md5_encode (output : list byte) (input : list Z) (len : nat)
  : list byte :=
  fold_left (fun out i =>
               let j := (4 * i)%nat in
               let v := input !!! i in
               let out := <[j := byte_of_Z (Z.land v 0xFF)]> out in
               let out := <[(j + 1)%nat := byte_of_Z (Z.land (Z.shiftr v 8) 0xFF)]> out in
               let out := <[(j + 2)%nat := byte_of_Z (Z.land (Z.shiftr v 16) 0xFF)]> out in
               <[(j + 3)%nat := byte_of_Z (Z.land (Z.shiftr v 24) 0xFF)]> out)
            (seq 0 (len / 4)) output.

Definition S11 : Z := 7.
Definition S12 : Z := 12.
Definition S13 : Z := 17.
Definition S14 : Z := 22.
Definition S21 : Z := 5.
Definition S22 : Z := 9.
Definition S23 : Z := 14.
Definition S24 : Z := 20.
Definition S31 : Z := 4.
Definition S32 : Z := 11.
Definition S33 : Z := 16.
Definition S34 : Z := 23.
Definition S41 : Z := 6.
Definition S42 : Z := 10.
Definition S43 : Z := 15.
Definition S44 : Z := 21.

(** The 64 steps of [hash_private_md5_transform] on the working
    variables [a], [b], [c], [d] and the decoded block [x]. *)
Definition rounds (a b c d : Z) (x : list Z) : Z * Z * Z * Z :=
  (* Round 1 *)
  let a := hash_private_md5_FF a b c d (x !!! 0%nat) S11 0xD76AA478 in
  let d := hash_private_md5_FF d a b c (x !!! 1%nat) S12 0xE8C7B756 in
  let c := hash_private_md5_FF c d a b (x !!! 2%nat) S13 0x242070DB in
  let b := hash_private_md5_FF b c d a (x !!! 3%nat) S14 0xC1BDCEEE in
  let a := hash_private_md5_FF a b c d (x !!! 4%nat) S11 0xF57C0FAF in
  let d := hash_private_md5_FF d a b c (x !!! 5%nat) S12 0x4787C62A in
  let c := hash_private_md5_FF c d a b (x !!! 6%nat) S13 0xA8304613 in
  let b := hash_private_md5_FF b c d a (x !!! 7%nat) S14 0xFD469501 in
  let a := hash_private_md5_FF a b c d (x !!! 8%nat) S11 0x698098D8 in
  let d := hash_private_md5_FF d a b c (x !!! 9%nat) S12 0x8B44F7AF in
  let c := hash_private_md5_FF c d a b (x !!! 10%nat) S13 0xFFFF5BB1 in
  let b := hash_private_md5_FF b c d a (x !!! 11%nat) S14 0x895CD7BE in
  let a := hash_private_md5_FF a b c d (x !!! 12%nat) S11 0x6B901122 in
  let d := hash_private_md5_FF d a b c (x !!! 13%nat) S12 0xFD987193 in
  let c := hash_private_md5_FF c d a b (x !!! 14%nat) S13 0xA679438E in
  let b := hash_private_md5_FF b c d a (x !!! 15%nat) S14 0x49B40821 in
  (* Round 2 *)
  let a := hash_private_md5_GG a b c d (x !!! 1%nat) S21 0xF61E2562 in
  let d := hash_private_md5_GG d a b c (x !!! 6%nat) S22 0xC040B340 in
  let c := hash_private_md5_GG c d a b (x !!! 11%nat) S23 0x265E5A51 in
  let b := hash_private_md5_GG b c d a (x !!! 0%nat) S24 0xE9B6C7AA in
  let a := hash_private_md5_GG a b c d (x !!! 5%nat) S21 0xD62F105D in
  let d := hash_private_md5_GG d a b c (x !!! 10%nat) S22 0x2441453 in
  let c := hash_private_md5_GG c d a b (x !!! 15%nat) S23 0xD8A1E681 in
  let b := hash_private_md5_GG b c d a (x !!! 4%nat) S24 0xE7D3FBC8 in
  let a := hash_private_md5_GG a b c d (x !!! 9%nat) S21 0x21E1CDE6 in
  let d := hash_private_md5_GG d a b c (x !!! 14%nat) S22 0xC33707D6 in
  let c := hash_private_md5_GG c d a b (x !!! 3%nat) S23 0xF4D50D87 in
  let b := hash_private_md5_GG b c d a (x !!! 8%nat) S24 0x455A14ED in
  let a := hash_private_md5_GG a b c d (x !!! 13%nat) S21 0xA9E3E905 in
  let d := hash_private_md5_GG d a b c (x !!! 2%nat) S22 0xFCEFA3F8 in
  let c := hash_private_md5_GG c d a b (x !!! 7%nat) S23 0x676F02D9 in
  let b := hash_private_md5_GG b c d a (x !!! 12%nat) S24 0x8D2A4C8A in
  (* Round 3 *)
  let a := hash_private_md5_HH a b c d (x !!! 5%nat) S31 0xFFFA3942 in
  let d := hash_private_md5_HH d a b c (x !!! 8%nat) S32 0x8771F681 in
  let c := hash_private_md5_HH c d a b (x !!! 11%nat) S33 0x6D9D6122 in
  let b := hash_private_md5_HH b c d a (x !!! 14%nat) S34 0xFDE5380C in
  let a := hash_private_md5_HH a b c d (x !!! 1%nat) S31 0xA4BEEA44 in
  let d := hash_private_md5_HH d a b c (x !!! 4%nat) S32 0x4BDECFA9 in
  let c := hash_private_md5_HH c d a b (x !!! 7%nat) S33 0xF6BB4B60 in
  let b := hash_private_md5_HH b c d a (x !!! 10%nat) S34 0xBEBFBC70 in
  let a := hash_private_md5_HH a b c d (x !!! 13%nat) S31 0x289B7EC6 in
  let d := hash_private_md5_HH d a b c (x !!! 0%nat) S32 0xEAA127FA in
  let c := hash_private_md5_HH c d a b (x !!! 3%nat) S33 0xD4EF3085 in
  let b := hash_private_md5_HH b c d a (x !!! 6%nat) S34 0x4881D05 in
  let a := hash_private_md5_HH a b c d (x !!! 9%nat) S31 0xD9D4D039 in
  let d := hash_private_md5_HH d a b c (x !!! 12%nat) S32 0xE6DB99E5 in
  let c := hash_private_md5_HH c d a b (x !!! 15%nat) S33 0x1FA27CF8 in
  let b := hash_private_md5_HH b c d a (x !!! 2%nat) S34 0xC4AC5665 in
  (* Round 4 *)
  let a := hash_private_md5_II a b c d (x !!! 0%nat) S41 0xF4292244 in
  let d := hash_private_md5_II d a b c (x !!! 7%nat) S42 0x432AFF97 in
  let c := hash_private_md5_II c d a b (x !!! 14%nat) S43 0xAB9423A7 in
  let b := hash_private_md5_II b c d a (x !!! 5%nat) S44 0xFC93A039 in
  let a := hash_private_md5_II a b c d (x !!! 12%nat) S41 0x655B59C3 in
  let d := hash_private_md5_II d a b c (x !!! 3%nat) S42 0x8F0CCC92 in
  let c := hash_private_md5_II c d a b (x !!! 10%nat) S43 0xFFEFF47D in
  let b := hash_private_md5_II b c d a (x !!! 1%nat) S44 0x85845DD1 in
  let a := hash_private_md5_II a b c d (x !!! 8%nat) S41 0x6FA87E4F in
  let d := hash_private_md5_II d a b c (x !!! 15%nat) S42 0xFE2CE6E0 in
  let c := hash_private_md5_II c d a b (x !!! 6%nat) S43 0xA3014314 in
  let b := hash_private_md5_II b c d a (x !!! 13%nat) S44 0x4E0811A1 in
  let a := hash_private_md5_II a b c d (x !!! 4%nat) S41 0xF7537E82 in
  let d := hash_private_md5_II d a b c (x !!! 11%nat) S42 0xBD3AF235 in
  let c := hash_private_md5_II c d a b (x !!! 2%nat) S43 0x2AD7D2BB in
  let b := hash_private_md5_II b c d a (x !!! 9%nat) S44 0xEB86D391 in
  (a, b, c, d).

(** The effect of [hash_private_md5_transform] on the array [state]. *)
Definition transform_words (st : list Z) (block : list byte) : list Z :=
  let x := hash_private_md5_decode block (Z.to_nat HASH_PRIVATE_MD5_BLOCKSIZE) in
  let '(a, b, c, d) := rounds (st !!! 0%nat) (st !!! 1%nat) (st !!! 2%nat) (st !!! 3%nat) x in
  let st := <[0%nat := uint32_t (st !!! 0%nat + a)]> st in
  let st := <[1%nat := uint32_t (st !!! 1%nat + b)]> st in
  let st := <[2%nat := uint32_t (st !!! 2%nat + c)]> st in
  <[3%nat := uint32_t (st !!! 3%nat + d)]> st.

(** [block] is the array the second argument points to: [m->buffer] or
    [&input[i]]. *)
Definition hash_private_md5_transform (m : Hash_Private_MD5) (block : list byte)
  : Hash_Private_MD5 :=
  mk (finalized m) (buffer m) (count m) (transform_words (state m) block) (digest m)
     (S (transforms m)).

(** The loop [for (i = firstpart; i + 64 <= s; i += 64) transform(m, &input[i])];
    [i + 64] is computed in [uint32_t].  It returns the final [i], and
    [None] when [fuel] iterations have not ended it.  The caller allows
    [s / 64 + 1] iterations, which is enough whenever the loop ends: it
    does not end once [i + 64] wraps around, which happens when [s] is
    [2^32 - 64] plus [firstpart] modulo 64, or more; [i] then falls below
    64 and the loop goes through [input] again, for ever. *)
Fixpoint transform_chunks (fuel : nat) (m : Hash_Private_MD5) (input : list byte) (s i : Z)
  : option (Hash_Private_MD5 * Z) :=
  match fuel with
  | O => None
  | S fuel' =>
      if uint32_t (i + HASH_PRIVATE_MD5_BLOCKSIZE) <=? s then
        transform_chunks fuel' (hash_private_md5_transform m (drop (Z.to_nat i) input))
                         input s (uint32_t (i + HASH_PRIVATE_MD5_BLOCKSIZE))
      else Some (m, i)
  end.

(** [input] is the array of [size] bytes the call designates; [size] is a
    [size_t] and is converted to [uint32_t].  The result is [None] when the
    call does not return. *)
Definition hash_private_md5_update_binary (m : Hash_Private_MD5) (input : list byte)
  : option Hash_Private_MD5 :=
  let size := uint64_t (Z.of_nat (length input)) in
  let s := uint32_t size in
  let index := (count m !!! 0%nat / 8) mod HASH_PRIVATE_MD5_BLOCKSIZE in
  let c0 := uint32_t (count m !!! 0%nat + uint32_t (Z.shiftl s 3)) in
  let cnt := <[0%nat := c0]> (count m) in
  let cnt := if c0 <? uint32_t (Z.shiftl s 3)
             then <[1%nat := uint32_t (cnt !!! 1%nat + 1)]> cnt else cnt in
  let cnt := <[1%nat := uint32_t (cnt !!! 1%nat + Z.shiftr s 29)]> cnt in
  let m := mk (finalized m) (buffer m) cnt (state m) (digest m) (transforms m) in
  let firstpart := 64 - index in
  let blocks :=
    if firstpart <=? s then
      let m := mk (finalized m) (memcpy (buffer m) (Z.to_nat index) (take (Z.to_nat firstpart) input))
                  (count m) (state m) (digest m) (transforms m) in
      let m := hash_private_md5_transform m (buffer m) in
      match transform_chunks (Z.to_nat (s / 64) + 1) m input s firstpart with
      | Some (m, i) => Some (m, 0, i)
      | None => None
      end
    else Some (m, index, 0) in
  match blocks with
  | Some (m, index, i) =>
      Some (mk (finalized m)
               (memcpy (buffer m) (Z.to_nat index)
                       (take (Z.to_nat (s - i)) (drop (Z.to_nat i) input)))
               (count m) (state m) (digest m) (transforms m))
  | None => None
  end.

Definition hash_md5_init (m : Hash_Private_MD5) : Hash_Private_MD5 :=
  mk 0 (buffer m) [0; 0]
     [0x67452301; 0xEFCDAB89; 0x98BADCFE; 0x10325476]
     (digest m) (transforms m).

Definition hash_md5_update_binary (m : Hash_Private_MD5) (data : list byte)
  : option Hash_Private_MD5 :=
  hash_private_md5_update_binary m data.

Definition padding : list byte := x80 :: replicate 63 x00.

Definition hash_md5_finalize (m : Hash_Private_MD5) : option Hash_Private_MD5 :=
  if finalized m =? 0 then
    let bits := hash_private_md5_encode (replicate 8 x00) (count m) 8 in
    let index := (count m !!! 0%nat / 8) mod 64 in
    let padLen := if index <? 56 then 56 - index else 120 - index in
    match hash_private_md5_update_binary m (take (Z.to_nat padLen) padding) with
    | Some m =>
        match hash_private_md5_update_binary m bits with
        | Some m =>
            let m := mk (finalized m) (buffer m) (count m) (state m)
                        (hash_private_md5_encode (digest m) (state m) 16) (transforms m) in
            Some (mk 1 (memset (buffer m) 0 x00 64) [0; 0] (state m) (digest m) (transforms m))
        | None => None
        end
    | None => None
    end
  else Some m.

(** [if (!m->finalized) return ""]; otherwise [sprintf(buf + i * 2, "%02x",
    m->digest[i])] for [i < 16].  The result is the returned string together
    with the engine after the call: [m] is passed as [const Hash_MD5] and
    nothing is stored through it. *)
Definition hash_md5_hexdigest (m : Hash_Private_MD5) : string * Hash_Private_MD5 :=
  if finalized m =? 0 then (EmptyString, m)
  else (concat_strings (map (fun i => sprintf_0x 2 (Z_of_byte (digest m !!! i))) (seq 0 16)),
        m).

Definition hash_md5_binary (m : Hash_Private_MD5) (str : list byte) : option string :=
  let m := hash_md5_init m in
  match hash_md5_update_binary m str with
  | Some m =>
      match hash_md5_finalize m with
      | Some m => Some (fst (hash_md5_hexdigest m))
      | None => None
      end
  | None => None
  end.

End MD5.

(** ** Keccak sponge, SHAKE128/256 and SHA-3 (C interface) *)

Module Keccak.

(** Ghost log of what the sponge does to its state: a single-byte
    [state[i] ^= v] and a call of the permutation. *)
Inductive event : Type :=
| XorByte (i : nat) (v : byte)
| Permute.

Record sponge := mk {
  state : list byte;       (* uint8_t state[200] *)
  trace : list event       (* ghost *)
}.

Definition HASH_PRIVATE_KECCAK_ROL64 (a offset : Z) : Z :=
  Z.lxor (uint64_t (Z.shiftl a offset)) (Z.shiftr a (64 - offset)).

Definition HASH_PRIVATE_KECCAK_I (x y : nat) : nat := (x + 5 * y)%nat.

(** [HASH_KECCAK_LITTLE_ENDIAN == 1]: lanes are accessed through
    [(uint64_t* )state]. *)
Definition HASH_PRIVATE_KECCAK_READLANE (st : list byte) (x y : nat) : Z :=
  object_value (take 8 (drop (8 * HASH_PRIVATE_KECCAK_I x y) st)).

Definition hash_private_keccak_WRITELANE (st : list byte) (x y : nat) (lane : Z) : list byte :=
  memcpy st (8 * HASH_PRIVATE_KECCAK_I x y) (object_bytes 8 lane).

Definition hash_private_keccak_XORLANE (st : list byte) (x y : nat) (lane : Z) : list byte :=
  hash_private_keccak_WRITELANE st x y (Z.lxor (HASH_PRIVATE_KECCAK_READLANE st x y) lane).

(** Returns the result and the new value of [*LFSR]. *)
Definition hash_private_keccak_LFSR86540 (LFSR : Z) : bool * Z :=
  let result := negb (Z.land LFSR 0x01 =? 0) in
  if negb (Z.land LFSR 0x80 =? 0)
  then (result, uint8_t (Z.lxor (Z.shiftl LFSR 1) 0x71))
  else (result, uint8_t (Z.shiftl LFSR 1)).

Definition theta (st : list byte) : list byte :=
  let C := map (fun x => Z.lxor (Z.lxor (Z.lxor (Z.lxor
                   (HASH_PRIVATE_KECCAK_READLANE st x 0) (HASH_PRIVATE_KECCAK_READLANE st x 1))
                   (HASH_PRIVATE_KECCAK_READLANE st x 2)) (HASH_PRIVATE_KECCAK_READLANE st x 3))
                   (HASH_PRIVATE_KECCAK_READLANE st x 4)) (seq 0 5) in
  fold_left (fun st x =>
               let D := Z.lxor (C !!! ((x + 4) mod 5)%nat)
                               (HASH_PRIVATE_KECCAK_ROL64 (C !!! ((x + 1) mod 5)%nat) 1) in
               fold_left (fun st y => hash_private_keccak_XORLANE st x y D) (seq 0 5) st)
            (seq 0 5) st.

Definition rho_pi (st : list byte) : list byte :=
  let step (acc : list byte * nat * nat * Z) (t : nat) :=
    let '(st, x, y, current) := acc in
    let r := Z.of_nat (((t + 1) * (t + 2) / 2) mod 64) in
    let Y := ((2 * x + 3 * y) mod 5)%nat in
    let x := y in
    let y := Y in
    let temp := HASH_PRIVATE_KECCAK_READLANE st x y in
    (hash_private_keccak_WRITELANE st x y (HASH_PRIVATE_KECCAK_ROL64 current r), x, y, temp) in
  let '(st, _, _, _) :=
    fold_left step (seq 0 24) (st, 1%nat, 0%nat, HASH_PRIVATE_KECCAK_READLANE st 1 0) in
  st.

Definition chi (st : list byte) : list byte :=
  fold_left (fun st y =>
               let temp := map (fun x => HASH_PRIVATE_KECCAK_READLANE st x y) (seq 0 5) in
               fold_left (fun st x =>
                            hash_private_keccak_WRITELANE st x y
                              (Z.lxor (temp !!! x)
                                 (Z.land (not64 (temp !!! ((x + 1) mod 5)%nat))
                                         (temp !!! ((x + 2) mod 5)%nat))))
                         (seq 0 5) st)
            (seq 0 5) st.

Definition iota (acc : list byte * Z) : list byte * Z :=
  fold_left (fun (acc : list byte * Z) j =>
               let '(st, LFSRstate) := acc in
               let bitPosition := Z.shiftl 1 (Z.of_nat j) - 1 in
               let '(bit, LFSRstate) := hash_private_keccak_LFSR86540 LFSRstate in
               if bit then (hash_private_keccak_XORLANE st 0 0 (Z.shiftl 1 bitPosition), LFSRstate)
               else (st, LFSRstate))
            (seq 0 7) acc.

Definition KeccakF1600 (st : list byte) : list byte :=
  fst (fold_left (fun (acc : list byte * Z) (round : nat) =>
                    let '(st, LFSRstate) := acc in
                    iota (chi (rho_pi (theta st)), LFSRstate))
                 (seq 0 24) (st, 0x01)).

Definition hash_private_keccak_KeccakF1600_StatePermute (sp : sponge) : sponge :=
  mk (KeccakF1600 (state sp)) (trace sp ++ [Permute]).

Definition byte_xor (a b : byte) : byte := byte_of_Z (Z.lxor (Z_of_byte a) (Z_of_byte b)).

(** [state[i] ^= v]. *)
Definition xor_at (sp : sponge) (i : nat) (v : byte) : sponge :=
  mk (<[i := byte_xor (state sp !!! i) v]> (state sp)) (trace sp ++ [XorByte i v]).

(** [for (i = 0; i < blockSize; i++) state[i] ^= input[i]], from [i] on. *)
Fixpoint xor_block (sp : sponge) (i : nat) (block : list byte) : sponge :=
  match block with
  | [] => sp
  | b :: rest => xor_block (xor_at sp i b) (S i) rest
  end.

(** The absorbing loop [while (inputByteLen > 0)]; returns the sponge and
    the final [blockSize].  One unit of [fuel] per iteration. *)
Fixpoint absorb (fuel : nat) (rateInBytes : nat) (sp : sponge) (input : list byte)
  (blockSize : nat) : option (sponge * nat) :=
  match input with
  | [] => Some (sp, blockSize)
  | _ :: _ =>
      match fuel with
      | O => None
      | S fuel' =>
          let blockSize := Nat.min (length input) rateInBytes in
          let sp := xor_block sp 0 (take blockSize input) in
          let input := drop blockSize input in
          if (blockSize =? rateInBytes)%nat
          then absorb fuel' rateInBytes (hash_private_keccak_KeccakF1600_StatePermute sp) input 0
          else absorb fuel' rateInBytes sp input blockSize
      end
  end.

(** "Do the padding and switch to the squeezing phase". *)
Definition pad (rateInBytes : nat) (sp : sponge) (blockSize : nat) (delimitedSuffix : byte)
  : sponge :=
  let sp := xor_at sp blockSize delimitedSuffix in
  let sp :=
    if negb (Z.land (Z_of_byte delimitedSuffix) 0x80 =? 0) && (blockSize =? rateInBytes - 1)%nat
    then hash_private_keccak_KeccakF1600_StatePermute sp
    else sp in
  let sp := xor_at sp (rateInBytes - 1) x80 in
  hash_private_keccak_KeccakF1600_StatePermute sp.

(** The squeezing loop [while (outputByteLen > 0)]; returns the bytes
    stored through [output] and the sponge. *)
Fixpoint squeeze (fuel : nat) (rateInBytes : nat) (sp : sponge) (outputByteLen : nat)
  : option (list byte * sponge) :=
  match outputByteLen with
  | O => Some ([], sp)
  | S _ =>
      match fuel with
      | O => None
      | S fuel' =>
          let blockSize := Nat.min outputByteLen rateInBytes in
          let block := take blockSize (state sp) in
          let outputByteLen := (outputByteLen - blockSize)%nat in
          if (0 <? outputByteLen)%nat then
            match squeeze fuel' rateInBytes (hash_private_keccak_KeccakF1600_StatePermute sp)
                          outputByteLen with
            | Some (rest, sp) => Some (block ++ rest, sp)
            | None => None
            end
          else Some (block, sp)
      end
  end.

Inductive result : Type :=
| Written (output : list byte) (log : list event)  (* the bytes stored through [output] *)
| NothingWritten                                   (* the early [return] *)
| Diverges.                                        (* a loop that never ends *)

(** [input] is the array of [inputByteLen] bytes.  The function is only
    called with [0 < rate <= 1600]; with [rate == 0] the loops do not end
    or the state is indexed out of range. *)
Definition hash_private_keccak_Keccak (rate capacity : Z) (input : list byte)
  (delimitedSuffix : byte) (outputByteLen : nat) : result :=
  let rateInBytes := Z.to_nat (rate / 8) in
  if negb (uint32_t (rate + capacity) =? 1600) || negb (rate mod 8 =? 0) then NothingWritten
  else
    let sp := mk (replicate 200 x00) [] in
    match absorb (S (length input)) rateInBytes sp input 0 with
    | None => Diverges
    | Some (sp, blockSize) =>
        let sp := pad rateInBytes sp blockSize delimitedSuffix in
        match squeeze (S outputByteLen) rateInBytes sp outputByteLen with
        | None => Diverges
        | Some (output, sp) => Written output (trace sp)
        end
    end.

Definition HASH_SHAKE_128_MALLOC_LIMIT : Z := 64.
Definition HASH_SHAKE_256_MALLOC_LIMIT : Z := 64.

(** [buffer] tells whether the caller passes a buffer ([buffer != NULL]);
    [malloc_ok] whether [malloc] returns a block when it is called;
    [outsizeBytes] is a [size_t].  The digest bytes go to [buff]: the 32
    bytes of [intBuff], or the block of [malloc] when [buffer == NULL] and
    [outsizeBytes > 64].  That block is asked for with
    [malloc(outsizeBytes * 3 + 1)], the size computed in [size_t]: the
    digest bytes go to its start, and the [2 * (outsizeBytes / 2)] digits
    with their terminator to [&tmp[outsizeBytes]], so the block is overrun
    when the size has wrapped around. *)
Definition shake_binary (rate capacity : Z) (limit : Z) (malloc_ok : bool)
  (data : list byte) (outsizeBytes : Z) (buffer : bool) : outcome string :=
  let use_malloc := negb buffer && (limit <? outsizeBytes) in
  let block := uint64_t (outsizeBytes * 3 + 1) in
  if use_malloc && negb malloc_ok then UndefinedBehaviour
  else if use_malloc && (block <? outsizeBytes + (2 * (outsizeBytes / 2) + 1))
  then UndefinedBehaviour
  else if negb use_malloc && (limit / 2 <? outsizeBytes / 2) then UndefinedBehaviour
  else
    match hash_private_keccak_Keccak rate capacity data "031"%byte
                                     (Z.to_nat (outsizeBytes / 2)) with
    | Written buff _ => Returned (hash_util_char_array_to_hex_string buff)
    | _ => UndefinedBehaviour
    end.

Definition hash_shake128_binary :=
  shake_binary 1344 256 HASH_SHAKE_128_MALLOC_LIMIT.

Definition hash_shake256_binary :=
  shake_binary 1088 512 HASH_SHAKE_256_MALLOC_LIMIT.

Definition hash_sha3_256_binary (data : list byte) : option string :=
  match hash_private_keccak_Keccak 1088 512 data "006"%byte 32 with
  | Written buff _ => Some (hash_util_char_array_to_hex_string buff)
  | _ => None
  end.

End Keccak.

(** ** File hashing (C interface) *)

(** What the C library (and the C++ stream library) answers for one path:
    whether the file can be opened, the size [ftell] / [tellg] reports, the
    bytes a read of that size delivers (fewer than the size when the read
    fails), and the block [malloc] returns for that size ([None] for
    [NULL], otherwise its indeterminate contents). *)
Record file_status := mk_file {
  opens : bool;
  reported_size : Z;
  delivered : list byte;
  malloc_block : option (list byte)
}.

(** A file system maps a path to the answers for it. *)
Definition filesystem : Type := string -> file_status.

(** [hash_util_load_file]: [NULL] is [None]; otherwise the block and
    [*fsize].  The value of [fread] is not looked at. *)
Definition hash_util_load_file (fs : filesystem) (path : string) : option (list byte * Z) :=
  let f := fs path in
  if negb (opens f) then None
  else
    let fsize := reported_size f in
    match malloc_block f with
    | None => None
    | Some block => Some (memcpy block 0 (take (Z.to_nat fsize) (delivered f)), fsize)
    end.

(** [hashfunc(content, fsize, buffer)] hashes the first [fsize] bytes of
    [content]. *)
Definition hash_util_hash_file (fs : filesystem) (path : string)
  (hashfunc : list byte -> string) : string :=
  match hash_util_load_file fs path with
  | None => EmptyString
  | Some (content, fsize) => hashfunc (take (Z.to_nat fsize) content)
  end.

Definition hash_sha256_file (fs : filesystem) (s : Sha256.Hash_Private_Sha256) (path : string)
  : string :=
  hash_util_hash_file fs path (Sha256.hash_sha256_binary s).

Definition hash_sha256_file_easy (fs : filesystem) (s : Sha256.Hash_Private_Sha256)
  (path : string) : string :=
  hash_util_hash_file fs path (Sha256.hash_sha256_binary s).

(** ** The C++ interface (namespace [Hash]) *)

Module Hash.

Module Util.

(** [LoadFile]: the empty string when the stream is not open; otherwise a
    string of [size] blanks over which [read] stores what it delivers. *)
Definition LoadFile (fs : filesystem) (path : string) : list byte :=
  let f := fs path in
  if negb (opens f) then []
  else
    let size := Z.to_nat (uint64_t (reported_size f)) in
    memcpy (replicate size " "%byte) 0 (take size (delivered f)).

End Util.

(** Class [Sha256]: the default member initializers set what
    [hash_sha256_init] sets ([m_Buffer] is left indeterminate), and the
    bodies of [Update], [Finalize], [Transform] and [Compress] are those of
    the C functions statement by statement; [Hexdigest] prints the eight
    words with [std::hex], [setfill('0')] and [setw(8)]. *)
Definition Sha256_ctor := Sha256.hash_sha256_init.
Definition Sha256_Update := Sha256.hash_sha256_update_binary.
Definition Sha256_Finalize := Sha256.hash_sha256_finalize.
Definition Sha256_Hexdigest := Sha256.hash_sha256_hexdigest.

(** [Hash::sha256(const char* str, std::size_t size)]; [s] is the
    indeterminate storage of the local [Sha256 s]. *)
Definition sha256 (s : Sha256.Hash_Private_Sha256) (str : list byte) : string :=
  let s := Sha256_ctor s in
  let s := Sha256_Update s str in
  let s := Sha256_Finalize s in
  Sha256_Hexdigest s.

(** Class [Sha512] likewise follows the C functions of SHA-512. *)
Definition Sha512_Update := Sha512.hash_sha512_update_binary.
Definition Sha512_Finalize := Sha512.hash_sha512_finalize.
Definition Sha512_Hexdigest := Sha512.hash_sha512_hexdigest.
Definition Sha512_Reset := Sha512.hash_sha512_reset.

(** Constructor [Sha512T(size_t t)]: the label is built with
    [std::to_string], and each run of 16 digits is read back through a
    [std::hex] stream. *)
Definition Sha512T_ctor (ndebug : bool) (s : Sha512.Hash_Private_Sha512) (t : Z)
  : outcome Sha512.Hash_Private_Sha512 :=
  let s := Sha512.mk 0 0
      [0xCFAC43C256196CAD; 0x1EC20B20216F029E; 0x99CB56D75B315D8E; 0x00EA509FFAB89354;
       0xF4ABF7DA08432774; 0x3EA0CD298E9BC9BA; 0xBA267C0E5EE418CE; 0xFE4568BCB6DB84DC]
      (Sha512.buffer s) t (Sha512.transforms s) in
  assert ndebug (negb (t =? 384)) "t = 384 is not allowed use Sha384 instead!" (
  assert ndebug ((4 <=? t) && (t <=? 2048)) "t must satisfy t >= 4 && t <= 2048!" (
    let str := list_byte_of_string "SHA-512/" ++ to_decimal t in
    let s := Sha512_Update s str in
    let s := Sha512_Finalize s in
    let str := Sha512_Hexdigest s in
    let s := Sha512_Reset s in
    Returned (Sha512.mk (Sha512.bitlen s) (Sha512.bufferSize s)
                (fold_left (Sha512.store_word str) (seq 0 (String.length str / 16))
                           (Sha512.h s))
                (Sha512.buffer s) (Sha512.t s) (Sha512.transforms s)))).

(** [template <size_t T> class Sha512_T : public Sha512T]. *)
Definition Sha512_T (ndebug : bool) (s : Sha512.Hash_Private_Sha512) (T : Z)
  : outcome Sha512.Hash_Private_Sha512 :=
  static_assert (negb (T =? 384)) "T = 384 is not allowed use Sha384 instead!" (
  static_assert ((4 <=? T) && (T <=? 2048 * 4)) "T must satisfy T >= 4 && T <= 2048!" (
    Sha512T_ctor ndebug s T)).

(** [Sha512T::Hexdigest]: [Sha512::Hexdigest().substr(0, m_T / 4)]. *)
Definition Sha512T_Hexdigest (s : Sha512.Hash_Private_Sha512) : string :=
  substring 0 (Z.to_nat (Sha512.t s / 4)) (Sha512_Hexdigest s).

(** [MD5::hexdigest] is a [const] member function with the body of
    [hash_md5_hexdigest]. *)
Definition MD5_hexdigest := MD5.hash_md5_hexdigest.

Module File.

(** [Hash::File::sha256(path, flag)]. *)
Definition sha256 (fs : filesystem) (s : Sha256.Hash_Private_Sha256) (path : string)
  : string :=
  Hash.sha256 s (Util.LoadFile fs path).

End File.

End Hash.


(** ** SHA-3 with the other digest sizes (C interface), and SHAKE in the C++ interface *)

Module Sha3.

(** [hash_sha3_224_binary], [hash_sha3_384_binary] and
    [hash_sha3_512_binary]: the digest bytes go to the static [buff] of 28,
    48 and 64 bytes. *)
Definition hash_sha3_224_binary (data : list byte) : option string :=
  match Keccak.hash_private_keccak_Keccak 1152 448 data "006"%byte 28 with
  | Keccak.Written buff _ => Some (hash_util_char_array_to_hex_string buff)
  | _ => None
  end.

Definition hash_sha3_384_binary (data : list byte) : option string :=
  match Keccak.hash_private_keccak_Keccak 832 768 data "006"%byte 48 with
  | Keccak.Written buff _ => Some (hash_util_char_array_to_hex_string buff)
  | _ => None
  end.

Definition hash_sha3_512_binary (data : list byte) : option string :=
  match Keccak.hash_private_keccak_Keccak 576 1024 data "006"%byte 64 with
  | Keccak.Written buff _ => Some (hash_util_char_array_to_hex_string buff)
  | _ => None
  end.

(** [Hash::shake128(data, size, outsizeBytes)] and [Hash::shake256]: the
    digest bytes go to a [std::string] of [outsizeBytes / 2] blanks, which
    is then printed. *)
Definition shake (rate capacity : Z) (data : list byte) (outsizeBytes : Z) : option string :=
  let buff := replicate (Z.to_nat (outsizeBytes / 2)) " "%byte in
  match Keccak.hash_private_keccak_Keccak rate capacity data "031"%byte
                                          (Z.to_nat (outsizeBytes / 2)) with
  | Keccak.Written output _ =>
      Some (hash_util_char_array_to_hex_string (memcpy buff 0 output))
  | Keccak.NothingWritten => Some (hash_util_char_array_to_hex_string buff)
  | Keccak.Diverges => None
  end.

Definition shake128 : list byte -> Z -> option string := shake 1344 256.
Definition shake256 : list byte -> Z -> option string := shake 1088 512.

End Sha3.

(** ** Text encoding (C++ interface, namespace [Hash::Encode]) *)

Module Encode.

(** [Iso88591ToUtf8]: [uint8_t ch = *it]; a character below 0x80 is pushed
    back as it is, another one as the two bytes [0xc0 | ch >> 6] and
    [0x80 | (ch & 0x3f)]. *)
Definition Iso88591ToUtf8 (str : list byte) : list byte :=
  fold_left (fun strOut it =>
               let ch := uint8_t (Z_of_byte it) in
               if ch <? 0x80 then strOut ++ [byte_of_Z ch]
               else (strOut ++ [byte_of_Z (Z.lor 0xC0 (Z.shiftr ch 6))])
                      ++ [byte_of_Z (Z.lor 0x80 (Z.land ch 0x3F))])
            str [].

End Encode.
(** * Definitions used to state the properties *)

(** Objects whose bytes are all zero, to run the engines on. *)
Definition zeroed_sha256 : Sha256.Hash_Private_Sha256 :=
  Sha256.mk 0 0 (replicate 8 0) (replicate 64 x00) 0.

Definition zeroed_sha512 : Sha512.Hash_Private_Sha512 :=
  Sha512.mk 0 0 (replicate 8 0) (replicate 128 x00) 0 0.

Definition zeroed_sha1 : Sha1.Hash_Private_Sha1 :=
  Sha1.mk 0 0 (replicate 64 x00) (replicate 5 0) 0.

Definition zeroed_md5 : MD5.Hash_Private_MD5 :=
  MD5.mk 0 (replicate 64 x00) (replicate 2 0) (replicate 4 0) (replicate 16 x00) 0.

(** The next value of [bufferSize] after one byte, for a block of [block]
    bytes (64 or 128). *)
Definition next_size (block size : Z) : Z :=
  if uint8_t (size + 1) =? block then 0 else uint8_t (size + 1).

(** ** Reachable engine states

    An engine lives in an object whose arrays have their declared sizes; it
    is initialised, then updated and finalized any number of times. *)

Inductive sha256_reachable : Sha256.Hash_Private_Sha256 -> Prop :=
| sha256_reach_init s :
    length (Sha256.buffer s) = 64%nat -> sha256_reachable (Sha256.hash_sha256_init s)
| sha224_reach_init s :
    length (Sha256.buffer s) = 64%nat -> sha256_reachable (Sha256.hash_sha224_init s)
| sha256_reach_update s data :
    sha256_reachable s -> sha256_reachable (Sha256.hash_sha256_update_binary s data)
| sha256_reach_finalize s :
    sha256_reachable s -> sha256_reachable (Sha256.hash_sha256_finalize s).

Inductive sha512_reachable : Sha512.Hash_Private_Sha512 -> Prop :=
| sha512_reach_init s :
    length (Sha512.buffer s) = 128%nat -> sha512_reachable (Sha512.hash_sha512_init s)
| sha384_reach_init s :
    length (Sha512.buffer s) = 128%nat -> sha512_reachable (Sha512.hash_sha384_init s)
| sha512t_reach_init ndebug s t s' :
    length (Sha512.buffer s) = 128%nat ->
    Sha512.hash_sha512t_init ndebug s t = Returned s' -> sha512_reachable s'
| sha512_reach_reset s :
    sha512_reachable s -> sha512_reachable (Sha512.hash_sha512_reset s)
| sha512_reach_update s data :
    sha512_reachable s -> sha512_reachable (Sha512.hash_sha512_update_binary s data)
| sha512_reach_finalize s :
    sha512_reachable s -> sha512_reachable (Sha512.hash_sha512_finalize s).

Inductive sha1_reachable : Sha1.Hash_Private_Sha1 -> Prop :=
| sha1_reach_init s :
    length (Sha1.buffer s) = 64%nat -> sha1_reachable (Sha1.hash_sha1_init s)
| sha1_reach_update s data :
    sha1_reachable s -> sha1_reachable (Sha1.hash_sha1_update_binary s data)
| sha1_reach_finalize s :
    sha1_reachable s -> sha1_reachable (Sha1.hash_sha1_finalize s).

Inductive md5_reachable : MD5.Hash_Private_MD5 -> Prop :=
| md5_reach_init m :
    length (MD5.buffer m) = 64%nat -> length (MD5.digest m) = 16%nat ->
    md5_reachable (MD5.hash_md5_init m)
| md5_reach_update m data m' :
    md5_reachable m -> MD5.hash_md5_update_binary m data = Some m' -> md5_reachable m'
| md5_reach_finalize m m' :
    md5_reachable m -> MD5.hash_md5_finalize m = Some m' -> md5_reachable m'.

(** The partial-buffer length of the MD5 engine: it keeps no [bufferSize]
    and computes the number of buffered bytes from the bit counter,
    [m->count[0] / 8 % 64]. *)
Definition md5_index (m : MD5.Hash_Private_MD5) : Z :=
  (MD5.count m !!! 0%nat / 8) mod 64.

(** The number of input bytes an update sees: the [size_t] length
    converted to [uint32_t]. *)
Definition md5_seen (input : list byte) : Z :=
  uint32_t (uint64_t (Z.of_nat (length input))).

(** Update calls one after the other, as long as each of them returns. *)
Fixpoint md5_updates (m : MD5.Hash_Private_MD5) (chunks : list (list byte))
  : option MD5.Hash_Private_MD5 :=
  match chunks with
  | [] => Some m
  | c :: chunks' =>
      match MD5.hash_md5_update_binary m c with
      | Some m' => md5_updates m' chunks'
      | None => None
      end
  end.

(** An MD5 engine that has been initialised and finalized once (the
    finalization returns, see [md5_finalized_once_eq]). *)
Definition md5_finalized_once : MD5.Hash_Private_MD5 :=
  match MD5.hash_md5_finalize (MD5.hash_md5_init zeroed_md5) with
  | Some m => m
  | None => zeroed_md5
  end.

(** An input of 4 GiB + 1 bytes: 2^32 zero bytes followed by the byte 1. *)
Definition four_GiB : nat := Z.to_nat (2 ^ 32).
Definition md5_big_zeros : list byte := replicate four_GiB x00.
Definition md5_big_input : list byte := md5_big_zeros ++ [x01].

(** The streaming use of an engine: init, one update per chunk, finalize,
    hexdigest. *)
Definition sha256_stream (s : Sha256.Hash_Private_Sha256) (chunks : list (list byte)) : string :=
  Sha256.hash_sha256_hexdigest
    (Sha256.hash_sha256_finalize
       (fold_left Sha256.hash_sha256_update_binary chunks (Sha256.hash_sha256_init s))).

Definition sha224_stream (s : Sha256.Hash_Private_Sha256) (chunks : list (list byte)) : string :=
  Sha256.hash_sha224_hexdigest
    (Sha256.hash_sha224_finalize
       (fold_left Sha256.hash_sha224_update_binary chunks (Sha256.hash_sha224_init s))).

Definition sha512_stream (s : Sha512.Hash_Private_Sha512) (chunks : list (list byte)) : string :=
  Sha512.hash_sha512_hexdigest
    (Sha512.hash_sha512_finalize
       (fold_left Sha512.hash_sha512_update_binary chunks (Sha512.hash_sha512_init s))).

Definition sha384_stream (s : Sha512.Hash_Private_Sha512) (chunks : list (list byte)) : string :=
  Sha512.hash_sha384_hexdigest
    (Sha512.hash_sha384_finalize
       (fold_left Sha512.hash_sha384_update_binary chunks (Sha512.hash_sha384_init s))).

Definition sha512t_stream (ndebug : bool) (s : Sha512.Hash_Private_Sha512) (t : Z)
  (chunks : list (list byte)) : outcome string :=
  match Sha512.hash_sha512t_init ndebug s t with
  | Returned s =>
      Returned (Sha512.hash_sha512t_hexdigest
                  (Sha512.hash_sha512t_finalize
                     (fold_left Sha512.hash_sha512t_update_binary chunks s)))
  | AssertionFailed msg => AssertionFailed msg
  | StaticAssertionFailed msg => StaticAssertionFailed msg
  | UndefinedBehaviour => UndefinedBehaviour
  end.

Definition sha1_stream (s : Sha1.Hash_Private_Sha1) (chunks : list (list byte)) : string :=
  Sha1.hash_sha1_hexdigest
    (Sha1.hash_sha1_finalize
       (fold_left Sha1.hash_sha1_update_binary chunks (Sha1.hash_sha1_init s))).

(** For MD5 the result is [None] when a call does not return. *)
Definition md5_stream (m : MD5.Hash_Private_MD5) (chunks : list (list byte))
  : option string :=
  match md5_updates (MD5.hash_md5_init m) chunks with
  | Some m =>
      match MD5.hash_md5_finalize m with
      | Some m => Some (fst (MD5.hash_md5_hexdigest m))
      | None => None
      end
  | None => None
  end.

(** A file system in which no file can be opened. *)
Definition missing_file : file_status := mk_file false 0 [] None.
Definition no_files : filesystem := fun _ => missing_file.

(** ** SHA-512/224 as FIPS 180-4 defines it

    The reference the SHA-512/t engine is compared with.  It is written
    from the standard, not from the source: the message is padded as a
    whole (section 5.1.2), parsed into 1024-bit blocks of sixteen 64-bit
    big-endian words (5.2.2), and each block is processed by the SHA-512
    hash computation (6.4.2) from the initial hash value of SHA-512/224
    (5.3.6.1); the digest is the left-most 224 bits of the final hash
    value (6.7). *)

Module FIPS180.

(** Operations on 64-bit words (sections 2.2.2 and 3.2). *)
Definition add (x y : Z) : Z := (x + y) mod 2 ^ 64.
Definition ROTR (n x : Z) : Z := Z.lor (Z.shiftr x n) (Z.shiftl x (64 - n) mod 2 ^ 64).
Definition SHR (n x : Z) : Z := Z.shiftr x n.
Definition complement (x : Z) : Z := Z.lxor x (2 ^ 64 - 1).

(** The six logical functions of SHA-384, SHA-512 and SHA-512/t (4.1.3). *)
Definition Ch (x y z : Z) : Z := Z.lxor (Z.land x y) (Z.land (complement x) z).
Definition Maj (x y z : Z) : Z := Z.lxor (Z.lxor (Z.land x y) (Z.land x z)) (Z.land y z).
Definition Sigma0 (x : Z) : Z := Z.lxor (Z.lxor (ROTR 28 x) (ROTR 34 x)) (ROTR 39 x).
Definition Sigma1 (x : Z) : Z := Z.lxor (Z.lxor (ROTR 14 x) (ROTR 18 x)) (ROTR 41 x).
Definition sigma0 (x : Z) : Z := Z.lxor (Z.lxor (ROTR 1 x) (ROTR 8 x)) (SHR 7 x).
Definition sigma1 (x : Z) : Z := Z.lxor (Z.lxor (ROTR 19 x) (ROTR 61 x)) (SHR 6 x).

(** The eighty constants of section 4.2.3 are the table [k] of the
    source. *)
Definition K : list Z := Sha512.k.

(** Initial hash value of SHA-512/224 (5.3.6.1). *)
Definition H0_512_224 : list Z :=
  [0x8C3D37C819544DA2; 0x73E1996689DCD4D6; 0x1DFAB7AE32FF9C82; 0x679DD514582F9FCF;
   0x0F6D2B697BD44DA8; 0x77E36F7304C48942; 0x3F9D85A86A1D36C8; 0x1112E6AD91D692A1].

(** Big-endian bytes of an integer, and the integer of big-endian bytes. *)
Definition be_bytes (n : nat) (v : Z) : list byte := rev (le_encode n v).
Definition be_value (bs : list byte) : Z := le_decode (rev bs).

(** Padding (5.1.2): the bit 1, then [k] zero bits with
    [l + 1 + k = 896 mod 1024], then the length [l] in 128 bits.  The bit 1
    and the first seven zero bits are the byte 0x80. *)
Definition zero_bits (l : Z) : Z := (896 - (l + 1)) mod 1024.

Definition pad (msg : list byte) : list byte :=
  let l := 8 * Z.of_nat (length msg) in
  msg ++ [x80] ++ replicate (Z.to_nat ((zero_bits l - 7) / 8)) x00 ++ be_bytes 16 l.

(** Parsing (5.2.2): the sixteen words of a block of 128 bytes. *)
Definition block_words (block : list byte) : list Z :=
  map (fun i => be_value (take 8 (drop (8 * i) block))) (seq 0 16).

(** The message schedule [W_0 .. W_(n-1)] (6.4.2, step 1). *)
Fixpoint schedule (M : list Z) (n : nat) : list Z :=
  match n with
  | O => []
  | S t =>
      let W := schedule M t in
      W ++ [if (t <? 16)%nat then M !!! t
            else add (add (add (sigma1 (W !!! (t - 2)%nat)) (W !!! (t - 7)%nat))
                          (sigma0 (W !!! (t - 15)%nat)))
                     (W !!! (t - 16)%nat)]
  end.

Definition vars : Type := (Z * Z * Z * Z * Z * Z * Z * Z)%type.

(** Step 3 for one [t]. *)
Definition step (W : list Z) (v : vars) (t : nat) : vars :=
  let '(a, b, c, d, e, f, g, h) := v in
  let T1 := add (add (add (add h (Sigma1 e)) (Ch e f g)) (K !!! t)) (W !!! t) in
  let T2 := add (Sigma0 a) (Maj a b c) in
  (add T1 T2, a, b, c, add d T1, e, f, g).

(** Steps 1 to 4 for one block [M] of sixteen words: the next hash value. *)
Definition hash_block (H : list Z) (M : list Z) : list Z :=
  let W := schedule M 80 in
  let '(a, b, c, d, e, f, g, h) :=
    fold_left (step W) (seq 0 80)
      (H !!! 0%nat, H !!! 1%nat, H !!! 2%nat, H !!! 3%nat,
       H !!! 4%nat, H !!! 5%nat, H !!! 6%nat, H !!! 7%nat) in
  [add a (H !!! 0%nat); add b (H !!! 1%nat); add c (H !!! 2%nat); add d (H !!! 3%nat);
   add e (H !!! 4%nat); add f (H !!! 5%nat); add g (H !!! 6%nat); add h (H !!! 7%nat)].

(** The first [N] blocks of [bytes], processed in order from [H]. *)
Fixpoint hash_blocks (N : nat) (H : list Z) (bytes : list byte) : list Z :=
  match N with
  | O => H
  | S N' => hash_blocks N' (hash_block H (block_words (take 128 bytes))) (drop 128 bytes)
  end.

(** The final hash value of the padded message. *)
Definition final_hash (H0 : list Z) (msg : list byte) : list Z :=
  hash_blocks (length (pad msg) / 128) H0 (pad msg).

(** SHA-512/224: the left-most 224 bits (28 bytes) of the final hash value
    [H_0 || ... || H_7]. *)
Definition sha512_224 (msg : list byte) : list byte :=
  take 28 (concat (map (be_bytes 8) (final_hash H0_512_224 msg))).

(** SHA-512/256: initial hash value of 5.3.6.2, left-most 256 bits. *)
Definition H0_512_256 : list Z :=
  [0x22312194FC2BF72C; 0x9F555FA3C84C64C2; 0x2393B86B6F53B151; 0x963877195940EABD;
   0x96283EE2A88EFFE3; 0xBE5E1E2553863992; 0x2B0199FC2C85B8AA; 0x0EB72DDC81C52CA2].

Definition sha512_256 (msg : list byte) : list byte :=
  take 32 (concat (map (be_bytes 8) (final_hash H0_512_256 msg))).

(** SHA-512: the whole final hash value from the initial value of 5.3.5
    (the one [hash_sha512_init] stores). *)
Definition H0_512 : list Z :=
  [0x6A09E667F3BCC908; 0xBB67AE8584CAA73B; 0x3C6EF372FE94F82B; 0xA54FF53A5F1D36F1;
   0x510E527FADE682D1; 0x9B05688C2B3E6C1F; 0x1F83D9ABFB41BD6B; 0x5BE0CD19137E2179].

Definition sha512 (msg : list byte) : list byte :=
  concat (map (be_bytes 8) (final_hash H0_512 msg)).

End FIPS180.

(** The bytes an SHA-512 engine has buffered, and the typing invariant of
    its arrays and of [bufferSize]. *)
Definition sha512_pending (s : Sha512.Hash_Private_Sha512) : list byte :=
  take (Z.to_nat (Sha512.bufferSize s)) (Sha512.buffer s).

Definition sha512_wf (s : Sha512.Hash_Private_Sha512) : Prop :=
  0 <= Sha512.bufferSize s < 128 /\
  length (Sha512.buffer s) = 128%nat /\
  length (Sha512.h s) = 8%nat /\
  0 <= Sha512.bitlen s < 2 ^ 64.


(** The bit count that the finalization stores in the last eight bytes of
    the last block, and what it appends to the buffered bytes: the byte
    0x80, zeros up to byte 120 of the last block, the bit count. *)
Definition sha512_final_bits (s : Sha512.Hash_Private_Sha512) : Z :=
  uint64_t (Sha512.bitlen s + Sha512.bufferSize s * 8).

Definition sha512_final_blocks (r : nat) : nat := if (r <? 112)%nat then 1%nat else 2%nat.

Definition sha512_tail (r : nat) (bits : Z) : list byte :=
  [x80] ++ replicate (128 * sha512_final_blocks r - 9 - r) x00 ++ FIPS180.be_bytes 8 bits.

(** The 128 digits that [hash_sha512_hexdigest] prints, as a function of
    the chaining value alone. *)
Definition sha512_hex_words (hs : list Z) : string :=
  concat_strings (map (fun i => sprintf_0x 16 (hs !!! i)) (seq 0 8)).

Definition abc : list byte := list_byte_of_string "abc".

(** ** Hash functions on 512-bit blocks: the common frame

    Padding and block iteration as FIPS 180-4 (5.1.1, 5.2.1, 6.1.2, 6.2.2)
    and RFC 1321 (3.1 to 3.4) define them: the bit 1, zero bits up to 448
    modulo 512, the length in 64 bits; then one block function applied to
    the blocks of 64 bytes in order. *)

Module Block512.

Definition zero_bits (l : Z) : Z := (448 - (l + 1)) mod 512.

(** [len_bytes] gives the eight bytes of the length: most significant
    byte first for SHA-1 and SHA-2, least significant first for MD5. *)
Definition pad (len_bytes : Z -> list byte) (msg : list byte) : list byte :=
  let l := 8 * Z.of_nat (length msg) in
  msg ++ [x80] ++ replicate (Z.to_nat ((zero_bits l - 7) / 8)) x00 ++ len_bytes l.

(** The first [N] blocks of [bytes], processed in order from [H] by the
    block function [f]. *)
Fixpoint hash_blocks (f : list Z -> list byte -> list Z) (N : nat) (H : list Z)
  (bytes : list byte) : list Z :=
  match N with
  | O => H
  | S N' => hash_blocks f N' (f H (take 64 bytes)) (drop 64 bytes)
  end.

Definition final_hash (f : list Z -> list byte -> list Z) (len_bytes : Z -> list byte)
  (H0 : list Z) (msg : list byte) : list Z :=
  hash_blocks f (length (pad len_bytes msg) / 64) H0 (pad len_bytes msg).

End Block512.

(** ** FIPS 180-4 on 32-bit words: SHA-1, SHA-224 and SHA-256 *)

Module FIPS180_32.

Definition add (x y : Z) : Z := (x + y) mod 2 ^ 32.
Definition ROTR (n x : Z) : Z := Z.lor (Z.shiftr x n) (Z.shiftl x (32 - n) mod 2 ^ 32).
Definition ROTL (n x : Z) : Z := Z.lor (Z.shiftl x n mod 2 ^ 32) (Z.shiftr x (32 - n)).
Definition SHR (n x : Z) : Z := Z.shiftr x n.
Definition complement (x : Z) : Z := Z.lxor x (2 ^ 32 - 1).

(** Functions of 4.1.1 and 4.1.2. *)
Definition Ch (x y z : Z) : Z := Z.lxor (Z.land x y) (Z.land (complement x) z).
Definition Parity (x y z : Z) : Z := Z.lxor (Z.lxor x y) z.
Definition Maj (x y z : Z) : Z := Z.lxor (Z.lxor (Z.land x y) (Z.land x z)) (Z.land y z).
Definition Sigma0 (x : Z) : Z := Z.lxor (Z.lxor (ROTR 2 x) (ROTR 13 x)) (ROTR 22 x).
Definition Sigma1 (x : Z) : Z := Z.lxor (Z.lxor (ROTR 6 x) (ROTR 11 x)) (ROTR 25 x).
Definition sigma0 (x : Z) : Z := Z.lxor (Z.lxor (ROTR 7 x) (ROTR 18 x)) (SHR 3 x).
Definition sigma1 (x : Z) : Z := Z.lxor (Z.lxor (ROTR 17 x) (ROTR 19 x)) (SHR 10 x).

(** Parsing (5.2.1): the sixteen 32-bit words of a block of 64 bytes. *)
Definition block_words (block : list byte) : list Z :=
  map (fun i => FIPS180.be_value (take 4 (drop (4 * i) block))) (seq 0 16).

(** The length of the message in 64 bits (5.1.1). *)
Definition length_bytes : Z -> list byte := FIPS180.be_bytes 8.

(** *** SHA-256 and SHA-224 (6.2, 6.3) *)

(** The sixty-four constants of 4.2.2 are the table [k] of the source. *)
Definition K256 : list Z := Sha256.k.

Definition H0_256 : list Z :=
  [0x6A09E667; 0xBB67AE85; 0x3C6EF372; 0xA54FF53A;
   0x510E527F; 0x9B05688C; 0x1F83D9AB; 0x5BE0CD19].

Definition H0_224 : list Z :=
  [0xC1059ED8; 0x367CD507; 0x3070DD17; 0xF70E5939;
   0xFFC00B31; 0x68581511; 0x64F98FA7; 0xBEFA4FA4].

Fixpoint schedule256 (M : list Z) (n : nat) : list Z :=
  match n with
  | O => []
  | S t =>
      let W := schedule256 M t in
      W ++ [if (t <? 16)%nat then M !!! t
            else add (add (add (sigma1 (W !!! (t - 2)%nat)) (W !!! (t - 7)%nat))
                          (sigma0 (W !!! (t - 15)%nat)))
                     (W !!! (t - 16)%nat)]
  end.

Definition vars256 : Type := (Z * Z * Z * Z * Z * Z * Z * Z)%type.

Definition step256 (W : list Z) (v : vars256) (t : nat) : vars256 :=
  let '(a, b, c, d, e, f, g, h) := v in
  let T1 := add (add (add (add h (Sigma1 e)) (Ch e f g)) (K256 !!! t)) (W !!! t) in
  let T2 := add (Sigma0 a) (Maj a b c) in
  (add T1 T2, a, b, c, add d T1, e, f, g).

Definition hash_block256 (H : list Z) (M : list Z) : list Z :=
  let W := schedule256 M 64 in
  let '(a, b, c, d, e, f, g, h) :=
    fold_left (step256 W) (seq 0 64)
      (H !!! 0%nat, H !!! 1%nat, H !!! 2%nat, H !!! 3%nat,
       H !!! 4%nat, H !!! 5%nat, H !!! 6%nat, H !!! 7%nat) in
  [add a (H !!! 0%nat); add b (H !!! 1%nat); add c (H !!! 2%nat); add d (H !!! 3%nat);
   add e (H !!! 4%nat); add f (H !!! 5%nat); add g (H !!! 6%nat); add h (H !!! 7%nat)].

Definition block256 (H : list Z) (block : list byte) : list Z :=
  hash_block256 H (block_words block).

Definition sha256 (msg : list byte) : list byte :=
  concat (map (FIPS180.be_bytes 4) (Block512.final_hash block256 length_bytes H0_256 msg)).

(** SHA-224: the left-most 224 bits of the final hash value. *)
Definition sha224 (msg : list byte) : list byte :=
  take 28 (concat (map (FIPS180.be_bytes 4)
                       (Block512.final_hash block256 length_bytes H0_224 msg))).

(** *** SHA-1 (6.1) *)

Definition f1 (t : nat) (x y z : Z) : Z :=
  if (t <? 20)%nat then Ch x y z
  else if (t <? 40)%nat then Parity x y z
  else if (t <? 60)%nat then Maj x y z
  else Parity x y z.

Definition K1 (t : nat) : Z :=
  if (t <? 20)%nat then 0x5A827999
  else if (t <? 40)%nat then 0x6ED9EBA1
  else if (t <? 60)%nat then 0x8F1BBCDC
  else 0xCA62C1D6.

Definition H0_1 : list Z :=
  [0x67452301; 0xEFCDAB89; 0x98BADCFE; 0x10325476; 0xC3D2E1F0].

Fixpoint schedule1 (M : list Z) (n : nat) : list Z :=
  match n with
  | O => []
  | S t =>
      let W := schedule1 M t in
      W ++ [if (t <? 16)%nat then M !!! t
            else ROTL 1 (Z.lxor (Z.lxor (Z.lxor (W !!! (t - 3)%nat) (W !!! (t - 8)%nat))
                                        (W !!! (t - 14)%nat))
                                (W !!! (t - 16)%nat))]
  end.

Definition vars1 : Type := (Z * Z * Z * Z * Z)%type.

Definition step1 (W : list Z) (v : vars1) (t : nat) : vars1 :=
  let '(a, b, c, d, e) := v in
  let T := add (add (add (add (ROTL 5 a) (f1 t b c d)) e) (K1 t)) (W !!! t) in
  (T, a, ROTL 30 b, c, d).

Definition hash_block1 (H : list Z) (M : list Z) : list Z :=
  let W := schedule1 M 80 in
  let '(a, b, c, d, e) :=
    fold_left (step1 W) (seq 0 80)
      (H !!! 0%nat, H !!! 1%nat, H !!! 2%nat, H !!! 3%nat, H !!! 4%nat) in
  [add a (H !!! 0%nat); add b (H !!! 1%nat); add c (H !!! 2%nat); add d (H !!! 3%nat);
   add e (H !!! 4%nat)].

Definition block1 (H : list Z) (block : list byte) : list Z :=
  hash_block1 H (block_words block).

Definition sha1 (msg : list byte) : list byte :=
  concat (map (FIPS180.be_bytes 4) (Block512.final_hash block1 length_bytes H0_1 msg)).

End FIPS180_32.

(** SHA-384 (FIPS 180-4, 5.3.4 and 6.5): the left-most 384 bits of the
    final hash value computed as for SHA-512 from its own initial value. *)
Definition H0_384 : list Z :=
  [0xCBBB9D5DC1059ED8; 0x629A292A367CD507; 0x9159015A3070DD17; 0x152FECD8F70E5939;
   0x67332667FFC00B31; 0x8EB44A8768581511; 0xDB0C2E0D64F98FA7; 0x47B5481DBEFA4FA4].

Definition fips_sha384 (msg : list byte) : list byte :=
  take 48 (concat (map (FIPS180.be_bytes 8) (FIPS180.final_hash H0_384 msg))).

(** ** Engines on 64-byte blocks: what is buffered, and the typing
    invariant, over the fields of any of the structs *)

Definition pending64 {St : Type} (bufferSize : St -> Z) (buffer : St -> list byte) (s : St)
  : list byte :=
  take (Z.to_nat (bufferSize s)) (buffer s).

Definition wf64 {St : Type} (bitlen bufferSize : St -> Z) (buffer : St -> list byte)
  (h : St -> list Z) (ok : list Z -> Prop) (s : St) : Prop :=
  0 <= bufferSize s < 64 /\ length (buffer s) = 64%nat /\ ok (h s) /\
  0 <= bitlen s < 2 ^ 64.

(** What the finalization appends to the buffered bytes. *)
Definition final_blocks64 (r : nat) : nat := if (r <? 56)%nat then 1%nat else 2%nat.

Definition tail64 (len_bytes : Z -> list byte) (r : nat) (bits : Z) : list byte :=
  [x80] ++ replicate (64 * final_blocks64 r - 9 - r) x00 ++ len_bytes bits.

(** Words of 32 bits. *)
Definition words32 (n : nat) (hs : list Z) : Prop :=
  length hs = n /\ Forall (fun x => 0 <= x < 2 ^ 32) hs.

(** ** SHA-512/t for any t (FIPS 180-4, 5.3.6)

    The IV generation function: SHA-512 run from the initial value of
    SHA-512 with every word xored with a5a5a5a5a5a5a5a5, on the ASCII
    string "SHA-512/t" with [t] in decimal; the final hash value is the
    initial value of SHA-512/t. *)
Definition fips_sha512t_seed : list Z :=
  map (fun x => Z.lxor x 0xA5A5A5A5A5A5A5A5) FIPS180.H0_512.

Definition fips_sha512t_iv (t : Z) : list Z :=
  FIPS180.final_hash fips_sha512t_seed (list_byte_of_string "SHA-512/" ++ to_decimal t).

(** The 64 bytes of the final hash value; SHA-512/t keeps the left-most
    [t] bits of them. *)
Definition fips_sha512t_bytes (t : Z) (msg : list byte) : list byte :=
  concat (map (FIPS180.be_bytes 8) (FIPS180.final_hash (fips_sha512t_iv t) msg)).

Definition words64 (n : nat) (hs : list Z) : Prop :=
  length hs = n /\ Forall (fun x => 0 <= x < 2 ^ 64) hs.

(** ** MD5: the frame of RFC 1321 around the block transform

    Steps 1 to 3 and 5 of RFC 1321 (padding to 448 modulo 512, the length
    in 64 bits low-order byte first, the initial buffer, the output low-order
    byte first), with step 4 performed on each block of 64 bytes by the
    transform of the source. *)
Definition md5_initial_state : list Z :=
  [0x67452301; 0xEFCDAB89; 0x98BADCFE; 0x10325476].

Definition md5_by_blocks (msg : list byte) : list byte :=
  concat (map (le_encode 4)
              (Block512.final_hash MD5.transform_words (le_encode 8) md5_initial_state msg)).

(** The bytes an MD5 engine has buffered, its bit counter as one number,
    and the typing invariant of its arrays. *)
Definition md5_pending (m : MD5.Hash_Private_MD5) : list byte :=
  take (Z.to_nat (md5_index m)) (MD5.buffer m).

Definition md5_bits (m : MD5.Hash_Private_MD5) : Z :=
  MD5.count m !!! 0%nat + 2 ^ 32 * MD5.count m !!! 1%nat.

Definition md5_wf (m : MD5.Hash_Private_MD5) : Prop :=
  length (MD5.buffer m) = 64%nat /\ length (MD5.state m) = 4%nat /\
  exists c0 c1, MD5.count m = [c0; c1] /\ 0 <= c0 < 2 ^ 32 /\ 0 <= c1 < 2 ^ 32.

(** The bit counter after an update: [count[0] += s << 3] with its carry
    into [count[1]], then [count[1] += s >> 29]. *)
Definition md5_count_after (m : MD5.Hash_Private_MD5) (input : list byte) : list Z :=
  let s := md5_seen input in
  let c0 := uint32_t (MD5.count m !!! 0%nat + uint32_t (Z.shiftl s 3)) in
  let cnt := <[0%nat := c0]> (MD5.count m) in
  let cnt := if c0 <? uint32_t (Z.shiftl s 3)
             then <[1%nat := uint32_t (cnt !!! 1%nat + 1)]> cnt else cnt in
  <[1%nat := uint32_t (cnt !!! 1%nat + Z.shiftr s 29)]> cnt.

(** The engine of an update that fills the buffer, after its first
    transform: the counter is updated, the buffer is completed with the
    first bytes of the input and goes through the transform. *)
Definition md5_first_block (m : MD5.Hash_Private_MD5) (input : list byte)
  : MD5.Hash_Private_MD5 :=
  let buf := memcpy (MD5.buffer m) (Z.to_nat (md5_index m))
                    (take (Z.to_nat (64 - md5_index m)) input) in
  MD5.hash_private_md5_transform
    (MD5.mk (MD5.finalized m) buf (md5_count_after m input) (MD5.state m) (MD5.digest m)
            (MD5.transforms m))
    buf.

(** The sizes an MD5 update handles: the length fits [uint32_t] and the
    loop counter [i + 64] does not wrap around. *)
Definition md5_size_ok (input : list byte) : Prop :=
  Z.of_nat (length input) + 64 < 2 ^ 32.

(** ** Files

    A file system in which every path names a file of three bytes, "abc",
    whose read stops after two bytes; [malloc] returns a block of three
    bytes 0xFF. *)
Definition short_read_files : filesystem :=
  fun _ => mk_file true 3 (take 2 abc) (Some (replicate 3 xff)).

(** ** FIPS 202: KECCAK-p[1600, 24], the sponge construction, SHA-3 and SHAKE

    The state is a string S of 1600 bits, here 200 bytes: bit i of the
    string is the bit of weight 2^(i mod 8) of byte i / 8 (B.1).  The state
    array A[x, y, z] = S[64 (5 y + x) + z] (3.1.2) is a list of 25 lanes,
    lane (x, y) at index x + 5 y, each lane the 64-bit number whose bit of
    weight 2^z is A[x, y, z]. *)

Module FIPS202.

Definition lanes (S : list byte) : list Z :=
  map (fun i => le_decode (take 8 (drop (8 * i) S))) (seq 0 25).

Definition bytes (A : list Z) : list byte := concat (map (le_encode 8) A).

Definition lane (A : list Z) (x y : nat) : Z := A !!! (x + 5 * y)%nat.

Definition of_lanes (f : nat -> nat -> Z) : list Z :=
  map (fun i => f (i mod 5)%nat (i / 5)%nat) (seq 0 25).

(** Bit z of [rot a n] is bit (z - n) mod 64 of [a]. *)
Definition rot (a n : Z) : Z := Z.lor (Z.shiftl a n mod 2 ^ 64) (Z.shiftr a (64 - n)).

(** 3.2.1 *)
Definition theta (A : list Z) : list Z :=
  let C x := Z.lxor (Z.lxor (Z.lxor (Z.lxor (lane A x 0) (lane A x 1)) (lane A x 2))
                            (lane A x 3)) (lane A x 4) in
  let D x := Z.lxor (C ((x + 4) mod 5)%nat) (rot (C ((x + 1) mod 5)%nat) 1) in
  of_lanes (fun x y => Z.lxor (lane A x y) (D x)).

(** 3.2.2, Table 2: the offsets modulo 64, one row for each y, x from 0
    to 4. *)
Definition rho_offsets : list Z :=
  [ 0;  1; 62; 28; 27;
   36; 44;  6; 55; 20;
    3; 10; 43; 25; 39;
   41; 45; 15; 21;  8;
   18;  2; 61; 56; 14].

Definition rho (A : list Z) : list Z :=
  of_lanes (fun x y => rot (lane A x y) (rho_offsets !!! (x + 5 * y)%nat)).

(** 3.2.3: A'[x, y] = A[(x + 3 y) mod 5, x]. *)
Definition pi (A : list Z) : list Z :=
  of_lanes (fun x y => lane A ((x + 3 * y) mod 5)%nat x).

(** 3.2.4 *)
Definition chi (A : list Z) : list Z :=
  of_lanes (fun x y =>
              Z.lxor (lane A x y)
                     (Z.land (Z.lxor (lane A ((x + 1) mod 5)%nat y) (2 ^ 64 - 1))
                             (lane A ((x + 2) mod 5)%nat y))).

(** 3.2.5: the round constants. *)
Definition RC : list Z :=
  [0x0000000000000001; 0x0000000000008082; 0x800000000000808A; 0x8000000080008000;
   0x000000000000808B; 0x0000000080000001; 0x8000000080008081; 0x8000000000008009;
   0x000000000000008A; 0x0000000000000088; 0x0000000080008009; 0x000000008000000A;
   0x000000008000808B; 0x800000000000008B; 0x8000000000008089; 0x8000000000008003;
   0x8000000000008002; 0x8000000000000080; 0x000000000000800A; 0x800000008000000A;
   0x8000000080008081; 0x8000000000008080; 0x0000000080000001; 0x8000000080008008].

Definition iota (ir : nat) (A : list Z) : list Z :=
  <[0%nat := Z.lxor (lane A 0 0) (RC !!! ir)]> A.

(** 3.3 and 3.4: Rnd(A, ir) and KECCAK-p[1600, 24] = KECCAK-f[1600]. *)
Definition Rnd (A : list Z) (ir : nat) : list Z := iota ir (chi (pi (rho (theta A)))).

Definition Keccak_p (S : list byte) : list byte :=
  bytes (fold_left Rnd (seq 0 24) (lanes S)).

(** S xor (P || 0^c) for a block P of at most 200 bytes. *)
Definition xor_block (S P : list byte) : list byte :=
  zip_with Keccak.byte_xor S (P ++ replicate (length S - length P) x00).

(** What is appended to a message of m bytes for a rate of r bytes (5.1
    and B.2): [d] is the byte that holds the suffix bits of the function
    followed by the first bit 1 of pad10*1 (0x06 for SHA-3, 0x1F for
    SHAKE); the last bit of the padding is the bit of weight 128 of the
    last byte of the block. *)
Definition pad (r : nat) (d : byte) (m : nat) : list byte :=
  let q := (r - m mod r)%nat in
  if (q =? 1)%nat then [byte_of_Z (Z.lor (Z_of_byte d) 0x80)]
  else d :: replicate (q - 2) x00 ++ [x80].

(** Algorithm 8, SPONGE[f, pad, r](N, d), on bytes: the first [n] blocks of
    [P] are absorbed, then blocks of [r] bytes are squeezed. *)
Fixpoint absorb (r n : nat) (S P : list byte) : list byte :=
  match n with
  | O => S
  | Datatypes.S n' => absorb r n' (Keccak_p (xor_block S (take r P))) (drop r P)
  end.

Fixpoint squeeze (r n : nat) (S : list byte) : list byte :=
  take r S ++ match n with
              | O => []
              | Datatypes.S n' => squeeze r n' (Keccak_p S)
              end.

Definition sponge (r : nat) (d : byte) (N : list byte) (len : nat) : list byte :=
  let P := N ++ pad r d (length N) in
  let S := absorb r (length P / r) (replicate 200 x00) P in
  take len (squeeze r (len / r) S).

(** 6.1 and 6.2: KECCAK[c] has the rate 1600 - c. *)
Definition SHA3_224 (M : list byte) : list byte := sponge 144 "006"%byte M 28.
Definition SHA3_256 (M : list byte) : list byte := sponge 136 "006"%byte M 32.
Definition SHA3_384 (M : list byte) : list byte := sponge 104 "006"%byte M 48.
Definition SHA3_512 (M : list byte) : list byte := sponge 72 "006"%byte M 64.
Definition SHAKE128 (M : list byte) (len : nat) : list byte := sponge 168 "031"%byte M len.
Definition SHAKE256 (M : list byte) (len : nat) : list byte := sponge 136 "031"%byte M len.

End FIPS202.

(** The state [S] with the byte [v] XORed into its byte [i]. *)
Definition xor_into (S : list byte) (i : nat) (v : byte) : list byte :=
  <[i := byte_of_Z (Z.lxor (Z_of_byte (S !!! i)) (Z_of_byte v))]> S.

(** ** The permutation of the source, lane by lane

    The loops of [hash_private_keccak_KeccakF1600_StatePermute] on the 25
    lanes instead of the 200 bytes: a lane is read with [READ] and stored
    with [WRITE], the rotation is [FIPS202.rot], and the bits of a round
    constant are gathered before they are XORed into lane (0, 0). *)

Module KeccakLanes.

Definition READ (A : list Z) (x y : nat) : Z := A !!! (Keccak.HASH_PRIVATE_KECCAK_I x y).

Definition WRITE (A : list Z) (x y : nat) (v : Z) : list Z :=
  <[Keccak.HASH_PRIVATE_KECCAK_I x y := v]> A.

Definition theta (A : list Z) : list Z :=
  let C := map (fun x => Z.lxor (Z.lxor (Z.lxor (Z.lxor (READ A x 0) (READ A x 1))
                                                (READ A x 2)) (READ A x 3)) (READ A x 4))
               (seq 0 5) in
  fold_left (fun A x =>
               let D := Z.lxor (C !!! ((x + 4) mod 5)%nat)
                               (FIPS202.rot (C !!! ((x + 1) mod 5)%nat) 1) in
               fold_left (fun A y => WRITE A x y (Z.lxor (READ A x y) D)) (seq 0 5) A)
            (seq 0 5) A.

Definition rho_pi (A : list Z) : list Z :=
  let step (acc : list Z * nat * nat * Z) (t : nat) :=
    let '(A, x, y, current) := acc in
    let r := Z.of_nat (((t + 1) * (t + 2) / 2) mod 64) in
    let Y := ((2 * x + 3 * y) mod 5)%nat in
    let x := y in
    let y := Y in
    let temp := READ A x y in
    (WRITE A x y (FIPS202.rot current r), x, y, temp) in
  let '(A, _, _, _) := fold_left step (seq 0 24) (A, 1%nat, 0%nat, READ A 1 0) in
  A.

Definition chi (A : list Z) : list Z :=
  fold_left (fun A y =>
               let temp := map (fun x => READ A x y) (seq 0 5) in
               fold_left (fun A x =>
                            WRITE A x y
                              (Z.lxor (temp !!! x)
                                 (Z.land (not64 (temp !!! ((x + 1) mod 5)%nat))
                                         (temp !!! ((x + 2) mod 5)%nat))))
                         (seq 0 5) A)
            (seq 0 5) A.

(** The bits the seven steps of the LFSR select, and the LFSR after them. *)
Definition round_constant (LFSRstate : Z) : Z * Z :=
  fold_left (fun (acc : Z * Z) j =>
               let '(rc, LFSRstate) := acc in
               let bitPosition := Z.shiftl 1 (Z.of_nat j) - 1 in
               let '(bit, LFSRstate) := Keccak.hash_private_keccak_LFSR86540 LFSRstate in
               if bit then (Z.lxor rc (Z.shiftl 1 bitPosition), LFSRstate)
               else (rc, LFSRstate))
            (seq 0 7) (0, LFSRstate).

Definition iota (acc : list Z * Z) : list Z * Z :=
  let '(A, LFSRstate) := acc in
  let '(rc, LFSRstate) := round_constant LFSRstate in
  (WRITE A 0 0 (Z.lxor (READ A 0 0) rc), LFSRstate).

Definition KeccakF1600 (A : list Z) : list Z :=
  fst (fold_left (fun (acc : list Z * Z) (round : nat) =>
                    let '(A, LFSRstate) := acc in
                    iota (chi (rho_pi (theta A)), LFSRstate))
                 (seq 0 24) (A, 0x01)).

(** The LFSR at the start of round [i]. *)
Definition lfsr_at (i : nat) : Z := Nat.iter i (fun l => snd (round_constant l)) 0x01.

(** The lanes [A] are those of the 200 bytes [S]. *)
Definition sim (S : list byte) (A : list Z) : Prop :=
  length S = 200%nat /\ FIPS202.lanes S = A.

End KeccakLanes.

(** ** UTF-8 (RFC 3629)

    The code points a string of bytes encodes, [None] when it is not
    well-formed UTF-8: sequences of one to four bytes, no overlong form, no
    surrogate, nothing above U+10FFFF. *)

Module UTF8.

Definition continuation (x : Z) : bool := (0x80 <=? x) && (x <=? 0xBF).

Definition surrogate (cp : Z) : bool := (0xD800 <=? cp) && (cp <=? 0xDFFF).

Fixpoint decode (bs : list byte) : option (list Z) :=
  match bs with
  | [] => Some []
  | b0 :: r0 =>
      let x0 := Z_of_byte b0 in
      if x0 <? 0x80 then option_map (cons x0) (decode r0)
      else
        match r0 with
        | [] => None
        | b1 :: r1 =>
            let x1 := Z_of_byte b1 in
            if negb (continuation x1) then None
            else if (0xC0 <=? x0) && (x0 <? 0xE0) then
              let cp := (x0 - 0xC0) * 64 + (x1 - 0x80) in
              if 0x80 <=? cp then option_map (cons cp) (decode r1) else None
            else
              match r1 with
              | [] => None
              | b2 :: r2 =>
                  let x2 := Z_of_byte b2 in
                  if negb (continuation x2) then None
                  else if (0xE0 <=? x0) && (x0 <? 0xF0) then
                    let cp := (x0 - 0xE0) * 4096 + (x1 - 0x80) * 64 + (x2 - 0x80) in
                    if (0x800 <=? cp) && negb (surrogate cp)
                    then option_map (cons cp) (decode r2) else None
                  else
                    match r2 with
                    | [] => None
                    | b3 :: r3 =>
                        let x3 := Z_of_byte b3 in
                        if negb (continuation x3) then None
                        else if (0xF0 <=? x0) && (x0 <? 0xF8) then
                          let cp := (x0 - 0xF0) * 262144 + (x1 - 0x80) * 4096
                                    + (x2 - 0x80) * 64 + (x3 - 0x80) in
                          if (0x10000 <=? cp) && (cp <=? 0x10FFFF)
                          then option_map (cons cp) (decode r3) else None
                        else None
                    end
              end
        end
  end.

End UTF8.

(** The number of bytes of a string that are not ASCII. *)
Definition non_ascii (str : list byte) : nat :=
  length (List.filter (fun b => 0x80 <=? Z_of_byte b) str).
(** * Properties *)

(** ** Known-answer tests of the embedding *)

Example sha256_abc_zeroed :
  Sha256.hash_sha256_binary zeroed_sha256 (list_byte_of_string "abc")
  = "ba7816bf8f01cfea414140de5dae2223b00361a396177a9cb410ff61f20015ad"%string.
Proof. vm_compute. reflexivity. Qed.

Example sha512_abc_zeroed :
  Sha512.hash_sha512_binary zeroed_sha512 (list_byte_of_string "abc")
  = "ddaf35a193617abacc417349ae20413112e6fa4e89a97ea20a9eeee64b55d39a2192992a274fc1a836ba3c23a3feebbd454d4423643ce80e2a9ac94fa54ca49f"%string.
Proof. vm_compute. reflexivity. Qed.

Example sha512_224_abc_zeroed :
  Sha512.hash_sha512t_binary false zeroed_sha512 224 (list_byte_of_string "abc")
  = Returned "4634270f707b6a54daae7530460842e20e37ed265ceee9a43e8924aa"%string.
Proof. vm_compute. reflexivity. Qed.

Example sha512_256_abc_zeroed :
  Sha512.hash_sha512t_binary false zeroed_sha512 256 (list_byte_of_string "abc")
  = Returned "53048e2681941ef99b2e29b76b4c7dabe4c2d0c634fc6d46e0e2f13107e7af23"%string.
Proof. vm_compute. reflexivity. Qed.

Example sha384_abc_zeroed :
  Sha512.hash_sha384_binary zeroed_sha512 (list_byte_of_string "abc")
  = "cb00753f45a35e8bb5a03d699ac65007272c32ab0eded1631a8b605a43ff5bed8086072ba1e7cc2358baeca134c825a7"%string.
Proof. vm_compute. reflexivity. Qed.

Example sha224_abc_zeroed :
  Sha256.hash_sha224_binary zeroed_sha256 (list_byte_of_string "abc")
  = "23097d223405d8228642a477bda255b32aadbce4bda0b3f7e36c9da7"%string.
Proof. vm_compute. reflexivity. Qed.

Example sha1_abc_zeroed :
  Sha1.hash_sha1_binary zeroed_sha1 (list_byte_of_string "abc")
  = "a9993e364706816aba3e25717850c26c9cd0d89d"%string.
Proof. vm_compute. reflexivity. Qed.

Example md5_empty_zeroed :
  MD5.hash_md5_binary zeroed_md5 [] = Some "d41d8cd98f00b204e9800998ecf8427e"%string.
Proof. vm_compute. reflexivity. Qed.

Example md5_abc_zeroed :
  MD5.hash_md5_binary zeroed_md5 (list_byte_of_string "abc")
  = Some "900150983cd24fb0d6963f7d28e17f72"%string.
Proof. vm_compute. reflexivity. Qed.

Example md5_long_zeroed :
  MD5.hash_md5_binary zeroed_md5 (list_byte_of_string
    "12345678901234567890123456789012345678901234567890123456789012345678901234567890")
  = Some "57edf4a22be3c955ac49da2e2107b67a"%string.
Proof. vm_compute. reflexivity. Qed.

Example sha3_256_abc :
  Keccak.hash_sha3_256_binary (list_byte_of_string "abc")
  = Some "3a985da74fe225b2045c172d6bd390bd855f086e3e9d525b46bfe24511431532"%string.
Proof. vm_compute. reflexivity. Qed.

Example shake128_empty_32 :
  Keccak.hash_shake128_binary true [] 64 false
  = Returned "7f9c2ba4e88f827d616045507605853ed73b8093f6efbc88eb1a6eacfa66ef26"%string.
Proof. vm_compute. reflexivity. Qed.

(** ** Arrays of known length *)

(** A list of length [n] is an explicit list of [n] elements; used to run
    an engine on a buffer whose contents are indeterminate. *)
Ltac explode_list l :=
  repeat (destruct l as [| ? l]; [ exfalso; cbn [length] in *; lia | ]);
  destruct l as [| ? l]; [ | exfalso; cbn [length] in *; lia ].

(** C1. For the three ASCII bytes "abc", [hash_sha256_binary] (init,
    update with the whole input, finalize, hexdigest) returns the 64
    lowercase hexadecimal characters
    ba7816bf8f01cfea414140de5dae2223b00361a396177a9cb410ff61f20015ad,
    whatever the automatic variable [s] holds at entry. *)
Theorem sha256_abc (s : Sha256.Hash_Private_Sha256) :
  length (Sha256.buffer s) = 64%nat ->
  Sha256.hash_sha256_binary s (list_byte_of_string "abc")
  = "ba7816bf8f01cfea414140de5dae2223b00361a396177a9cb410ff61f20015ad"%string.
Proof.
  destruct s as [bl bs hs buf tr]. simpl. intros Hlen.
  do 64 (destruct buf as [| ? buf]; [ discriminate Hlen | ]).
  destruct buf; [ | discriminate Hlen ].
  vm_compute. reflexivity.
Qed.

Lemma sha256_abc_witness :
  length (Sha256.buffer zeroed_sha256) = 64%nat /\
  Sha256.hash_sha256_binary zeroed_sha256 (list_byte_of_string "abc")
  = "ba7816bf8f01cfea414140de5dae2223b00361a396177a9cb410ff61f20015ad"%string.
Proof. split; [ reflexivity | apply (sha256_abc zeroed_sha256); reflexivity ]. Defined.


(** ** Wrap-around and array-length facts *)

Lemma uint8_t_small z : 0 <= z < 256 -> uint8_t z = z.
Proof. intros H. unfold uint8_t. apply Z.mod_small. lia. Qed.

Lemma length_memset a start v n : length (memset a start v n) = length a.
Proof.
  revert a start. induction n as [| n IH]; intros a start; simpl; [ reflexivity | ].
  rewrite IH. apply length_insert.
Qed.

Lemma length_memcpy a start src : length (memcpy a start src) = length a.
Proof.
  revert a start. induction src as [| b src IH]; intros a start; simpl; [ reflexivity | ].
  rewrite IH. apply length_insert.
Qed.

Lemma next_size_bound block size :
  0 < block < 256 -> 0 <= size < block -> 0 <= next_size block size < block.
Proof.
  intros Hb Hs. unfold next_size. rewrite uint8_t_small by lia.
  destruct (Z.eqb_spec (size + 1) block); lia.
Qed.

(** ** SHA-256 and SHA-224: fields touched by the transform, the update and the finalization *)

Lemma sha256_transform_bufferSize s :
  Sha256.bufferSize (Sha256.hash_private_sha256_transform s) = Sha256.bufferSize s.
Proof. reflexivity. Qed.

Lemma sha256_transform_buffer s :
  Sha256.buffer (Sha256.hash_private_sha256_transform s) = Sha256.buffer s.
Proof. reflexivity. Qed.

Lemma sha256_transform_bitlen s :
  Sha256.bitlen (Sha256.hash_private_sha256_transform s) = Sha256.bitlen s.
Proof. reflexivity. Qed.

Lemma sha256_transform_transforms s :
  Sha256.transforms (Sha256.hash_private_sha256_transform s) = S (Sha256.transforms s).
Proof. reflexivity. Qed.

Lemma sha256_update_byte_bufferSize s d :
  Sha256.bufferSize (Sha256.update_byte s d) = next_size 64 (Sha256.bufferSize s).
Proof.
  unfold Sha256.update_byte, next_size. cbn [Sha256.bufferSize].
  destruct (uint8_t (Sha256.bufferSize s + 1) =? 64); reflexivity.
Qed.

Lemma sha256_update_byte_length s d :
  length (Sha256.buffer (Sha256.update_byte s d)) = length (Sha256.buffer s).
Proof.
  unfold Sha256.update_byte. cbn [Sha256.bufferSize Sha256.buffer].
  destruct (uint8_t (Sha256.bufferSize s + 1) =? 64); cbn [Sha256.buffer];
    rewrite ?sha256_transform_buffer; cbn [Sha256.buffer]; apply length_insert.
Qed.

Lemma sha256_update_bufferSize s data :
  0 <= Sha256.bufferSize s < 64 ->
  0 <= Sha256.bufferSize (Sha256.hash_sha256_update_binary s data) < 64.
Proof.
  unfold Sha256.hash_sha256_update_binary. revert s.
  induction data as [| d data IH]; intros s Hs; simpl; [ exact Hs | ].
  apply IH. rewrite sha256_update_byte_bufferSize. apply next_size_bound; lia.
Qed.

Lemma sha256_update_length s data :
  length (Sha256.buffer (Sha256.hash_sha256_update_binary s data)) = length (Sha256.buffer s).
Proof.
  unfold Sha256.hash_sha256_update_binary. revert s.
  induction data as [| d data IH]; intros s; simpl; [ reflexivity | ].
  rewrite IH. apply sha256_update_byte_length.
Qed.

Lemma sha256_finalize_bufferSize s :
  Sha256.bufferSize (Sha256.hash_sha256_finalize s) = Sha256.bufferSize s.
Proof.
  unfold Sha256.hash_sha256_finalize. rewrite sha256_transform_bufferSize. cbn [Sha256.bufferSize].
  destruct (56 <=? Sha256.bufferSize s); reflexivity.
Qed.

Lemma sha256_finalize_length s :
  length (Sha256.buffer (Sha256.hash_sha256_finalize s)) = length (Sha256.buffer s).
Proof.
  unfold Sha256.hash_sha256_finalize. rewrite sha256_transform_buffer. cbn [Sha256.buffer Sha256.bufferSize].
  rewrite length_memcpy.
  destruct (56 <=? Sha256.bufferSize s); cbn [Sha256.buffer];
    rewrite ?length_memset, ?sha256_transform_buffer; cbn [Sha256.buffer];
    rewrite ?length_memset, length_insert; reflexivity.
Qed.

Lemma sha256_finalize_transforms s :
  Sha256.transforms (Sha256.hash_sha256_finalize s)
  = (Sha256.transforms s + if (56 <=? Sha256.bufferSize s)%Z then 2 else 1)%nat.
Proof.
  unfold Sha256.hash_sha256_finalize. rewrite sha256_transform_transforms. cbn [Sha256.transforms Sha256.bufferSize].
  destruct (56 <=? Sha256.bufferSize s); cbn [Sha256.transforms];
    rewrite ?sha256_transform_transforms; cbn [Sha256.transforms]; lia.
Qed.

(** Chunk invariance of the update: it is a left fold over the bytes. *)
Lemma sha256_update_app s a b :
  Sha256.hash_sha256_update_binary s (a ++ b) = Sha256.hash_sha256_update_binary (Sha256.hash_sha256_update_binary s a) b.
Proof. unfold Sha256.hash_sha256_update_binary. apply fold_left_app. Qed.

Lemma sha256_update_chunks s chunks :
  fold_left Sha256.hash_sha256_update_binary chunks s = Sha256.hash_sha256_update_binary s (concat chunks).
Proof.
  revert s. induction chunks as [| c chunks IH]; intros s; simpl; [ reflexivity | ].
  rewrite IH. symmetry. apply sha256_update_app.
Qed.

(** ** SHA-512, SHA-384 and SHA-512/t: fields touched by the transform, the update and the finalization *)

Lemma sha512_transform_bufferSize s :
  Sha512.bufferSize (Sha512.hash_private_sha512_transform s) = Sha512.bufferSize s.
Proof. reflexivity. Qed.

Lemma sha512_transform_buffer s :
  Sha512.buffer (Sha512.hash_private_sha512_transform s) = Sha512.buffer s.
Proof. reflexivity. Qed.

Lemma sha512_transform_bitlen s :
  Sha512.bitlen (Sha512.hash_private_sha512_transform s) = Sha512.bitlen s.
Proof. reflexivity. Qed.

Lemma sha512_transform_transforms s :
  Sha512.transforms (Sha512.hash_private_sha512_transform s) = S (Sha512.transforms s).
Proof. reflexivity. Qed.

Lemma sha512_update_byte_bufferSize s d :
  Sha512.bufferSize (Sha512.update_byte s d) = next_size 128 (Sha512.bufferSize s).
Proof.
  unfold Sha512.update_byte, next_size. cbn [Sha512.bufferSize].
  destruct (uint8_t (Sha512.bufferSize s + 1) =? 128); reflexivity.
Qed.

Lemma sha512_update_byte_length s d :
  length (Sha512.buffer (Sha512.update_byte s d)) = length (Sha512.buffer s).
Proof.
  unfold Sha512.update_byte. cbn [Sha512.bufferSize Sha512.buffer].
  destruct (uint8_t (Sha512.bufferSize s + 1) =? 128); cbn [Sha512.buffer];
    rewrite ?sha512_transform_buffer; cbn [Sha512.buffer]; apply length_insert.
Qed.

Lemma sha512_update_bufferSize s data :
  0 <= Sha512.bufferSize s < 128 ->
  0 <= Sha512.bufferSize (Sha512.hash_sha512_update_binary s data) < 128.
Proof.
  unfold Sha512.hash_sha512_update_binary. revert s.
  induction data as [| d data IH]; intros s Hs; simpl; [ exact Hs | ].
  apply IH. rewrite sha512_update_byte_bufferSize. apply next_size_bound; lia.
Qed.

Lemma sha512_update_length s data :
  length (Sha512.buffer (Sha512.hash_sha512_update_binary s data)) = length (Sha512.buffer s).
Proof.
  unfold Sha512.hash_sha512_update_binary. revert s.
  induction data as [| d data IH]; intros s; simpl; [ reflexivity | ].
  rewrite IH. apply sha512_update_byte_length.
Qed.

Lemma sha512_finalize_bufferSize s :
  Sha512.bufferSize (Sha512.hash_sha512_finalize s) = Sha512.bufferSize s.
Proof.
  unfold Sha512.hash_sha512_finalize. rewrite sha512_transform_bufferSize. cbn [Sha512.bufferSize].
  destruct (112 <=? Sha512.bufferSize s); reflexivity.
Qed.

Lemma sha512_finalize_length s :
  length (Sha512.buffer (Sha512.hash_sha512_finalize s)) = length (Sha512.buffer s).
Proof.
  unfold Sha512.hash_sha512_finalize. rewrite sha512_transform_buffer. cbn [Sha512.buffer Sha512.bufferSize].
  rewrite length_memcpy.
  destruct (112 <=? Sha512.bufferSize s); cbn [Sha512.buffer];
    rewrite ?length_memset, ?sha512_transform_buffer; cbn [Sha512.buffer];
    rewrite ?length_memset, length_insert; reflexivity.
Qed.

Lemma sha512_finalize_transforms s :
  Sha512.transforms (Sha512.hash_sha512_finalize s)
  = (Sha512.transforms s + if (112 <=? Sha512.bufferSize s)%Z then 2 else 1)%nat.
Proof.
  unfold Sha512.hash_sha512_finalize. rewrite sha512_transform_transforms. cbn [Sha512.transforms Sha512.bufferSize].
  destruct (112 <=? Sha512.bufferSize s); cbn [Sha512.transforms];
    rewrite ?sha512_transform_transforms; cbn [Sha512.transforms]; lia.
Qed.

(** Chunk invariance of the update: it is a left fold over the bytes. *)
Lemma sha512_update_app s a b :
  Sha512.hash_sha512_update_binary s (a ++ b) = Sha512.hash_sha512_update_binary (Sha512.hash_sha512_update_binary s a) b.
Proof. unfold Sha512.hash_sha512_update_binary. apply fold_left_app. Qed.

Lemma sha512_update_chunks s chunks :
  fold_left Sha512.hash_sha512_update_binary chunks s = Sha512.hash_sha512_update_binary s (concat chunks).
Proof.
  revert s. induction chunks as [| c chunks IH]; intros s; simpl; [ reflexivity | ].
  rewrite IH. symmetry. apply sha512_update_app.
Qed.

(** ** SHA-1: fields touched by the transform, the update and the finalization *)

Lemma sha1_transform_bufferSize s :
  Sha1.bufferSize (Sha1.hash_private_hash_sha1_transform s) = Sha1.bufferSize s.
Proof. reflexivity. Qed.

Lemma sha1_transform_buffer s :
  Sha1.buffer (Sha1.hash_private_hash_sha1_transform s) = Sha1.buffer s.
Proof. reflexivity. Qed.

Lemma sha1_transform_bitlen s :
  Sha1.bitlen (Sha1.hash_private_hash_sha1_transform s) = Sha1.bitlen s.
Proof. reflexivity. Qed.

Lemma sha1_transform_transforms s :
  Sha1.transforms (Sha1.hash_private_hash_sha1_transform s) = S (Sha1.transforms s).
Proof. reflexivity. Qed.

Lemma sha1_update_byte_bufferSize s d :
  Sha1.bufferSize (Sha1.update_byte s d) = next_size 64 (Sha1.bufferSize s).
Proof.
  unfold Sha1.update_byte, next_size. cbn [Sha1.bufferSize].
  destruct (uint8_t (Sha1.bufferSize s + 1) =? 64); reflexivity.
Qed.

Lemma sha1_update_byte_length s d :
  length (Sha1.buffer (Sha1.update_byte s d)) = length (Sha1.buffer s).
Proof.
  unfold Sha1.update_byte. cbn [Sha1.bufferSize Sha1.buffer].
  destruct (uint8_t (Sha1.bufferSize s + 1) =? 64); cbn [Sha1.buffer];
    rewrite ?sha1_transform_buffer; cbn [Sha1.buffer]; apply length_insert.
Qed.

Lemma sha1_update_bufferSize s data :
  0 <= Sha1.bufferSize s < 64 ->
  0 <= Sha1.bufferSize (Sha1.hash_sha1_update_binary s data) < 64.
Proof.
  unfold Sha1.hash_sha1_update_binary. revert s.
  induction data as [| d data IH]; intros s Hs; simpl; [ exact Hs | ].
  apply IH. rewrite sha1_update_byte_bufferSize. apply next_size_bound; lia.
Qed.

Lemma sha1_update_length s data :
  length (Sha1.buffer (Sha1.hash_sha1_update_binary s data)) = length (Sha1.buffer s).
Proof.
  unfold Sha1.hash_sha1_update_binary. revert s.
  induction data as [| d data IH]; intros s; simpl; [ reflexivity | ].
  rewrite IH. apply sha1_update_byte_length.
Qed.

Lemma sha1_finalize_bufferSize s :
  Sha1.bufferSize (Sha1.hash_sha1_finalize s) = Sha1.bufferSize s.
Proof.
  unfold Sha1.hash_sha1_finalize. rewrite sha1_transform_bufferSize. cbn [Sha1.bufferSize].
  destruct (56 <=? Sha1.bufferSize s); reflexivity.
Qed.

Lemma sha1_finalize_length s :
  length (Sha1.buffer (Sha1.hash_sha1_finalize s)) = length (Sha1.buffer s).
Proof.
  unfold Sha1.hash_sha1_finalize. rewrite sha1_transform_buffer. cbn [Sha1.buffer Sha1.bufferSize].
  rewrite length_memcpy.
  destruct (56 <=? Sha1.bufferSize s); cbn [Sha1.buffer];
    rewrite ?length_memset, ?sha1_transform_buffer; cbn [Sha1.buffer];
    rewrite ?length_memset, length_insert; reflexivity.
Qed.

Lemma sha1_finalize_transforms s :
  Sha1.transforms (Sha1.hash_sha1_finalize s)
  = (Sha1.transforms s + if (56 <=? Sha1.bufferSize s)%Z then 2 else 1)%nat.
Proof.
  unfold Sha1.hash_sha1_finalize. rewrite sha1_transform_transforms. cbn [Sha1.transforms Sha1.bufferSize].
  destruct (56 <=? Sha1.bufferSize s); cbn [Sha1.transforms];
    rewrite ?sha1_transform_transforms; cbn [Sha1.transforms]; lia.
Qed.

(** Chunk invariance of the update: it is a left fold over the bytes. *)
Lemma sha1_update_app s a b :
  Sha1.hash_sha1_update_binary s (a ++ b) = Sha1.hash_sha1_update_binary (Sha1.hash_sha1_update_binary s a) b.
Proof. unfold Sha1.hash_sha1_update_binary. apply fold_left_app. Qed.

Lemma sha1_update_chunks s chunks :
  fold_left Sha1.hash_sha1_update_binary chunks s = Sha1.hash_sha1_update_binary s (concat chunks).
Proof.
  revert s. induction chunks as [| c chunks IH]; intros s; simpl; [ reflexivity | ].
  rewrite IH. symmetry. apply sha1_update_app.
Qed.

(** ** MD5: the bit counter, the buffered length and the transform count *)

Lemma md5_transform_count m block :
  MD5.count (MD5.hash_private_md5_transform m block) = MD5.count m.
Proof. reflexivity. Qed.

Lemma md5_transform_words_length st block :
  length (MD5.transform_words st block) = length st.
Proof.
  unfold MD5.transform_words.
  destruct (MD5.rounds _ _ _ _ _) as [[[a b] c] d].
  rewrite !length_insert. reflexivity.
Qed.

Lemma md5_transform_chunks_stop fuel m input s i :
  s < uint32_t (i + MD5.HASH_PRIVATE_MD5_BLOCKSIZE) ->
  MD5.transform_chunks (S fuel) m input s i = Some (m, i).
Proof.
  intros H. cbn [MD5.transform_chunks].
  destruct (Z.leb_spec (uint32_t (i + MD5.HASH_PRIVATE_MD5_BLOCKSIZE)) s); [ lia | reflexivity ].
Qed.

Lemma md5_transform_chunks_fields fuel m input s i r j :
  MD5.transform_chunks fuel m input s i = Some (r, j) ->
  MD5.count r = MD5.count m /\ MD5.finalized r = MD5.finalized m /\
  MD5.digest r = MD5.digest m /\ MD5.buffer r = MD5.buffer m /\
  length (MD5.state r) = length (MD5.state m).
Proof.
  revert m i. induction fuel as [| fuel IH]; intros m i H; [ discriminate H | ].
  cbn [MD5.transform_chunks] in H.
  destruct (uint32_t (i + MD5.HASH_PRIVATE_MD5_BLOCKSIZE) <=? s).
  - apply IH in H. destruct H as (H1 & H2 & H3 & H4 & H5).
    rewrite H1, H2, H3, H4, H5. repeat split.
    unfold MD5.hash_private_md5_transform. cbn [MD5.state].
    apply md5_transform_words_length.
  - injection H as <- <-. repeat split.
Qed.

(** The loop ends when [s] is below the last value under 2^32 that has the
    residue of [i] modulo 64: [i + 64] does not wrap around then, and there
    is one iteration for each whole block between [i] and [s]. *)
Lemma md5_transform_chunks_ends fuel m input s i :
  0 <= i <= s -> s < 2 ^ 32 - 64 + i mod 64 ->
  (Z.to_nat ((s - i) / 64) < fuel)%nat ->
  exists r, MD5.transform_chunks fuel m input s i = Some (r, i + 64 * ((s - i) / 64)).
Proof.
  revert m i. induction fuel as [| fuel IH]; intros m i Hi Hs Hfuel; [ lia | ].
  cbn [MD5.transform_chunks]. unfold MD5.HASH_PRIVATE_MD5_BLOCKSIZE.
  assert (Hu : uint32_t (i + 64) = i + 64).
  { unfold uint32_t. apply Z.mod_small. change (2 ^ 32) with 4294967296 in *.
    Z.div_mod_to_equations. lia. }
  rewrite Hu.
  destruct (Z.leb_spec (i + 64) s) as [Hle | Hgt].
  - assert (Hq : (s - i) / 64 = 1 + (s - (i + 64)) / 64) by (Z.div_mod_to_equations; lia).
    assert (Hq0 : 0 <= (s - (i + 64)) / 64) by (Z.div_mod_to_equations; lia).
    assert (Hres : (i + 64) mod 64 = i mod 64) by (Z.div_mod_to_equations; lia).
    destruct (IH (MD5.hash_private_md5_transform m (drop (Z.to_nat i) input)) (i + 64))
      as [r Hr]; [ lia | rewrite Hres; exact Hs | lia | ].
    exists r. rewrite Hr, Hq. do 2 f_equal. lia.
  - assert (Hq : (s - i) / 64 = 0) by (apply Z.div_small; lia).
    exists m. rewrite Hq. do 2 f_equal. lia.
Qed.

(** The loop does not end otherwise: [i + 64] wraps around, [i] keeps its
    residue modulo 64, and the test [i + 64 <= s] holds each time. *)
Lemma md5_transform_chunks_loops fuel m input s i :
  0 <= i < 2 ^ 32 -> 2 ^ 32 - 64 + i mod 64 <= s ->
  MD5.transform_chunks fuel m input s i = None.
Proof.
  revert m i. induction fuel as [| fuel IH]; intros m i Hi Hs; [ reflexivity | ].
  cbn [MD5.transform_chunks]. unfold MD5.HASH_PRIVATE_MD5_BLOCKSIZE.
  assert (Hmod : uint32_t (i + 64) mod 64 = i mod 64).
  { unfold uint32_t. change (2 ^ 32) with 4294967296. Z.div_mod_to_equations. lia. }
  assert (Hrange : 0 <= uint32_t (i + 64) < 2 ^ 32)
    by (unfold uint32_t; apply Z.mod_pos_bound; lia).
  assert (Hle : uint32_t (i + 64) <= s).
  { unfold uint32_t in *. change (2 ^ 32) with 4294967296 in *.
    Z.div_mod_to_equations. lia. }
  destruct (Z.leb_spec (uint32_t (i + 64)) s); [ | lia ].
  apply IH; [ exact Hrange | rewrite Hmod; exact Hs ].
Qed.

Lemma md5_seen_small input :
  Z.of_nat (length input) < 2 ^ 32 -> md5_seen input = Z.of_nat (length input).
Proof.
  intros H. unfold md5_seen, uint32_t, uint64_t.
  rewrite (Z.mod_small (Z.of_nat (length input)) (2 ^ 64)) by lia.
  apply Z.mod_small. lia.
Qed.

Lemma md5_seen_range input : 0 <= md5_seen input < 2 ^ 32.
Proof. unfold md5_seen, uint32_t. apply Z.mod_pos_bound. lia. Qed.

Lemma md5_index_range m : 0 <= md5_index m < 64.
Proof. unfold md5_index. apply Z.mod_pos_bound. lia. Qed.

Lemma md5_index_arith c0 p :
  ((c0 + 8 * p) mod 2 ^ 32 / 8) mod 64 = ((c0 / 8) mod 64 + p) mod 64.
Proof.
  change (2 ^ 32) with 4294967296. Z.div_mod_to_equations. lia.
Qed.

Lemma uint32_t_shiftl3 s : uint32_t (Z.shiftl s 3) = (8 * s) mod 2 ^ 32.
Proof. unfold uint32_t. rewrite Z.shiftl_mul_pow2 by lia. f_equal. lia. Qed.

(** An update, case by case: it buffers its input when the buffer does not
    get full, and otherwise goes through the whole blocks. *)
Lemma md5_update_unfold m input :
  MD5.hash_private_md5_update_binary m input
  = if 64 - md5_index m <=? md5_seen input then
      match MD5.transform_chunks (Z.to_nat (md5_seen input / 64) + 1)
                                 (md5_first_block m input) input
                                 (md5_seen input) (64 - md5_index m) with
      | Some (m2, i) =>
          Some (MD5.mk (MD5.finalized m2)
                       (memcpy (MD5.buffer m2) 0
                               (take (Z.to_nat (md5_seen input - i))
                                     (drop (Z.to_nat i) input)))
                       (MD5.count m2) (MD5.state m2) (MD5.digest m2) (MD5.transforms m2))
      | None => None
      end
    else
      Some (MD5.mk (MD5.finalized m)
                   (memcpy (MD5.buffer m) (Z.to_nat (md5_index m))
                           (take (Z.to_nat (md5_seen input)) input))
                   (md5_count_after m input) (MD5.state m) (MD5.digest m)
                   (MD5.transforms m)).
Proof.
  unfold MD5.hash_private_md5_update_binary. cbn zeta.
  fold (md5_seen input).
  change ((MD5.count m !!! 0%nat / 8) mod MD5.HASH_PRIVATE_MD5_BLOCKSIZE) with (md5_index m).
  destruct (64 - md5_index m <=? md5_seen input).
  - change (MD5.hash_private_md5_transform _ _) with (md5_first_block m input).
    destruct (MD5.transform_chunks _ _ _ _ _) as [[m2 i] |]; reflexivity.
  - change (Z.to_nat 0) with 0%nat. rewrite drop_0, Z.sub_0_r. reflexivity.
Qed.

(** An update returns unless its loop over the whole blocks goes on for
    ever: it returns when it sees fewer bytes than the buffer has room for,
    and otherwise exactly when the number of bytes it sees is below
    [2^32 - 64] plus the room modulo 64. *)
Lemma md5_update_returns_iff m input :
  (exists m', MD5.hash_private_md5_update_binary m input = Some m') <->
  md5_seen input < 64 - md5_index m \/
  md5_seen input < 2 ^ 32 - 64 + (64 - md5_index m) mod 64.
Proof.
  rewrite md5_update_unfold.
  pose proof (md5_index_range m) as Hidx. pose proof (md5_seen_range input) as Hseen.
  destruct (Z.leb_spec (64 - md5_index m) (md5_seen input)) as [Hbig | Hsmall].
  - destruct (Z_lt_le_dec (md5_seen input) (2 ^ 32 - 64 + (64 - md5_index m) mod 64))
      as [Hends | Hloops].
    + split; [ intros _; right; exact Hends | intros _ ].
      destruct (md5_transform_chunks_ends (Z.to_nat (md5_seen input / 64) + 1)
                  (md5_first_block m input) input (md5_seen input) (64 - md5_index m))
        as [r Hr]; [ lia | exact Hends | | ].
      { assert ((md5_seen input - (64 - md5_index m)) / 64 <= md5_seen input / 64)
          by (apply Z.div_le_mono; lia).
        assert (0 <= (md5_seen input - (64 - md5_index m)) / 64)
          by (apply Z.div_pos; lia).
        lia. }
      rewrite Hr. eexists. reflexivity.
    + rewrite md5_transform_chunks_loops by (try lia; exact Hloops).
      split; [ intros [m' H]; discriminate H | intros [H | H]; lia ].
  - split; [ intros _; left; lia | intros _; eexists; reflexivity ].
Qed.

(** In particular it returns when it sees fewer than [2^32 - 64] bytes. *)
Lemma md5_update_returns m input :
  md5_seen input + 64 < 2 ^ 32 ->
  exists m', MD5.hash_private_md5_update_binary m input = Some m'.
Proof.
  intros H. apply md5_update_returns_iff. right.
  pose proof (Z.mod_pos_bound (64 - md5_index m) 64 ltac:(lia)). lia.
Qed.

Lemma md5_count_after_length m input :
  length (md5_count_after m input) = length (MD5.count m).
Proof.
  unfold md5_count_after. cbv zeta. rewrite length_insert.
  destruct (_ <? _); rewrite ?length_insert; reflexivity.
Qed.

Lemma md5_count_after_0 m input :
  md5_count_after m input !!! 0%nat
  = match MD5.count m with
    | [] => MD5.count m !!! 0%nat
    | _ :: _ => (MD5.count m !!! 0%nat + 8 * md5_seen input) mod 2 ^ 32
    end.
Proof.
  unfold md5_count_after. cbv zeta. rewrite uint32_t_shiftl3.
  destruct (MD5.count m) as [| c0 rest] eqn:E.
  - destruct (_ <? _); reflexivity.
  - assert (Hc : uint32_t (c0 + (8 * md5_seen input) mod 2 ^ 32)
                 = (c0 + 8 * md5_seen input) mod 2 ^ 32).
    { unfold uint32_t. apply Zplus_mod_idemp_r. }
    change ((c0 :: rest) !!! 0%nat) with c0. rewrite Hc.
    destruct (_ <? _); destruct rest; reflexivity.
Qed.

Lemma md5_first_block_fields m input :
  MD5.finalized (md5_first_block m input) = MD5.finalized m /\
  MD5.digest (md5_first_block m input) = MD5.digest m /\
  MD5.count (md5_first_block m input) = md5_count_after m input /\
  length (MD5.buffer (md5_first_block m input)) = length (MD5.buffer m) /\
  length (MD5.state (md5_first_block m input)) = length (MD5.state m) /\
  MD5.transforms (md5_first_block m input) = S (MD5.transforms m).
Proof.
  unfold md5_first_block, MD5.hash_private_md5_transform. cbv zeta.
  cbn [MD5.finalized MD5.digest MD5.count MD5.buffer MD5.state MD5.transforms].
  rewrite length_memcpy, md5_transform_words_length. repeat split.
Qed.

(** What an update that returns does to the fields other than the buffer
    and the chaining state. *)
Lemma md5_update_fields m input m' :
  MD5.hash_private_md5_update_binary m input = Some m' ->
  MD5.finalized m' = MD5.finalized m /\ MD5.digest m' = MD5.digest m /\
  MD5.count m' = md5_count_after m input /\
  length (MD5.buffer m') = length (MD5.buffer m) /\
  length (MD5.state m') = length (MD5.state m).
Proof.
  rewrite md5_update_unfold.
  destruct (64 - md5_index m <=? md5_seen input).
  - destruct (MD5.transform_chunks _ _ _ _ _) as [[m2 i] |] eqn:E; [ | discriminate ].
    apply md5_transform_chunks_fields in E. destruct E as (H1 & H2 & H3 & H4 & H5).
    destruct (md5_first_block_fields m input) as (F1 & F2 & F3 & F4 & F5 & _).
    intros H. injection H as <-.
    cbn [MD5.finalized MD5.digest MD5.count MD5.buffer MD5.state].
    rewrite H1, H2, H3, H5, length_memcpy, H4, F1, F2, F3, F4, F5. repeat split.
  - intros H. injection H as <-.
    cbn [MD5.finalized MD5.digest MD5.count MD5.buffer MD5.state].
    rewrite length_memcpy. repeat split.
Qed.

Lemma md5_update_index m input m' :
  (1 <= length (MD5.count m))%nat ->
  MD5.hash_private_md5_update_binary m input = Some m' ->
  md5_index m' = (md5_index m + md5_seen input) mod 64.
Proof.
  intros Hlen H. apply md5_update_fields in H. destruct H as (_ & _ & Hc & _).
  unfold md5_index. rewrite Hc, md5_count_after_0.
  destruct (MD5.count m) as [| c0 rest]; [ simpl in Hlen; lia | ].
  change ((c0 :: rest) !!! 0%nat) with c0. apply md5_index_arith.
Qed.

Lemma md5_update_transforms_none m input :
  md5_seen input < 64 - md5_index m ->
  exists m', MD5.hash_private_md5_update_binary m input = Some m' /\
             MD5.transforms m' = MD5.transforms m.
Proof.
  intros H. rewrite md5_update_unfold.
  destruct (Z.leb_spec (64 - md5_index m) (md5_seen input)); [ lia | ].
  eexists. split; reflexivity.
Qed.

Lemma md5_update_transforms_one m input :
  0 <= md5_index m < 64 ->
  64 - md5_index m <= md5_seen input < 128 - md5_index m ->
  exists m', MD5.hash_private_md5_update_binary m input = Some m' /\
             MD5.transforms m' = S (MD5.transforms m).
Proof.
  intros Hi H. rewrite md5_update_unfold.
  destruct (Z.leb_spec (64 - md5_index m) (md5_seen input)); [ | lia ].
  replace (Z.to_nat (md5_seen input / 64) + 1)%nat with (S (Z.to_nat (md5_seen input / 64)))
    by lia.
  rewrite md5_transform_chunks_stop.
  - eexists. split; [ reflexivity | ]. cbn [MD5.transforms].
    apply md5_first_block_fields.
  - unfold uint32_t, MD5.HASH_PRIVATE_MD5_BLOCKSIZE. rewrite Z.mod_small; lia.
Qed.

Lemma md5_encode_length output input len :
  length (MD5.hash_private_md5_encode output input len) = length output.
Proof.
  unfold MD5.hash_private_md5_encode. generalize (seq 0 (len / 4)). intros l. revert output.
  induction l as [| i l IH]; intros output; simpl; [ reflexivity | ].
  rewrite IH, !length_insert. reflexivity.
Qed.

Lemma md5_seen_padding n :
  0 <= n <= 64 -> md5_seen (take (Z.to_nat n) MD5.padding) = n.
Proof.
  intros H. rewrite md5_seen_small; rewrite length_take; change (length MD5.padding) with 64%nat; lia.
Qed.

(** A first finalization returns; it runs the transform once, or twice
    when 56 or more bytes are buffered. *)
Lemma md5_finalize_transforms m :
  (1 <= length (MD5.count m))%nat -> MD5.finalized m = 0 ->
  exists m', MD5.hash_md5_finalize m = Some m' /\
    MD5.transforms m'
    = (MD5.transforms m + if (56 <=? md5_index m)%Z then 2 else 1)%nat.
Proof.
  intros Hlen Hfin. unfold MD5.hash_md5_finalize. rewrite Hfin. cbn [Z.eqb]. cbn zeta.
  fold (md5_index m). pose proof (md5_index_range m) as Hr.
  set (bits := MD5.hash_private_md5_encode _ _ _).
  set (padLen := if md5_index m <? 56 then 56 - md5_index m else 120 - md5_index m).
  assert (Hpad : md5_seen (take (Z.to_nat padLen) MD5.padding) = padLen).
  { apply md5_seen_padding. subst padLen. destruct (Z.ltb_spec (md5_index m) 56); lia. }
  assert (Hbits : md5_seen bits = 8).
  { rewrite md5_seen_small; subst bits; rewrite md5_encode_length; reflexivity. }
  assert (H1 : exists m1,
             MD5.hash_private_md5_update_binary m (take (Z.to_nat padLen) MD5.padding)
             = Some m1 /\
             MD5.transforms m1
             = (MD5.transforms m + if (56 <=? md5_index m)%Z then 1 else 0)%nat).
  { destruct (Z.leb_spec 56 (md5_index m)) as [Hge | Hlt].
    - destruct (md5_update_transforms_one m (take (Z.to_nat padLen) MD5.padding) Hr)
        as (m1 & E & Ht).
      { rewrite Hpad. subst padLen. destruct (Z.ltb_spec (md5_index m) 56); lia. }
      exists m1. split; [ exact E | lia ].
    - destruct (md5_update_transforms_none m (take (Z.to_nat padLen) MD5.padding))
        as (m1 & E & Ht).
      { rewrite Hpad. subst padLen. destruct (Z.ltb_spec (md5_index m) 56); lia. }
      exists m1. split; [ exact E | lia ]. }
  destruct H1 as (m1 & E1 & Ht1). rewrite E1.
  assert (Hidx1 : md5_index m1 = 56).
  { rewrite (md5_update_index _ _ _ Hlen E1), Hpad. subst padLen.
    destruct (Z.ltb_spec (md5_index m) 56).
    - replace (md5_index m + (56 - md5_index m)) with 56 by lia. reflexivity.
    - replace (md5_index m + (120 - md5_index m)) with 120 by lia. reflexivity. }
  destruct (md5_update_transforms_one m1 bits) as (m2 & E2 & Ht2);
    [ rewrite Hidx1; lia | rewrite Hidx1, Hbits; lia | ].
  rewrite E2. eexists. split; [ reflexivity | ].
  cbn [MD5.transforms]. rewrite Ht2, Ht1.
  destruct (Z.leb_spec 56 (md5_index m)); lia.
Qed.

(** ** Invariants of the reachable states *)

Lemma sha256_reachable_inv s :
  sha256_reachable s ->
  0 <= Sha256.bufferSize s < 64 /\ length (Sha256.buffer s) = 64%nat.
Proof.
  induction 1 as [s Hs | s Hs | s data _ [IH1 IH2] | s _ [IH1 IH2]].
  - split; [ simpl; lia | exact Hs ].
  - split; [ simpl; lia | exact Hs ].
  - split; [ apply sha256_update_bufferSize; exact IH1 | rewrite sha256_update_length; exact IH2 ].
  - rewrite sha256_finalize_bufferSize, sha256_finalize_length. split; assumption.
Qed.

Lemma sha1_reachable_inv s :
  sha1_reachable s ->
  0 <= Sha1.bufferSize s < 64 /\ length (Sha1.buffer s) = 64%nat.
Proof.
  induction 1 as [s Hs | s data _ [IH1 IH2] | s _ [IH1 IH2]].
  - split; [ simpl; lia | exact Hs ].
  - split; [ apply sha1_update_bufferSize; exact IH1 | rewrite sha1_update_length; exact IH2 ].
  - rewrite sha1_finalize_bufferSize, sha1_finalize_length. split; assumption.
Qed.

Lemma sha512_update_t s data :
  Sha512.t (Sha512.hash_sha512_update_binary s data) = Sha512.t s.
Proof.
  unfold Sha512.hash_sha512_update_binary. revert s.
  induction data as [| d data IH]; intros s; simpl; [ reflexivity | ].
  rewrite IH. unfold Sha512.update_byte. cbn [Sha512.bufferSize].
  destruct (uint8_t (Sha512.bufferSize s + 1) =? 128); reflexivity.
Qed.

Lemma sha512_finalize_t s :
  Sha512.t (Sha512.hash_sha512_finalize s) = Sha512.t s.
Proof.
  unfold Sha512.hash_sha512_finalize. cbn [Sha512.bufferSize].
  destruct (112 <=? Sha512.bufferSize s); reflexivity.
Qed.

Lemma assert_Returned {A} ndebug cond msg (k : outcome A) r :
  assert ndebug cond msg k = Returned r -> k = Returned r.
Proof. unfold assert. destruct ndebug, cond; intros H; try exact H; discriminate H. Qed.

Lemma static_assert_Returned {A} cond msg (k : outcome A) r :
  static_assert cond msg k = Returned r -> cond = true /\ k = Returned r.
Proof. unfold static_assert. destruct cond; intros H; [ split; [ reflexivity | exact H ] | discriminate H ]. Qed.

Lemma sha512t_generate_iv_fields s str :
  let s' := Sha512.sha512t_generate_iv s str in
  Sha512.bufferSize s' = 0 /\ Sha512.bitlen s' = 0 /\ Sha512.t s' = Sha512.t s /\
  length (Sha512.buffer s') = length (Sha512.buffer s).
Proof.
  unfold Sha512.sha512t_generate_iv.
  cbn [Sha512.bufferSize Sha512.bitlen Sha512.t Sha512.buffer Sha512.hash_sha512_reset].
  rewrite sha512_finalize_length, sha512_update_length, sha512_finalize_t, sha512_update_t.
  repeat split; reflexivity.
Qed.

(** The state [hash_sha512t_init] returns, whenever it returns one. *)
Lemma sha512t_init_Returned ndebug s t s' :
  Sha512.hash_sha512t_init ndebug s t = Returned s' ->
  s' = Sha512.sha512t_generate_iv (Sha512.sha512t_seed s t) (Sha512.sha512t_label t).
Proof.
  unfold Sha512.hash_sha512t_init. intros H.
  apply assert_Returned in H. apply assert_Returned in H.
  destruct (13 <=? length (Sha512.sha512t_label t))%nat; [ discriminate H | ].
  injection H as <-. reflexivity.
Qed.

Lemma sha512_reachable_inv s :
  sha512_reachable s ->
  0 <= Sha512.bufferSize s < 128 /\ length (Sha512.buffer s) = 128%nat.
Proof.
  induction 1 as [s Hs | s Hs | nd s t s' Hs Hinit | s _ [IH1 IH2]
                 | s data _ [IH1 IH2] | s _ [IH1 IH2]].
  - split; [ simpl; lia | exact Hs ].
  - split; [ simpl; lia | exact Hs ].
  - apply sha512t_init_Returned in Hinit. subst s'.
    destruct (sha512t_generate_iv_fields (Sha512.sha512t_seed s t) (Sha512.sha512t_label t))
      as (H1 & _ & _ & H4).
    rewrite H1, H4. split; [ lia | exact Hs ].
  - split; [ simpl; lia | exact IH2 ].
  - split; [ apply sha512_update_bufferSize; exact IH1 | rewrite sha512_update_length; exact IH2 ].
  - rewrite sha512_finalize_bufferSize, sha512_finalize_length. split; assumption.
Qed.

Lemma md5_finalize_count_length m m' :
  length (MD5.count m) = 2%nat -> MD5.hash_md5_finalize m = Some m' ->
  length (MD5.count m') = 2%nat.
Proof.
  intros H. unfold MD5.hash_md5_finalize. destruct (MD5.finalized m =? 0).
  - cbv zeta.
    destruct (MD5.hash_private_md5_update_binary m _) as [m1 |]; [ | discriminate ].
    destruct (MD5.hash_private_md5_update_binary m1 _) as [m2 |]; [ | discriminate ].
    intros E. apply (inj Some) in E. subst m'. reflexivity.
  - intros E. apply (inj Some) in E. subst m'. exact H.
Qed.

Lemma md5_reachable_inv m :
  md5_reachable m -> length (MD5.count m) = 2%nat.
Proof.
  induction 1 as [m _ _ | m data m' _ IH Hu | m m' _ IH Hf].
  - reflexivity.
  - apply md5_update_fields in Hu. destruct Hu as (_ & _ & Hc & _).
    rewrite Hc, md5_count_after_length. exact IH.
  - exact (md5_finalize_count_length m m' IH Hf).
Qed.

(** Updates with chunks of sizes in range return, one after the other. *)
Lemma md5_updates_return m chunks :
  Forall md5_size_ok chunks -> exists m', md5_updates m chunks = Some m'.
Proof.
  intros Hall. revert m. induction Hall as [| c chunks Hc _ IH]; intros m.
  - exists m. reflexivity.
  - cbn [md5_updates]. unfold MD5.hash_md5_update_binary.
    unfold md5_size_ok in Hc.
    destruct (md5_update_returns m c) as [m1 E];
      [ rewrite md5_seen_small by lia; lia | ].
    rewrite E. apply IH.
Qed.

(** C9. For every Merkle-Damgard engine the partial-buffer length is
    strictly less than the block size at the start of every update: it is
    0 after the initialisation and stays below 64 (MD5, SHA-1, SHA-224,
    SHA-256) or 128 (SHA-384, SHA-512, SHA-512/t) after any sequence of
    updates of any sizes.  For MD5 the partial-buffer length is
    [count[0] / 8 % 64]; it is below 64 after every sequence of updates
    that return, and updates with chunks of fewer than 2^32 - 64 bytes
    each do return. *)
Theorem partial_buffer_below_block_size :
  (forall s chunks,
      Sha256.bufferSize (Sha256.hash_sha256_init s) = 0 /\
      0 <= Sha256.bufferSize
             (fold_left Sha256.hash_sha256_update_binary chunks (Sha256.hash_sha256_init s)) < 64) /\
  (forall s chunks,
      Sha256.bufferSize (Sha256.hash_sha224_init s) = 0 /\
      0 <= Sha256.bufferSize
             (fold_left Sha256.hash_sha224_update_binary chunks (Sha256.hash_sha224_init s)) < 64) /\
  (forall s chunks,
      Sha512.bufferSize (Sha512.hash_sha512_init s) = 0 /\
      0 <= Sha512.bufferSize
             (fold_left Sha512.hash_sha512_update_binary chunks (Sha512.hash_sha512_init s)) < 128) /\
  (forall s chunks,
      Sha512.bufferSize (Sha512.hash_sha384_init s) = 0 /\
      0 <= Sha512.bufferSize
             (fold_left Sha512.hash_sha384_update_binary chunks (Sha512.hash_sha384_init s)) < 128) /\
  (forall ndebug s t s' chunks,
      Sha512.hash_sha512t_init ndebug s t = Returned s' ->
      Sha512.bufferSize s' = 0 /\
      0 <= Sha512.bufferSize (fold_left Sha512.hash_sha512t_update_binary chunks s') < 128) /\
  (forall s chunks,
      Sha1.bufferSize (Sha1.hash_sha1_init s) = 0 /\
      0 <= Sha1.bufferSize
             (fold_left Sha1.hash_sha1_update_binary chunks (Sha1.hash_sha1_init s)) < 64) /\
  (forall m chunks,
      md5_index (MD5.hash_md5_init m) = 0 /\
      (forall m', md5_updates (MD5.hash_md5_init m) chunks = Some m' ->
                  0 <= md5_index m' < 64) /\
      (Forall md5_size_ok chunks ->
       exists m', md5_updates (MD5.hash_md5_init m) chunks = Some m')).
Proof.
  repeat split.
  1, 2: rewrite sha256_update_chunks; apply sha256_update_bufferSize; simpl; lia.
  1, 2: unfold Sha256.hash_sha224_update_binary; rewrite sha256_update_chunks;
        apply sha256_update_bufferSize; simpl; lia.
  1, 2: rewrite sha512_update_chunks; apply sha512_update_bufferSize; simpl; lia.
  1, 2: unfold Sha512.hash_sha384_update_binary; rewrite sha512_update_chunks;
        apply sha512_update_bufferSize; simpl; lia.
  1, 2, 3: apply sha512t_init_Returned in H; subst s';
        destruct (sha512t_generate_iv_fields (Sha512.sha512t_seed s t) (Sha512.sha512t_label t))
          as (H1 & _).
  1: exact H1.
  1, 2: unfold Sha512.hash_sha512t_update_binary; rewrite sha512_update_chunks;
        apply sha512_update_bufferSize; rewrite H1; lia.
  1, 2: rewrite sha1_update_chunks; apply sha1_update_bufferSize; simpl; lia.
  1, 2: apply md5_index_range.
  apply md5_updates_return.
Qed.

Lemma partial_buffer_below_block_size_witness :
  Sha512.hash_sha512t_init false zeroed_sha512 224
  = Returned (Sha512.sha512t_generate_iv (Sha512.sha512t_seed zeroed_sha512 224)
                                         (Sha512.sha512t_label 224)) /\
  0 <= Sha512.bufferSize
         (fold_left Sha512.hash_sha512t_update_binary
            [list_byte_of_string "ab"; list_byte_of_string "c"]
            (Sha512.sha512t_generate_iv (Sha512.sha512t_seed zeroed_sha512 224)
                                        (Sha512.sha512t_label 224))) < 128.
Proof.
  split; [ reflexivity | ].
  apply (proj1 (proj2 (proj2 (proj2 (proj2 partial_buffer_below_block_size))))
           false zeroed_sha512 224).
  reflexivity.
Defined.

(** C6 (amended). For every reachable state of a SHA-1 or SHA-2 engine, and
    for every reachable state of an MD5 engine that is not finalized yet, one
    finalization calls the block transform twice when the partial buffer
    holds 56 bytes or more (of 64; 112 or more of 128 for the SHA-512
    family) and once otherwise.  Finalizing an MD5 engine that is already
    finalized leaves it as it is. *)
Theorem finalize_transform_count :
  (forall s, sha256_reachable s ->
      Sha256.transforms (Sha256.hash_sha256_finalize s)
      = (Sha256.transforms s + if (56 <=? Sha256.bufferSize s)%Z then 2 else 1)%nat) /\
  (forall s, sha256_reachable s ->
      Sha256.transforms (Sha256.hash_sha224_finalize s)
      = (Sha256.transforms s + if (56 <=? Sha256.bufferSize s)%Z then 2 else 1)%nat) /\
  (forall s, sha512_reachable s ->
      Sha512.transforms (Sha512.hash_sha512_finalize s)
      = (Sha512.transforms s + if (112 <=? Sha512.bufferSize s)%Z then 2 else 1)%nat) /\
  (forall s, sha512_reachable s ->
      Sha512.transforms (Sha512.hash_sha384_finalize s)
      = (Sha512.transforms s + if (112 <=? Sha512.bufferSize s)%Z then 2 else 1)%nat) /\
  (forall s, sha512_reachable s ->
      Sha512.transforms (Sha512.hash_sha512t_finalize s)
      = (Sha512.transforms s + if (112 <=? Sha512.bufferSize s)%Z then 2 else 1)%nat) /\
  (forall s, sha1_reachable s ->
      Sha1.transforms (Sha1.hash_sha1_finalize s)
      = (Sha1.transforms s + if (56 <=? Sha1.bufferSize s)%Z then 2 else 1)%nat) /\
  (forall m, md5_reachable m -> MD5.finalized m = 0 ->
      exists m', MD5.hash_md5_finalize m = Some m' /\
        MD5.transforms m'
        = (MD5.transforms m + if (56 <=? md5_index m)%Z then 2 else 1)%nat) /\
  (forall m, md5_reachable m -> MD5.finalized m <> 0 -> MD5.hash_md5_finalize m = Some m).
Proof.
  repeat split; intros s Hs.
  - apply sha256_finalize_transforms.
  - apply sha256_finalize_transforms.
  - apply sha512_finalize_transforms.
  - apply sha512_finalize_transforms.
  - apply sha512_finalize_transforms.
  - apply sha1_finalize_transforms.
  - intros Hfin. apply md5_finalize_transforms; [ | exact Hfin ].
    rewrite (md5_reachable_inv s Hs). lia.
  - intros Hfin. unfold MD5.hash_md5_finalize.
    destruct (Z.eqb_spec (MD5.finalized s) 0); [ contradiction | reflexivity ].
Qed.

Lemma md5_finalized_once_eq :
  MD5.hash_md5_finalize (MD5.hash_md5_init zeroed_md5) = Some md5_finalized_once.
Proof. vm_compute. reflexivity. Qed.

Lemma md5_finalized_once_reachable : md5_reachable md5_finalized_once.
Proof.
  apply (md5_reach_finalize (MD5.hash_md5_init zeroed_md5)).
  - apply md5_reach_init; reflexivity.
  - exact md5_finalized_once_eq.
Qed.

Lemma finalize_transform_count_witness :
  md5_reachable (MD5.hash_md5_init zeroed_md5) /\
  MD5.finalized (MD5.hash_md5_init zeroed_md5) = 0 /\
  exists m', MD5.hash_md5_finalize (MD5.hash_md5_init zeroed_md5) = Some m' /\
    MD5.transforms m'
    = (MD5.transforms (MD5.hash_md5_init zeroed_md5)
       + if (56 <=? md5_index (MD5.hash_md5_init zeroed_md5))%Z then 2 else 1)%nat.
Proof.
  split; [ apply md5_reach_init; reflexivity | ].
  split; [ reflexivity | ].
  apply (proj1 (proj2 (proj2 (proj2 (proj2 (proj2 (proj2 finalize_transform_count))))))).
  - apply md5_reach_init; reflexivity.
  - reflexivity.
Defined.

(** C6, as stated, fails on a reachable MD5 engine that is already
    finalized: the second finalization returns and calls the transform
    neither once nor twice, but not at all. *)
Lemma md5_second_finalize_no_transform :
  md5_reachable md5_finalized_once /\
  exists m', MD5.hash_md5_finalize md5_finalized_once = Some m' /\
    MD5.transforms m' = MD5.transforms md5_finalized_once /\
    ~ (MD5.transforms m' = (MD5.transforms md5_finalized_once + 1)%nat \/
       MD5.transforms m' = (MD5.transforms md5_finalized_once + 2)%nat).
Proof.
  split; [ exact md5_finalized_once_reachable | ].
  exists md5_finalized_once.
  split; [ vm_compute; reflexivity | ].
  split; [ reflexivity | ].
  intros [H | H]; lia.
Qed.

(** C10. [hash_md5_hexdigest] (and [MD5::hexdigest]) called on an engine
    whose [finalized] flag is unset returns the empty string and leaves the
    engine as it is. *)
Theorem md5_hexdigest_before_finalize (m : MD5.Hash_Private_MD5) :
  MD5.finalized m = 0 ->
  MD5.hash_md5_hexdigest m = (EmptyString, m) /\
  Hash.MD5_hexdigest m = (EmptyString, m).
Proof.
  intros H. unfold Hash.MD5_hexdigest, MD5.hash_md5_hexdigest. rewrite H. split; reflexivity.
Qed.

Lemma md5_hexdigest_before_finalize_witness :
  MD5.finalized (MD5.hash_md5_init zeroed_md5) = 0 /\
  MD5.hash_md5_hexdigest (MD5.hash_md5_init zeroed_md5)
  = (EmptyString, MD5.hash_md5_init zeroed_md5).
Proof.
  split; [ reflexivity | ].
  apply (md5_hexdigest_before_finalize (MD5.hash_md5_init zeroed_md5)). reflexivity.
Defined.

(** ** Chunk invariance *)

(** X1. The engines whose update stores the bytes one at a time (SHA-1
    and the SHA-2 family) give the same digest for every way of cutting the
    input into chunks. *)
Lemma sha_chunk_invariance :
  (forall s chunks, sha256_stream s chunks = sha256_stream s [concat chunks]) /\
  (forall s chunks, sha224_stream s chunks = sha224_stream s [concat chunks]) /\
  (forall s chunks, sha512_stream s chunks = sha512_stream s [concat chunks]) /\
  (forall s chunks, sha384_stream s chunks = sha384_stream s [concat chunks]) /\
  (forall ndebug s t chunks,
      sha512t_stream ndebug s t chunks = sha512t_stream ndebug s t [concat chunks]) /\
  (forall s chunks, sha1_stream s chunks = sha1_stream s [concat chunks]).
Proof.
  repeat split; intros.
  - unfold sha256_stream. rewrite sha256_update_chunks. reflexivity.
  - unfold sha224_stream, Sha256.hash_sha224_update_binary.
    rewrite sha256_update_chunks. reflexivity.
  - unfold sha512_stream. rewrite sha512_update_chunks. reflexivity.
  - unfold sha384_stream, Sha512.hash_sha384_update_binary.
    rewrite sha512_update_chunks. reflexivity.
  - unfold sha512t_stream, Sha512.hash_sha512t_update_binary.
    destruct (Sha512.hash_sha512t_init ndebug s t); try reflexivity.
    rewrite sha512_update_chunks. reflexivity.
  - unfold sha1_stream. rewrite sha1_update_chunks. reflexivity.
Qed.

(** An MD5 update that does not fill the buffer looks at its input only
    through the converted length and that many leading bytes. *)
Lemma md5_update_ext m i1 i2 :
  md5_seen i1 = md5_seen i2 ->
  md5_seen i1 < 64 - md5_index m ->
  take (Z.to_nat (md5_seen i1)) i1 = take (Z.to_nat (md5_seen i2)) i2 ->
  MD5.hash_private_md5_update_binary m i1 = MD5.hash_private_md5_update_binary m i2.
Proof.
  intros Hs Hsmall Htake. rewrite !md5_update_unfold.
  destruct (Z.leb_spec (64 - md5_index m) (md5_seen i1)); [ lia | ].
  destruct (Z.leb_spec (64 - md5_index m) (md5_seen i2)); [ lia | ].
  unfold md5_count_after. rewrite Htake, Hs. reflexivity.
Qed.

Lemma four_GiB_value : Z.of_nat four_GiB = 2 ^ 32.
Proof. unfold four_GiB. apply Z2Nat.id. lia. Qed.

Lemma md5_seen_big_zeros : md5_seen md5_big_zeros = 0.
Proof.
  unfold md5_seen, md5_big_zeros. rewrite length_replicate, four_GiB_value. reflexivity.
Qed.

Lemma md5_seen_big_input : md5_seen md5_big_input = 1.
Proof.
  unfold md5_seen, md5_big_input, md5_big_zeros.
  rewrite length_app, length_replicate, Nat2Z.inj_add, four_GiB_value. reflexivity.
Qed.

Lemma md5_big_input_head : take 1 md5_big_input = [x00].
Proof.
  unfold md5_big_input, md5_big_zeros.
  assert (H : (1 <= four_GiB)%nat) by (pose proof four_GiB_value; lia).
  rewrite take_app_le by (rewrite length_replicate; exact H).
  rewrite take_replicate, Nat.min_l by exact H. reflexivity.
Qed.

(** C2 fails for MD5.  The 2^32 + 1 bytes of [md5_big_input] hashed with
    one update give the digest of the single byte 0 (the length is
    converted to [uint32_t], so only the first byte is seen), whereas the
    same bytes passed as the two chunks [md5_big_zeros] and [[1]] give the
    digest of the single byte 1 (the first chunk is seen as empty).  All
    the calls return. *)
Theorem md5_chunking_changes_digest :
  concat [md5_big_zeros; [x01]] = md5_big_input /\
  md5_stream zeroed_md5 [md5_big_input]
  = Some "93b885adfe0da089cdf634904fd59f71"%string /\
  md5_stream zeroed_md5 [md5_big_zeros; [x01]]
  = Some "55a54008ad1ba589aa210d2629c1df41"%string.
Proof.
  split; [ | split ].
  - unfold md5_big_input. cbn [concat]. rewrite app_nil_r. reflexivity.
  - unfold md5_stream. cbn [md5_updates]. unfold MD5.hash_md5_update_binary.
    rewrite (md5_update_ext (MD5.hash_md5_init zeroed_md5) md5_big_input [x00]).
    + vm_compute. reflexivity.
    + rewrite md5_seen_big_input. reflexivity.
    + rewrite md5_seen_big_input. reflexivity.
    + rewrite md5_seen_big_input. apply md5_big_input_head.
  - unfold md5_stream. cbn [md5_updates]. unfold MD5.hash_md5_update_binary.
    rewrite (md5_update_ext (MD5.hash_md5_init zeroed_md5) md5_big_zeros []).
    + vm_compute. reflexivity.
    + rewrite md5_seen_big_zeros. reflexivity.
    + rewrite md5_seen_big_zeros. reflexivity.
    + rewrite md5_seen_big_zeros. reflexivity.
Qed.

(** ** Keccak: the state keeps its 200 bytes *)

Lemma fold_left_inv {A B} (P : A -> Prop) (f : A -> B -> A) (l : list B) (a : A) :
  P a -> (forall a b, P a -> P (f a b)) -> P (fold_left f l a).
Proof.
  intros Ha Hf. revert a Ha. induction l as [| b l IH]; intros a Ha; simpl; [ exact Ha | ].
  apply IH, Hf, Ha.
Qed.

Lemma keccak_WRITELANE_length st x y lane :
  length (Keccak.hash_private_keccak_WRITELANE st x y lane) = length st.
Proof. apply length_memcpy. Qed.

Lemma keccak_XORLANE_length st x y lane :
  length (Keccak.hash_private_keccak_XORLANE st x y lane) = length st.
Proof. apply length_memcpy. Qed.

Lemma keccak_theta_length st : length (Keccak.theta st) = length st.
Proof.
  unfold Keccak.theta. cbv zeta.
  apply (fold_left_inv (fun s => length s = length st)); [ reflexivity | ].
  intros a x Ha.
  apply (fold_left_inv (fun s => length s = length st)); [ exact Ha | ].
  intros b y Hb. rewrite keccak_XORLANE_length. exact Hb.
Qed.

Lemma keccak_rho_pi_length st : length (Keccak.rho_pi st) = length st.
Proof.
  unfold Keccak.rho_pi. cbv zeta.
  set (step := fun (acc : list byte * nat * nat * Z) (t : nat) => _).
  assert (H : length (fst (fst (fst (fold_left step (seq 0 24)
                (st, 1%nat, 0%nat, Keccak.HASH_PRIVATE_KECCAK_READLANE st 1 0)))))
              = length st).
  { apply (fold_left_inv (fun acc => length (fst (fst (fst acc))) = length st));
      [ reflexivity | ].
    intros [[[s x] y] c] t Hs. subst step. cbn [fst] in *.
    rewrite keccak_WRITELANE_length. exact Hs. }
  destruct (fold_left step _ _) as [[[s x] y] c]. exact H.
Qed.

Lemma keccak_chi_length st : length (Keccak.chi st) = length st.
Proof.
  unfold Keccak.chi.
  apply (fold_left_inv (fun s => length s = length st)); [ reflexivity | ].
  intros a y Ha. cbv zeta.
  apply (fold_left_inv (fun s => length s = length st)); [ exact Ha | ].
  intros b x Hb. rewrite keccak_WRITELANE_length. exact Hb.
Qed.

Lemma keccak_iota_length acc : length (fst (Keccak.iota acc)) = length (fst acc).
Proof.
  unfold Keccak.iota.
  apply (fold_left_inv (fun a => length (fst a) = length (fst acc))); [ reflexivity | ].
  intros [s l] j Hs. cbn [fst] in Hs.
  destruct (Keccak.hash_private_keccak_LFSR86540 l) as [bit l'].
  destruct bit; cbn [fst]; rewrite ?keccak_XORLANE_length; exact Hs.
Qed.

Lemma keccak_F1600_length st : length (Keccak.KeccakF1600 st) = length st.
Proof.
  unfold Keccak.KeccakF1600.
  apply (fold_left_inv (fun a => length (fst a) = length st)); [ reflexivity | ].
  intros [s l] round Hs. cbn [fst] in Hs.
  rewrite keccak_iota_length. cbn [fst].
  rewrite keccak_chi_length, keccak_rho_pi_length, keccak_theta_length. exact Hs.
Qed.

Lemma keccak_permute_length sp :
  length (Keccak.state (Keccak.hash_private_keccak_KeccakF1600_StatePermute sp))
  = length (Keccak.state sp).
Proof. apply keccak_F1600_length. Qed.

Lemma keccak_xor_at_length sp i v :
  length (Keccak.state (Keccak.xor_at sp i v)) = length (Keccak.state sp).
Proof. apply length_insert. Qed.

Lemma keccak_xor_block_length sp i block :
  length (Keccak.state (Keccak.xor_block sp i block)) = length (Keccak.state sp).
Proof.
  revert sp i. induction block as [| b block IH]; intros sp i; simpl; [ reflexivity | ].
  rewrite IH. apply keccak_xor_at_length.
Qed.

Lemma keccak_pad_length r sp blockSize suffix :
  length (Keccak.state (Keccak.pad r sp blockSize suffix)) = length (Keccak.state sp).
Proof.
  unfold Keccak.pad. cbv zeta. rewrite keccak_permute_length, keccak_xor_at_length.
  destruct (_ && _); rewrite ?keccak_permute_length; apply keccak_xor_at_length.
Qed.

Lemma keccak_absorb_length fuel r sp input blockSize sp' pos :
  Keccak.absorb fuel r sp input blockSize = Some (sp', pos) ->
  length (Keccak.state sp') = length (Keccak.state sp).
Proof.
  revert sp input blockSize. induction fuel as [| fuel IH]; intros sp input blockSize H.
  - destruct input; simpl in H; [ | discriminate H ]. injection H as <- _. reflexivity.
  - destruct input as [| b input']; [ simpl in H; injection H as <- _; reflexivity | ].
    cbn [Keccak.absorb] in H. cbv zeta in H.
    destruct (_ =? r)%nat; apply IH in H; rewrite H;
      rewrite ?keccak_permute_length; apply keccak_xor_block_length.
Qed.

(** ** Keccak: the three phases of the sponge *)

(** With a positive rate and enough fuel the absorbing loop ends, and the
    final [blockSize] is the number of bytes of the last, partial block. *)
Lemma keccak_absorb_total fuel r sp input blockSize :
  (0 < r)%nat -> (length input <= fuel)%nat ->
  exists sp',
    Keccak.absorb fuel r sp input blockSize
    = Some (sp', match input with [] => blockSize | _ => (length input mod r)%nat end).
Proof.
  intros Hr. revert sp input blockSize.
  induction fuel as [| fuel IH]; intros sp input blockSize Hfuel.
  - destruct input; [ | simpl in Hfuel; lia ]. exists sp. reflexivity.
  - destruct input as [| b input']; [ exists sp; reflexivity | ].
    cbn [Keccak.absorb]. cbv zeta.
    remember (b :: input') as input eqn:Einput.
    assert (Hlen : (1 <= length input)%nat) by (subst input; simpl; lia).
    clear Einput.
    destruct (Nat.eqb_spec (Nat.min (length input) r) r) as [Hfull | Hpart].
    + assert (Hge : (r <= length input)%nat) by lia.
      rewrite Nat.min_r by exact Hge.
      destruct (IH (Keccak.hash_private_keccak_KeccakF1600_StatePermute
                      (Keccak.xor_block sp 0 (take r input))) (drop r input) 0%nat)
        as [sp' Hsp'].
      { rewrite length_drop. lia. }
      exists sp'. rewrite Hsp'. f_equal. f_equal.
      destruct (drop r input) as [| x rest] eqn:Hdrop.
      * assert (Hlen' : length input = r).
        { apply (f_equal length) in Hdrop. rewrite length_drop in Hdrop. simpl in Hdrop. lia. }
        rewrite Hlen'. symmetry. apply Nat.Div0.mod_same.
      * rewrite <- Hdrop, length_drop.
        replace (length input) with ((length input - r) + 1 * r)%nat at 2 by lia.
        rewrite Nat.Div0.mod_add. reflexivity.
    + assert (Hlt : (length input < r)%nat) by lia.
      rewrite Nat.min_l by lia.
      rewrite drop_all.
      destruct fuel as [| fuel']; exists (Keccak.xor_block sp 0 (take (length input) input));
        cbn [Keccak.absorb]; rewrite Nat.mod_small by exact Hlt; reflexivity.
Qed.

(** The log of the padding phase: the suffix at [blockSize], one
    permutation exactly when the suffix has its high bit set and
    [blockSize] is the last byte of the rate, then 0x80 at the last byte of
    the rate and the permutation that starts the squeezing. *)
Lemma keccak_pad_trace r sp blockSize suffix :
  Keccak.trace (Keccak.pad r sp blockSize suffix)
  = Keccak.trace sp
    ++ [Keccak.XorByte blockSize suffix]
    ++ (if negb (Z.land (Z_of_byte suffix) 0x80 =? 0) && (blockSize =? r - 1)%nat
        then [Keccak.Permute] else [])
    ++ [Keccak.XorByte (r - 1) x80; Keccak.Permute].
Proof.
  unfold Keccak.pad. cbv zeta.
  destruct (negb (Z.land (Z_of_byte suffix) 0x80 =? 0) && (blockSize =? r - 1)%nat);
    cbn [Keccak.trace Keccak.hash_private_keccak_KeccakF1600_StatePermute Keccak.xor_at];
    rewrite <- !app_assoc; reflexivity.
Qed.

(** With a positive rate and enough fuel the squeezing loop ends; it only
    permutes. *)
Lemma keccak_squeeze_total fuel r sp n :
  (0 < r)%nat -> (n <= fuel)%nat ->
  exists out sp' k,
    Keccak.squeeze fuel r sp n = Some (out, sp') /\
    Keccak.trace sp' = Keccak.trace sp ++ replicate k Keccak.Permute.
Proof.
  intros Hr. revert sp n. induction fuel as [| fuel IH]; intros sp n Hfuel.
  - destruct n; [ | lia ]. exists [], sp, 0%nat. split; [ reflexivity | ].
    simpl. rewrite app_nil_r. reflexivity.
  - destruct n as [| n'].
    { exists [], sp, 0%nat. split; [ reflexivity | ]. simpl. rewrite app_nil_r. reflexivity. }
    cbn [Keccak.squeeze]. cbv zeta. remember (S n') as n eqn:En. clear En.
    destruct (Nat.ltb_spec 0 (n - Nat.min n r)) as [Hmore | Hdone].
    + destruct (IH (Keccak.hash_private_keccak_KeccakF1600_StatePermute sp) (n - Nat.min n r)%nat)
        as (out & sp' & k & Hsq & Htr); [ lia | ].
      rewrite Hsq. exists (take (Nat.min n r) (Keccak.state sp) ++ out), sp', (S k).
      split; [ reflexivity | ].
      rewrite Htr. cbn [Keccak.trace Keccak.hash_private_keccak_KeccakF1600_StatePermute].
      rewrite <- app_assoc. reflexivity.
    + exists (take (Nat.min n r) (Keccak.state sp)), sp, 0%nat.
      split; [ reflexivity | ]. simpl. rewrite app_nil_r. reflexivity.
Qed.

(** The squeezed stream can be extended: a shorter output is a prefix of a
    longer one. *)
Lemma keccak_squeeze_prefix f1 f2 r sp n m o1 sp1 o2 sp2 :
  (r <= length (Keccak.state sp))%nat -> (n <= m)%nat ->
  Keccak.squeeze f1 r sp n = Some (o1, sp1) ->
  Keccak.squeeze f2 r sp m = Some (o2, sp2) ->
  o1 = take n o2.
Proof.
  revert f2 sp n m o1 sp1 o2 sp2.
  induction f1 as [| f1 IH]; intros f2 sp n m o1 sp1 o2 sp2 Hst Hnm H1 H2.
  - destruct n; [ | discriminate H1 ]. injection H1 as <- _. reflexivity.
  - destruct n as [| n']; [ injection H1 as <- _; reflexivity | ].
    destruct m as [| m']; [ lia | ].
    destruct f2 as [| f2]; [ discriminate H2 | ].
    cbn [Keccak.squeeze] in H1, H2. cbv zeta in H1, H2.
    remember (S n') as n eqn:En. remember (S m') as m eqn:Em.
    assert (Hn0 : (0 < n)%nat) by lia. clear En Em.
    destruct (Nat.ltb_spec 0 (n - Nat.min n r)) as [Hn | Hn].
    + (* both outputs are longer than the rate *)
      assert (Hrn : (r < n)%nat) by lia.
      rewrite Nat.min_r in H1 by lia.
      rewrite Nat.min_r in H2 by lia.
      destruct (Nat.ltb_spec 0 (m - r)) as [Hm | Hm]; [ | lia ].
      destruct (Keccak.squeeze f1 r _ (n - r)) as [[rest1 sp1'] |] eqn:E1; [ | discriminate H1 ].
      destruct (Keccak.squeeze f2 r _ (m - r)) as [[rest2 sp2'] |] eqn:E2; [ | discriminate H2 ].
      injection H1 as <- _. injection H2 as <- _.
      assert (Hperm : (r <= length (Keccak.state
                 (Keccak.hash_private_keccak_KeccakF1600_StatePermute sp)))%nat)
        by (rewrite keccak_permute_length; exact Hst).
      assert (Hle : (n - r <= m - r)%nat) by lia.
      rewrite (IH _ _ _ _ _ _ _ _ Hperm Hle E1 E2).
      rewrite take_app_ge by (rewrite length_take; lia).
      rewrite length_take, Nat.min_l by lia. reflexivity.
    + (* the shorter output fits in one block *)
      assert (Hrn : (n <= r)%nat) by lia.
      rewrite Nat.min_l in H1 by lia. injection H1 as <- _.
      destruct (0 <? m - Nat.min m r)%nat.
      * destruct (Keccak.squeeze f2 r _ _) as [[rest2 sp2'] |]; [ | discriminate H2 ].
        injection H2 as <- _.
        rewrite take_app_le by (rewrite length_take; lia).
        rewrite take_take. f_equal. lia.
      * injection H2 as <- _. rewrite take_take. f_equal. lia.
Qed.

(** Two hexadecimal digits per byte. *)
Lemma hex_string_take k data :
  hash_util_char_array_to_hex_string (take k data)
  = substring 0 (2 * k) (hash_util_char_array_to_hex_string data).
Proof.
  revert data. induction k as [| k IH]; intros data.
  - simpl. destruct (hash_util_char_array_to_hex_string data); reflexivity.
  - destruct data as [| b data]; [ reflexivity | ].
    replace (2 * S k)%nat with (S (S (2 * k))) by lia.
    cbn [take hash_util_char_array_to_hex_string substring]. rewrite IH. reflexivity.
Qed.

(** The whole sponge function, phase by phase, for a rate that is a
    positive multiple of 8 with [rate + capacity == 1600]. *)
Lemma keccak_Keccak_phases rate capacity input suffix n :
  uint32_t (rate + capacity) = 1600 -> rate mod 8 = 0 -> 0 < rate ->
  exists sp out sp2 k,
    Keccak.absorb (S (length input)) (Z.to_nat (rate / 8))
                  (Keccak.mk (replicate 200 x00) []) input 0
    = Some (sp, (length input mod Z.to_nat (rate / 8))%nat) /\
    length (Keccak.state sp) = 200%nat /\
    Keccak.squeeze (S n) (Z.to_nat (rate / 8))
                   (Keccak.pad (Z.to_nat (rate / 8)) sp
                               (length input mod Z.to_nat (rate / 8))%nat suffix) n
    = Some (out, sp2) /\
    Keccak.trace sp2
    = Keccak.trace (Keccak.pad (Z.to_nat (rate / 8)) sp
                               (length input mod Z.to_nat (rate / 8))%nat suffix)
      ++ replicate k Keccak.Permute /\
    Keccak.hash_private_keccak_Keccak rate capacity input suffix n
    = Keccak.Written out (Keccak.trace sp2).
Proof.
  intros Hsum Hmod Hpos.
  assert (Hr : (0 < Z.to_nat (rate / 8))%nat).
  { assert (8 <= rate) by (apply Z.mod_divide in Hmod; [ destruct Hmod as [q Hq]; lia | lia ]).
    assert (1 <= rate / 8) by (apply Z.div_le_lower_bound; lia). lia. }
  set (r := Z.to_nat (rate / 8)) in *.
  destruct (keccak_absorb_total (S (length input)) r (Keccak.mk (replicate 200 x00) []) input 0%nat
              Hr ltac:(lia)) as [sp Hsp].
  assert (Hpos' : match input with [] => 0%nat | _ :: _ => (length input mod r)%nat end
                  = (length input mod r)%nat).
  { destruct input; [ | reflexivity ]. simpl. symmetry. apply Nat.Div0.mod_0_l. }
  rewrite Hpos' in Hsp.
  destruct (keccak_squeeze_total (S n) r (Keccak.pad r sp (length input mod r)%nat suffix) n
              Hr ltac:(lia)) as (out & sp2 & k & Hsq & Htr).
  exists sp, out, sp2, k. repeat split; try assumption.
  - rewrite (keccak_absorb_length _ _ _ _ _ _ _ Hsp). reflexivity.
  - unfold Keccak.hash_private_keccak_Keccak. cbv zeta. fold r.
    rewrite Hsum, Hmod. cbn [Z.eqb Pos.eqb negb orb]. rewrite Hsp, Hsq. reflexivity.
Qed.

(** ** SHAKE: a shorter output is a prefix of a longer one *)

(** The block of [malloc] is large enough exactly when its size has not
    wrapped around. *)
Lemma shake_block_overrun n :
  0 < n ->
  (uint64_t (n * 3 + 1) <? n + (2 * (n / 2) + 1)) = negb (n * 3 + 1 <? 2 ^ 64).
Proof.
  intros Hn. unfold uint64_t. change (2 ^ 64) with 18446744073709551616.
  destruct (Z.ltb_spec (n * 3 + 1) 18446744073709551616) as [Hfit | Hwrap]; cbn [negb].
  - rewrite Z.mod_small by lia. apply Z.ltb_ge. Z.div_mod_to_equations. lia.
  - apply Z.ltb_lt. Z.div_mod_to_equations. lia.
Qed.

Lemma shake_binary_prefix rate capacity limit malloc_ok data n m buffer rm :
  uint32_t (rate + capacity) = 1600 -> rate mod 8 = 0 -> 0 < rate <= 1600 ->
  0 <= limit -> 0 <= n <= m ->
  Keccak.shake_binary rate capacity limit malloc_ok data m buffer = Returned rm ->
  Keccak.shake_binary rate capacity limit malloc_ok data n buffer
  = Returned (substring 0 (2 * Z.to_nat (n / 2)) rm).
Proof.
  intros Hsum Hmod Hrate Hlimit Hnm. unfold Keccak.shake_binary. cbv zeta.
  assert (Hhalf : n / 2 <= m / 2) by (apply Z.div_le_mono; lia).
  assert (Hr200 : (Z.to_nat (rate / 8) <= 200)%nat).
  { assert (rate / 8 <= 200) by (apply Z.div_le_upper_bound; lia). lia. }
  destruct (keccak_Keccak_phases rate capacity data "031"%byte (Z.to_nat (m / 2))
              Hsum Hmod ltac:(lia)) as (sp & om & spm & km & Habs & Hlen & Hsqm & _ & Hrunm).
  destruct (keccak_Keccak_phases rate capacity data "031"%byte (Z.to_nat (n / 2))
              Hsum Hmod ltac:(lia)) as (sp' & on & spn & kn & Habs' & _ & Hsqn & _ & Hrunn).
  rewrite Habs in Habs'. injection Habs' as <-.
  rewrite Hrunm, Hrunn.
  assert (Hpre : on = take (Z.to_nat (n / 2)) om).
  { eapply keccak_squeeze_prefix; [ | | exact Hsqn | exact Hsqm ].
    - rewrite keccak_pad_length, Hlen. exact Hr200.
    - lia. }
  destruct buffer; cbn [negb andb].
  - (* the caller passes a buffer: the digest goes to [intBuff] *)
    destruct (Z.ltb_spec (limit / 2) (m / 2)); [ discriminate | ].
    destruct (Z.ltb_spec (limit / 2) (n / 2)); [ lia | ].
    intros Hret. injection Hret as <-. rewrite Hpre, hex_string_take. reflexivity.
  - destruct (Z.ltb_spec limit m) as [Hbig | Hsmall]; cbn [negb andb].
    + (* the longer output goes to a block of [malloc] *)
      destruct malloc_ok; cbn [negb]; [ | discriminate ].
      rewrite (shake_block_overrun m) by lia.
      destruct (Z.ltb_spec (m * 3 + 1) (2 ^ 64)) as [Hfit | ]; cbn [negb]; [ | discriminate ].
      intros Hret. injection Hret as <-.
      destruct (Z.ltb_spec limit n); cbn [negb andb].
      * rewrite (shake_block_overrun n) by lia.
        destruct (Z.ltb_spec (n * 3 + 1) (2 ^ 64)); cbn [negb]; [ | lia ].
        rewrite Hpre, hex_string_take. reflexivity.
      * destruct (Z.ltb_spec (limit / 2) (n / 2)) as [Hbad | _].
        { assert (n / 2 <= limit / 2) by (apply Z.div_le_mono; lia). lia. }
        rewrite Hpre, hex_string_take. reflexivity.
    + destruct (Z.ltb_spec (limit / 2) (m / 2)); [ discriminate | ].
      intros Hret. injection Hret as <-.
      destruct (Z.ltb_spec limit n); [ lia | ]. cbn [negb andb].
      destruct (Z.ltb_spec (limit / 2) (n / 2)); [ lia | ].
      rewrite Hpre, hex_string_take. reflexivity.
Qed.

(** C7 (amended). [outsizeBytes] counts hexadecimal characters and is
    halved: for [n <= m], the result of [hash_shake128_binary] for the
    output length [n] is the first [2 * (n / 2)] characters (the first [n]
    when [n] is even) of its result for the output length [m], whenever the
    call for [m] returns; the same holds for [hash_shake256_binary]. *)
Theorem shake_output_prefix malloc_ok data n m buffer rm :
  0 <= n <= m ->
  (Keccak.hash_shake128_binary malloc_ok data m buffer = Returned rm ->
   Keccak.hash_shake128_binary malloc_ok data n buffer
   = Returned (substring 0 (2 * Z.to_nat (n / 2)) rm)) /\
  (Keccak.hash_shake256_binary malloc_ok data m buffer = Returned rm ->
   Keccak.hash_shake256_binary malloc_ok data n buffer
   = Returned (substring 0 (2 * Z.to_nat (n / 2)) rm)).
Proof.
  intros Hnm. split; intros H.
  - apply (shake_binary_prefix 1344 256 _ _ _ _ m); try assumption; try reflexivity;
      unfold Keccak.HASH_SHAKE_128_MALLOC_LIMIT; lia.
  - apply (shake_binary_prefix 1088 512 _ _ _ _ m); try assumption; try reflexivity;
      unfold Keccak.HASH_SHAKE_256_MALLOC_LIMIT; lia.
Qed.

Lemma shake_output_prefix_witness :
  0 <= 5 <= 8 /\
  Keccak.hash_shake128_binary true [] 8 false = Returned "7f9c2ba4"%string /\
  Keccak.hash_shake128_binary true [] 5 false
  = Returned (substring 0 (2 * Z.to_nat (5 / 2)) "7f9c2ba4"%string).
Proof.
  assert (H : Keccak.hash_shake128_binary true [] 8 false = Returned "7f9c2ba4"%string)
    by (vm_compute; reflexivity).
  split; [ lia | ]. split; [ exact H | ].
  apply (proj1 (shake_output_prefix true [] 5 8 false "7f9c2ba4"%string ltac:(lia))). exact H.
Defined.

(** C7, as stated, fails: for the output lengths 1 and 2 and the empty
    input, the result for 1 is empty, whereas the result for 2 starts with
    the character 7. *)
Lemma shake128_odd_length_not_prefix :
  Keccak.hash_shake128_binary true [] 1 false = Returned EmptyString /\
  Keccak.hash_shake128_binary true [] 2 false = Returned "7f"%string /\
  substring 0 1 "7f"%string <> EmptyString.
Proof.
  split; [ vm_compute; reflexivity | ].
  split; [ vm_compute; reflexivity | ].
  discriminate.
Qed.

Example keccak_pad_extra_permutation sp :
  Keccak.trace (Keccak.pad 136 sp 135 "139"%byte)
  = Keccak.trace sp
    ++ [Keccak.XorByte 135 "139"%byte; Keccak.Permute;
        Keccak.XorByte 135 x80; Keccak.Permute].
Proof. rewrite keccak_pad_trace. reflexivity. Qed.

(** ** File hashing when the file cannot be opened *)

(** The C interface returns the empty string, which is no digest. *)
Lemma hash_util_hash_file_unopened fs path hashfunc :
  opens (fs path) = false -> hash_util_hash_file fs path hashfunc = EmptyString.
Proof.
  intros H. unfold hash_util_hash_file, hash_util_load_file. rewrite H. reflexivity.
Qed.

(** The C++ interface hashes the empty string [LoadFile] returns. *)
Lemma cpp_file_sha256_unopened fs s path :
  opens (fs path) = false -> Hash.File.sha256 fs s path = Hash.sha256 s [].
Proof.
  intros H. unfold Hash.File.sha256, Hash.Util.LoadFile. rewrite H. reflexivity.
Qed.

(** C3 fails for the C++ interface.  For a path that cannot be opened,
    [Hash::File::sha256] returns the SHA-256 digest of the empty input,
    whereas [hash_sha256_file] and [hash_sha256_file_easy] return the empty
    string. *)
Theorem file_sha256_of_missing_file :
  opens (no_files "missing.bin"%string) = false /\
  Hash.File.sha256 no_files zeroed_sha256 "missing.bin"%string
  = "e3b0c44298fc1c149afbf4c8996fb92427ae41e4649b934ca495991b7852b855"%string /\
  Sha256.hash_sha256_binary zeroed_sha256 []
  = "e3b0c44298fc1c149afbf4c8996fb92427ae41e4649b934ca495991b7852b855"%string /\
  hash_sha256_file no_files zeroed_sha256 "missing.bin"%string = EmptyString /\
  hash_sha256_file_easy no_files zeroed_sha256 "missing.bin"%string = EmptyString.
Proof.
  split; [ reflexivity | ].
  split; [ rewrite cpp_file_sha256_unopened by reflexivity; vm_compute; reflexivity | ].
  split; [ vm_compute; reflexivity | ].
  split; apply hash_util_hash_file_unopened; reflexivity.
Qed.

(** ** The parameter of SHA-512/t *)

Lemma decimal_short_table :
  forallb (fun n => (length (to_decimal (Z.of_nat n)) <=? 4)%nat) (seq 0 2049) = true.
Proof. vm_compute. reflexivity. Qed.

Lemma sha512t_label_short t :
  0 <= t <= 2048 -> (length (Sha512.sha512t_label t) <= 12)%nat.
Proof.
  intros Ht. unfold Sha512.sha512t_label. rewrite length_app.
  change (length (list_byte_of_string "SHA-512/")) with 8%nat.
  assert (Hu : uint32_t t = Z.of_nat (Z.to_nat t)).
  { unfold uint32_t. rewrite Z.mod_small; lia. }
  rewrite Hu.
  pose proof (proj1 (forallb_forall _ _) decimal_short_table (Z.to_nat t)) as H.
  cbv beta in H.
  assert (Hin : In (Z.to_nat t) (seq 0 2049)) by (apply in_seq; lia).
  apply H in Hin. apply Nat.leb_le in Hin. lia.
Qed.

Lemma cpp_Sha512T_ctor_Returned s t :
  is_returned (Hash.Sha512T_ctor true s t) = true.
Proof. reflexivity. Qed.




(** ** SHA-512/224 against FIPS 180-4 *)

Example fips_sha512_224_abc :
  hash_util_char_array_to_hex_string (FIPS180.sha512_224 (list_byte_of_string "abc"))
  = "4634270f707b6a54daae7530460842e20e37ed265ceee9a43e8924aa"%string.
Proof. vm_compute. reflexivity. Qed.

Example fips_sha512_224_empty :
  hash_util_char_array_to_hex_string (FIPS180.sha512_224 [])
  = "6ed0dd02806fa89e25de060c19d3ac86cabb87d6a0ddd05c333b84f4"%string.
Proof. vm_compute. reflexivity. Qed.

Example fips_sha512_224_two_blocks :
  hash_util_char_array_to_hex_string (FIPS180.sha512_224 (list_byte_of_string
    "abcdefghbcdefghicdefghijdefghijkefghijklfghijklmghijklmnhijklmnoijklmnopjklmnopqklmnopqrlmnopqrsmnopqrstnopqrstu"))
  = "23fec5bb94d60b23308192640b0c453335d664734fe40e7268674af9"%string.
Proof. vm_compute. reflexivity. Qed.

Example fips_sha512_abc :
  hash_util_char_array_to_hex_string (FIPS180.sha512 (list_byte_of_string "abc"))
  = "ddaf35a193617abacc417349ae20413112e6fa4e89a97ea20a9eeee64b55d39a2192992a274fc1a836ba3c23a3feebbd454d4423643ce80e2a9ac94fa54ca49f"%string.
Proof. vm_compute. reflexivity. Qed.

(** *** Bytes and words *)

Lemma Z_of_byte_range b : 0 <= Z_of_byte b < 256.
Proof.
  unfold Z_of_byte. pose proof (Byte.to_N_bounded b) as H. lia.
Qed.

Lemma byte_of_Z_of_byte b : byte_of_Z (Z_of_byte b) = b.
Proof.
  unfold byte_of_Z. rewrite Z.mod_small by apply Z_of_byte_range.
  unfold Z_of_byte. rewrite N2Z.id, Byte.of_to_N. reflexivity.
Qed.

Lemma byte_of_Z_mod256 z : byte_of_Z (z mod 256) = byte_of_Z z.
Proof. unfold byte_of_Z. rewrite Z.mod_mod by lia. reflexivity. Qed.

Lemma length_le_encode n u : length (le_encode n u) = n.
Proof. revert u. induction n as [| n IH]; intros u; simpl; [ | rewrite IH ]; reflexivity. Qed.

Lemma le_encode_decode bs : le_encode (length bs) (le_decode bs) = bs.
Proof.
  induction bs as [| b bs IH]; [ reflexivity | ].
  cbn [length le_encode le_decode]. pose proof (Z_of_byte_range b) as Hb.
  f_equal.
  - rewrite <- byte_of_Z_mod256.
    replace ((Z_of_byte b + 256 * le_decode bs) mod 256) with (Z_of_byte b).
    + apply byte_of_Z_of_byte.
    + rewrite Z.mul_comm, Z.mod_add by lia. symmetry. apply Z.mod_small. exact Hb.
  - replace ((Z_of_byte b + 256 * le_decode bs) / 256) with (le_decode bs); [ exact IH | ].
    rewrite Z.mul_comm, Z.div_add by lia.
    rewrite (Z.div_small (Z_of_byte b)) by exact Hb. lia.
Qed.

(** On the little-endian host, swapping the object read from eight (or
    four) bytes gives their big-endian value, and the object bytes of a
    swapped value are the big-endian bytes. *)
Lemma swap_endian_object_value n bs :
  length bs = n -> hash_util_swap_endian n (object_value bs) = FIPS180.be_value bs.
Proof.
  intros <-. unfold hash_util_swap_endian, object_value, object_bytes, FIPS180.be_value.
  cbn [hash_util_is_little_endian]. rewrite le_encode_decode. reflexivity.
Qed.

Lemma object_bytes_swap_endian n u :
  object_bytes n (hash_util_swap_endian n u) = FIPS180.be_bytes n u.
Proof.
  unfold hash_util_swap_endian, object_value, object_bytes, FIPS180.be_bytes.
  cbn [hash_util_is_little_endian].
  rewrite <- (length_le_encode n u) at 1. rewrite <- length_rev.
  apply le_encode_decode.
Qed.

(** *** Loops over an index range *)

Lemma fold_left_seq_inv {A} (P : nat -> A -> Prop) (f : A -> nat -> A) a n x :
  P a x ->
  (forall i y, (a <= i < a + n)%nat -> P i y -> P (S i) (f y i)) ->
  P (a + n)%nat (fold_left f (seq a n) x).
Proof.
  revert a x. induction n as [| n IH]; intros a x Hx Hstep.
  - rewrite Nat.add_0_r. exact Hx.
  - cbn [seq fold_left]. replace (a + S n)%nat with (S a + n)%nat by lia.
    apply IH.
    + apply Hstep; [ lia | exact Hx ].
    + intros i y Hi. apply Hstep. lia.
Qed.

(** Eight consecutive bytes of an array. *)
Lemma take8_drop (l : list byte) n :
  (n + 8 <= length l)%nat ->
  take 8 (drop n l)
  = [l !!! n; l !!! (n + 1)%nat; l !!! (n + 2)%nat; l !!! (n + 3)%nat;
     l !!! (n + 4)%nat; l !!! (n + 5)%nat; l !!! (n + 6)%nat; l !!! (n + 7)%nat].
Proof.
  intros H.
  assert (Hlen : length (take 8 (drop n l)) = 8%nat) by (rewrite length_take, length_drop; lia).
  assert (Hk : forall k, (k < 8)%nat -> take 8 (drop n l) !!! k = l !!! (n + k)%nat).
  { intros k Hk. rewrite lookup_total_take_lt by lia. apply lookup_total_drop. }
  destruct (take 8 (drop n l)) as [| x0 [| x1 [| x2 [| x3 [| x4 [| x5 [| x6 [| x7 r]]]]]]]];
    try discriminate Hlen.
  destruct r; [ | discriminate Hlen ].
  pose proof (Hk 0%nat ltac:(lia)) as H0. pose proof (Hk 1%nat ltac:(lia)) as H1.
  pose proof (Hk 2%nat ltac:(lia)) as H2. pose proof (Hk 3%nat ltac:(lia)) as H3.
  pose proof (Hk 4%nat ltac:(lia)) as H4. pose proof (Hk 5%nat ltac:(lia)) as H5.
  pose proof (Hk 6%nat ltac:(lia)) as H6. pose proof (Hk 7%nat ltac:(lia)) as H7.
  rewrite Nat.add_0_r in H0.
  rewrite <- H0, <- H1, <- H2, <- H3, <- H4, <- H5, <- H6, <- H7. reflexivity.
Qed.

(** *** The message schedule and the compression of one block *)

Lemma lookup_total_map_seq {A} `{!Inhabited A} (f : nat -> A) n i :
  (i < n)%nat -> map f (seq 0 n) !!! i = f i.
Proof.
  intros H. apply list_lookup_total_correct.
  change (map f (seq 0 n)) with (f <$> seq 0 n).
  rewrite list_lookup_fmap, lookup_seq_lt by exact H. reflexivity.
Qed.

Lemma take_S_insert {A} (l : list A) i v :
  (i < length l)%nat -> take (S i) (<[i := v]> l) = take i l ++ [v].
Proof.
  intros H. rewrite (take_S_r _ _ v) by (apply list_lookup_insert_eq; exact H).
  rewrite take_insert_ge by lia. reflexivity.
Qed.

Lemma add64_reorder a s0 b s1 :
  uint64_t (uint64_t (uint64_t (a + s0) + b) + s1)
  = FIPS180.add (FIPS180.add (FIPS180.add s1 b) s0) a.
Proof.
  assert (H3 : forall x y z m, ((x mod m + y) mod m + z) mod m = (x + y + z) mod m).
  { intros x y z m. rewrite Zplus_mod_idemp_l, <- Z.add_assoc, Zplus_mod_idemp_l.
    f_equal. lia. }
  unfold uint64_t, FIPS180.add. rewrite !H3. f_equal. lia.
Qed.

Lemma sha512_load_word_value buf w i :
  (8 * i + 8 <= length buf)%nat ->
  Sha512.load_word buf w i = <[i := FIPS180.be_value (take 8 (drop (8 * i) buf))]> w.
Proof.
  intros H. unfold Sha512.load_word. cbv zeta. cbn [hash_util_is_little_endian].
  rewrite take8_drop by exact H.
  unfold hash_util_swap_endian_uint64_t. rewrite swap_endian_object_value by reflexivity.
  reflexivity.
Qed.

Lemma sha512_message_schedule buf :
  length buf = 128%nat ->
  Sha512.message_schedule buf = FIPS180.schedule (FIPS180.block_words buf) 80.
Proof.
  intros Hbuf. unfold Sha512.message_schedule. cbv zeta.
  set (M := FIPS180.block_words buf).
  set (P := fun (i : nat) (w : list Z) => length w = 80%nat /\ take i w = FIPS180.schedule M i).
  assert (H16 : P 16%nat (fold_left (Sha512.load_word buf) (seq 0 16) (replicate 80 0))).
  { apply (fold_left_seq_inv P (Sha512.load_word buf) 0 16).
    - split; reflexivity.
    - intros i y Hi [Hlen Htake]. rewrite sha512_load_word_value by lia. split.
      + rewrite length_insert. exact Hlen.
      + rewrite take_S_insert by lia. rewrite Htake. cbn [FIPS180.schedule].
        destruct (Nat.ltb_spec i 16); [ | lia ].
        unfold M, FIPS180.block_words. rewrite lookup_total_map_seq by lia. reflexivity. }
  assert (H80 : P 80%nat (fold_left Sha512.extend_word (seq 16 64)
                            (fold_left (Sha512.load_word buf) (seq 0 16) (replicate 80 0)))).
  { apply (fold_left_seq_inv P Sha512.extend_word 16 64); [ exact H16 | ].
    intros i y Hi [Hlen Htake]. unfold Sha512.extend_word. cbv zeta. split.
    - rewrite length_insert. exact Hlen.
    - rewrite take_S_insert by lia. rewrite Htake. cbn [FIPS180.schedule].
      destruct (Nat.ltb_spec i 16); [ lia | ].
      rewrite <- Htake. rewrite !lookup_total_take_lt by lia.
      f_equal. f_equal. apply add64_reorder. }
  destruct H80 as [Hlen Htake]. rewrite <- Htake.
  rewrite take_ge by lia. reflexivity.
Qed.

Lemma fold_left_ext {A B} (f g : A -> B -> A) l x :
  (forall a b, f a b = g a b) -> fold_left f l x = fold_left g l x.
Proof.
  intros H. revert x. induction l as [| b l IH]; intros x; simpl; [ reflexivity | ].
  rewrite H. apply IH.
Qed.

Lemma sha512_compress_round_step w v i :
  Sha512.compress_round w v i = FIPS180.step w v i.
Proof.
  destruct v as [[[[[[[a b] c] d] e] f] g] hh].
  unfold Sha512.compress_round, FIPS180.step, FIPS180.add, FIPS180.Sigma1, FIPS180.Sigma0,
    FIPS180.Ch, FIPS180.Maj, FIPS180.ROTR, FIPS180.complement, FIPS180.K,
    hash_util_right_rotate_u64, not64, uint64_t.
  reflexivity.
Qed.

Lemma sha512_compress_words hs M :
  length hs = 8%nat ->
  Sha512.compress_words hs (FIPS180.schedule M 80) = FIPS180.hash_block hs M.
Proof.
  intros Hlen. unfold Sha512.compress_words, FIPS180.hash_block. cbv zeta.
  rewrite (fold_left_ext (Sha512.compress_round (FIPS180.schedule M 80))
             (FIPS180.step (FIPS180.schedule M 80)))
    by (intros; apply sha512_compress_round_step).
  destruct (fold_left _ _ _) as [[[[[[[a b] c] d] e] f] g] hh].
  destruct hs as [| h0 [| h1 [| h2 [| h3 [| h4 [| h5 [| h6 [| h7 [| h8 r]]]]]]]]];
    try discriminate Hlen.
  unfold FIPS180.add, uint64_t. cbn.
  rewrite (Z.add_comm h0), (Z.add_comm h1), (Z.add_comm h2), (Z.add_comm h3),
          (Z.add_comm h4), (Z.add_comm h5), (Z.add_comm h6), (Z.add_comm h7).
  reflexivity.
Qed.

(** The transform is the hash computation of FIPS 180-4 on the block the
    buffer holds. *)
Lemma sha512_transform_h s :
  length (Sha512.buffer s) = 128%nat -> length (Sha512.h s) = 8%nat ->
  Sha512.h (Sha512.hash_private_sha512_transform s)
  = FIPS180.hash_block (Sha512.h s) (FIPS180.block_words (Sha512.buffer s)).
Proof.
  intros Hbuf Hh. unfold Sha512.hash_private_sha512_transform, Sha512.hash_private_sha512_compress.
  cbn [Sha512.h]. rewrite sha512_message_schedule by exact Hbuf.
  apply sha512_compress_words. exact Hh.
Qed.

Lemma fips_hash_block_length H M : length (FIPS180.hash_block H M) = 8%nat.
Proof.
  unfold FIPS180.hash_block. cbv zeta.
  destruct (fold_left _ _ _) as [[[[[[[a b] c] d] e] f] g] hh]. reflexivity.
Qed.

(** *** Blocks of the reference *)

Lemma fips_hash_blocks_length N H bytes :
  length H = 8%nat -> length (FIPS180.hash_blocks N H bytes) = 8%nat.
Proof.
  revert H bytes. induction N as [| N IH]; intros H bytes HH; cbn [FIPS180.hash_blocks];
    [ exact HH | ].
  apply IH, fips_hash_block_length.
Qed.

Lemma fips_hash_blocks_add a b H bytes :
  FIPS180.hash_blocks (a + b) H bytes
  = FIPS180.hash_blocks b (FIPS180.hash_blocks a H bytes) (drop (128 * a) bytes).
Proof.
  revert H bytes. induction a as [| a IH]; intros H bytes.
  - cbn [Nat.add FIPS180.hash_blocks]. rewrite Nat.mul_0_r, drop_0. reflexivity.
  - cbn [Nat.add FIPS180.hash_blocks]. rewrite IH, drop_drop. do 2 f_equal. lia.
Qed.

Lemma fips_hash_blocks_prefix N H l1 l2 :
  (128 * N <= length l1)%nat ->
  FIPS180.hash_blocks N H (l1 ++ l2) = FIPS180.hash_blocks N H l1.
Proof.
  revert H l1. induction N as [| N IH]; intros H l1 Hlen; cbn [FIPS180.hash_blocks];
    [ reflexivity | ].
  rewrite take_app_le by lia. rewrite drop_app_le by lia.
  apply IH. rewrite length_drop. lia.
Qed.

(** *** The update, one byte at a time *)

Lemma uint64_t_range z : 0 <= uint64_t z < 2 ^ 64.
Proof. unfold uint64_t. apply Z.mod_pos_bound. lia. Qed.

Lemma uint64_t_small z : 0 <= z < 2 ^ 64 -> uint64_t z = z.
Proof. intros H. unfold uint64_t. apply Z.mod_small. exact H. Qed.

Lemma sha512_pending_length s :
  sha512_wf s -> length (sha512_pending s) = Z.to_nat (Sha512.bufferSize s).
Proof.
  intros (Hr & Hbuf & _). unfold sha512_pending. rewrite length_take. lia.
Qed.

(** The two cases of the loop body, as equations. *)
Lemma sha512_update_byte_buffered_eq s d :
  0 <= Sha512.bufferSize s -> Sha512.bufferSize s + 1 < 128 ->
  Sha512.update_byte s d
  = Sha512.mk (Sha512.bitlen s) (Sha512.bufferSize s + 1) (Sha512.h s)
      (<[Z.to_nat (Sha512.bufferSize s) := d]> (Sha512.buffer s)) (Sha512.t s)
      (Sha512.transforms s).
Proof.
  intros H0 H. unfold Sha512.update_byte. cbv zeta. cbn [Sha512.bufferSize].
  rewrite uint8_t_small by lia.
  destruct (Z.eqb_spec (Sha512.bufferSize s + 1) 128); [ lia | reflexivity ].
Qed.

Lemma sha512_update_byte_block_eq s d :
  0 <= Sha512.bufferSize s -> Sha512.bufferSize s + 1 = 128 ->
  Sha512.update_byte s d
  = Sha512.mk (uint64_t (Sha512.bitlen s + 1024)) 0
      (Sha512.compress_words (Sha512.h s)
         (Sha512.message_schedule (<[Z.to_nat (Sha512.bufferSize s) := d]> (Sha512.buffer s))))
      (<[Z.to_nat (Sha512.bufferSize s) := d]> (Sha512.buffer s)) (Sha512.t s)
      (S (Sha512.transforms s)).
Proof.
  intros H0 H. unfold Sha512.update_byte. cbv zeta. cbn [Sha512.bufferSize].
  rewrite uint8_t_small by lia. rewrite H. cbn [Z.eqb Pos.eqb].
  reflexivity.
Qed.

(** The compression of the block an array of 128 bytes holds. *)
Lemma sha512_compress_block hs buf :
  length hs = 8%nat -> length buf = 128%nat ->
  Sha512.compress_words hs (Sha512.message_schedule buf)
  = FIPS180.hash_block hs (FIPS180.block_words buf).
Proof.
  intros Hh Hbuf. rewrite sha512_message_schedule by exact Hbuf.
  apply sha512_compress_words. exact Hh.
Qed.

(** The byte is buffered: the block is not full yet. *)
Lemma sha512_update_byte_buffered s d :
  sha512_wf s -> Sha512.bufferSize s + 1 < 128 ->
  sha512_wf (Sha512.update_byte s d) /\
  Sha512.h (Sha512.update_byte s d) = Sha512.h s /\
  Sha512.bitlen (Sha512.update_byte s d) = Sha512.bitlen s /\
  sha512_pending (Sha512.update_byte s d) = sha512_pending s ++ [d].
Proof.
  intros (Hr & Hbuf & Hh & Hbl) Hlt.
  rewrite sha512_update_byte_buffered_eq by lia.
  unfold sha512_wf, sha512_pending.
  cbn [Sha512.bufferSize Sha512.buffer Sha512.h Sha512.bitlen].
  rewrite length_insert. repeat split; try assumption; try lia.
  replace (Z.to_nat (Sha512.bufferSize s + 1)) with (S (Z.to_nat (Sha512.bufferSize s))) by lia.
  apply take_S_insert. lia.
Qed.

(** The byte completes a block: the block is hashed. *)
Lemma sha512_update_byte_block s d :
  sha512_wf s -> Sha512.bufferSize s + 1 = 128 ->
  sha512_wf (Sha512.update_byte s d) /\
  Sha512.h (Sha512.update_byte s d)
  = FIPS180.hash_block (Sha512.h s) (FIPS180.block_words (sha512_pending s ++ [d])) /\
  Sha512.bitlen (Sha512.update_byte s d) = uint64_t (Sha512.bitlen s + 1024) /\
  sha512_pending (Sha512.update_byte s d) = [].
Proof.
  intros (Hr & Hbuf & Hh & Hbl) Heq.
  rewrite sha512_update_byte_block_eq by lia.
  assert (Hfull : <[Z.to_nat (Sha512.bufferSize s) := d]> (Sha512.buffer s)
                  = sha512_pending s ++ [d]).
  { unfold sha512_pending. rewrite insert_take_drop by lia.
    rewrite (drop_ge _ (S _)) by lia. reflexivity. }
  assert (Hlen : length (<[Z.to_nat (Sha512.bufferSize s) := d]> (Sha512.buffer s)) = 128%nat)
    by (rewrite length_insert; exact Hbuf).
  unfold sha512_wf, sha512_pending.
  cbn [Sha512.bufferSize Sha512.buffer Sha512.h Sha512.bitlen].
  rewrite sha512_compress_block by assumption.
  rewrite fips_hash_block_length, Hfull.
  pose proof (uint64_t_range (Sha512.bitlen s + 1024)).
  repeat split; try lia; try assumption.
  rewrite <- Hfull. exact Hlen.
Qed.

Lemma sha512_update_cons s d data :
  Sha512.hash_sha512_update_binary s (d :: data)
  = Sha512.hash_sha512_update_binary (Sha512.update_byte s d) data.
Proof. reflexivity. Qed.

Lemma uint64_t_add_block bl q :
  uint64_t (uint64_t (bl + 1024) + 1024 * Z.of_nat q) = uint64_t (bl + 1024 * Z.of_nat (S q)).
Proof.
  unfold uint64_t. rewrite Zplus_mod_idemp_l. f_equal. lia.
Qed.

(** After an update the chaining value is the hash of the complete blocks
    of what was buffered followed by the new bytes; the rest is buffered;
    the bit counter has advanced by 1024 per block. *)
Lemma sha512_update_spec data s :
  sha512_wf s ->
  let all := sha512_pending s ++ data in
  let q := (length all / 128)%nat in
  let s' := Sha512.hash_sha512_update_binary s data in
  sha512_wf s' /\
  Sha512.h s' = FIPS180.hash_blocks q (Sha512.h s) all /\
  sha512_pending s' = drop (128 * q) all /\
  Sha512.bitlen s' = uint64_t (Sha512.bitlen s + 1024 * Z.of_nat q).
Proof.
  revert s. induction data as [| d data IH]; intros s Hwf; cbv zeta.
  - pose proof (sha512_pending_length s Hwf) as Hp.
    pose proof Hwf as (Hr & Hbuf & Hh & Hbl).
    rewrite app_nil_r.
    assert (Hq : (length (sha512_pending s) / 128 = 0)%nat) by (apply Nat.div_small; lia).
    rewrite Hq. cbn [Sha512.hash_sha512_update_binary fold_left FIPS180.hash_blocks].
    rewrite Nat.mul_0_r, drop_0, Z.mul_0_r, Z.add_0_r, uint64_t_small by exact Hbl.
    repeat split; try assumption; try lia.
  - rewrite sha512_update_cons.
    pose proof (sha512_pending_length s Hwf) as Hp.
    pose proof Hwf as (Hr & Hbuf & Hh & Hbl).
    destruct (Z.eq_dec (Sha512.bufferSize s + 1) 128) as [Hfull | Hpart].
    + destruct (sha512_update_byte_block s d Hwf Hfull) as (Hwf1 & Hh1 & Hbl1 & Hp1).
      destruct (IH _ Hwf1) as (Hwf' & Hh' & Hp' & Hbl').
      rewrite Hp1 in Hh', Hp'. cbn [app] in Hh', Hp'. rewrite Hp1 in Hbl'. cbn [app] in Hbl'.
      assert (Hlen : length (sha512_pending s ++ [d]) = 128%nat)
        by (rewrite length_app; simpl; lia).
      replace (sha512_pending s ++ d :: data) with ((sha512_pending s ++ [d]) ++ data)
        by (rewrite <- app_assoc; reflexivity).
      assert (Hq : (length ((sha512_pending s ++ [d]) ++ data) / 128
                    = S (length data / 128))%nat).
      { rewrite length_app, Hlen.
        replace (128 + length data)%nat with (1 * 128 + length data)%nat by lia.
        rewrite Nat.div_add_l by lia. reflexivity. }
      rewrite Hq. cbn [FIPS180.hash_blocks].
      rewrite (take_app_length' _ _ 128) by (symmetry; exact Hlen).
      rewrite (drop_app_length' _ _ 128) by (symmetry; exact Hlen).
      rewrite <- Hh1. split; [ exact Hwf' | ]. split; [ exact Hh' | ]. split.
      * rewrite Hp'.
        replace (128 * S (length data / 128))%nat with (128 + 128 * (length data / 128))%nat
          by lia.
        rewrite <- drop_drop. rewrite (drop_app_length' _ _ 128) by (symmetry; exact Hlen).
        reflexivity.
      * rewrite Hbl', Hbl1. apply uint64_t_add_block.
    + destruct (sha512_update_byte_buffered s d Hwf ltac:(lia)) as (Hwf1 & Hh1 & Hbl1 & Hp1).
      destruct (IH _ Hwf1) as (Hwf' & Hh' & Hp' & Hbl').
      rewrite Hp1, <- app_assoc in Hh', Hp', Hbl'. cbn [app] in Hh', Hp', Hbl'.
      rewrite Hh1 in Hh'. rewrite Hbl1 in Hbl'.
      repeat split; try assumption; apply Hwf'.
Qed.

(** *** The finalization *)

Lemma insert_eq_app {A} (a : list A) i v :
  (i < length a)%nat -> <[i := v]> a = take i a ++ [v] ++ drop (S i) a.
Proof. intros H. rewrite insert_take_drop by exact H. reflexivity. Qed.

Lemma memset_eq_app a start v n :
  (start + n <= length a)%nat ->
  memset a start v n = take start a ++ replicate n v ++ drop (start + n) a.
Proof.
  revert a start. induction n as [| n IH]; intros a start H.
  - cbn [memset replicate app]. rewrite Nat.add_0_r, take_drop. reflexivity.
  - cbn [memset replicate]. rewrite IH by (rewrite length_insert; lia).
    rewrite take_S_insert by lia. rewrite drop_insert_lt by lia.
    rewrite <- app_assoc. cbn [app].
    replace (start + S n)%nat with (S start + n)%nat by lia. reflexivity.
Qed.

Lemma memcpy_eq_app a start src :
  (start + length src <= length a)%nat ->
  memcpy a start src = take start a ++ src ++ drop (start + length src) a.
Proof.
  revert a start. induction src as [| b src IH]; intros a start H.
  - cbn [memcpy length app]. rewrite Nat.add_0_r, take_drop. reflexivity.
  - cbn [memcpy length] in *. rewrite IH by (rewrite length_insert; lia).
    rewrite take_S_insert by lia. rewrite drop_insert_lt by lia.
    rewrite <- app_assoc. cbn [app].
    replace (start + S (length src))%nat with (S start + length src)%nat by lia.
    reflexivity.
Qed.

Lemma length_be_bytes n v : length (FIPS180.be_bytes n v) = n.
Proof. unfold FIPS180.be_bytes. rewrite length_rev. apply length_le_encode. Qed.

(** The two cases of the finalization, as equations on the chaining
    value. *)

Lemma sha512_finalize_small_eq s :
  0 <= Sha512.bufferSize s < 112 ->
  Sha512.h (Sha512.hash_sha512_finalize s)
  = Sha512.compress_words (Sha512.h s)
      (Sha512.message_schedule
         (memcpy (memset (<[Z.to_nat (Sha512.bufferSize s) := byte_of_Z 128]> (Sha512.buffer s))
                         (Z.to_nat (Sha512.bufferSize s + 1)) x00
                         (Z.to_nat (120 - (Sha512.bufferSize s + 1))))
                 120 (FIPS180.be_bytes 8 (sha512_final_bits s)))).
Proof.
  intros H. unfold Sha512.hash_sha512_finalize. cbv zeta.
  cbn [Sha512.bufferSize Sha512.bitlen Sha512.buffer Sha512.h hash_util_is_little_endian].
  rewrite uint8_t_small by lia.
  destruct (Z.ltb_spec (Sha512.bufferSize s) 112); [ | lia ].
  destruct (Z.leb_spec 112 (Sha512.bufferSize s)); [ lia | ].
  cbn [Sha512.bufferSize Sha512.bitlen Sha512.buffer Sha512.h].
  unfold hash_util_swap_endian_uint64_t. rewrite object_bytes_swap_endian.
  reflexivity.
Qed.

Lemma sha512_finalize_big_eq s :
  112 <= Sha512.bufferSize s < 128 ->
  Sha512.h (Sha512.hash_sha512_finalize s)
  = Sha512.compress_words
      (Sha512.compress_words (Sha512.h s)
         (Sha512.message_schedule
            (memset (<[Z.to_nat (Sha512.bufferSize s) := byte_of_Z 128]> (Sha512.buffer s))
                    (Z.to_nat (Sha512.bufferSize s + 1)) x00
                    (Z.to_nat (128 - (Sha512.bufferSize s + 1))))))
      (Sha512.message_schedule
         (memcpy (memset (memset (<[Z.to_nat (Sha512.bufferSize s) := byte_of_Z 128]>
                                    (Sha512.buffer s))
                                 (Z.to_nat (Sha512.bufferSize s + 1)) x00
                                 (Z.to_nat (128 - (Sha512.bufferSize s + 1))))
                         0 x00 120)
                 120 (FIPS180.be_bytes 8 (sha512_final_bits s)))).
Proof.
  intros H. unfold Sha512.hash_sha512_finalize. cbv zeta.
  cbn [Sha512.bufferSize Sha512.bitlen Sha512.buffer Sha512.h hash_util_is_little_endian].
  rewrite uint8_t_small by lia.
  destruct (Z.ltb_spec (Sha512.bufferSize s) 112); [ lia | ].
  destruct (Z.leb_spec 112 (Sha512.bufferSize s)); [ | lia ].
  cbn [Sha512.bufferSize Sha512.bitlen Sha512.buffer Sha512.h].
  unfold hash_util_swap_endian_uint64_t. rewrite object_bytes_swap_endian.
  reflexivity.
Qed.

Lemma final_block_small (buf be : list byte) r :
  length buf = 128%nat -> (r < 112)%nat -> length be = 8%nat ->
  memcpy (memset (<[r := x80]> buf) (S r) x00 (119 - r)) 120 be
  = take r buf ++ [x80] ++ replicate (119 - r) x00 ++ be.
Proof.
  intros Hbuf Hr Hbe.
  rewrite memset_eq_app by (rewrite length_insert; lia).
  rewrite take_S_insert by lia.
  rewrite memcpy_eq_app
    by (rewrite !length_app, length_take, length_replicate, length_drop, length_insert;
        cbn [length]; lia).
  rewrite !app_assoc.
  rewrite take_app_length'
    by (rewrite !length_app, length_take, length_replicate; cbn [length]; lia).
  rewrite drop_ge
    by (rewrite !length_app, length_take, length_replicate, length_drop, length_insert;
        cbn [length]; lia).
  rewrite app_nil_r. reflexivity.
Qed.

Lemma final_block_big_first (buf : list byte) r :
  length buf = 128%nat -> (112 <= r < 128)%nat ->
  memset (<[r := x80]> buf) (S r) x00 (127 - r)
  = take r buf ++ [x80] ++ replicate (127 - r) x00.
Proof.
  intros Hbuf Hr.
  rewrite memset_eq_app by (rewrite length_insert; lia).
  rewrite take_S_insert by lia.
  rewrite drop_ge by (rewrite length_insert; lia).
  rewrite app_nil_r, <- app_assoc. reflexivity.
Qed.

Lemma final_block_big_second (buf be : list byte) :
  length buf = 128%nat -> length be = 8%nat ->
  memcpy (memset buf 0 x00 120) 120 be = replicate 120 x00 ++ be.
Proof.
  intros Hbuf Hbe.
  rewrite memset_eq_app by lia. rewrite take_0. cbn [app].
  rewrite memcpy_eq_app by (rewrite length_app, length_replicate, length_drop; lia).
  rewrite take_app_length' by (rewrite length_replicate; reflexivity).
  rewrite drop_ge by (rewrite length_app, length_replicate, length_drop; lia).
  rewrite app_nil_r. reflexivity.
Qed.

Lemma byte_of_Z_128 : byte_of_Z 128 = x80.
Proof. reflexivity. Qed.

(** The finalization hashes one or two more blocks: the buffered bytes
    followed by [sha512_tail]. *)
Lemma sha512_finalize_spec s :
  sha512_wf s ->
  let r := Z.to_nat (Sha512.bufferSize s) in
  Sha512.h (Sha512.hash_sha512_finalize s)
  = FIPS180.hash_blocks (sha512_final_blocks r) (Sha512.h s)
      (sha512_pending s ++ sha512_tail r (sha512_final_bits s)).
Proof.
  intros Hwf r. pose proof Hwf as (Hr & Hbuf & Hh & Hbl).
  pose proof (sha512_pending_length s Hwf) as Hp. fold r in Hp.
  pose proof (length_be_bytes 8 (sha512_final_bits s)) as Hbe.
  unfold sha512_final_blocks, sha512_tail, sha512_final_blocks.
  destruct (Nat.ltb_spec r 112) as [Hlt | Hge].
  - rewrite sha512_finalize_small_eq by lia. rewrite byte_of_Z_128.
    fold r. replace (Z.to_nat (Sha512.bufferSize s + 1)) with (S r) by lia.
    replace (Z.to_nat (120 - (Sha512.bufferSize s + 1))) with (119 - r)%nat by lia.
    rewrite final_block_small by (assumption || lia).
    replace (128 * 1 - 9 - r)%nat with (119 - r)%nat by lia.
    fold (sha512_pending s) in *. unfold r. fold (sha512_pending s).
    cbn [FIPS180.hash_blocks].
    rewrite take_ge
      by (rewrite !length_app, Hp, length_replicate, Hbe; cbn [length]; lia).
    apply sha512_compress_block; [ exact Hh | ].
    rewrite !length_app, Hp, length_replicate, Hbe. cbn [length]. lia.
  - rewrite sha512_finalize_big_eq by lia. rewrite byte_of_Z_128.
    fold r. replace (Z.to_nat (Sha512.bufferSize s + 1)) with (S r) by lia.
    replace (Z.to_nat (128 - (Sha512.bufferSize s + 1))) with (127 - r)%nat by lia.
    rewrite final_block_big_second
      by (try exact Hbe; rewrite final_block_big_first by (assumption || lia);
          rewrite !length_app, length_take, length_replicate; cbn [length]; lia).
    rewrite final_block_big_first by (assumption || lia).
    replace (128 * 2 - 9 - r)%nat with ((127 - r) + 120)%nat by lia.
    rewrite replicate_add.
    unfold r. fold (sha512_pending s). fold r.
    assert (Hfirst : length (sha512_pending s ++ [x80] ++ replicate (127 - r) x00) = 128%nat)
      by (rewrite !length_app, Hp, length_replicate; cbn [length]; lia).
    replace (sha512_pending s ++ [x80] ++ (replicate (127 - r) x00 ++ replicate 120 x00)
             ++ FIPS180.be_bytes 8 (sha512_final_bits s))
      with ((sha512_pending s ++ [x80] ++ replicate (127 - r) x00)
            ++ (replicate 120 x00 ++ FIPS180.be_bytes 8 (sha512_final_bits s)))
      by (rewrite <- !app_assoc; reflexivity).
    cbn [FIPS180.hash_blocks].
    rewrite take_app_length' by (symmetry; exact Hfirst).
    rewrite drop_app_length' by (symmetry; exact Hfirst).
    rewrite take_ge by (rewrite length_app, length_replicate, Hbe; lia).
    rewrite (sha512_compress_block (Sha512.h s)); [ | exact Hh | exact Hfirst ].
    apply sha512_compress_block; [ apply fips_hash_block_length | ].
    rewrite length_app, length_replicate, Hbe. reflexivity.
Qed.

(** *** The padding of the reference *)

Lemma le_encode_app a b u :
  le_encode (a + b) u = le_encode a u ++ le_encode b (u / 256 ^ Z.of_nat a).
Proof.
  revert u. induction a as [| a IH]; intros u.
  - cbn [Nat.add le_encode app]. rewrite Z.div_1_r. reflexivity.
  - cbn [Nat.add le_encode app]. rewrite IH. do 2 f_equal.
    rewrite Nat2Z.inj_succ, Z.pow_succ_r by lia.
    rewrite Z.div_div by lia. reflexivity.
Qed.

Lemma le_encode_zero n : le_encode n 0 = replicate n x00.
Proof.
  induction n as [| n IH]; [ reflexivity | ].
  cbn [le_encode replicate]. rewrite Z.div_0_l by lia. rewrite IH. reflexivity.
Qed.

Lemma be_bytes_16 l :
  0 <= l < 2 ^ 64 -> FIPS180.be_bytes 16 l = replicate 8 x00 ++ FIPS180.be_bytes 8 l.
Proof.
  intros H. unfold FIPS180.be_bytes.
  change 16%nat with (8 + 8)%nat. rewrite le_encode_app.
  replace (l / 256 ^ Z.of_nat 8) with 0
    by (symmetry; apply Z.div_small; change (256 ^ Z.of_nat 8) with (2 ^ 64); exact H).
  rewrite le_encode_zero, rev_app_distr. f_equal.
Qed.

Lemma fips_zero_bytes n :
  let r := (n mod 128)%nat in
  Z.to_nat ((FIPS180.zero_bits (8 * Z.of_nat n) - 7) / 8)
  = (128 * sha512_final_blocks r - 17 - r)%nat.
Proof.
  intros r. unfold FIPS180.zero_bits, sha512_final_blocks.
  assert (Hn : Z.of_nat n = 128 * Z.of_nat (n / 128) + Z.of_nat r)
    by (unfold r; pose proof (Nat.div_mod n 128); lia).
  assert (Hr : (r < 128)%nat) by (apply Nat.mod_upper_bound; lia).
  remember (Z.of_nat (n / 128)) as q eqn:Eq. clear Eq.
  rewrite Hn. destruct (Nat.ltb_spec r 112) as [Hlt | Hge].
  - replace (896 - (8 * (128 * q + Z.of_nat r) + 1))
      with (895 - 8 * Z.of_nat r + (- q) * 1024) by lia.
    rewrite Z.mod_add by lia. rewrite Z.mod_small by lia.
    replace (895 - 8 * Z.of_nat r - 7) with ((111 - Z.of_nat r) * 8) by lia.
    rewrite Z.div_mul by lia. lia.
  - replace (896 - (8 * (128 * q + Z.of_nat r) + 1))
      with (1919 - 8 * Z.of_nat r + (- q - 1) * 1024) by lia.
    rewrite Z.mod_add by lia. rewrite Z.mod_small by lia.
    replace (1919 - 8 * Z.of_nat r - 7) with ((239 - Z.of_nat r) * 8) by lia.
    rewrite Z.div_mul by lia. lia.
Qed.

Lemma sha512_final_blocks_bound r :
  (r < 128)%nat -> (r + 17 <= 128 * sha512_final_blocks r)%nat.
Proof.
  intros H. unfold sha512_final_blocks. destruct (Nat.ltb_spec r 112); lia.
Qed.

Lemma fips_pad_tail msg :
  8 * Z.of_nat (length msg) < 2 ^ 64 ->
  FIPS180.pad msg
  = msg ++ sha512_tail (length msg mod 128) (8 * Z.of_nat (length msg)).
Proof.
  intros H. unfold FIPS180.pad, sha512_tail. cbv zeta.
  rewrite fips_zero_bytes. rewrite be_bytes_16 by lia.
  pose proof (sha512_final_blocks_bound (length msg mod 128)
                ltac:(apply Nat.mod_upper_bound; lia)) as Hb.
  remember (sha512_final_blocks (length msg mod 128)) as fb eqn:Efb. clear Efb.
  remember (length msg mod 128)%nat as r eqn:Er. clear Er.
  replace (128 * fb - 9 - r)%nat with ((128 * fb - 17 - r) + 8)%nat by lia.
  rewrite replicate_add, <- !app_assoc. reflexivity.
Qed.

Lemma length_sha512_tail r bits :
  (r < 128)%nat -> length (sha512_tail r bits) = (128 * sha512_final_blocks r - r)%nat.
Proof.
  intros H. pose proof (sha512_final_blocks_bound r H) as Hb.
  unfold sha512_tail. rewrite !length_app, length_replicate, length_be_bytes.
  cbn [length]. lia.
Qed.

(** *** The engine against the reference *)

(** From a state with an empty buffer and a zero bit counter, update and
    finalize compute the final hash value of the reference, starting from
    whatever chaining value the state holds. *)
Lemma sha512_engine_spec s msg :
  sha512_wf s -> Sha512.bufferSize s = 0 -> Sha512.bitlen s = 0 ->
  8 * Z.of_nat (length msg) < 2 ^ 64 ->
  Sha512.h (Sha512.hash_sha512_finalize (Sha512.hash_sha512_update_binary s msg))
  = FIPS180.final_hash (Sha512.h s) msg.
Proof.
  intros Hwf Hsize Hbits Hlen.
  pose proof (sha512_update_spec msg s Hwf) as Hup. cbv zeta in Hup.
  assert (Hpend : sha512_pending s = []) by (unfold sha512_pending; rewrite Hsize; reflexivity).
  rewrite Hpend in Hup. cbn [app] in Hup.
  destruct Hup as (Hwf' & Hh & Hp & Hbl).
  remember (Sha512.hash_sha512_update_binary s msg) as s' eqn:Es'. clear Es'.
  set (n := length msg) in *. set (q := (n / 128)%nat) in *.
  assert (Hdm : n = (128 * q + n mod 128)%nat) by (apply Nat.div_mod; lia).
  assert (Hr : (n mod 128 < 128)%nat) by (apply Nat.mod_upper_bound; lia).
  assert (Hsize' : Z.to_nat (Sha512.bufferSize s') = (n mod 128)%nat).
  { rewrite <- (sha512_pending_length s' Hwf'), Hp, length_drop. fold n. lia. }
  assert (Hfinal : sha512_final_bits s' = 8 * Z.of_nat n).
  { unfold sha512_final_bits. rewrite Hbl, Hbits. unfold uint64_t.
    rewrite Zplus_mod_idemp_l. rewrite Z.mod_small; [ | split; [ | ] ].
    - destruct Hwf' as (Hb & _). lia.
    - destruct Hwf' as (Hb & _). lia.
    - destruct Hwf' as (Hb & _). lia. }
  rewrite sha512_finalize_spec by exact Hwf'.
  rewrite Hsize', Hfinal, Hh, Hp.
  unfold FIPS180.final_hash. rewrite fips_pad_tail by exact Hlen. fold n.
  replace (length (msg ++ sha512_tail (n mod 128) (8 * Z.of_nat n)) / 128)%nat
    with (q + sha512_final_blocks (n mod 128))%nat.
  - rewrite fips_hash_blocks_add. rewrite (fips_hash_blocks_prefix q) by (fold n; lia).
    rewrite drop_app_le by (fold n; lia). reflexivity.
  - rewrite length_app, length_sha512_tail by exact Hr. fold n.
    pose proof (sha512_final_blocks_bound _ Hr) as Hb.
    apply (Nat.div_unique _ _ _ 0); lia.
Qed.

(** *** The hexadecimal digits *)

Lemma Z_of_byte_of_Z z : Z_of_byte (byte_of_Z z) = z mod 256.
Proof.
  unfold byte_of_Z, Z_of_byte.
  assert (Hz : 0 <= z mod 256 < 256) by (apply Z.mod_pos_bound; lia).
  destruct (Byte.of_N (Z.to_N (z mod 256))) as [b |] eqn:E.
  - apply Byte.to_of_N in E. rewrite E. lia.
  - apply Byte.of_N_None_iff in E. lia.
Qed.

Lemma byte_high_nibble b : Z.shiftr (Z.land (Z_of_byte b) 0xF0) 4 = Z_of_byte b / 16.
Proof. destruct b; reflexivity. Qed.

Lemma byte_low_nibble b : Z.land (Z_of_byte b) 0x0F = Z_of_byte b mod 16.
Proof. destruct b; reflexivity. Qed.

Lemma be_bytes_S n v :
  FIPS180.be_bytes (S n) v = byte_of_Z (v / 256 ^ Z.of_nat n) :: FIPS180.be_bytes n v.
Proof.
  unfold FIPS180.be_bytes. replace (S n) with (n + 1)%nat by lia.
  rewrite le_encode_app, rev_app_distr. reflexivity.
Qed.

Lemma nibbles_of_byte w :
  (w mod 256) / 16 = (w / 16) mod 16 /\ (w mod 256) mod 16 = w mod 16.
Proof.
  split; Z.div_mod_to_equations; lia.
Qed.

(** [%0(2n)x] prints the [n] big-endian bytes of the value, two digits
    each. *)
Lemma sprintf_0x_be_bytes n v :
  sprintf_0x (2 * n) v = hash_util_char_array_to_hex_string (FIPS180.be_bytes n v).
Proof.
  induction n as [| n IH]; [ reflexivity | ].
  replace (2 * S n)%nat with (S (S (2 * n))) by lia.
  rewrite be_bytes_S. cbn [sprintf_0x hash_util_char_array_to_hex_string].
  rewrite byte_high_nibble, byte_low_nibble, Z_of_byte_of_Z, IH.
  destruct (nibbles_of_byte (v / 256 ^ Z.of_nat n)) as [Hhi Hlo].
  rewrite Hhi, Hlo.
  assert (H16 : 256 ^ Z.of_nat n = 16 ^ Z.of_nat (2 * n)).
  { rewrite Nat2Z.inj_mul, Z.pow_mul_r by lia. reflexivity. }
  assert (H16' : 16 ^ Z.of_nat (S (2 * n)) = 16 ^ Z.of_nat (2 * n) * 16).
  { rewrite Nat2Z.inj_succ, Z.pow_succ_r by lia. lia. }
  rewrite H16', <- Z.div_div, <- H16 by lia. reflexivity.
Qed.

Lemma hex_string_app a b :
  hash_util_char_array_to_hex_string (a ++ b)
  = (hash_util_char_array_to_hex_string a ++ hash_util_char_array_to_hex_string b)%string.
Proof.
  induction a as [| x a IH]; [ reflexivity | ].
  cbn [app hash_util_char_array_to_hex_string String.append]. rewrite IH. reflexivity.
Qed.

Lemma hex_string_concat (f : Z -> list byte) hs :
  concat_strings (map (fun v => hash_util_char_array_to_hex_string (f v)) hs)
  = hash_util_char_array_to_hex_string (concat (map f hs)).
Proof.
  induction hs as [| v hs IH]; [ reflexivity | ].
  cbn [map concat concat_strings fold_right]. rewrite hex_string_app.
  f_equal. exact IH.
Qed.

(** The digits printed for a chaining value of eight words are the digits
    of its 64 big-endian bytes. *)
Lemma sha512_hex_words_bytes hs :
  length hs = 8%nat ->
  sha512_hex_words hs
  = hash_util_char_array_to_hex_string (concat (map (FIPS180.be_bytes 8) hs)).
Proof.
  intros H. rewrite <- hex_string_concat. unfold sha512_hex_words. f_equal.
  explode_list hs. cbn [map seq]. rewrite <- !(sprintf_0x_be_bytes 8). reflexivity.
Qed.

Lemma sha512_hexdigest_words s :
  Sha512.hash_sha512_hexdigest s = sha512_hex_words (Sha512.h s).
Proof. reflexivity. Qed.

(** *** The initialization vector of SHA-512/224 *)

Lemma sha512_h_mk bl size hs buf t n : Sha512.h (Sha512.mk bl size hs buf t n) = hs.
Proof. reflexivity. Qed.

Lemma sha512_reset_h s : Sha512.h (Sha512.hash_sha512_reset s) = Sha512.h s.
Proof. reflexivity. Qed.

Lemma sha512t_generate_iv_h s str :
  let hs := Sha512.h (Sha512.hash_sha512_finalize (Sha512.hash_sha512_update_binary s str)) in
  Sha512.h (Sha512.sha512t_generate_iv s str)
  = fold_left (Sha512.store_word (sha512_hex_words hs)) (seq 0 8) hs.
Proof.
  cbv zeta. unfold Sha512.sha512t_generate_iv. cbv zeta.
  rewrite sha512_h_mk, sha512_reset_h, sha512_hexdigest_words. reflexivity.
Qed.

Lemma assert_true {A} ndebug msg (k : outcome A) : assert ndebug true msg k = k.
Proof. destruct ndebug; reflexivity. Qed.

Lemma sha512t_init_224 ndebug s :
  Sha512.hash_sha512t_init ndebug s 224
  = Returned (Sha512.sha512t_generate_iv (Sha512.sha512t_seed s 224) (Sha512.sha512t_label 224)).
Proof.
  unfold Sha512.hash_sha512t_init.
  change (negb (224 =? 384)) with true.
  change ((4 <=? 224) && (224 <=? 2048)) with true.
  change (13 <=? length (Sha512.sha512t_label 224))%nat with false.
  rewrite !assert_true. reflexivity.
Qed.

Lemma sha512t_seed_wf s t :
  length (Sha512.buffer s) = 128%nat -> sha512_wf (Sha512.sha512t_seed s t).
Proof.
  intros H. unfold sha512_wf, Sha512.sha512t_seed.
  cbn [Sha512.bufferSize Sha512.buffer Sha512.h Sha512.bitlen length].
  repeat split; try lia; exact H.
Qed.

Lemma sha512t_iv_224_value :
  let hs := FIPS180.final_hash (Sha512.h (Sha512.sha512t_seed zeroed_sha512 224))
              (Sha512.sha512t_label 224) in
  fold_left (Sha512.store_word (sha512_hex_words hs)) (seq 0 8) hs = FIPS180.H0_512_224.
Proof. vm_compute. reflexivity. Qed.

(** The initial hash value that [hash_sha512t_init] derives for t = 224
    is the one of FIPS 180-4, section 5.3.6.1, whatever the structure held
    before. *)
Lemma sha512t_iv_224 ndebug s :
  length (Sha512.buffer s) = 128%nat ->
  exists s', Sha512.hash_sha512t_init ndebug s 224 = Returned s' /\
             Sha512.h s' = FIPS180.H0_512_224 /\
             Sha512.bufferSize s' = 0 /\ Sha512.bitlen s' = 0 /\ Sha512.t s' = 224 /\
             sha512_wf s'.
Proof.
  intros Hbuf. eexists. split; [ apply sha512t_init_224 | ].
  pose proof (sha512t_generate_iv_fields (Sha512.sha512t_seed s 224) (Sha512.sha512t_label 224))
    as (Hsize & Hbits & Ht & Hlen).
  assert (Hh : Sha512.h (Sha512.sha512t_generate_iv (Sha512.sha512t_seed s 224)
                           (Sha512.sha512t_label 224)) = FIPS180.H0_512_224).
  { rewrite sha512t_generate_iv_h. cbv zeta.
    rewrite sha512_engine_spec.
    - exact sha512t_iv_224_value.
    - apply sha512t_seed_wf, Hbuf.
    - reflexivity.
    - reflexivity.
    - vm_compute. reflexivity. }
  split; [ exact Hh | ]. split; [ exact Hsize | ]. split; [ exact Hbits | ].
  split; [ exact Ht | ].
  unfold sha512_wf. rewrite Hsize, Hbits, Hlen, Hh. cbn [length].
  repeat split; try lia; exact Hbuf.
Qed.

(** *** The one-shot functions against the reference *)

Lemma sha512_init_wf s :
  length (Sha512.buffer s) = 128%nat -> sha512_wf (Sha512.hash_sha512_init s).
Proof.
  intros H. unfold sha512_wf, Sha512.hash_sha512_init.
  cbn [Sha512.bufferSize Sha512.buffer Sha512.h Sha512.bitlen length].
  repeat split; try lia; exact H.
Qed.

(** [hash_sha512_binary] returns the digits of the SHA-512 digest of the
    reference. *)
Lemma sha512_binary_fips s msg :
  length (Sha512.buffer s) = 128%nat ->
  8 * Z.of_nat (length msg) < 2 ^ 64 ->
  Sha512.hash_sha512_binary s msg
  = hash_util_char_array_to_hex_string (FIPS180.sha512 msg).
Proof.
  intros Hbuf Hlen. unfold Sha512.hash_sha512_binary. cbv zeta.
  rewrite sha512_hexdigest_words.
  rewrite sha512_engine_spec;
    [ | apply sha512_init_wf, Hbuf | reflexivity | reflexivity | exact Hlen ].
  rewrite sha512_hex_words_bytes by (apply fips_hash_blocks_length; reflexivity).
  reflexivity.
Qed.

Lemma sha512t_binary_Returned ndebug s t msg s' :
  Sha512.hash_sha512t_init ndebug s t = Returned s' ->
  Sha512.hash_sha512t_binary ndebug s t msg
  = Returned (Sha512.hash_sha512t_hexdigest
                (Sha512.hash_sha512_finalize (Sha512.hash_sha512_update_binary s' msg))).
Proof.
  intros H. unfold Sha512.hash_sha512t_binary. rewrite H. reflexivity.
Qed.

(** Once the IV is derived, the one-shot function prints the first
    [t / 8] bytes of the final hash value computed from that IV. *)
Lemma sha512t_binary_from_iv ndebug s t msg s' n :
  Sha512.hash_sha512t_init ndebug s t = Returned s' ->
  sha512_wf s' -> Sha512.bufferSize s' = 0 -> Sha512.bitlen s' = 0 ->
  Z.to_nat (Sha512.t s' / 4) = (2 * n)%nat ->
  8 * Z.of_nat (length msg) < 2 ^ 64 ->
  Sha512.hash_sha512t_binary ndebug s t msg
  = Returned (hash_util_char_array_to_hex_string
                (take n (concat (map (FIPS180.be_bytes 8)
                                     (FIPS180.final_hash (Sha512.h s') msg))))).
Proof.
  intros Hinit Hwf Hsize Hbits Ht Hlen.
  rewrite (sha512t_binary_Returned _ _ _ _ _ Hinit). f_equal.
  unfold Sha512.hash_sha512t_hexdigest.
  rewrite sha512_finalize_t, sha512_update_t, Ht.
  rewrite sha512_hexdigest_words.
  rewrite sha512_engine_spec by assumption.
  rewrite sha512_hex_words_bytes
    by (apply fips_hash_blocks_length; destruct Hwf as (_ & _ & Hh & _); exact Hh).
  rewrite hex_string_take. reflexivity.
Qed.

Lemma sha512t_224_binary_fips ndebug s msg :
  length (Sha512.buffer s) = 128%nat ->
  8 * Z.of_nat (length msg) < 2 ^ 64 ->
  Sha512.hash_sha512t_binary ndebug s 224 msg
  = Returned (hash_util_char_array_to_hex_string (FIPS180.sha512_224 msg)).
Proof.
  intros Hbuf Hlen.
  destruct (sha512t_iv_224 ndebug s Hbuf) as (s' & Hinit & Hh & Hsize & Hbits & Ht & Hwf).
  rewrite (sha512t_binary_from_iv ndebug s 224 msg s' 28) by (assumption || (rewrite Ht; reflexivity)).
  rewrite Hh. reflexivity.
Qed.

Lemma abc_length : 8 * Z.of_nat (length abc) < 2 ^ 64.
Proof. reflexivity. Qed.

Lemma fips_sha512_224_abc_digits :
  hash_util_char_array_to_hex_string (FIPS180.sha512_224 abc)
  = "4634270f707b6a54daae7530460842e20e37ed265ceee9a43e8924aa"%string.
Proof. vm_compute. reflexivity. Qed.

Lemma fips_sha512_abc_truncated :
  substring 0 56 (hash_util_char_array_to_hex_string (FIPS180.sha512 abc))
  = "ddaf35a193617abacc417349ae20413112e6fa4e89a97ea20a9eeee6"%string.
Proof. vm_compute. reflexivity. Qed.

(** C4. For every byte sequence [b] of less than 2^64 bits (the range of
    the bit counter), the SHA-512/t engine with t = 224
    ([hash_sha512t_binary]: IV derived by hashing the label "SHA-512/224"
    from the seed IV, counters reset, then [b] hashed and the hexdigest cut
    to 224 / 4 digits) returns the hexadecimal digits of the SHA-512/224
    digest of [b] as FIPS 180-4 defines it, whatever the structure held at
    entry and whether or not assertions are compiled in; and for some input
    ("abc") this differs from the first 56 digits of the SHA-512 hexdigest
    of the same input. *)
Theorem sha512t_224_is_standard (ndebug : bool) (s : Sha512.Hash_Private_Sha512)
  (b : list byte) :
  length (Sha512.buffer s) = 128%nat ->
  8 * Z.of_nat (length b) < 2 ^ 64 ->
  Sha512.hash_sha512t_binary ndebug s 224 b
  = Returned (hash_util_char_array_to_hex_string (FIPS180.sha512_224 b))
  /\ exists b' : list byte,
       Sha512.hash_sha512t_binary ndebug s 224 b'
       <> Returned (substring 0 56 (Sha512.hash_sha512_binary s b')).
Proof.
  intros Hbuf Hlen. split; [ apply sha512t_224_binary_fips; assumption | ].
  exists abc.
  rewrite sha512t_224_binary_fips by (exact Hbuf || exact abc_length).
  rewrite sha512_binary_fips by (exact Hbuf || exact abc_length).
  rewrite fips_sha512_224_abc_digits, fips_sha512_abc_truncated.
  intros H. discriminate H.
Qed.

Lemma sha512t_224_is_standard_witness :
  Sha512.hash_sha512t_binary false zeroed_sha512 224 abc
  = Returned (hash_util_char_array_to_hex_string (FIPS180.sha512_224 abc))
  /\ exists b' : list byte,
       Sha512.hash_sha512t_binary false zeroed_sha512 224 b'
       <> Returned (substring 0 56 (Sha512.hash_sha512_binary zeroed_sha512 b')).
Proof.
  apply (sha512t_224_is_standard false zeroed_sha512 abc).
  - reflexivity.
  - reflexivity.
Defined.

(** ** Further properties of the SHA-512 family *)

(** X2. The streaming SHA-512 engine (init, any number of updates, finalize,
    hexdigest) prints the SHA-512 digest of FIPS 180-4 of the concatenated
    chunks, for inputs of less than 2^64 bits, whatever the structure held
    before [hash_sha512_init]. *)
Theorem sha512_stream_is_standard (s : Sha512.Hash_Private_Sha512)
  (chunks : list (list byte)) :
  length (Sha512.buffer s) = 128%nat ->
  8 * Z.of_nat (length (concat chunks)) < 2 ^ 64 ->
  sha512_stream s chunks
  = hash_util_char_array_to_hex_string (FIPS180.sha512 (concat chunks)).
Proof.
  intros Hbuf Hlen. unfold sha512_stream. rewrite sha512_update_chunks.
  apply (sha512_binary_fips s (concat chunks) Hbuf Hlen).
Qed.

Lemma sha512_stream_is_standard_witness :
  sha512_stream zeroed_sha512 [abc; abc]
  = hash_util_char_array_to_hex_string (FIPS180.sha512 (concat [abc; abc])).
Proof.
  apply (sha512_stream_is_standard zeroed_sha512 [abc; abc]).
  - reflexivity.
  - reflexivity.
Defined.

Lemma sha512t_init_256 ndebug s :
  Sha512.hash_sha512t_init ndebug s 256
  = Returned (Sha512.sha512t_generate_iv (Sha512.sha512t_seed s 256) (Sha512.sha512t_label 256)).
Proof.
  unfold Sha512.hash_sha512t_init.
  change (negb (256 =? 384)) with true.
  change ((4 <=? 256) && (256 <=? 2048)) with true.
  change (13 <=? length (Sha512.sha512t_label 256))%nat with false.
  rewrite !assert_true. reflexivity.
Qed.

Lemma sha512t_iv_256_value :
  let hs := FIPS180.final_hash (Sha512.h (Sha512.sha512t_seed zeroed_sha512 256))
              (Sha512.sha512t_label 256) in
  fold_left (Sha512.store_word (sha512_hex_words hs)) (seq 0 8) hs = FIPS180.H0_512_256.
Proof. vm_compute. reflexivity. Qed.

Lemma fips_sha512_256_abc :
  hash_util_char_array_to_hex_string (FIPS180.sha512_256 abc)
  = "53048e2681941ef99b2e29b76b4c7dabe4c2d0c634fc6d46e0e2f13107e7af23"%string.
Proof. vm_compute. reflexivity. Qed.

(** X3. For t = 256 as well the derived initial hash value is the one of
    FIPS 180-4 (section 5.3.6.2) and [hash_sha512t_binary] prints the
    SHA-512/256 digest of the standard, for inputs of less than 2^64
    bits. *)
Theorem sha512t_256_is_standard (ndebug : bool) (s : Sha512.Hash_Private_Sha512)
  (b : list byte) :
  length (Sha512.buffer s) = 128%nat ->
  8 * Z.of_nat (length b) < 2 ^ 64 ->
  (exists s', Sha512.hash_sha512t_init ndebug s 256 = Returned s' /\
              Sha512.h s' = FIPS180.H0_512_256) /\
  Sha512.hash_sha512t_binary ndebug s 256 b
  = Returned (hash_util_char_array_to_hex_string (FIPS180.sha512_256 b)).
Proof.
  intros Hbuf Hlen.
  pose proof (sha512t_generate_iv_fields (Sha512.sha512t_seed s 256) (Sha512.sha512t_label 256))
    as (Hsize & Hbits & Ht & Hblen).
  assert (Hh : Sha512.h (Sha512.sha512t_generate_iv (Sha512.sha512t_seed s 256)
                           (Sha512.sha512t_label 256)) = FIPS180.H0_512_256).
  { rewrite sha512t_generate_iv_h. cbv zeta.
    rewrite sha512_engine_spec.
    - exact sha512t_iv_256_value.
    - apply sha512t_seed_wf, Hbuf.
    - reflexivity.
    - reflexivity.
    - vm_compute. reflexivity. }
  split; [ eexists; split; [ apply sha512t_init_256 | exact Hh ] | ].
  rewrite (sha512t_binary_from_iv ndebug s 256 b _ 32 (sha512t_init_256 ndebug s)).
  - rewrite Hh. reflexivity.
  - unfold sha512_wf. rewrite Hsize, Hbits, Hblen, Hh. cbn [length].
    repeat split; try lia; exact Hbuf.
  - exact Hsize.
  - exact Hbits.
  - rewrite Ht. reflexivity.
  - exact Hlen.
Qed.

Lemma sha512t_256_is_standard_witness :
  (exists s', Sha512.hash_sha512t_init false zeroed_sha512 256 = Returned s' /\
              Sha512.h s' = FIPS180.H0_512_256) /\
  Sha512.hash_sha512t_binary false zeroed_sha512 256 abc
  = Returned (hash_util_char_array_to_hex_string (FIPS180.sha512_256 abc)).
Proof.
  apply (sha512t_256_is_standard false zeroed_sha512 abc).
  - reflexivity.
  - reflexivity.
Defined.

(** * Further properties *)

(** ** Known answers of the references on 32-bit words *)

Example fips_sha256_abc :
  hash_util_char_array_to_hex_string (FIPS180_32.sha256 abc)
  = "ba7816bf8f01cfea414140de5dae2223b00361a396177a9cb410ff61f20015ad"%string.
Proof. vm_compute. reflexivity. Qed.

Example fips_sha256_two_blocks :
  hash_util_char_array_to_hex_string (FIPS180_32.sha256 (list_byte_of_string
    "abcdbcdecdefdefgefghfghighijhijkijkljklmklmnlmnomnopnopq"))
  = "248d6a61d20638b8e5c026930c3e6039a33ce45964ff2167f6ecedd419db06c1"%string.
Proof. vm_compute. reflexivity. Qed.

Example fips_sha224_abc :
  hash_util_char_array_to_hex_string (FIPS180_32.sha224 abc)
  = "23097d223405d8228642a477bda255b32aadbce4bda0b3f7e36c9da7"%string.
Proof. vm_compute. reflexivity. Qed.

Example fips_sha1_abc :
  hash_util_char_array_to_hex_string (FIPS180_32.sha1 abc)
  = "a9993e364706816aba3e25717850c26c9cd0d89d"%string.
Proof. vm_compute. reflexivity. Qed.

Example fips_sha1_two_blocks :
  hash_util_char_array_to_hex_string (FIPS180_32.sha1 (list_byte_of_string
    "abcdbcdecdefdefgefghfghighijhijkijkljklmklmnlmnomnopnopq"))
  = "84983e441c3bd26ebaae4aa1f95129e5e54670f1"%string.
Proof. vm_compute. reflexivity. Qed.

Example fips_sha384_abc :
  hash_util_char_array_to_hex_string (fips_sha384 abc)
  = "cb00753f45a35e8bb5a03d699ac65007272c32ab0eded1631a8b605a43ff5bed8086072ba1e7cc2358baeca134c825a7"%string.
Proof. vm_compute. reflexivity. Qed.

(** ** Blocks of 64 bytes: iteration and padding *)

Section Block512_facts.

Variable f : list Z -> list byte -> list Z.

Lemma block512_hash_blocks_add a b H bytes :
  Block512.hash_blocks f (a + b) H bytes
  = Block512.hash_blocks f b (Block512.hash_blocks f a H bytes) (drop (64 * a) bytes).
Proof.
  revert H bytes. induction a as [| a IH]; intros H bytes.
  - cbn [Nat.add Block512.hash_blocks]. rewrite Nat.mul_0_r, drop_0. reflexivity.
  - cbn [Nat.add Block512.hash_blocks]. rewrite IH, drop_drop. do 2 f_equal. lia.
Qed.

Lemma block512_hash_blocks_prefix N H l1 l2 :
  (64 * N <= length l1)%nat ->
  Block512.hash_blocks f N H (l1 ++ l2) = Block512.hash_blocks f N H l1.
Proof.
  revert H l1. induction N as [| N IH]; intros H l1 Hlen; cbn [Block512.hash_blocks];
    [ reflexivity | ].
  rewrite take_app_le by lia. rewrite drop_app_le by lia.
  apply IH. rewrite length_drop. lia.
Qed.

Lemma block512_hash_blocks_inv (P : list Z -> Prop) N H bytes :
  (forall H' blk, P H' -> P (f H' blk)) -> P H -> P (Block512.hash_blocks f N H bytes).
Proof.
  intros Hf. revert H bytes. induction N as [| N IH]; intros H bytes HP;
    cbn [Block512.hash_blocks]; [ exact HP | ].
  apply IH, Hf, HP.
Qed.

End Block512_facts.

Lemma final_blocks64_bound r :
  (r < 64)%nat -> (r + 9 <= 64 * final_blocks64 r)%nat.
Proof.
  intros H. unfold final_blocks64. destruct (Nat.ltb_spec r 56); lia.
Qed.

Lemma block512_zero_bytes n :
  Z.to_nat ((Block512.zero_bits (8 * Z.of_nat n) - 7) / 8)
  = (64 * final_blocks64 (n mod 64) - 9 - n mod 64)%nat.
Proof.
  unfold Block512.zero_bits, final_blocks64.
  assert (Hn : Z.of_nat n = 64 * Z.of_nat (n / 64) + Z.of_nat (n mod 64))
    by (pose proof (Nat.div_mod n 64); lia).
  assert (Hr : (n mod 64 < 64)%nat) by (apply Nat.mod_upper_bound; lia).
  remember (Z.of_nat (n / 64)) as q eqn:Eq. clear Eq.
  remember (n mod 64)%nat as r eqn:Er. clear Er.
  rewrite Hn. destruct (Nat.ltb_spec r 56) as [Hlt | Hge].
  - replace (448 - (8 * (64 * q + Z.of_nat r) + 1))
      with (447 - 8 * Z.of_nat r + (- q) * 512) by lia.
    rewrite Z.mod_add by lia. rewrite Z.mod_small by lia.
    replace (447 - 8 * Z.of_nat r - 7) with ((55 - Z.of_nat r) * 8) by lia.
    rewrite Z.div_mul by lia. lia.
  - replace (448 - (8 * (64 * q + Z.of_nat r) + 1))
      with (959 - 8 * Z.of_nat r + (- q - 1) * 512) by lia.
    rewrite Z.mod_add by lia. rewrite Z.mod_small by lia.
    replace (959 - 8 * Z.of_nat r - 7) with ((119 - Z.of_nat r) * 8) by lia.
    rewrite Z.div_mul by lia. lia.
Qed.

Lemma block512_pad_tail len_bytes msg :
  Block512.pad len_bytes msg
  = msg ++ tail64 len_bytes (length msg mod 64) (8 * Z.of_nat (length msg)).
Proof.
  unfold Block512.pad, tail64. cbv zeta. rewrite block512_zero_bytes. reflexivity.
Qed.

Lemma length_tail64 len_bytes r bits :
  (r < 64)%nat -> length (len_bytes bits) = 8%nat ->
  length (tail64 len_bytes r bits) = (64 * final_blocks64 r - r)%nat.
Proof.
  intros H Hl. pose proof (final_blocks64_bound r H) as Hb.
  unfold tail64. rewrite !length_app, length_replicate, Hl. cbn [length]. lia.
Qed.

(** The last block or the last two blocks, as the finalizations build
    them in the 64-byte buffer. *)
Lemma final_block64_small (buf be : list byte) r :
  length buf = 64%nat -> (r < 56)%nat -> length be = 8%nat ->
  memcpy (memset (<[r := x80]> buf) (S r) x00 (55 - r)) 56 be
  = take r buf ++ [x80] ++ replicate (55 - r) x00 ++ be.
Proof.
  intros Hbuf Hr Hbe.
  rewrite memset_eq_app by (rewrite length_insert; lia).
  rewrite take_S_insert by lia.
  rewrite memcpy_eq_app
    by (rewrite !length_app, length_take, length_replicate, length_drop, length_insert;
        cbn [length]; lia).
  rewrite !app_assoc.
  rewrite take_app_length'
    by (rewrite !length_app, length_take, length_replicate; cbn [length]; lia).
  rewrite drop_ge
    by (rewrite !length_app, length_take, length_replicate, length_drop, length_insert;
        cbn [length]; lia).
  rewrite app_nil_r. reflexivity.
Qed.

Lemma final_block64_big_first (buf : list byte) r :
  length buf = 64%nat -> (56 <= r < 64)%nat ->
  memset (<[r := x80]> buf) (S r) x00 (63 - r)
  = take r buf ++ [x80] ++ replicate (63 - r) x00.
Proof.
  intros Hbuf Hr.
  rewrite memset_eq_app by (rewrite length_insert; lia).
  rewrite take_S_insert by lia.
  rewrite drop_ge by (rewrite length_insert; lia).
  rewrite app_nil_r, <- app_assoc. reflexivity.
Qed.

Lemma final_block64_big_second (buf be : list byte) :
  length buf = 64%nat -> length be = 8%nat ->
  memcpy (memset buf 0 x00 56) 56 be = replicate 56 x00 ++ be.
Proof.
  intros Hbuf Hbe.
  rewrite memset_eq_app by lia. rewrite take_0. cbn [app].
  rewrite memcpy_eq_app by (rewrite length_app, length_replicate, length_drop; lia).
  rewrite take_app_length' by (rewrite length_replicate; reflexivity).
  rewrite drop_ge by (rewrite length_app, length_replicate, length_drop; lia).
  rewrite app_nil_r. reflexivity.
Qed.

(** ** Engines on 64-byte blocks against the iteration of a block function

    SHA-256, SHA-224 and SHA-1 have the same update loop and the same
    finalization up to the names of the fields and the block transform.
    The section takes what the source shows of them as hypotheses: the two
    cases of the loop body and the two cases of the finalization, with [f]
    the function the transform computes on the chaining value. *)

Section Engine64.

Context {St : Type}.
Variables (bitlen bufferSize : St -> Z) (buffer : St -> list byte) (h : St -> list Z).
Variables (update_byte : St -> byte -> St) (finalize : St -> St).
Variable f : list Z -> list byte -> list Z.
Variable ok : list Z -> Prop.

Local Notation "'wf'" := (wf64 bitlen bufferSize buffer h ok).
Local Notation "'pending'" := (pending64 bufferSize buffer).
Local Notation "'final_bits' s" := (uint64_t (bitlen s + bufferSize s * 8)) (at level 10, s at level 9).

Hypothesis f_ok : forall H blk, ok H -> length blk = 64%nat -> ok (f H blk).

Hypothesis update_buffered : forall s d,
  wf s -> bufferSize s + 1 < 64 ->
  bitlen (update_byte s d) = bitlen s /\
  bufferSize (update_byte s d) = bufferSize s + 1 /\
  h (update_byte s d) = h s /\
  buffer (update_byte s d) = <[Z.to_nat (bufferSize s) := d]> (buffer s).

Hypothesis update_block : forall s d,
  wf s -> bufferSize s + 1 = 64 ->
  bitlen (update_byte s d) = uint64_t (bitlen s + 512) /\
  bufferSize (update_byte s d) = 0 /\
  h (update_byte s d) = f (h s) (<[Z.to_nat (bufferSize s) := d]> (buffer s)) /\
  length (buffer (update_byte s d)) = 64%nat.

Hypothesis finalize_small : forall s,
  wf s -> bufferSize s < 56 ->
  h (finalize s)
  = f (h s)
      (memcpy (memset (<[Z.to_nat (bufferSize s) := x80]> (buffer s))
                      (S (Z.to_nat (bufferSize s))) x00 (55 - Z.to_nat (bufferSize s)))
              56 (FIPS180.be_bytes 8 (final_bits s))).

Hypothesis finalize_big : forall s,
  wf s -> 56 <= bufferSize s ->
  h (finalize s)
  = f (f (h s)
         (memset (<[Z.to_nat (bufferSize s) := x80]> (buffer s))
                 (S (Z.to_nat (bufferSize s))) x00 (63 - Z.to_nat (bufferSize s))))
      (memcpy (memset (memset (<[Z.to_nat (bufferSize s) := x80]> (buffer s))
                              (S (Z.to_nat (bufferSize s))) x00
                              (63 - Z.to_nat (bufferSize s)))
                      0 x00 56)
              56 (FIPS180.be_bytes 8 (final_bits s))).

Lemma pending64_length s : wf s -> length (pending s) = Z.to_nat (bufferSize s).
Proof.
  intros (Hr & Hbuf & _). unfold pending64. rewrite length_take. lia.
Qed.

Lemma engine64_byte_buffered s d :
  wf s -> bufferSize s + 1 < 64 ->
  wf (update_byte s d) /\
  h (update_byte s d) = h s /\
  bitlen (update_byte s d) = bitlen s /\
  pending (update_byte s d) = pending s ++ [d].
Proof.
  intros Hwf Hlt. pose proof Hwf as (Hr & Hbuf & Hh & Hbl).
  destruct (update_buffered s d Hwf Hlt) as (Ebl & Esz & Eh & Ebuf).
  unfold wf64, pending64. rewrite Ebl, Esz, Eh, Ebuf, length_insert.
  repeat split; try assumption; try lia.
  replace (Z.to_nat (bufferSize s + 1)) with (S (Z.to_nat (bufferSize s))) by lia.
  apply take_S_insert. lia.
Qed.

Lemma engine64_byte_block s d :
  wf s -> bufferSize s + 1 = 64 ->
  wf (update_byte s d) /\
  h (update_byte s d) = f (h s) (pending s ++ [d]) /\
  bitlen (update_byte s d) = uint64_t (bitlen s + 512) /\
  pending (update_byte s d) = [].
Proof.
  intros Hwf Heq. pose proof Hwf as (Hr & Hbuf & Hh & Hbl).
  destruct (update_block s d Hwf Heq) as (Ebl & Esz & Eh & Elen).
  assert (Hfull : <[Z.to_nat (bufferSize s) := d]> (buffer s) = pending s ++ [d]).
  { unfold pending64. rewrite insert_take_drop by lia.
    rewrite (drop_ge _ (S _)) by lia. reflexivity. }
  assert (Hlen : length (pending s ++ [d]) = 64%nat)
    by (rewrite <- Hfull, length_insert; exact Hbuf).
  unfold wf64, pending64. rewrite Ebl, Esz, Eh, Elen, Hfull.
  pose proof (uint64_t_range (bitlen s + 512)).
  repeat split; try lia.
  apply f_ok; assumption.
Qed.

Lemma uint64_t_add_block64 bl q :
  uint64_t (uint64_t (bl + 512) + 512 * Z.of_nat q)
  = uint64_t (bl + 512 * Z.of_nat (S q)).
Proof.
  unfold uint64_t. rewrite Zplus_mod_idemp_l. f_equal. lia.
Qed.

(** After an update the chaining value is the hash of the complete blocks
    of what was buffered followed by the new bytes; the rest is buffered;
    the bit counter has advanced by 512 per block. *)
Lemma engine64_update_spec data s :
  wf s ->
  let all := pending s ++ data in
  let q := (length all / 64)%nat in
  let s' := fold_left update_byte data s in
  wf s' /\
  h s' = Block512.hash_blocks f q (h s) all /\
  pending s' = drop (64 * q) all /\
  bitlen s' = uint64_t (bitlen s + 512 * Z.of_nat q).
Proof.
  revert s. induction data as [| d data IH]; intros s Hwf; cbv zeta.
  - pose proof (pending64_length s Hwf) as Hp.
    pose proof Hwf as (Hr & Hbuf & Hh & Hbl).
    rewrite app_nil_r.
    assert (Hq : (length (pending s) / 64 = 0)%nat) by (apply Nat.div_small; lia).
    rewrite Hq. cbn [fold_left Block512.hash_blocks].
    rewrite Nat.mul_0_r, drop_0, Z.mul_0_r, Z.add_0_r, uint64_t_small by exact Hbl.
    repeat split; try assumption; try lia.
  - cbn [fold_left].
    pose proof (pending64_length s Hwf) as Hp.
    pose proof Hwf as (Hr & Hbuf & Hh & Hbl).
    destruct (Z.eq_dec (bufferSize s + 1) 64) as [Hfull | Hpart].
    + destruct (engine64_byte_block s d Hwf Hfull) as (Hwf1 & Hh1 & Hbl1 & Hp1).
      destruct (IH _ Hwf1) as (Hwf' & Hh' & Hp' & Hbl').
      rewrite Hp1 in Hh', Hp'. cbn [app] in Hh', Hp'. rewrite Hp1 in Hbl'. cbn [app] in Hbl'.
      assert (Hlen : length (pending s ++ [d]) = 64%nat)
        by (rewrite length_app; simpl; lia).
      replace (pending s ++ d :: data) with ((pending s ++ [d]) ++ data)
        by (rewrite <- app_assoc; reflexivity).
      assert (Hq : (length ((pending s ++ [d]) ++ data) / 64
                    = S (length data / 64))%nat).
      { rewrite length_app, Hlen.
        replace (64 + length data)%nat with (1 * 64 + length data)%nat by lia.
        rewrite Nat.div_add_l by lia. reflexivity. }
      rewrite Hq. cbn [Block512.hash_blocks].
      rewrite (take_app_length' _ _ 64) by (symmetry; exact Hlen).
      rewrite (drop_app_length' _ _ 64) by (symmetry; exact Hlen).
      rewrite <- Hh1. split; [ exact Hwf' | ]. split; [ exact Hh' | ]. split.
      * rewrite Hp'.
        replace (64 * S (length data / 64))%nat
          with (64 + 64 * (length data / 64))%nat by lia.
        rewrite <- drop_drop. rewrite (drop_app_length' _ _ 64) by (symmetry; exact Hlen).
        reflexivity.
      * rewrite Hbl', Hbl1. apply uint64_t_add_block64.
    + destruct (engine64_byte_buffered s d Hwf ltac:(lia)) as (Hwf1 & Hh1 & Hbl1 & Hp1).
      destruct (IH _ Hwf1) as (Hwf' & Hh' & Hp' & Hbl').
      rewrite Hp1, <- app_assoc in Hh', Hp', Hbl'. cbn [app] in Hh', Hp', Hbl'.
      rewrite Hh1 in Hh'. rewrite Hbl1 in Hbl'.
      repeat split; try assumption; apply Hwf'.
Qed.

(** The finalization hashes one or two more blocks: the buffered bytes
    followed by [tail64]. *)
Lemma engine64_finalize_spec s :
  wf s ->
  h (finalize s)
  = Block512.hash_blocks f (final_blocks64 (Z.to_nat (bufferSize s))) (h s)
      (pending s ++ tail64 (FIPS180.be_bytes 8) (Z.to_nat (bufferSize s)) (final_bits s)).
Proof.
  intros Hwf. pose proof Hwf as (Hr & Hbuf & Hh & Hbl).
  pose proof (pending64_length s Hwf) as Hp.
  pose proof (length_be_bytes 8 (final_bits s)) as Hbe.
  remember (FIPS180.be_bytes 8 (final_bits s)) as be eqn:Ebe.
  unfold tail64, final_blocks64. rewrite <- Ebe.
  destruct (Nat.ltb_spec (Z.to_nat (bufferSize s)) 56) as [Hlt | Hge].
  - rewrite finalize_small by (assumption || lia). rewrite <- Ebe.
    rewrite final_block64_small by (assumption || lia).
    replace (64 * 1 - 9 - Z.to_nat (bufferSize s))%nat
      with (55 - Z.to_nat (bufferSize s))%nat by lia.
    fold (pending s). cbn [Block512.hash_blocks].
    rewrite take_ge
      by (rewrite !length_app, Hp, length_replicate, Hbe; cbn [length]; lia).
    reflexivity.
  - rewrite finalize_big by (assumption || lia). rewrite <- Ebe.
    rewrite final_block64_big_second
      by (try exact Hbe; rewrite final_block64_big_first by (assumption || lia);
          rewrite !length_app, length_take, length_replicate; cbn [length]; lia).
    rewrite final_block64_big_first by (assumption || lia).
    replace (64 * 2 - 9 - Z.to_nat (bufferSize s))%nat
      with ((63 - Z.to_nat (bufferSize s)) + 56)%nat by lia.
    rewrite replicate_add. fold (pending s).
    assert (Hfirst : length (pending s ++ [x80]
                             ++ replicate (63 - Z.to_nat (bufferSize s)) x00) = 64%nat)
      by (rewrite !length_app, Hp, length_replicate; cbn [length]; lia).
    replace (pending s ++ [x80]
             ++ (replicate (63 - Z.to_nat (bufferSize s)) x00 ++ replicate 56 x00) ++ be)
      with ((pending s ++ [x80] ++ replicate (63 - Z.to_nat (bufferSize s)) x00)
            ++ (replicate 56 x00 ++ be))
      by (rewrite <- !app_assoc; reflexivity).
    cbn [Block512.hash_blocks].
    rewrite take_app_length' by (symmetry; exact Hfirst).
    rewrite drop_app_length' by (symmetry; exact Hfirst).
    rewrite take_ge by (rewrite length_app, length_replicate, Hbe; lia).
    reflexivity.
Qed.

(** From a state with an empty buffer and a zero bit counter, update and
    finalize compute the final hash value of the padded message, starting
    from whatever chaining value the state holds. *)
Lemma engine64_spec s msg :
  wf s -> bufferSize s = 0 -> bitlen s = 0 ->
  8 * Z.of_nat (length msg) < 2 ^ 64 ->
  h (finalize (fold_left update_byte msg s))
  = Block512.final_hash f FIPS180_32.length_bytes (h s) msg.
Proof.
  intros Hwf Hsize Hbits Hlen.
  pose proof (engine64_update_spec msg s Hwf) as Hup. cbv zeta in Hup.
  assert (Hpend : pending s = []) by (unfold pending64; rewrite Hsize; reflexivity).
  rewrite Hpend in Hup. cbn [app] in Hup.
  destruct Hup as (Hwf' & Hh & Hp & Hbl).
  remember (fold_left update_byte msg s) as s' eqn:Es'. clear Es'.
  remember (length msg) as n eqn:En.
  remember (n / 64)%nat as q eqn:Eq.
  assert (Hdm : n = (64 * q + n mod 64)%nat) by (subst q; apply Nat.div_mod; lia).
  assert (Hr : (n mod 64 < 64)%nat) by (apply Nat.mod_upper_bound; lia).
  assert (Hsize' : Z.to_nat (bufferSize s') = (n mod 64)%nat).
  { rewrite <- (pending64_length s' Hwf'), Hp, length_drop, <- En. lia. }
  assert (Hfinal : final_bits s' = 8 * Z.of_nat n).
  { rewrite Hbl, Hbits. unfold uint64_t.
    rewrite Zplus_mod_idemp_l. destruct Hwf' as (Hb & _).
    rewrite Z.mod_small; lia. }
  rewrite engine64_finalize_spec by exact Hwf'.
  rewrite Hsize', Hfinal, Hh, Hp.
  unfold Block512.final_hash, FIPS180_32.length_bytes.
  rewrite block512_pad_tail, <- En.
  replace (length (msg ++ tail64 (FIPS180.be_bytes 8) (n mod 64) (8 * Z.of_nat n)) / 64)%nat
    with (q + final_blocks64 (n mod 64))%nat.
  - rewrite block512_hash_blocks_add.
    rewrite (block512_hash_blocks_prefix f q) by lia.
    rewrite drop_app_le by lia. reflexivity.
  - rewrite length_app, length_tail64, <- En by (exact Hr || apply length_be_bytes).
    pose proof (final_blocks64_bound _ Hr) as Hb.
    apply (Nat.div_unique _ _ _ 0); lia.
Qed.

End Engine64.

(** ** SHA-256 and SHA-224 against FIPS 180-4 *)

Lemma take4_drop (l : list byte) n :
  (n + 4 <= length l)%nat ->
  take 4 (drop n l) = [l !!! n; l !!! (n + 1)%nat; l !!! (n + 2)%nat; l !!! (n + 3)%nat].
Proof.
  intros H.
  assert (Hlen : length (take 4 (drop n l)) = 4%nat) by (rewrite length_take, length_drop; lia).
  assert (Hk : forall k, (k < 4)%nat -> take 4 (drop n l) !!! k = l !!! (n + k)%nat).
  { intros k Hk. rewrite lookup_total_take_lt by lia. apply lookup_total_drop. }
  destruct (take 4 (drop n l)) as [| x0 [| x1 [| x2 [| x3 r]]]]; try discriminate Hlen.
  destruct r; [ | discriminate Hlen ].
  pose proof (Hk 0%nat ltac:(lia)) as H0. pose proof (Hk 1%nat ltac:(lia)) as H1.
  pose proof (Hk 2%nat ltac:(lia)) as H2. pose proof (Hk 3%nat ltac:(lia)) as H3.
  rewrite Nat.add_0_r in H0.
  rewrite <- H0, <- H1, <- H2, <- H3. reflexivity.
Qed.

Lemma add32_reorder a s0 b s1 :
  uint32_t (uint32_t (uint32_t (a + s0) + b) + s1)
  = FIPS180_32.add (FIPS180_32.add (FIPS180_32.add s1 b) s0) a.
Proof.
  assert (H3 : forall x y z m, ((x mod m + y) mod m + z) mod m = (x + y + z) mod m).
  { intros x y z m. rewrite Zplus_mod_idemp_l, <- Z.add_assoc, Zplus_mod_idemp_l.
    f_equal. lia. }
  unfold uint32_t, FIPS180_32.add. rewrite !H3. f_equal. lia.
Qed.

Lemma sha256_load_word_value buf w i :
  (4 * i + 4 <= length buf)%nat ->
  Sha256.load_word buf w i = <[i := FIPS180.be_value (take 4 (drop (4 * i) buf))]> w.
Proof.
  intros H. unfold Sha256.load_word. cbv zeta. cbn [hash_util_is_little_endian].
  rewrite take4_drop by exact H.
  unfold hash_util_swap_endian_uint32_t. rewrite swap_endian_object_value by reflexivity.
  reflexivity.
Qed.

Lemma sha256_message_schedule buf :
  length buf = 64%nat ->
  Sha256.message_schedule buf = FIPS180_32.schedule256 (FIPS180_32.block_words buf) 64.
Proof.
  intros Hbuf. unfold Sha256.message_schedule. cbv zeta.
  set (M := FIPS180_32.block_words buf).
  set (P := fun (i : nat) (w : list Z) =>
              length w = 64%nat /\ take i w = FIPS180_32.schedule256 M i).
  assert (H16 : P 16%nat (fold_left (Sha256.load_word buf) (seq 0 16) (replicate 64 0))).
  { apply (fold_left_seq_inv P (Sha256.load_word buf) 0 16).
    - split; reflexivity.
    - intros i y Hi [Hlen Htake]. rewrite sha256_load_word_value by lia. split.
      + rewrite length_insert. exact Hlen.
      + rewrite take_S_insert by lia. rewrite Htake. cbn [FIPS180_32.schedule256].
        destruct (Nat.ltb_spec i 16); [ | lia ].
        unfold M, FIPS180_32.block_words. rewrite lookup_total_map_seq by lia. reflexivity. }
  assert (H64 : P 64%nat (fold_left Sha256.extend_word (seq 16 48)
                            (fold_left (Sha256.load_word buf) (seq 0 16) (replicate 64 0)))).
  { apply (fold_left_seq_inv P Sha256.extend_word 16 48); [ exact H16 | ].
    intros i y Hi [Hlen Htake]. unfold Sha256.extend_word. cbv zeta. split.
    - rewrite length_insert. exact Hlen.
    - rewrite take_S_insert by lia. rewrite Htake. cbn [FIPS180_32.schedule256].
      destruct (Nat.ltb_spec i 16); [ lia | ].
      rewrite <- Htake. rewrite !lookup_total_take_lt by lia.
      f_equal. f_equal. apply add32_reorder. }
  destruct H64 as [Hlen Htake]. rewrite <- Htake.
  rewrite take_ge by lia. reflexivity.
Qed.

Lemma sha256_compress_round_step w v i :
  Sha256.compress_round w v i = FIPS180_32.step256 w v i.
Proof.
  destruct v as [[[[[[[a b] c] d] e] f] g] hh].
  unfold Sha256.compress_round, FIPS180_32.step256, FIPS180_32.add, FIPS180_32.Sigma1,
    FIPS180_32.Sigma0, FIPS180_32.Ch, FIPS180_32.Maj, FIPS180_32.ROTR,
    FIPS180_32.complement, FIPS180_32.K256, hash_util_right_rotate_u32, not32, uint32_t.
  reflexivity.
Qed.

Lemma sha256_compress_words hs M :
  length hs = 8%nat ->
  Sha256.compress_words hs (FIPS180_32.schedule256 M 64) = FIPS180_32.hash_block256 hs M.
Proof.
  intros Hlen. unfold Sha256.compress_words, FIPS180_32.hash_block256. cbv zeta.
  rewrite (fold_left_ext (Sha256.compress_round (FIPS180_32.schedule256 M 64))
             (FIPS180_32.step256 (FIPS180_32.schedule256 M 64)))
    by (intros; apply sha256_compress_round_step).
  destruct (fold_left _ _ _) as [[[[[[[a b] c] d] e] f] g] hh].
  destruct hs as [| h0 [| h1 [| h2 [| h3 [| h4 [| h5 [| h6 [| h7 [| h8 r]]]]]]]]];
    try discriminate Hlen.
  unfold FIPS180_32.add, uint32_t. cbn.
  rewrite (Z.add_comm h0), (Z.add_comm h1), (Z.add_comm h2), (Z.add_comm h3),
          (Z.add_comm h4), (Z.add_comm h5), (Z.add_comm h6), (Z.add_comm h7).
  reflexivity.
Qed.

(** The compression of the block an array of 64 bytes holds is the hash
    computation of FIPS 180-4, 6.2.2. *)
Lemma sha256_compress_block hs buf :
  length hs = 8%nat -> length buf = 64%nat ->
  Sha256.compress_words hs (Sha256.message_schedule buf) = FIPS180_32.block256 hs buf.
Proof.
  intros Hh Hbuf. rewrite sha256_message_schedule by exact Hbuf.
  apply sha256_compress_words. exact Hh.
Qed.

Lemma fips_block256_length H blk : length (FIPS180_32.block256 H blk) = 8%nat.
Proof.
  unfold FIPS180_32.block256, FIPS180_32.hash_block256. cbv zeta.
  destruct (fold_left _ _ _) as [[[[[[[a b] c] d] e] f] g] hh]. reflexivity.
Qed.

(** The two cases of the loop body and of the finalization, as
    equations. *)
Lemma sha256_update_byte_buffered_eq s d :
  0 <= Sha256.bufferSize s -> Sha256.bufferSize s + 1 < 64 ->
  Sha256.update_byte s d
  = Sha256.mk (Sha256.bitlen s) (Sha256.bufferSize s + 1) (Sha256.h s)
      (<[Z.to_nat (Sha256.bufferSize s) := d]> (Sha256.buffer s)) (Sha256.transforms s).
Proof.
  intros H0 H. unfold Sha256.update_byte. cbv zeta. cbn [Sha256.bufferSize].
  rewrite uint8_t_small by lia.
  destruct (Z.eqb_spec (Sha256.bufferSize s + 1) 64); [ lia | reflexivity ].
Qed.

Lemma sha256_update_byte_block_eq s d :
  0 <= Sha256.bufferSize s -> Sha256.bufferSize s + 1 = 64 ->
  Sha256.update_byte s d
  = Sha256.mk (uint64_t (Sha256.bitlen s + 512)) 0
      (Sha256.compress_words (Sha256.h s)
         (Sha256.message_schedule (<[Z.to_nat (Sha256.bufferSize s) := d]> (Sha256.buffer s))))
      (<[Z.to_nat (Sha256.bufferSize s) := d]> (Sha256.buffer s))
      (S (Sha256.transforms s)).
Proof.
  intros H0 H. unfold Sha256.update_byte. cbv zeta. cbn [Sha256.bufferSize].
  rewrite uint8_t_small by lia. rewrite H. cbn [Z.eqb Pos.eqb].
  reflexivity.
Qed.

Lemma sha256_finalize_small_eq s :
  0 <= Sha256.bufferSize s < 56 ->
  Sha256.h (Sha256.hash_sha256_finalize s)
  = Sha256.compress_words (Sha256.h s)
      (Sha256.message_schedule
         (memcpy (memset (<[Z.to_nat (Sha256.bufferSize s) := byte_of_Z 128]> (Sha256.buffer s))
                         (Z.to_nat (Sha256.bufferSize s + 1)) x00
                         (Z.to_nat (56 - (Sha256.bufferSize s + 1))))
                 56 (FIPS180.be_bytes 8
                       (uint64_t (Sha256.bitlen s + Sha256.bufferSize s * 8))))).
Proof.
  intros H. unfold Sha256.hash_sha256_finalize. cbv zeta.
  cbn [Sha256.bufferSize Sha256.bitlen Sha256.buffer Sha256.h hash_util_is_little_endian].
  rewrite uint8_t_small by lia.
  destruct (Z.ltb_spec (Sha256.bufferSize s) 56); [ | lia ].
  destruct (Z.leb_spec 56 (Sha256.bufferSize s)); [ lia | ].
  cbn [Sha256.bufferSize Sha256.bitlen Sha256.buffer Sha256.h].
  unfold hash_util_swap_endian_uint64_t. rewrite object_bytes_swap_endian.
  reflexivity.
Qed.

Lemma sha256_finalize_big_eq s :
  56 <= Sha256.bufferSize s < 64 ->
  Sha256.h (Sha256.hash_sha256_finalize s)
  = Sha256.compress_words
      (Sha256.compress_words (Sha256.h s)
         (Sha256.message_schedule
            (memset (<[Z.to_nat (Sha256.bufferSize s) := byte_of_Z 128]> (Sha256.buffer s))
                    (Z.to_nat (Sha256.bufferSize s + 1)) x00
                    (Z.to_nat (64 - (Sha256.bufferSize s + 1))))))
      (Sha256.message_schedule
         (memcpy (memset (memset (<[Z.to_nat (Sha256.bufferSize s) := byte_of_Z 128]>
                                    (Sha256.buffer s))
                                 (Z.to_nat (Sha256.bufferSize s + 1)) x00
                                 (Z.to_nat (64 - (Sha256.bufferSize s + 1))))
                         0 x00 56)
                 56 (FIPS180.be_bytes 8
                       (uint64_t (Sha256.bitlen s + Sha256.bufferSize s * 8))))).
Proof.
  intros H. unfold Sha256.hash_sha256_finalize. cbv zeta.
  cbn [Sha256.bufferSize Sha256.bitlen Sha256.buffer Sha256.h hash_util_is_little_endian].
  rewrite uint8_t_small by lia.
  destruct (Z.ltb_spec (Sha256.bufferSize s) 56); [ lia | ].
  destruct (Z.leb_spec 56 (Sha256.bufferSize s)); [ | lia ].
  cbn [Sha256.bufferSize Sha256.bitlen Sha256.buffer Sha256.h].
  unfold hash_util_swap_endian_uint64_t. rewrite object_bytes_swap_endian.
  reflexivity.
Qed.

(** From a state with an empty buffer and a zero bit counter, update and
    finalize compute the final hash value of FIPS 180-4 from the chaining
    value the state holds. *)
Lemma sha256_engine_spec s msg :
  length (Sha256.buffer s) = 64%nat -> length (Sha256.h s) = 8%nat ->
  Sha256.bufferSize s = 0 -> Sha256.bitlen s = 0 ->
  8 * Z.of_nat (length msg) < 2 ^ 64 ->
  Sha256.h (Sha256.hash_sha256_finalize (Sha256.hash_sha256_update_binary s msg))
  = Block512.final_hash FIPS180_32.block256 FIPS180_32.length_bytes (Sha256.h s) msg.
Proof.
  intros Hbuf Hh Hsize Hbits Hlen. unfold Sha256.hash_sha256_update_binary.
  apply (engine64_spec Sha256.bitlen Sha256.bufferSize Sha256.buffer Sha256.h
           Sha256.update_byte Sha256.hash_sha256_finalize FIPS180_32.block256
           (fun hs => length hs = 8%nat)).
  - intros H blk _ _. apply fips_block256_length.
  - intros s0 d (Hr0 & Hbuf0 & Hh0 & Hbl0) Hlt.
    rewrite sha256_update_byte_buffered_eq by lia.
    cbn [Sha256.bitlen Sha256.bufferSize Sha256.h Sha256.buffer]. repeat split.
  - intros s0 d (Hr0 & Hbuf0 & Hh0 & Hbl0) Heq.
    rewrite sha256_update_byte_block_eq by lia.
    cbn [Sha256.bitlen Sha256.bufferSize Sha256.h Sha256.buffer].
    rewrite sha256_compress_block by (rewrite ?length_insert; assumption).
    rewrite length_insert. repeat split; assumption.
  - intros s0 (Hr0 & Hbuf0 & Hh0 & Hbl0) Hlt.
    rewrite sha256_finalize_small_eq by lia. rewrite byte_of_Z_128.
    replace (Z.to_nat (Sha256.bufferSize s0 + 1)) with (S (Z.to_nat (Sha256.bufferSize s0)))
      by lia.
    replace (Z.to_nat (56 - (Sha256.bufferSize s0 + 1)))
      with (55 - Z.to_nat (Sha256.bufferSize s0))%nat by lia.
    apply sha256_compress_block; [ assumption | ].
    rewrite length_memcpy, length_memset, length_insert. assumption.
  - intros s0 (Hr0 & Hbuf0 & Hh0 & Hbl0) Hge.
    rewrite sha256_finalize_big_eq by lia. rewrite byte_of_Z_128.
    replace (Z.to_nat (Sha256.bufferSize s0 + 1)) with (S (Z.to_nat (Sha256.bufferSize s0)))
      by lia.
    replace (Z.to_nat (64 - (Sha256.bufferSize s0 + 1)))
      with (63 - Z.to_nat (Sha256.bufferSize s0))%nat by lia.
    rewrite (sha256_compress_block (Sha256.h s0))
      by (rewrite ?length_memset, ?length_insert; assumption).
    apply sha256_compress_block; [ apply fips_block256_length | ].
    rewrite length_memcpy, !length_memset, length_insert. assumption.
  - unfold wf64. rewrite Hsize, Hbits. repeat split; try lia; assumption.
  - exact Hsize.
  - exact Hbits.
  - exact Hlen.
Qed.

(** *** The digits of a chaining value *)

Lemma map_lookup_total_seq {A B} `{!Inhabited A} (F : A -> B) (l : list A) n :
  (n <= length l)%nat -> map (fun i => F (l !!! i)) (seq 0 n) = map F (take n l).
Proof.
  revert n. induction l as [| a l IH]; intros n Hn.
  - destruct n; [ reflexivity | simpl in Hn; lia ].
  - destruct n as [| n]; [ reflexivity | ].
    cbn [seq map take]. f_equal.
    rewrite <- seq_shift, map_map. apply IH. simpl in Hn. lia.
Qed.

Lemma take_concat_uniform {A} (w : nat) (l : list (list A)) n :
  Forall (fun x => length x = w) l -> take (w * n) (concat l) = concat (take n l).
Proof.
  intros H. revert n. induction H as [| x l Hx Hl IH]; intros n.
  - rewrite take_nil. cbn [concat]. apply take_nil.
  - destruct n as [| n].
    + rewrite Nat.mul_0_r. reflexivity.
    + cbn [concat take]. replace (w * S n)%nat with (length x + w * n)%nat by lia.
      rewrite take_app_add'  by reflexivity. rewrite IH. reflexivity.
Qed.

Lemma Forall_length_be_bytes w hs :
  Forall (fun x => length x = w) (map (FIPS180.be_bytes w) hs).
Proof.
  induction hs as [| v hs IH]; cbn [map]; constructor;
    [ apply length_be_bytes | exact IH ].
Qed.

Lemma length_concat_be_bytes w hs :
  length (concat (map (FIPS180.be_bytes w) hs)) = (w * length hs)%nat.
Proof.
  induction hs as [| v hs IH]; cbn [map concat length]; [ lia | ].
  rewrite length_app, length_be_bytes, IH. lia.
Qed.

(** [n] words printed with [%0(2w)x] are the digits of the first [w * n]
    bytes of the big-endian bytes of the chaining value. *)
Lemma hex_words_bytes w n hs :
  (n <= length hs)%nat ->
  concat_strings (map (fun i => sprintf_0x (2 * w) (hs !!! i)) (seq 0 n))
  = hash_util_char_array_to_hex_string
      (take (w * n) (concat (map (FIPS180.be_bytes w) hs))).
Proof.
  intros Hn. rewrite take_concat_uniform by apply Forall_length_be_bytes.
  rewrite firstn_map, <- hex_string_concat.
  rewrite (map_lookup_total_seq (sprintf_0x (2 * w)) hs n Hn).
  f_equal. apply map_ext. intros v. apply sprintf_0x_be_bytes.
Qed.

Lemma sha256_hexdigest_bytes s :
  length (Sha256.h s) = 8%nat ->
  Sha256.hash_sha256_hexdigest s
  = hash_util_char_array_to_hex_string (concat (map (FIPS180.be_bytes 4) (Sha256.h s))).
Proof.
  intros H. unfold Sha256.hash_sha256_hexdigest.
  rewrite (hex_words_bytes 4 8) by lia.
  rewrite take_ge; [ reflexivity | ].
  rewrite length_concat_be_bytes. lia.
Qed.

Lemma sha224_hexdigest_bytes s :
  length (Sha256.h s) = 8%nat ->
  Sha256.hash_sha224_hexdigest s
  = hash_util_char_array_to_hex_string
      (take 28 (concat (map (FIPS180.be_bytes 4) (Sha256.h s)))).
Proof.
  intros H. unfold Sha256.hash_sha224_hexdigest.
  rewrite (hex_words_bytes 4 7) by lia. reflexivity.
Qed.

Lemma block512_final_hash_length f lb H0 msg n :
  (forall H blk, length (f H blk) = n) -> length H0 = n ->
  length (Block512.final_hash f lb H0 msg) = n.
Proof.
  intros Hf HH. unfold Block512.final_hash.
  apply (block512_hash_blocks_inv f (fun H => length H = n)); [ | exact HH ].
  intros H' blk _. apply Hf.
Qed.

(** X4. For every sequence of chunks whose concatenation has less than
    2^64 bits, the streaming SHA-256 engine (init, one update per chunk,
    finalize, hexdigest) returns the 64 digits of the SHA-256 digest of
    FIPS 180-4 of the concatenation, whatever the structure held before
    [hash_sha256_init]. *)
Theorem sha256_stream_is_standard (s : Sha256.Hash_Private_Sha256)
  (chunks : list (list byte)) :
  length (Sha256.buffer s) = 64%nat ->
  8 * Z.of_nat (length (concat chunks)) < 2 ^ 64 ->
  sha256_stream s chunks
  = hash_util_char_array_to_hex_string (FIPS180_32.sha256 (concat chunks)).
Proof.
  intros Hbuf Hlen. unfold sha256_stream. rewrite sha256_update_chunks.
  assert (Hspec := sha256_engine_spec (Sha256.hash_sha256_init s) (concat chunks)
                     Hbuf eq_refl eq_refl eq_refl Hlen).
  rewrite sha256_hexdigest_bytes.
  - rewrite Hspec. reflexivity.
  - rewrite Hspec. apply block512_final_hash_length; [ | reflexivity ].
    intros. apply fips_block256_length.
Qed.

Lemma sha256_stream_is_standard_witness :
  sha256_stream zeroed_sha256 [abc; abc]
  = hash_util_char_array_to_hex_string (FIPS180_32.sha256 (concat [abc; abc])).
Proof.
  apply (sha256_stream_is_standard zeroed_sha256 [abc; abc]).
  - reflexivity.
  - reflexivity.
Defined.

(** X5. Likewise the streaming SHA-224 engine returns the 56 digits of the
    SHA-224 digest of FIPS 180-4 (the left-most 224 bits of the final hash
    value computed from the initial value of 5.3.2). *)
Theorem sha224_stream_is_standard (s : Sha256.Hash_Private_Sha256)
  (chunks : list (list byte)) :
  length (Sha256.buffer s) = 64%nat ->
  8 * Z.of_nat (length (concat chunks)) < 2 ^ 64 ->
  sha224_stream s chunks
  = hash_util_char_array_to_hex_string (FIPS180_32.sha224 (concat chunks)).
Proof.
  intros Hbuf Hlen. unfold sha224_stream, Sha256.hash_sha224_update_binary,
    Sha256.hash_sha224_finalize.
  rewrite sha256_update_chunks.
  assert (Hspec := sha256_engine_spec (Sha256.hash_sha224_init s) (concat chunks)
                     Hbuf eq_refl eq_refl eq_refl Hlen).
  rewrite sha224_hexdigest_bytes.
  - rewrite Hspec. reflexivity.
  - rewrite Hspec. apply block512_final_hash_length; [ | reflexivity ].
    intros. apply fips_block256_length.
Qed.

Lemma sha224_stream_is_standard_witness :
  sha224_stream zeroed_sha256 [abc; abc]
  = hash_util_char_array_to_hex_string (FIPS180_32.sha224 (concat [abc; abc])).
Proof.
  apply (sha224_stream_is_standard zeroed_sha256 [abc; abc]).
  - reflexivity.
  - reflexivity.
Defined.

(** ** SHA-1 against FIPS 180-4 *)

(** The source writes Ch and Maj with [|] where the standard has the
    exclusive or; on 32-bit values they are the same functions. *)
Lemma testbit_above_32 b n : 0 <= b < 2 ^ 32 -> 32 <= n -> Z.testbit b n = false.
Proof.
  intros Hb Hn. rewrite <- (Z.mod_small b (2 ^ 32)) by exact Hb.
  apply Z.mod_pow2_bits_high. lia.
Qed.

Lemma ch_or_xor b c d :
  0 <= b < 2 ^ 32 ->
  Z.lor (Z.land b c) (Z.land (not32 b) d) = FIPS180_32.Ch b c d.
Proof.
  intros Hb. unfold FIPS180_32.Ch, FIPS180_32.complement, not32.
  change (2 ^ 32 - 1) with (Z.ones 32).
  apply Z.bits_inj'. intros n Hn.
  rewrite Z.lor_spec, Z.lxor_spec, !Z.land_spec, Z.lxor_spec.
  destruct (Z.testbit b n) eqn:Eb.
  - destruct (Z_lt_le_dec n 32) as [Hlt | Hge].
    + rewrite Z.ones_spec_low by lia. destruct (Z.testbit c n), (Z.testbit d n); reflexivity.
    + rewrite testbit_above_32 in Eb by assumption. discriminate Eb.
  - destruct (Z.testbit (Z.ones 32) n), (Z.testbit c n), (Z.testbit d n); reflexivity.
Qed.

Lemma maj_or_xor b c d :
  Z.lor (Z.lor (Z.land b c) (Z.land b d)) (Z.land c d) = FIPS180_32.Maj b c d.
Proof.
  unfold FIPS180_32.Maj. apply Z.bits_inj'. intros n Hn.
  rewrite !Z.lor_spec, !Z.lxor_spec, !Z.land_spec.
  destruct (Z.testbit b n), (Z.testbit c n), (Z.testbit d n); reflexivity.
Qed.

Lemma uint32_t_range z : 0 <= uint32_t z < 2 ^ 32.
Proof. unfold uint32_t. apply Z.mod_pos_bound. lia. Qed.

Lemma sha1_round_step w a b c d e i :
  0 <= b < 2 ^ 32 ->
  Sha1.round w (a, b, c, d, e) i = FIPS180_32.step1 w (a, b, c, d, e) i.
Proof.
  intros Hb. unfold Sha1.round, FIPS180_32.step1, FIPS180_32.f1, FIPS180_32.K1.
  destruct (Nat.leb_spec i 19) as [H19 | H19].
  { destruct (Nat.ltb_spec i 20); [ | lia ]. rewrite ch_or_xor by exact Hb. reflexivity. }
  destruct (Nat.ltb_spec i 20); [ lia | ].
  destruct (Nat.leb_spec 20 i); [ | lia ]. cbn [andb].
  destruct (Nat.leb_spec i 39) as [H39 | H39].
  { destruct (Nat.ltb_spec i 40); [ | lia ]. reflexivity. }
  destruct (Nat.ltb_spec i 40); [ lia | ].
  destruct (Nat.leb_spec 40 i); [ | lia ]. cbn [andb].
  destruct (Nat.leb_spec i 59) as [H59 | H59].
  { destruct (Nat.ltb_spec i 60); [ | lia ]. rewrite maj_or_xor. reflexivity. }
  destruct (Nat.ltb_spec i 60); [ lia | ]. reflexivity.
Qed.

Lemma sha1_rounds_steps w l a b c d e :
  0 <= a < 2 ^ 32 -> 0 <= b < 2 ^ 32 ->
  fold_left (Sha1.round w) l (a, b, c, d, e)
  = fold_left (FIPS180_32.step1 w) l (a, b, c, d, e).
Proof.
  revert a b c d e. induction l as [| i l IH]; intros a b c d e Ha Hb; [ reflexivity | ].
  cbn [fold_left]. rewrite sha1_round_step by exact Hb.
  unfold FIPS180_32.step1 at 2. cbv zeta.
  apply IH; [ | exact Ha ].
  unfold FIPS180_32.add. apply Z.mod_pos_bound. lia.
Qed.

Lemma sha1_load_word_value buf w i :
  (4 * i + 4 <= length buf)%nat ->
  Sha1.load_word buf w i = <[i := FIPS180.be_value (take 4 (drop (4 * i) buf))]> w.
Proof.
  intros H. unfold Sha1.load_word. cbv zeta. cbn [hash_util_is_little_endian].
  rewrite take4_drop by exact H.
  unfold hash_util_swap_endian_uint32_t. rewrite swap_endian_object_value by reflexivity.
  reflexivity.
Qed.

Lemma sha1_message_schedule buf :
  length buf = 64%nat ->
  fold_left Sha1.extend_word (seq 16 64)
    (fold_left (Sha1.load_word buf) (seq 0 16) (replicate 80 0))
  = FIPS180_32.schedule1 (FIPS180_32.block_words buf) 80.
Proof.
  intros Hbuf.
  set (M := FIPS180_32.block_words buf).
  set (P := fun (i : nat) (w : list Z) =>
              length w = 80%nat /\ take i w = FIPS180_32.schedule1 M i).
  assert (H16 : P 16%nat (fold_left (Sha1.load_word buf) (seq 0 16) (replicate 80 0))).
  { apply (fold_left_seq_inv P (Sha1.load_word buf) 0 16).
    - split; reflexivity.
    - intros i y Hi [Hlen Htake]. rewrite sha1_load_word_value by lia. split.
      + rewrite length_insert. exact Hlen.
      + rewrite take_S_insert by lia. rewrite Htake. cbn [FIPS180_32.schedule1].
        destruct (Nat.ltb_spec i 16); [ | lia ].
        unfold M, FIPS180_32.block_words. rewrite lookup_total_map_seq by lia. reflexivity. }
  assert (H80 : P 80%nat (fold_left Sha1.extend_word (seq 16 64)
                            (fold_left (Sha1.load_word buf) (seq 0 16) (replicate 80 0)))).
  { apply (fold_left_seq_inv P Sha1.extend_word 16 64); [ exact H16 | ].
    intros i y Hi [Hlen Htake]. unfold Sha1.extend_word. split.
    - rewrite length_insert. exact Hlen.
    - rewrite take_S_insert by lia. rewrite Htake. cbn [FIPS180_32.schedule1].
      destruct (Nat.ltb_spec i 16); [ lia | ].
      rewrite <- Htake. rewrite !lookup_total_take_lt by lia.
      reflexivity. }
  destruct H80 as [Hlen Htake]. rewrite <- Htake.
  rewrite take_ge by lia. reflexivity.
Qed.

Lemma words32_lookup n hs i :
  words32 n hs -> (i < n)%nat -> 0 <= hs !!! i < 2 ^ 32.
Proof.
  intros [Hlen Hall] Hi.
  assert (Hin : hs !! i = Some (hs !!! i)) by (apply list_lookup_lookup_total_lt; lia).
  exact (proj1 (Forall_lookup _ hs) Hall i _ Hin).
Qed.

(** The transform is the hash computation of FIPS 180-4, 6.1.2, on the
    block the array holds. *)
Lemma sha1_transform_block hs buf :
  words32 5 hs -> length buf = 64%nat ->
  Sha1.transform_words hs buf = FIPS180_32.block1 hs buf.
Proof.
  intros Hok Hbuf. pose proof Hok as [Hlen _].
  unfold Sha1.transform_words, FIPS180_32.block1, FIPS180_32.hash_block1. cbv zeta.
  rewrite sha1_message_schedule by exact Hbuf.
  rewrite sha1_rounds_steps by (apply (words32_lookup 5); [ exact Hok | lia ]).
  destruct (fold_left _ _ _) as [[[[a b] c] d] e].
  destruct hs as [| h0 [| h1 [| h2 [| h3 [| h4 [| h5 r]]]]]]; try discriminate Hlen.
  unfold FIPS180_32.add, uint32_t. cbn.
  rewrite (Z.add_comm h0), (Z.add_comm h1), (Z.add_comm h2), (Z.add_comm h3),
          (Z.add_comm h4).
  reflexivity.
Qed.

Lemma fips_block1_words32 H blk : words32 5 (FIPS180_32.block1 H blk).
Proof.
  unfold FIPS180_32.block1, FIPS180_32.hash_block1. cbv zeta.
  destruct (fold_left _ _ _) as [[[[a b] c] d] e].
  split; [ reflexivity | ].
  repeat constructor; unfold FIPS180_32.add; try (apply Z.mod_pos_bound; lia);
    apply Z.mod_pos_bound; lia.
Qed.

Lemma sha1_update_byte_buffered_eq s d :
  0 <= Sha1.bufferSize s -> Sha1.bufferSize s + 1 < 64 ->
  Sha1.update_byte s d
  = Sha1.mk (Sha1.bitlen s) (Sha1.bufferSize s + 1)
      (<[Z.to_nat (Sha1.bufferSize s) := d]> (Sha1.buffer s)) (Sha1.h s) (Sha1.transforms s).
Proof.
  intros H0 H. unfold Sha1.update_byte. cbv zeta. cbn [Sha1.bufferSize].
  rewrite uint8_t_small by lia.
  destruct (Z.eqb_spec (Sha1.bufferSize s + 1) 64); [ lia | reflexivity ].
Qed.

Lemma sha1_update_byte_block_eq s d :
  0 <= Sha1.bufferSize s -> Sha1.bufferSize s + 1 = 64 ->
  Sha1.update_byte s d
  = Sha1.mk (uint64_t (Sha1.bitlen s + 512)) 0
      (<[Z.to_nat (Sha1.bufferSize s) := d]> (Sha1.buffer s))
      (Sha1.transform_words (Sha1.h s)
         (<[Z.to_nat (Sha1.bufferSize s) := d]> (Sha1.buffer s)))
      (S (Sha1.transforms s)).
Proof.
  intros H0 H. unfold Sha1.update_byte. cbv zeta. cbn [Sha1.bufferSize].
  rewrite uint8_t_small by lia. rewrite H. cbn [Z.eqb Pos.eqb].
  reflexivity.
Qed.

Lemma sha1_finalize_small_eq s :
  0 <= Sha1.bufferSize s < 56 ->
  Sha1.h (Sha1.hash_sha1_finalize s)
  = Sha1.transform_words (Sha1.h s)
      (memcpy (memset (<[Z.to_nat (Sha1.bufferSize s) := byte_of_Z 128]> (Sha1.buffer s))
                      (Z.to_nat (Sha1.bufferSize s + 1)) x00
                      (Z.to_nat (56 - (Sha1.bufferSize s + 1))))
              56 (FIPS180.be_bytes 8 (uint64_t (Sha1.bitlen s + Sha1.bufferSize s * 8)))).
Proof.
  intros H. unfold Sha1.hash_sha1_finalize. cbv zeta.
  cbn [Sha1.bufferSize Sha1.bitlen Sha1.buffer Sha1.h hash_util_is_little_endian].
  rewrite uint8_t_small by lia.
  destruct (Z.ltb_spec (Sha1.bufferSize s) 56); [ | lia ].
  destruct (Z.leb_spec 56 (Sha1.bufferSize s)); [ lia | ].
  cbn [Sha1.bufferSize Sha1.bitlen Sha1.buffer Sha1.h].
  unfold hash_util_swap_endian_uint64_t. rewrite object_bytes_swap_endian.
  reflexivity.
Qed.

Lemma sha1_finalize_big_eq s :
  56 <= Sha1.bufferSize s < 64 ->
  Sha1.h (Sha1.hash_sha1_finalize s)
  = Sha1.transform_words
      (Sha1.transform_words (Sha1.h s)
         (memset (<[Z.to_nat (Sha1.bufferSize s) := byte_of_Z 128]> (Sha1.buffer s))
                 (Z.to_nat (Sha1.bufferSize s + 1)) x00
                 (Z.to_nat (64 - (Sha1.bufferSize s + 1)))))
      (memcpy (memset (memset (<[Z.to_nat (Sha1.bufferSize s) := byte_of_Z 128]>
                                 (Sha1.buffer s))
                              (Z.to_nat (Sha1.bufferSize s + 1)) x00
                              (Z.to_nat (64 - (Sha1.bufferSize s + 1))))
                      0 x00 56)
              56 (FIPS180.be_bytes 8 (uint64_t (Sha1.bitlen s + Sha1.bufferSize s * 8)))).
Proof.
  intros H. unfold Sha1.hash_sha1_finalize. cbv zeta.
  cbn [Sha1.bufferSize Sha1.bitlen Sha1.buffer Sha1.h hash_util_is_little_endian].
  rewrite uint8_t_small by lia.
  destruct (Z.ltb_spec (Sha1.bufferSize s) 56); [ lia | ].
  destruct (Z.leb_spec 56 (Sha1.bufferSize s)); [ | lia ].
  cbn [Sha1.bufferSize Sha1.bitlen Sha1.buffer Sha1.h Sha1.hash_private_hash_sha1_transform].
  unfold hash_util_swap_endian_uint64_t. rewrite object_bytes_swap_endian.
  reflexivity.
Qed.

Lemma sha1_engine_spec s msg :
  length (Sha1.buffer s) = 64%nat -> words32 5 (Sha1.h s) ->
  Sha1.bufferSize s = 0 -> Sha1.bitlen s = 0 ->
  8 * Z.of_nat (length msg) < 2 ^ 64 ->
  Sha1.h (Sha1.hash_sha1_finalize (Sha1.hash_sha1_update_binary s msg))
  = Block512.final_hash FIPS180_32.block1 FIPS180_32.length_bytes (Sha1.h s) msg.
Proof.
  intros Hbuf Hh Hsize Hbits Hlen. unfold Sha1.hash_sha1_update_binary.
  apply (engine64_spec Sha1.bitlen Sha1.bufferSize Sha1.buffer Sha1.h
           Sha1.update_byte Sha1.hash_sha1_finalize FIPS180_32.block1 (words32 5)).
  - intros H blk _ _. apply fips_block1_words32.
  - intros s0 d (Hr0 & Hbuf0 & Hh0 & Hbl0) Hlt.
    rewrite sha1_update_byte_buffered_eq by lia.
    cbn [Sha1.bitlen Sha1.bufferSize Sha1.h Sha1.buffer]. repeat split.
  - intros s0 d (Hr0 & Hbuf0 & Hh0 & Hbl0) Heq.
    rewrite sha1_update_byte_block_eq by lia.
    cbn [Sha1.bitlen Sha1.bufferSize Sha1.h Sha1.buffer].
    rewrite sha1_transform_block by (rewrite ?length_insert; assumption).
    rewrite length_insert. repeat split; assumption.
  - intros s0 (Hr0 & Hbuf0 & Hh0 & Hbl0) Hlt.
    rewrite sha1_finalize_small_eq by lia. rewrite byte_of_Z_128.
    replace (Z.to_nat (Sha1.bufferSize s0 + 1)) with (S (Z.to_nat (Sha1.bufferSize s0)))
      by lia.
    replace (Z.to_nat (56 - (Sha1.bufferSize s0 + 1)))
      with (55 - Z.to_nat (Sha1.bufferSize s0))%nat by lia.
    apply sha1_transform_block; [ assumption | ].
    rewrite length_memcpy, length_memset, length_insert. assumption.
  - intros s0 (Hr0 & Hbuf0 & Hh0 & Hbl0) Hge.
    rewrite sha1_finalize_big_eq by lia. rewrite byte_of_Z_128.
    replace (Z.to_nat (Sha1.bufferSize s0 + 1)) with (S (Z.to_nat (Sha1.bufferSize s0)))
      by lia.
    replace (Z.to_nat (64 - (Sha1.bufferSize s0 + 1)))
      with (63 - Z.to_nat (Sha1.bufferSize s0))%nat by lia.
    rewrite (sha1_transform_block (Sha1.h s0))
      by (rewrite ?length_memset, ?length_insert; assumption).
    apply sha1_transform_block; [ apply fips_block1_words32 | ].
    rewrite length_memcpy, !length_memset, length_insert. assumption.
  - unfold wf64. rewrite Hsize, Hbits. repeat split; try lia; try assumption; apply Hh.
  - exact Hsize.
  - exact Hbits.
  - exact Hlen.
Qed.

Lemma sha1_hexdigest_bytes s :
  length (Sha1.h s) = 5%nat ->
  Sha1.hash_sha1_hexdigest s
  = hash_util_char_array_to_hex_string (concat (map (FIPS180.be_bytes 4) (Sha1.h s))).
Proof.
  intros H. unfold Sha1.hash_sha1_hexdigest.
  rewrite (hex_words_bytes 4 5) by lia.
  rewrite take_ge; [ reflexivity | ].
  rewrite length_concat_be_bytes. lia.
Qed.

Lemma sha1_init_words32 s : words32 5 (Sha1.h (Sha1.hash_sha1_init s)).
Proof.
  split; [ reflexivity | ]. cbn [Sha1.h Sha1.hash_sha1_init].
  repeat constructor; lia.
Qed.

(** X6. For every sequence of chunks whose concatenation has less than
    2^64 bits, the streaming SHA-1 engine returns the 40 digits of the
    SHA-1 digest of FIPS 180-4 of the concatenation, whatever the structure
    held before [hash_sha1_init]. *)
Theorem sha1_stream_is_standard (s : Sha1.Hash_Private_Sha1) (chunks : list (list byte)) :
  length (Sha1.buffer s) = 64%nat ->
  8 * Z.of_nat (length (concat chunks)) < 2 ^ 64 ->
  sha1_stream s chunks
  = hash_util_char_array_to_hex_string (FIPS180_32.sha1 (concat chunks)).
Proof.
  intros Hbuf Hlen. unfold sha1_stream. rewrite sha1_update_chunks.
  assert (Hspec := sha1_engine_spec (Sha1.hash_sha1_init s) (concat chunks)
                     Hbuf (sha1_init_words32 s) eq_refl eq_refl Hlen).
  rewrite sha1_hexdigest_bytes.
  - rewrite Hspec. reflexivity.
  - rewrite Hspec. apply block512_final_hash_length; [ | reflexivity ].
    intros. apply fips_block1_words32.
Qed.

Lemma sha1_stream_is_standard_witness :
  sha1_stream zeroed_sha1 [abc; abc]
  = hash_util_char_array_to_hex_string (FIPS180_32.sha1 (concat [abc; abc])).
Proof.
  apply (sha1_stream_is_standard zeroed_sha1 [abc; abc]).
  - reflexivity.
  - reflexivity.
Defined.

(** ** SHA-384 against FIPS 180-4 *)

Lemma sha384_init_wf s :
  length (Sha512.buffer s) = 128%nat -> sha512_wf (Sha512.hash_sha384_init s).
Proof.
  intros H. unfold sha512_wf, Sha512.hash_sha384_init.
  cbn [Sha512.bufferSize Sha512.buffer Sha512.h Sha512.bitlen length].
  repeat split; try lia; exact H.
Qed.

(** X7. For every sequence of chunks whose concatenation has less than
    2^64 bits, the streaming SHA-384 engine returns the 96 digits of the
    SHA-384 digest of FIPS 180-4 of the concatenation (the left-most 384
    bits of the final hash value computed from the initial value of
    5.3.4), whatever the structure held before [hash_sha384_init]. *)
Theorem sha384_stream_is_standard (s : Sha512.Hash_Private_Sha512)
  (chunks : list (list byte)) :
  length (Sha512.buffer s) = 128%nat ->
  8 * Z.of_nat (length (concat chunks)) < 2 ^ 64 ->
  sha384_stream s chunks
  = hash_util_char_array_to_hex_string (fips_sha384 (concat chunks)).
Proof.
  intros Hbuf Hlen. unfold sha384_stream, Sha512.hash_sha384_update_binary,
    Sha512.hash_sha384_finalize.
  rewrite sha512_update_chunks.
  assert (Hspec := sha512_engine_spec (Sha512.hash_sha384_init s) (concat chunks)
                     (sha384_init_wf s Hbuf) eq_refl eq_refl Hlen).
  unfold Sha512.hash_sha384_hexdigest.
  rewrite (hex_words_bytes 8 6).
  - rewrite Hspec. reflexivity.
  - rewrite Hspec. unfold FIPS180.final_hash.
    rewrite fips_hash_blocks_length by reflexivity. lia.
Qed.

Lemma sha384_stream_is_standard_witness :
  sha384_stream zeroed_sha512 [abc; abc]
  = hash_util_char_array_to_hex_string (fips_sha384 (concat [abc; abc])).
Proof.
  apply (sha384_stream_is_standard zeroed_sha512 [abc; abc]).
  - reflexivity.
  - reflexivity.
Defined.

(** ** SHA-512/t for every admissible t *)

(** *** Printing a word and reading it back *)

Lemma hex_value_hex_char d : 0 <= d < 16 -> hex_value (hex_char d) = Some d.
Proof.
  intros H.
  assert (Hd : d = 0 \/ d = 1 \/ d = 2 \/ d = 3 \/ d = 4 \/ d = 5 \/ d = 6 \/ d = 7 \/
               d = 8 \/ d = 9 \/ d = 10 \/ d = 11 \/ d = 12 \/ d = 13 \/ d = 14 \/ d = 15)
    by lia.
  repeat (destruct Hd as [-> | Hd]; [ reflexivity | ]). subst d. reflexivity.
Qed.

Lemma length_sprintf_0x n v : String.length (sprintf_0x n v) = n.
Proof. induction n as [| n IH]; cbn [sprintf_0x String.length]; [ | rewrite IH ]; reflexivity. Qed.

Lemma mod_pow16_succ v k :
  0 <= k -> v mod 16 ^ (k + 1) = (v / 16 ^ k) mod 16 * 16 ^ k + v mod 16 ^ k.
Proof.
  intros Hk. rewrite Z.pow_add_r, Z.pow_1_r by lia.
  assert (Hp : 0 < 16 ^ k) by (apply Z.pow_pos_nonneg; lia).
  rewrite Z.rem_mul_r by lia. lia.
Qed.

Lemma strtoull_16_from_sprintf n acc v :
  0 <= acc -> acc * 16 ^ Z.of_nat n + v mod 16 ^ Z.of_nat n < 2 ^ 64 ->
  strtoull_16_from acc (sprintf_0x n v) = acc * 16 ^ Z.of_nat n + v mod 16 ^ Z.of_nat n.
Proof.
  revert acc. induction n as [| n IH]; intros acc Hacc Hb.
  - cbn [sprintf_0x strtoull_16_from]. change (16 ^ Z.of_nat 0) with 1.
    rewrite Z.mod_1_r. lia.
  - cbn [sprintf_0x strtoull_16_from].
    assert (Hd : 0 <= (v / 16 ^ Z.of_nat n) mod 16 < 16) by (apply Z.mod_pos_bound; lia).
    rewrite hex_value_hex_char by exact Hd.
    assert (Hp : 0 < 16 ^ Z.of_nat n) by (apply Z.pow_pos_nonneg; lia).
    assert (Hm : 0 <= v mod 16 ^ Z.of_nat n < 16 ^ Z.of_nat n) by (apply Z.mod_pos_bound; lia).
    assert (Hsplit : v mod 16 ^ Z.of_nat (S n)
                     = (v / 16 ^ Z.of_nat n) mod 16 * 16 ^ Z.of_nat n + v mod 16 ^ Z.of_nat n).
    { replace (Z.of_nat (S n)) with (Z.of_nat n + 1) by lia. apply mod_pow16_succ. lia. }
    assert (Hpow : 16 ^ Z.of_nat (S n) = 16 ^ Z.of_nat n * 16).
    { replace (Z.of_nat (S n)) with (Z.of_nat n + 1) by lia.
      rewrite Z.pow_add_r, Z.pow_1_r by lia. reflexivity. }
    rewrite Hsplit, Hpow in Hb. rewrite Hsplit, Hpow.
    assert (Hsmall : acc * 16 + (v / 16 ^ Z.of_nat n) mod 16 <= 2 ^ 64 - 1) by nia.
    rewrite Z.min_r by exact Hsmall.
    rewrite IH; [ lia | lia | lia ].
Qed.

(** [strtoull(hex, NULL, 16)] reads back what ["%016" PRIx64] printed. *)
Lemma strtoull_16_sprintf v :
  0 <= v < 2 ^ 64 -> strtoull_16 (sprintf_0x 16 v) = v.
Proof.
  intros Hv. unfold strtoull_16.
  assert (Hm : v mod 16 ^ Z.of_nat 16 = v)
    by (apply Z.mod_small; change (16 ^ Z.of_nat 16) with (2 ^ 64); exact Hv).
  rewrite strtoull_16_from_sprintf; rewrite ?Hm; lia.
Qed.

Lemma substring_skip (a b : string) n m :
  substring (String.length a + n) m (a ++ b) = substring n m b.
Proof. induction a as [| c a IH]; [ reflexivity | exact IH ]. Qed.

Lemma substring_prefix (a b : string) :
  substring 0 (String.length a) (a ++ b) = a.
Proof.
  induction a as [| c a IH].
  - destruct b; reflexivity.
  - cbn [String.length String.append substring]. rewrite IH. reflexivity.
Qed.

Lemma substring_concat_nth (l : list string) w k :
  Forall (fun s => String.length s = w) l -> (k < length l)%nat ->
  substring (w * k) w (concat_strings l) = nth k l EmptyString.
Proof.
  intros H. revert k. induction H as [| s l Hs Hl IH]; intros k Hk.
  - simpl in Hk. lia.
  - cbn [concat_strings fold_right]. destruct k as [| k].
    + rewrite Nat.mul_0_r. cbn [nth]. rewrite <- Hs. apply substring_prefix.
    + cbn [nth]. replace (w * S k)%nat with (String.length s + w * k)%nat by lia.
      rewrite substring_skip. apply IH. simpl in Hk. lia.
Qed.

(** The last loop of [hash_sha512t_init] stores back the eight words the
    hexdigest was printed from. *)
Lemma sha512t_store_words hs :
  words64 8 hs ->
  fold_left (Sha512.store_word (sha512_hex_words hs)) (seq 0 8) hs = hs.
Proof.
  intros [Hlen Hall].
  set (buff := sha512_hex_words hs).
  set (P := fun (i : nat) (w : list Z) => length w = 8%nat /\ take i w = take i hs).
  assert (H8 : P 8%nat (fold_left (Sha512.store_word buff) (seq 0 8) hs)).
  { apply (fold_left_seq_inv P (Sha512.store_word buff) 0 8).
    - split; [ exact Hlen | reflexivity ].
    - intros i y Hi [Hleny Htake]. unfold Sha512.store_word. split.
      + rewrite length_insert. exact Hleny.
      + rewrite take_S_insert by lia. rewrite Htake.
        rewrite (take_S_r hs i (hs !!! i)) by (apply list_lookup_lookup_total_lt; lia).
        f_equal. f_equal.
        unfold buff, sha512_hex_words.
        rewrite (substring_concat_nth _ 16 i).
        * rewrite (nth_indep _ _ (sprintf_0x 16 (hs !!! 0%nat)))
            by (rewrite length_map, length_seq; lia).
          rewrite (map_nth (fun i => sprintf_0x 16 (hs !!! i))), seq_nth by lia.
          apply strtoull_16_sprintf.
          assert (Hin : hs !! i = Some (hs !!! i))
            by (apply list_lookup_lookup_total_lt; lia).
          exact (proj1 (Forall_lookup _ hs) Hall i _ Hin).
        * clear. induction (seq 0 8) as [| j l IH]; cbn [map]; constructor;
            [ apply length_sprintf_0x | exact IH ].
        * rewrite length_map, length_seq. lia. }
  destruct H8 as [Hl Ht]. rewrite !take_ge in Ht by lia. exact Ht.
Qed.

Lemma fips_hash_block_words64 H M : words64 8 (FIPS180.hash_block H M).
Proof.
  unfold FIPS180.hash_block. cbv zeta.
  destruct (fold_left _ _ _) as [[[[[[[a b] c] d] e] f] g] hh].
  split; [ reflexivity | ].
  repeat constructor; unfold FIPS180.add; try (apply Z.mod_pos_bound; lia);
    apply Z.mod_pos_bound; lia.
Qed.

Lemma fips_hash_blocks_words64 N H bytes :
  words64 8 H -> words64 8 (FIPS180.hash_blocks N H bytes).
Proof.
  revert H bytes. induction N as [| N IH]; intros H bytes HH; cbn [FIPS180.hash_blocks];
    [ exact HH | ].
  apply IH, fips_hash_block_words64.
Qed.

(** *** The derived initial value *)

Lemma sha512t_seed_is_fips s t :
  Sha512.h (Sha512.sha512t_seed s t) = fips_sha512t_seed.
Proof. reflexivity. Qed.

Lemma fips_sha512t_seed_words64 : words64 8 fips_sha512t_seed.
Proof. split; [ reflexivity | ]. repeat constructor; vm_compute; intros H; discriminate H. Qed.

Lemma sha512t_label_decimal t :
  0 <= t <= 2048 ->
  Sha512.sha512t_label t = list_byte_of_string "SHA-512/" ++ to_decimal t.
Proof.
  intros Ht. unfold Sha512.sha512t_label, uint32_t. rewrite Z.mod_small by lia. reflexivity.
Qed.

Lemma sha512t_generate_iv_fips s t :
  length (Sha512.buffer s) = 128%nat -> 0 <= t <= 2048 ->
  Sha512.h (Sha512.sha512t_generate_iv (Sha512.sha512t_seed s t) (Sha512.sha512t_label t))
  = fips_sha512t_iv t.
Proof.
  intros Hbuf Ht. rewrite sha512t_generate_iv_h. cbv zeta.
  pose proof (sha512t_label_short t Ht) as Hshort.
  rewrite sha512_engine_spec;
    [ | apply sha512t_seed_wf, Hbuf | reflexivity | reflexivity | lia ].
  rewrite sha512t_seed_is_fips, sha512t_label_decimal by exact Ht.
  fold (fips_sha512t_iv t).
  apply sha512t_store_words. unfold fips_sha512t_iv, FIPS180.final_hash.
  apply fips_hash_blocks_words64, fips_sha512t_seed_words64.
Qed.

Lemma sha512t_init_valid ndebug s t :
  4 <= t <= 2048 -> t <> 384 ->
  Sha512.hash_sha512t_init ndebug s t
  = Returned (Sha512.sha512t_generate_iv (Sha512.sha512t_seed s t) (Sha512.sha512t_label t)).
Proof.
  intros Ht H384. unfold Sha512.hash_sha512t_init.
  pose proof (sha512t_label_short t ltac:(lia)) as Hshort.
  destruct (Z.eqb_spec t 384) as [E | _]; [ contradiction | ]. cbn [negb].
  destruct (Z.leb_spec 4 t); [ | lia ].
  destruct (Z.leb_spec t 2048); [ | lia ]. cbn [andb].
  rewrite !assert_true.
  destruct (Nat.leb_spec 13 (length (Sha512.sha512t_label t))); [ lia | reflexivity ].
Qed.

Lemma length_hex_string data :
  String.length (hash_util_char_array_to_hex_string data) = (2 * length data)%nat.
Proof.
  induction data as [| b data IH]; [ reflexivity | ].
  cbn [hash_util_char_array_to_hex_string String.length length]. rewrite IH. lia.
Qed.

Lemma length_substring_0 n (s : string) :
  String.length (substring 0 n s) = Nat.min n (String.length s).
Proof.
  revert s. induction n as [| n IH]; intros s.
  - destruct s; reflexivity.
  - destruct s as [| c s]; [ reflexivity | ].
    cbn [substring String.length]. rewrite IH. reflexivity.
Qed.

(** X8. For every t the source admits (4 <= t <= 2048, t <> 384), every
    input of less than 2^64 bits and any prior contents of the structure,
    [hash_sha512t_binary] returns the first t / 4 digits of the 128 digits
    of the final hash value that FIPS 180-4 defines for SHA-512/t: the
    initial value is the one the IV generation function of 5.3.6 gives for
    the string "SHA-512/t".  When t is a multiple of 8 these are the digits
    of the left-most t bits.  The string has min (t / 4, 128) characters:
    for t > 512 the whole final hash value is printed and nothing more. *)
Theorem sha512t_is_standard (ndebug : bool) (s : Sha512.Hash_Private_Sha512) (t : Z)
  (b : list byte) :
  length (Sha512.buffer s) = 128%nat ->
  4 <= t <= 2048 -> t <> 384 ->
  8 * Z.of_nat (length b) < 2 ^ 64 ->
  exists digest,
    Sha512.hash_sha512t_binary ndebug s t b = Returned digest /\
    digest = substring 0 (Z.to_nat (t / 4))
               (hash_util_char_array_to_hex_string (fips_sha512t_bytes t b)) /\
    (t mod 8 = 0 ->
     digest = hash_util_char_array_to_hex_string
                (take (Z.to_nat (t / 8)) (fips_sha512t_bytes t b))) /\
    String.length digest = Nat.min (Z.to_nat (t / 4)) 128.
Proof.
  intros Hbuf Ht H384 Hlen.
  pose proof (sha512t_generate_iv_fields (Sha512.sha512t_seed s t) (Sha512.sha512t_label t))
    as (Hsize & Hbits & Htt & Hblen).
  pose proof (sha512t_generate_iv_fips s t Hbuf ltac:(lia)) as Hh.
  assert (Hw : words64 8 (fips_sha512t_iv t)).
  { unfold fips_sha512t_iv, FIPS180.final_hash.
    apply fips_hash_blocks_words64, fips_sha512t_seed_words64. }
  assert (Hrun : Sha512.hash_sha512t_binary ndebug s t b
                 = Returned (substring 0 (Z.to_nat (t / 4))
                               (hash_util_char_array_to_hex_string (fips_sha512t_bytes t b)))).
  { rewrite (sha512t_binary_Returned _ _ _ _ _ (sha512t_init_valid ndebug s t Ht H384)).
    f_equal. unfold Sha512.hash_sha512t_hexdigest.
    rewrite sha512_finalize_t, sha512_update_t, Htt.
    cbn [Sha512.t Sha512.sha512t_seed].
    rewrite sha512_hexdigest_words.
    rewrite sha512_engine_spec; [ | | exact Hsize | exact Hbits | exact Hlen ].
    - rewrite Hh.
      rewrite sha512_hex_words_bytes
        by (unfold FIPS180.final_hash; apply fips_hash_blocks_length, Hw).
      reflexivity.
    - unfold sha512_wf. rewrite Hsize, Hbits, Hblen, Hh.
      repeat split; try lia; try exact Hbuf. apply Hw. }
  eexists. split; [ exact Hrun | ]. split; [ reflexivity | ]. split.
  - intros Hmod. rewrite hex_string_take. f_equal.
    assert (Hq : t / 4 = 2 * (t / 8)) by (Z.div_mod_to_equations; lia).
    rewrite Hq. lia.
  - rewrite length_substring_0, length_hex_string. unfold fips_sha512t_bytes.
    rewrite length_concat_be_bytes. unfold FIPS180.final_hash.
    rewrite fips_hash_blocks_length by apply Hw. reflexivity.
Qed.

Lemma sha512t_is_standard_witness :
  exists digest,
    Sha512.hash_sha512t_binary false zeroed_sha512 1024 abc = Returned digest /\
    digest = substring 0 (Z.to_nat (1024 / 4))
               (hash_util_char_array_to_hex_string (fips_sha512t_bytes 1024 abc)) /\
    (1024 mod 8 = 0 ->
     digest = hash_util_char_array_to_hex_string
                (take (Z.to_nat (1024 / 8)) (fips_sha512t_bytes 1024 abc))) /\
    String.length digest = Nat.min (Z.to_nat (1024 / 4)) 128.
Proof.
  apply (sha512t_is_standard false zeroed_sha512 1024 abc).
  - reflexivity.
  - lia.
  - lia.
  - reflexivity.
Defined.

(** ** MD5: the engine against the iteration of its block transform *)

Example md5_by_blocks_abc :
  hash_util_char_array_to_hex_string (md5_by_blocks abc)
  = "900150983cd24fb0d6963f7d28e17f72"%string.
Proof. vm_compute. reflexivity. Qed.

Example md5_by_blocks_two_blocks :
  hash_util_char_array_to_hex_string (md5_by_blocks (list_byte_of_string
    "12345678901234567890123456789012345678901234567890123456789012345678901234567890"))
  = "57edf4a22be3c955ac49da2e2107b67a"%string.
Proof. vm_compute. reflexivity. Qed.

Lemma md5_decode_take blk :
  (64 <= length blk)%nat ->
  MD5.hash_private_md5_decode blk 64 = MD5.hash_private_md5_decode (take 64 blk) 64.
Proof.
  intros H. unfold MD5.hash_private_md5_decode. apply map_ext_in.
  intros i Hi. apply in_seq in Hi. cbv zeta.
  rewrite !lookup_total_take_lt by (cbn in Hi; lia). reflexivity.
Qed.

(** The transform reads the 64 bytes its argument points to. *)
Lemma md5_transform_words_take st blk :
  (64 <= length blk)%nat ->
  MD5.transform_words st blk = MD5.transform_words st (take 64 blk).
Proof.
  intros H. unfold MD5.transform_words.
  change (Z.to_nat MD5.HASH_PRIVATE_MD5_BLOCKSIZE) with 64%nat.
  rewrite (md5_decode_take blk H). reflexivity.
Qed.

(** The two words of the bit counter after [s] more bytes. *)
Lemma md5_count_arith c0 c1 s :
  0 <= c0 < 2 ^ 32 -> 0 <= c1 < 2 ^ 32 -> 0 <= s < 2 ^ 32 ->
  let lo := uint32_t (Z.shiftl s 3) in
  let c0' := uint32_t (c0 + lo) in
  let c1' := uint32_t ((if c0' <? lo then uint32_t (c1 + 1) else c1) + Z.shiftr s 29) in
  0 <= c0' < 2 ^ 32 /\ 0 <= c1' < 2 ^ 32 /\
  c0' + 2 ^ 32 * c1' = (c0 + 2 ^ 32 * c1 + 8 * s) mod 2 ^ 64.
Proof.
  intros H0 H1 Hs. cbv zeta.
  rewrite uint32_t_shiftl3, Z.shiftr_div_pow2 by lia.
  unfold uint32_t.
  change (2 ^ 29) with 536870912. change (2 ^ 32) with 4294967296 in *.
  change (2 ^ 64) with 18446744073709551616.
  destruct (Z.ltb_spec ((c0 + (8 * s) mod 4294967296) mod 4294967296)
                       ((8 * s) mod 4294967296));
    Z.div_mod_to_equations; lia.
Qed.

(** The loop over the whole blocks of the input: it stops at the last
    multiple of 64 past [i] and has hashed the blocks in between. *)
Lemma md5_transform_chunks_spec fuel m input s i r j :
  s = Z.of_nat (length input) -> s + 64 < 2 ^ 32 -> 0 <= i <= s ->
  MD5.transform_chunks fuel m input s i = Some (r, j) ->
  j = i + 64 * ((s - i) / 64) /\
  MD5.state r
  = Block512.hash_blocks MD5.transform_words (Z.to_nat ((s - i) / 64)) (MD5.state m)
      (drop (Z.to_nat i) input).
Proof.
  intros Hs Hbound. revert m i.
  induction fuel as [| fuel IH]; intros m i Hi H; [ discriminate H | ].
  cbn [MD5.transform_chunks] in H. unfold MD5.HASH_PRIVATE_MD5_BLOCKSIZE in H.
  assert (Hu : uint32_t (i + 64) = i + 64) by (unfold uint32_t; apply Z.mod_small; lia).
  rewrite Hu in H.
  destruct (Z.leb_spec (i + 64) s) as [Hle | Hgt].
  - assert (Hq : (s - i) / 64 = 1 + (s - (i + 64)) / 64) by (Z.div_mod_to_equations; lia).
    assert (Hq0 : 0 <= (s - (i + 64)) / 64) by (Z.div_mod_to_equations; lia).
    apply IH in H; [ | lia ]. destruct H as [Hj Hst].
    rewrite Hj, Hst, Hq. split; [ lia | ].
    replace (Z.to_nat (1 + (s - (i + 64)) / 64)) with (S (Z.to_nat ((s - (i + 64)) / 64)))
      by lia.
    cbn [Block512.hash_blocks MD5.hash_private_md5_transform MD5.state].
    rewrite (md5_transform_words_take _ (drop (Z.to_nat i) input))
      by (rewrite length_drop; lia).
    rewrite drop_drop. replace (Z.to_nat (i + 64)) with (Z.to_nat i + 64)%nat by lia.
    reflexivity.
  - assert (Hq : (s - i) / 64 = 0) by (apply Z.div_small; lia).
    apply (inj Some) in H. injection H as <- <-.
    rewrite Hq. split; [ lia | reflexivity ].
Qed.

Lemma md5_count_after_words m input c0 c1 :
  MD5.count m = [c0; c1] ->
  md5_count_after m input
  = [uint32_t (c0 + uint32_t (Z.shiftl (md5_seen input) 3));
     uint32_t ((if uint32_t (c0 + uint32_t (Z.shiftl (md5_seen input) 3))
                   <? uint32_t (Z.shiftl (md5_seen input) 3)
                then uint32_t (c1 + 1) else c1)
               + Z.shiftr (md5_seen input) 29)].
Proof.
  intros Hc. unfold md5_count_after. cbv zeta. rewrite Hc.
  change ([c0; c1] !!! 0%nat) with c0.
  destruct (_ <? _); reflexivity.
Qed.

Lemma md5_update_small m input m' :
  md5_seen input < 64 - md5_index m ->
  MD5.hash_private_md5_update_binary m input = Some m' ->
  MD5.state m' = MD5.state m /\
  MD5.buffer m'
  = memcpy (MD5.buffer m) (Z.to_nat (md5_index m)) (take (Z.to_nat (md5_seen input)) input).
Proof.
  intros H. rewrite md5_update_unfold.
  destruct (Z.leb_spec (64 - md5_index m) (md5_seen input)); [ lia | ].
  intros E. apply (inj Some) in E. subst m'. split; reflexivity.
Qed.

Lemma md5_update_big m input m' :
  md5_seen input = Z.of_nat (length input) -> md5_seen input + 64 < 2 ^ 32 ->
  64 - md5_index m <= md5_seen input ->
  MD5.hash_private_md5_update_binary m input = Some m' ->
  let first := memcpy (MD5.buffer m) (Z.to_nat (md5_index m))
                      (take (Z.to_nat (64 - md5_index m)) input) in
  let k := (md5_seen input - (64 - md5_index m)) / 64 in
  MD5.state m'
  = Block512.hash_blocks MD5.transform_words (Z.to_nat k)
      (MD5.transform_words (MD5.state m) first)
      (drop (Z.to_nat (64 - md5_index m)) input) /\
  MD5.buffer m'
  = memcpy first 0
      (take (Z.to_nat (md5_seen input - (64 - md5_index m + 64 * k)))
            (drop (Z.to_nat (64 - md5_index m + 64 * k)) input)).
Proof.
  intros Hseen Hbound H. rewrite md5_update_unfold. cbv zeta.
  pose proof (md5_index_range m) as Hidx.
  destruct (Z.leb_spec (64 - md5_index m) (md5_seen input)); [ | lia ].
  destruct (MD5.transform_chunks _ _ _ _ _) as [[m2 i] |] eqn:E; [ | discriminate ].
  intros E'. apply (inj Some) in E'. subst m'. cbn [MD5.state MD5.buffer].
  pose proof (md5_transform_chunks_fields _ _ _ _ _ _ _ E) as (_ & _ & _ & Hb & _).
  apply md5_transform_chunks_spec in E; [ | exact Hseen | exact Hbound | lia ].
  destruct E as [Hi Hst]. rewrite Hst, Hb, Hi. split; reflexivity.
Qed.

Lemma lookup_total_pair_0 (a b : Z) : [a; b] !!! 0%nat = a.
Proof. reflexivity. Qed.

Lemma lookup_total_pair_1 (a b : Z) : [a; b] !!! 1%nat = b.
Proof. reflexivity. Qed.

(** An update with an input of a size in range returns; the state is then
    the transform iterated over the complete blocks of what was buffered
    followed by the input; the rest is buffered; the two counter words
    hold the number of bits modulo 2^64. *)
Lemma md5_update_spec m input :
  md5_wf m -> md5_size_ok input ->
  let all := md5_pending m ++ input in
  let q := (length all / 64)%nat in
  exists m', MD5.hash_private_md5_update_binary m input = Some m' /\
  md5_wf m' /\
  MD5.state m' = Block512.hash_blocks MD5.transform_words q (MD5.state m) all /\
  md5_pending m' = drop (64 * q) all /\
  md5_bits m' = (md5_bits m + 8 * Z.of_nat (length input)) mod 2 ^ 64 /\
  MD5.finalized m' = MD5.finalized m /\ MD5.digest m' = MD5.digest m.
Proof.
  intros (Hbuf & Hst & c0 & c1 & Hcnt & Hc0 & Hc1) Hsize. unfold md5_size_ok in Hsize.
  pose proof (md5_index_range m) as Hidx.
  assert (Hseen : md5_seen input = Z.of_nat (length input)) by (apply md5_seen_small; lia).
  destruct (md5_update_returns m input) as [m' Eret]; [ lia | ].
  cbv zeta. exists m'. split; [ exact Eret | ].
  pose proof (md5_update_fields m input m' Eret) as (Hfin & Hdig & Hcm & Hlb & Hls).
  pose proof (md5_count_after_words m input c0 c1 Hcnt) as Hcw. rewrite <- Hcm in Hcw.
  pose proof (md5_count_arith c0 c1 (md5_seen input) Hc0 Hc1 ltac:(lia)) as Har.
  cbv zeta in Har. destruct Har as (Hr0 & Hr1 & Hsum).
  assert (Hix : md5_index m' = (md5_index m + md5_seen input) mod 64)
    by (apply (md5_update_index m input); [ rewrite Hcnt; simpl; lia | exact Eret ]).
  assert (Hplen : length (md5_pending m) = Z.to_nat (md5_index m))
    by (unfold md5_pending; rewrite length_take; lia).
  split.
  { unfold md5_wf. rewrite Hlb, Hls. split; [ exact Hbuf | ]. split; [ exact Hst | ].
    eexists _, _. split; [ exact Hcw | ]. split; assumption. }
  split; [ | split; [ | split; [ | split; [ exact Hfin | exact Hdig ] ] ] ].
  - (* the state *)
    destruct (Z_lt_le_dec (md5_seen input) (64 - md5_index m)) as [Hsmall | Hbig].
    + destruct (md5_update_small m input m' Hsmall Eret) as [Es _]. rewrite Es.
      replace (length (md5_pending m ++ input) / 64)%nat with 0%nat; [ reflexivity | ].
      symmetry. apply Nat.div_small. rewrite length_app, Hplen. lia.
    + destruct (md5_update_big m input m' Hseen ltac:(lia) Hbig Eret) as (Es & _).
      rewrite Es.
      assert (Hq : (length (md5_pending m ++ input) / 64)%nat
                   = S (Z.to_nat ((md5_seen input - (64 - md5_index m)) / 64))).
      { rewrite length_app, Hplen.
        assert (Hk0 : 0 <= (md5_seen input - (64 - md5_index m)) / 64)
          by (apply Z.div_pos; lia).
        apply Nat2Z.inj. rewrite Nat2Z.inj_div, Nat2Z.inj_add, Nat2Z.inj_succ.
        rewrite !Z2Nat.id by lia. rewrite <- Hseen. change (Z.of_nat 64) with 64.
        Z.div_mod_to_equations. lia. }
      rewrite Hq. cbn [Block512.hash_blocks].
      assert (Hfirst : take 64 (md5_pending m ++ input)
                       = memcpy (MD5.buffer m) (Z.to_nat (md5_index m))
                           (take (Z.to_nat (64 - md5_index m)) input)).
      { rewrite memcpy_eq_app by (rewrite length_take; lia).
        rewrite (drop_ge (MD5.buffer m)) by (rewrite length_take; lia).
        rewrite app_nil_r. rewrite take_app, Hplen.
        unfold md5_pending. rewrite take_take.
        replace (Nat.min 64 (Z.to_nat (md5_index m))) with (Z.to_nat (md5_index m)) by lia.
        f_equal. f_equal. lia. }
      assert (Hrest : drop 64 (md5_pending m ++ input)
                      = drop (Z.to_nat (64 - md5_index m)) input).
      { rewrite drop_app, Hplen. rewrite (drop_ge (md5_pending m)) by (rewrite Hplen; lia).
        cbn [app]. f_equal. lia. }
      rewrite Hfirst, Hrest. reflexivity.
  - (* what is buffered *)
    unfold md5_pending at 1. rewrite Hix.
    destruct (Z_lt_le_dec (md5_seen input) (64 - md5_index m)) as [Hsmall | Hbig].
    + destruct (md5_update_small m input m' Hsmall Eret) as [_ Eb]. rewrite Eb.
      rewrite Z.mod_small by lia.
      replace (length (md5_pending m ++ input) / 64)%nat with 0%nat
        by (symmetry; apply Nat.div_small; rewrite length_app, Hplen; lia).
      rewrite Nat.mul_0_r, drop_0.
      rewrite (take_ge input) by lia.
      rewrite memcpy_eq_app by lia.
      rewrite app_assoc. fold (md5_pending m). apply take_app_length'.
      rewrite length_app, Hplen. lia.
    + destruct (md5_update_big m input m' Hseen ltac:(lia) Hbig Eret) as (_ & Eb).
      rewrite Eb.
      assert (Hk0 : 0 <= (md5_seen input - (64 - md5_index m)) / 64)
        by (apply Z.div_pos; lia).
      remember ((md5_seen input - (64 - md5_index m)) / 64) as k eqn:Ek.
      assert (Hrem : 0 <= md5_seen input - (64 - md5_index m) - 64 * k < 64)
        by (subst k; Z.div_mod_to_equations; lia).
      assert (Hmod : (md5_index m + md5_seen input) mod 64
                     = md5_seen input - (64 - md5_index m + 64 * k)).
      { symmetry. apply (Z.mod_unique _ _ (1 + k)); lia. }
      rewrite Hmod.
      rewrite (take_ge (drop _ input)) by (rewrite length_drop; lia).
      rewrite memcpy_eq_app by (rewrite length_memcpy, length_drop; lia).
      rewrite take_0. cbn [app].
      rewrite take_app_length' by (rewrite length_drop; lia).
      assert (Hq : (length (md5_pending m ++ input) / 64)%nat = Z.to_nat (1 + k)).
      { rewrite length_app, Hplen. apply Nat2Z.inj.
        rewrite Nat2Z.inj_div, Nat2Z.inj_add. rewrite !Z2Nat.id by lia.
        rewrite <- Hseen. change (Z.of_nat 64) with 64.
        symmetry. apply (Z.div_unique _ _ _ (md5_seen input - (64 - md5_index m) - 64 * k));
          lia. }
      rewrite Hq. rewrite drop_app, Hplen. rewrite (drop_ge (md5_pending m)) by (rewrite Hplen; lia).
      cbn [app]. f_equal. lia.
  - (* the bit counter *)
    unfold md5_bits. rewrite Hcw, Hcnt.
    rewrite !lookup_total_pair_0, !lookup_total_pair_1. rewrite Hsum, Hseen. reflexivity.
Qed.

Lemma md5_bits_range m : md5_wf m -> 0 <= md5_bits m < 2 ^ 64.
Proof.
  intros (_ & _ & c0 & c1 & Hc & H0 & H1). unfold md5_bits. rewrite Hc.
  rewrite lookup_total_pair_0, lookup_total_pair_1. lia.
Qed.

Lemma md5_pending_length m : length (MD5.buffer m) = 64%nat ->
  length (md5_pending m) = Z.to_nat (md5_index m).
Proof.
  intros H. pose proof (md5_index_range m). unfold md5_pending. rewrite length_take. lia.
Qed.

(** Any number of updates with inputs of sizes in range. *)
Lemma md5_updates_spec chunks m :
  md5_wf m -> Forall md5_size_ok chunks ->
  let all := md5_pending m ++ concat chunks in
  let q := (length all / 64)%nat in
  exists m', md5_updates m chunks = Some m' /\
  md5_wf m' /\
  MD5.state m' = Block512.hash_blocks MD5.transform_words q (MD5.state m) all /\
  md5_pending m' = drop (64 * q) all /\
  md5_bits m' = (md5_bits m + 8 * Z.of_nat (length (concat chunks))) mod 2 ^ 64 /\
  MD5.finalized m' = MD5.finalized m /\ MD5.digest m' = MD5.digest m.
Proof.
  intros Hwf Hall. revert m Hwf. induction Hall as [| c chunks Hc Hcs IH]; intros m Hwf;
    cbv zeta.
  - cbn [concat md5_updates length]. rewrite app_nil_r.
    pose proof Hwf as (Hbuf & _). pose proof (md5_pending_length m Hbuf) as Hp.
    pose proof (md5_index_range m) as Hi. pose proof (md5_bits_range m Hwf) as Hb.
    replace (length (md5_pending m) / 64)%nat with 0%nat
      by (symmetry; apply Nat.div_small; lia).
    cbn [Block512.hash_blocks]. rewrite Nat.mul_0_r, drop_0.
    rewrite Z.mul_0_r, Z.add_0_r, Z.mod_small by exact Hb.
    exists m. split; [ reflexivity | ].
    split; [ exact Hwf | ]. repeat (split; [ reflexivity | ]). reflexivity.
  - cbn [concat md5_updates]. unfold MD5.hash_md5_update_binary.
    destruct (md5_update_spec m c Hwf Hc) as (m1 & E1 & Hwf1 & Hs1 & Hp1 & Hb1 & Hf1 & Hd1).
    rewrite E1.
    destruct (IH _ Hwf1) as (m' & E' & Hwf' & Hs' & Hp' & Hb' & Hf' & Hd').
    exists m'. split; [ exact E' | ].
    set (all1 := md5_pending m ++ c) in *.
    set (q1 := (length all1 / 64)%nat) in *.
    set (rest := concat chunks) in *.
    assert (Hq1 : (64 * q1 <= length all1)%nat)
      by (unfold q1; apply Nat.Div0.mul_div_le).
    assert (Hall2 : md5_pending m1 ++ rest = drop (64 * q1) (all1 ++ rest)).
    { rewrite Hp1. rewrite drop_app_le by exact Hq1. reflexivity. }
    assert (Hq : (length (md5_pending m ++ c ++ rest) / 64
                  = q1 + length (md5_pending m1 ++ rest) / 64)%nat).
    { rewrite app_assoc. fold all1. rewrite Hall2, length_drop.
      remember (length (all1 ++ rest)) as n eqn:En.
      assert (Hn : (64 * q1 <= n)%nat) by (subst n; rewrite length_app; lia).
      replace n with (q1 * 64 + (n - 64 * q1))%nat at 1 by lia.
      rewrite Nat.div_add_l by lia. reflexivity. }
    rewrite Hq. split; [ exact Hwf' | ].
    split; [ | split; [ | split; [ | split ] ] ].
    + rewrite Hs', Hs1. rewrite block512_hash_blocks_add.
      rewrite app_assoc. fold all1.
      rewrite (block512_hash_blocks_prefix _ q1) by exact Hq1.
      rewrite <- Hall2. reflexivity.
    + rewrite Hp'. rewrite Hall2, drop_drop. rewrite app_assoc. fold all1.
      f_equal. lia.
    + rewrite Hb', Hb1. rewrite length_app, Nat2Z.inj_add.
      rewrite Zplus_mod_idemp_l. f_equal. lia.
    + rewrite Hf'. exact Hf1.
    + rewrite Hd'. exact Hd1.
Qed.

(** *** The byte order of MD5 words *)

Lemma md5_encode_word v :
  [byte_of_Z (Z.land v 0xFF); byte_of_Z (Z.land (Z.shiftr v 8) 0xFF);
   byte_of_Z (Z.land (Z.shiftr v 16) 0xFF); byte_of_Z (Z.land (Z.shiftr v 24) 0xFF)]
  = le_encode 4 v.
Proof.
  assert (Hland : forall x, byte_of_Z (Z.land x 0xFF) = byte_of_Z x).
  { intros x. change 0xFF with (Z.ones 8). rewrite Z.land_ones by lia.
    apply byte_of_Z_mod256. }
  rewrite !Hland. cbn [le_encode]. rewrite !Z.shiftr_div_pow2 by lia.
  rewrite !Z.div_div by lia. reflexivity.
Qed.

Lemma insert4_memcpy (o : list byte) j b0 b1 b2 b3 :
  <[(j + 3)%nat := b3]> (<[(j + 2)%nat := b2]> (<[(j + 1)%nat := b1]> (<[j := b0]> o)))
  = memcpy o j [b0; b1; b2; b3].
Proof.
  cbn [memcpy].
  replace (j + 1)%nat with (S j) by lia.
  replace (j + 2)%nat with (S (S j)) by lia.
  replace (j + 3)%nat with (S (S (S j))) by lia.
  reflexivity.
Qed.

Lemma length_concat_le_encode w hs :
  length (concat (map (le_encode w) hs)) = (w * length hs)%nat.
Proof.
  induction hs as [| v hs IH]; [ cbn; lia | ].
  cbn [map concat length]. rewrite length_app, length_le_encode, IH. lia.
Qed.

(** [hash_private_md5_encode] writes the words low byte first and leaves
    the rest of the output as it was. *)
Lemma md5_encode_eq out ws n :
  (n <= length ws)%nat -> (4 * n <= length out)%nat ->
  MD5.hash_private_md5_encode out ws (4 * n)
  = concat (map (le_encode 4) (take n ws)) ++ drop (4 * n) out.
Proof.
  intros Hn Hout. unfold MD5.hash_private_md5_encode.
  replace (4 * n / 4)%nat with n by (rewrite Nat.mul_comm, Nat.div_mul; lia).
  set (step := fun (out : list byte) (i : nat) => _).
  set (P := fun (i : nat) (o : list byte) =>
              (i <= n)%nat ->
              o = concat (map (le_encode 4) (take i ws)) ++ drop (4 * i) out).
  assert (H : P (0 + n)%nat (fold_left step (seq 0 n) out)).
  { apply fold_left_seq_inv.
    - intros _. rewrite take_0. reflexivity.
    - intros i o Hi HP _. unfold P in HP. specialize (HP ltac:(lia)).
      unfold step. cbv zeta. rewrite insert4_memcpy, md5_encode_word.
      assert (Hl : length (concat (map (le_encode 4) (take i ws))) = (4 * i)%nat).
      { rewrite length_concat_le_encode, length_take. lia. }
      rewrite memcpy_eq_app
        by (rewrite HP, length_app, Hl, length_drop, length_le_encode; lia).
      rewrite length_le_encode.
      rewrite HP at 1. rewrite take_app_length' by (symmetry; exact Hl).
      rewrite HP. rewrite drop_app_add' by (symmetry; exact Hl). rewrite drop_drop.
      rewrite (take_S_r ws i (ws !!! i))
        by (apply list_lookup_lookup_total_lt; lia).
      rewrite map_app, concat_app. cbn [map concat]. rewrite app_nil_r.
      rewrite <- app_assoc. do 2 f_equal. f_equal. lia. }
  apply H. lia.
Qed.

Lemma le_encode_add_high n a b : le_encode n (a + 256 ^ Z.of_nat n * b) = le_encode n a.
Proof.
  revert a b. induction n as [| n IH]; intros a b; [ reflexivity | ].
  cbn [le_encode]. rewrite Nat2Z.inj_succ, Z.pow_succ_r by lia. f_equal.
  - rewrite <- byte_of_Z_mod256, <- (byte_of_Z_mod256 a). f_equal.
    replace (a + 256 * 256 ^ Z.of_nat n * b) with (a + (256 ^ Z.of_nat n * b) * 256) by lia.
    apply Z_mod_plus_full.
  - replace (a + 256 * 256 ^ Z.of_nat n * b) with (a + (256 ^ Z.of_nat n * b) * 256) by lia.
    rewrite Z_div_plus_full by lia. apply IH.
Qed.

(** The bit counter of the engine, its two words low word first, is
    written as the 64-bit length, low byte first. *)
Lemma md5_bits_encode m :
  md5_wf m ->
  MD5.hash_private_md5_encode (replicate 8 x00) (MD5.count m) 8 = le_encode 8 (md5_bits m).
Proof.
  intros (_ & _ & c0 & c1 & Hc & H0 & H1). unfold md5_bits. rewrite Hc.
  rewrite lookup_total_pair_0, lookup_total_pair_1.
  pose proof (md5_encode_eq (replicate 8 x00) [c0; c1] 2) as E.
  change (4 * 2)%nat with 8%nat in E. rewrite E by (cbn [length replicate]; lia).
  cbn [take map concat replicate drop]. rewrite !app_nil_r.
  change 8%nat with (4 + 4)%nat. rewrite le_encode_app.
  change (256 ^ Z.of_nat 4) with (2 ^ 32).
  f_equal.
  - symmetry. apply (le_encode_add_high 4 c0 c1).
  - f_equal. rewrite Z.mul_comm, Z_div_plus_full by lia. rewrite Z.div_small by lia. lia.
Qed.

Lemma md5_padding_take n :
  (1 <= n <= 64)%nat -> take n MD5.padding = x80 :: replicate (n - 1) x00.
Proof.
  intros H. unfold MD5.padding. destruct n as [| n]; [ lia | ].
  cbn [take]. f_equal. rewrite take_replicate. f_equal. lia.
Qed.

(** The first finalization returns: the digest is the state, low byte
    first, after the buffered bytes, the padding and the length have gone
    through the block function. *)
Lemma md5_finalize_spec m :
  md5_wf m -> MD5.finalized m = 0 -> length (MD5.digest m) = 16%nat ->
  let r := Z.to_nat (md5_index m) in
  exists m', MD5.hash_md5_finalize m = Some m' /\
  MD5.finalized m' = 1 /\
  MD5.digest m'
  = concat (map (le_encode 4)
      (Block512.hash_blocks MD5.transform_words (final_blocks64 r) (MD5.state m)
         (md5_pending m ++ tail64 (le_encode 8) r (md5_bits m)))).
Proof.
  intros Hwf Hfin Hdig. cbv zeta.
  unfold MD5.hash_md5_finalize. rewrite Hfin. cbn [Z.eqb]. cbn zeta.
  fold (md5_index m). pose proof (md5_index_range m) as Hr.
  rewrite (md5_bits_encode m Hwf).
  set (padLen := if md5_index m <? 56 then 56 - md5_index m else 120 - md5_index m).
  set (r := Z.to_nat (md5_index m)).
  assert (Hr' : (r < 64)%nat) by (subst r; lia).
  pose proof (final_blocks64_bound r Hr') as Hfb.
  assert (Hpl : Z.to_nat padLen = (64 * final_blocks64 r - 8 - r)%nat).
  { subst padLen r. unfold final_blocks64.
    destruct (Z.ltb_spec (md5_index m) 56);
      destruct (Nat.ltb_spec (Z.to_nat (md5_index m)) 56); lia. }
  assert (Hp : length (md5_pending m) = r)
    by (destruct Hwf as (Hbuf & _); apply (md5_pending_length m Hbuf)).
  clearbody r.
  assert (Hfb2 : (64 * final_blocks64 r <= r + 72)%nat)
    by (unfold final_blocks64; destruct (Nat.ltb_spec r 56); lia).
  set (pad := take (Z.to_nat padLen) MD5.padding).
  set (bits := le_encode 8 (md5_bits m)).
  assert (Hpad : pad = x80 :: replicate (64 * final_blocks64 r - 9 - r) x00).
  { subst pad. rewrite md5_padding_take by lia. do 2 f_equal. lia. }
  assert (Hok : Forall md5_size_ok [pad; bits]).
  { constructor; [ | constructor; [ | constructor ] ]; unfold md5_size_ok.
    - rewrite Hpad. cbn [length]. rewrite length_replicate. lia.
    - subst bits. rewrite length_le_encode. lia. }
  pose proof (md5_updates_spec [pad; bits] m Hwf Hok) as Hu. cbv zeta in Hu.
  cbn [md5_updates concat] in Hu. unfold MD5.hash_md5_update_binary in Hu.
  rewrite app_nil_r in Hu.
  destruct Hu as (m2 & E2 & Hwf2 & Hs & _ & _ & _ & Hd).
  destruct (MD5.hash_private_md5_update_binary m pad) as [m1 |]; [ | discriminate E2 ].
  destruct (MD5.hash_private_md5_update_binary m1 bits) as [m2' |]; [ | discriminate E2 ].
  apply (inj Some) in E2. subst m2'.
  eexists. split; [ reflexivity | ].
  cbn [MD5.finalized MD5.digest MD5.state].
  split; [ reflexivity | ].
  destruct Hwf2 as (_ & Hlen2 & _).
  pose proof (md5_encode_eq (MD5.digest m2) (MD5.state m2) 4) as E.
  change (4 * 4)%nat with 16%nat in E.
  rewrite E by (rewrite ?Hd; lia).
  rewrite take_ge by lia. rewrite drop_ge by (rewrite Hd; lia). rewrite app_nil_r.
  rewrite Hs. do 3 f_equal.
  - rewrite !length_app, Hp, Hpad. cbn [length]. rewrite length_replicate.
    replace (length bits) with 8%nat by (symmetry; apply length_le_encode).
    symmetry. apply Nat.div_unique_exact; lia.
  - unfold tail64. rewrite Hpad. reflexivity.
Qed.

Lemma md5_hexdigest_bytes m :
  MD5.finalized m = 1 -> length (MD5.digest m) = 16%nat ->
  fst (MD5.hash_md5_hexdigest m) = hash_util_char_array_to_hex_string (MD5.digest m).
Proof.
  intros Hf Hd. unfold MD5.hash_md5_hexdigest. rewrite Hf. cbn [Z.eqb fst].
  rewrite (map_lookup_total_seq (fun b => sprintf_0x 2 (Z_of_byte b)) (MD5.digest m) 16)
    by lia.
  rewrite take_ge by lia.
  generalize (MD5.digest m). intros l. induction l as [| b l IH]; [ reflexivity | ].
  change (b :: l) with ([b] ++ l) at 2. rewrite hex_string_app, <- IH.
  cbn [map concat_strings fold_right]. f_equal.
  destruct b; reflexivity.
Qed.

Lemma md5_init_wf m : length (MD5.buffer m) = 64%nat -> md5_wf (MD5.hash_md5_init m).
Proof.
  intros H. split; [ exact H | ]. split; [ reflexivity | ].
  exists 0, 0. split; [ reflexivity | lia ].
Qed.

(** X9. The MD5 engine is the block-by-block scheme of RFC 1321 around its
    block function: after an initialisation, updates with chunks of fewer
    than 2^32 - 64 bytes each, and a finalization, all of which return,
    the hex digest is the one of the whole message, padded with the byte
    0x80, zero bytes and the 64-bit length low byte first, and run through
    [hash_private_md5_transform] 64 bytes at a time from the initial state,
    the final state written low byte first.  It does not depend on where
    the chunks are cut. *)
Theorem md5_stream_by_blocks (m : MD5.Hash_Private_MD5) (chunks : list (list byte)) :
  length (MD5.buffer m) = 64%nat ->
  length (MD5.digest m) = 16%nat ->
  Forall md5_size_ok chunks ->
  8 * Z.of_nat (length (concat chunks)) < 2 ^ 64 ->
  md5_stream m chunks
  = Some (hash_util_char_array_to_hex_string (md5_by_blocks (concat chunks))).
Proof.
  intros Hbuf Hdig Hok Hlen. unfold md5_stream.
  pose proof (md5_updates_spec chunks _ (md5_init_wf m Hbuf) Hok) as Hup.
  cbv zeta in Hup.
  assert (Hpend : md5_pending (MD5.hash_md5_init m) = []) by reflexivity.
  assert (Hbits0 : md5_bits (MD5.hash_md5_init m) = 0) by reflexivity.
  assert (Hst0 : MD5.state (MD5.hash_md5_init m) = md5_initial_state) by reflexivity.
  assert (Hfin0 : MD5.finalized (MD5.hash_md5_init m) = 0) by reflexivity.
  assert (Hdig0 : MD5.digest (MD5.hash_md5_init m) = MD5.digest m) by reflexivity.
  rewrite Hpend, Hbits0, Hst0, Hfin0, Hdig0 in Hup. cbn [app] in Hup.
  destruct Hup as (m' & Eup & Hwf' & Hs & Hp & Hb & Hf & Hd).
  rewrite Eup. clear Eup.
  remember (concat chunks) as msg eqn:Emsg. clear Emsg.
  remember (length msg) as n eqn:En.
  remember (n / 64)%nat as q eqn:Eq.
  assert (Hdm : n = (64 * q + n mod 64)%nat) by (subst q; apply Nat.div_mod; lia).
  assert (Hr : (n mod 64 < 64)%nat) by (apply Nat.mod_upper_bound; lia).
  assert (Hidx : Z.to_nat (md5_index m') = (n mod 64)%nat).
  { destruct Hwf' as (Hbuf' & _).
    rewrite <- (md5_pending_length m' Hbuf'), Hp, length_drop, <- En. lia. }
  assert (Hbits : md5_bits m' = 8 * Z.of_nat n).
  { rewrite Hb. rewrite Z.add_0_l. apply Z.mod_small. lia. }
  destruct (md5_finalize_spec m' Hwf' Hf) as (mf & Ef & Hfin & Hdigest);
    [ rewrite Hd; exact Hdig | ].
  rewrite Ef. clear Ef.
  assert (Hdl : length (MD5.digest mf) = 16%nat).
  { rewrite Hdigest, length_concat_le_encode.
    rewrite (block512_hash_blocks_inv MD5.transform_words (fun H => length H = 4%nat));
      [ reflexivity | | ].
    - intros H' blk HH. rewrite md5_transform_words_length. exact HH.
    - destruct Hwf' as (_ & H4 & _). exact H4. }
  rewrite (md5_hexdigest_bytes _ Hfin Hdl). do 2 f_equal.
  rewrite Hdigest, Hidx, Hbits, Hs, Hp.
  unfold md5_by_blocks, Block512.final_hash. do 2 f_equal.
  rewrite block512_pad_tail, <- En.
  replace (length (msg ++ tail64 (le_encode 8) (n mod 64) (8 * Z.of_nat n)) / 64)%nat
    with (q + final_blocks64 (n mod 64))%nat.
  - rewrite block512_hash_blocks_add.
    rewrite (block512_hash_blocks_prefix MD5.transform_words q) by lia.
    rewrite drop_app_le by lia. reflexivity.
  - rewrite length_app, length_tail64, <- En by (exact Hr || apply length_le_encode).
    pose proof (final_blocks64_bound _ Hr) as Hbd.
    apply (Nat.div_unique _ _ _ 0); lia.
Qed.

Lemma md5_stream_by_blocks_witness :
  md5_stream zeroed_md5 [abc; abc]
  = Some (hash_util_char_array_to_hex_string (md5_by_blocks (concat [abc; abc]))).
Proof.
  apply (md5_stream_by_blocks zeroed_md5 [abc; abc]).
  - reflexivity.
  - reflexivity.
  - repeat constructor.
  - reflexivity.
Defined.

(** ** Hashing a file *)

Lemma sha256_binary_fips s msg :
  length (Sha256.buffer s) = 64%nat -> 8 * Z.of_nat (length msg) < 2 ^ 64 ->
  Sha256.hash_sha256_binary s msg
  = hash_util_char_array_to_hex_string (FIPS180_32.sha256 msg).
Proof.
  intros Hbuf Hlen. unfold Sha256.hash_sha256_binary. cbv zeta.
  assert (Hspec := sha256_engine_spec (Sha256.hash_sha256_init s) msg
                     Hbuf eq_refl eq_refl eq_refl Hlen).
  rewrite sha256_hexdigest_bytes.
  - rewrite Hspec. reflexivity.
  - rewrite Hspec. apply block512_final_hash_length; [ | reflexivity ].
    intros. apply fips_block256_length.
Qed.

(** What [hash_util_load_file] hands to the hash function: the bytes the
    read delivered, then the rest of the block of [malloc] as it was. *)
Lemma hash_util_hash_file_opened fs path hashfunc block :
  opens (fs path) = true ->
  malloc_block (fs path) = Some block ->
  reported_size (fs path) = Z.of_nat (length block) ->
  (length (delivered (fs path)) <= length block)%nat ->
  hash_util_hash_file fs path hashfunc
  = hashfunc (delivered (fs path) ++ drop (length (delivered (fs path))) block).
Proof.
  intros Ho Hm Hs Hd. unfold hash_util_hash_file, hash_util_load_file.
  rewrite Ho, Hm, Hs. cbn [negb]. rewrite Nat2Z.id.
  rewrite (take_ge (delivered (fs path))) by exact Hd.
  rewrite memcpy_eq_app by (cbn [Nat.add]; exact Hd).
  rewrite take_0. cbn [app Nat.add]. f_equal. apply take_ge.
  rewrite length_app, length_drop. lia.
Qed.

(** [Util::LoadFile]: the bytes the read delivered, then blanks up to the
    size. *)
Lemma cpp_LoadFile_opened fs path n :
  opens (fs path) = true ->
  reported_size (fs path) = Z.of_nat n -> Z.of_nat n < 2 ^ 64 ->
  (length (delivered (fs path)) <= n)%nat ->
  Hash.Util.LoadFile fs path
  = delivered (fs path) ++ replicate (n - length (delivered (fs path))) " "%byte.
Proof.
  intros Ho Hs Hn Hd. unfold Hash.Util.LoadFile. rewrite Ho, Hs. cbn [negb].
  unfold uint64_t. rewrite Z.mod_small by lia. rewrite Nat2Z.id.
  rewrite (take_ge (delivered (fs path))) by exact Hd.
  rewrite memcpy_eq_app by (rewrite length_replicate; cbn [Nat.add]; exact Hd).
  rewrite take_0. cbn [app Nat.add]. f_equal.
  rewrite drop_replicate. reflexivity.
Qed.



(** ** Byte order and rotations *)

Lemma le_decode_encode n u : le_decode (le_encode n u) = u mod 256 ^ Z.of_nat n.
Proof.
  revert u. induction n as [| n IH]; intros u.
  - cbn [le_encode le_decode]. change (256 ^ Z.of_nat 0) with 1. rewrite Z.mod_1_r.
    reflexivity.
  - cbn [le_encode le_decode]. rewrite IH, Z_of_byte_of_Z.
    rewrite Nat2Z.inj_succ, Z.pow_succ_r by lia.
    assert (Hp : 0 < 256 ^ Z.of_nat n) by (apply Z.pow_pos_nonneg; lia).
    rewrite Z.rem_mul_r by lia. reflexivity.
Qed.

Lemma le_decode_range bs : 0 <= le_decode bs < 256 ^ Z.of_nat (length bs).
Proof.
  induction bs as [| b bs IH].
  - cbn. lia.
  - cbn [le_decode length]. rewrite Nat2Z.inj_succ, Z.pow_succ_r by lia.
    pose proof (Z_of_byte_range b). lia.
Qed.

(** X11. Swapping the byte order of a value of n bytes twice gives the
    value back; the swapped value is again a value of n bytes, and its bytes
    in memory are those of the value in reverse order.  (n is 4 for
    [hash_util_swap_endian_uint32_t] and 8 for
    [hash_util_swap_endian_uint64_t].) *)
Theorem swap_endian_involutive (n : nat) (u : Z) :
  0 <= u < 256 ^ Z.of_nat n ->
  hash_util_swap_endian n (hash_util_swap_endian n u) = u /\
  0 <= hash_util_swap_endian n u < 256 ^ Z.of_nat n /\
  object_bytes n (hash_util_swap_endian n u) = rev (object_bytes n u).
Proof.
  intros Hu. unfold hash_util_swap_endian, object_value, object_bytes.
  cbn [hash_util_is_little_endian].
  assert (Hlen : length (rev (le_encode n u)) = n)
    by (rewrite length_rev; apply length_le_encode).
  assert (Henc : le_encode n (le_decode (rev (le_encode n u))) = rev (le_encode n u)).
  { rewrite <- Hlen at 1. apply le_encode_decode. }
  split; [ | split ].
  - rewrite Henc, rev_involutive, le_decode_encode. apply Z.mod_small. exact Hu.
  - pose proof (le_decode_range (rev (le_encode n u))) as H. rewrite Hlen in H. exact H.
  - exact Henc.
Qed.

Lemma swap_endian_involutive_witness :
  hash_util_swap_endian_uint32_t (hash_util_swap_endian_uint32_t 0x01020304) = 0x01020304 /\
  0 <= hash_util_swap_endian_uint32_t 0x01020304 < 256 ^ Z.of_nat 4 /\
  object_bytes 4 (hash_util_swap_endian_uint32_t 0x01020304)
  = rev (object_bytes 4 0x01020304).
Proof.
  apply (swap_endian_involutive 4 0x01020304). split; [ lia | reflexivity ].
Defined.

(** Bit [i] of a rotation: the rotations of the source are written for a
    count strictly between 0 and the width. *)
Lemma testbit_in_range w n i :
  0 <= w -> 0 <= n < 2 ^ w -> w <= i -> Z.testbit n i = false.
Proof.
  intros Hw Hn Hi. rewrite <- (Z.mod_small n (2 ^ w)) by exact Hn.
  apply Z.mod_pow2_bits_high. lia.
Qed.

Lemma range_of_testbit w n :
  0 <= w -> 0 <= n -> (forall i, w <= i -> Z.testbit n i = false) -> n < 2 ^ w.
Proof.
  intros Hw Hn H. destruct (Z.lt_ge_cases n (2 ^ w)) as [Hlt | Hge]; [ exact Hlt | ].
  exfalso. destruct (Z.eq_dec n 0) as [-> | Hnz].
  - pose proof (Z.pow_pos_nonneg 2 w). lia.
  - assert (Hpos : 0 < n) by lia.
    pose proof (Z.bit_log2 n Hpos) as Hb.
    assert (Hl : w <= Z.log2 n) by (apply Z.log2_le_pow2; lia).
    rewrite (H _ Hl) in Hb. discriminate.
Qed.

Lemma rotate_right_testbit w n c i :
  0 <= n < 2 ^ w -> 0 < c < w -> 0 <= i ->
  Z.testbit (Z.lor (Z.shiftr n c) (Z.shiftl n (w - c) mod 2 ^ w)) i
  = if i <? w then Z.testbit n ((i + c) mod w) else false.
Proof.
  intros Hn Hc Hi. rewrite Z.lor_spec, Z.shiftr_spec by lia.
  destruct (Z.ltb_spec i w) as [Hlt | Hge].
  - rewrite Z.mod_pow2_bits_low by lia. rewrite Z.shiftl_spec by lia.
    destruct (Z.lt_ge_cases (i + c) w) as [Hs | Hs].
    + rewrite (Z.mod_small (i + c)) by lia.
      rewrite (Z.testbit_neg_r n (i - (w - c))) by lia. apply orb_false_r.
    + rewrite (testbit_in_range w n (i + c)) by lia. cbn [orb].
      f_equal. replace (i + c) with ((i - (w - c)) + 1 * w) by lia.
      rewrite Z.mod_add by lia. symmetry. apply Z.mod_small. lia.
  - rewrite Z.mod_pow2_bits_high by lia.
    rewrite (testbit_in_range w n (i + c)) by lia. reflexivity.
Qed.

Lemma rotate_testbit w n c c' i :
  0 <= n < 2 ^ w -> 0 < c < w -> c + c' = w -> 0 <= i ->
  Z.testbit (Z.lor (Z.shiftr n c) (Z.shiftl n c' mod 2 ^ w)) i
  = if i <? w then Z.testbit n ((i + c) mod w) else false.
Proof.
  intros Hn Hc Hc' Hi. replace c' with (w - c) by lia.
  apply rotate_right_testbit; assumption.
Qed.

(** X12. On 32-bit words and for a count strictly between 0 and 32,
    [hash_util_left_rotate_u32] and [hash_util_right_rotate_u32] are
    rotations: the result is a 32-bit word, each undoes the other, and
    rotating left by c is rotating right by 32 - c.  Likewise
    [hash_util_right_rotate_u64] is undone by the rotation by 64 - c. *)
Theorem rotate_inverse (n c : Z) :
  0 < c < 32 ->
  (0 <= n < 2 ^ 32 ->
   0 <= hash_util_left_rotate_u32 n c < 2 ^ 32 /\
   0 <= hash_util_right_rotate_u32 n c < 2 ^ 32 /\
   hash_util_right_rotate_u32 (hash_util_left_rotate_u32 n c) c = n /\
   hash_util_left_rotate_u32 (hash_util_right_rotate_u32 n c) c = n /\
   hash_util_left_rotate_u32 n c = hash_util_right_rotate_u32 n (32 - c)) /\
  (0 <= n < 2 ^ 64 ->
   0 <= hash_util_right_rotate_u64 n c < 2 ^ 64 /\
   hash_util_right_rotate_u64 (hash_util_right_rotate_u64 n c) (64 - c) = n).
Proof.
  intros Hc.
  assert (Hbits : forall w x k k', 0 <= x < 2 ^ w -> 0 < k < w -> k + k' = w ->
            0 <= Z.lor (Z.shiftr x k) (Z.shiftl x k' mod 2 ^ w) < 2 ^ w).
  { intros w x k k' Hx Hk Hk'. replace k' with (w - k) by lia.
    assert (Hnn : 0 <= Z.lor (Z.shiftr x k) (Z.shiftl x (w - k) mod 2 ^ w)).
    { apply Z.lor_nonneg. split; [ apply Z.shiftr_nonneg; lia | ].
      apply Z.mod_pos_bound. apply Z.pow_pos_nonneg; lia. }
    split; [ exact Hnn | ].
    apply range_of_testbit; [ lia | exact Hnn | ].
    intros i Hi. rewrite rotate_right_testbit by lia.
    destruct (Z.ltb_spec i w); [ lia | reflexivity ]. }
  assert (Hinv : forall w x k k', 0 <= x < 2 ^ w -> 0 < k < w -> k + k' = w ->
            Z.lor (Z.shiftr (Z.lor (Z.shiftr x k) (Z.shiftl x k' mod 2 ^ w)) k')
                  (Z.shiftl (Z.lor (Z.shiftr x k) (Z.shiftl x k' mod 2 ^ w)) k mod 2 ^ w)
            = x).
  { intros w x k k' Hx Hk Hk'.
    pose proof (Hbits w x k k' Hx Hk Hk') as Hy.
    apply Z.bits_inj'. intros i Hi.
    rewrite (rotate_testbit w _ k' k) by lia.
    destruct (Z.ltb_spec i w) as [Hlt | Hge].
    - assert (Hm : 0 <= (i + k') mod w < w) by (apply Z.mod_pos_bound; lia).
      rewrite (rotate_testbit w x k k') by lia.
      destruct (Z.ltb_spec ((i + k') mod w) w); [ | lia ].
      f_equal. rewrite Zplus_mod_idemp_l.
      replace (i + k' + k) with (i + 1 * w) by lia.
      rewrite Z.mod_add by lia. apply Z.mod_small. lia.
    - symmetry. apply (testbit_in_range w); lia. }
  unfold hash_util_left_rotate_u32, hash_util_right_rotate_u32,
    hash_util_right_rotate_u64, uint32_t, uint64_t.
  split; intros Hn.
  - split; [ rewrite Z.lor_comm; apply Hbits; lia | ].
    split; [ apply Hbits; lia | ].
    split; [ | split ].
    + rewrite (Z.lor_comm (Z.shiftl n c mod 2 ^ 32)). apply Hinv; lia.
    + rewrite Z.lor_comm. apply Hinv; lia.
    + rewrite Z.lor_comm. do 3 f_equal. lia.
  - split; [ apply Hbits; lia | ].
    replace (64 - (64 - c)) with c by lia. apply Hinv; lia.
Qed.

Lemma rotate_inverse_witness :
  (0 <= 0x80000001 < 2 ^ 32 ->
   0 <= hash_util_left_rotate_u32 0x80000001 5 < 2 ^ 32 /\
   0 <= hash_util_right_rotate_u32 0x80000001 5 < 2 ^ 32 /\
   hash_util_right_rotate_u32 (hash_util_left_rotate_u32 0x80000001 5) 5 = 0x80000001 /\
   hash_util_left_rotate_u32 (hash_util_right_rotate_u32 0x80000001 5) 5 = 0x80000001 /\
   hash_util_left_rotate_u32 0x80000001 5 = hash_util_right_rotate_u32 0x80000001 (32 - 5)) /\
  (0 <= 0x80000001 < 2 ^ 64 ->
   0 <= hash_util_right_rotate_u64 0x80000001 5 < 2 ^ 64 /\
   hash_util_right_rotate_u64 (hash_util_right_rotate_u64 0x80000001 5) (64 - 5)
   = 0x80000001).
Proof.
  apply (rotate_inverse 0x80000001 5). lia.
Defined.

(** ** MD5: words and bytes, and the finalized engine *)

Lemma lor_shiftl_add a b k :
  0 <= k -> 0 <= a < 2 ^ k -> Z.lor a (Z.shiftl b k) = a + b * 2 ^ k.
Proof.
  intros Hk Ha. rewrite Z.shiftl_mul_pow2 by exact Hk. symmetry.
  apply Z.add_nocarry_lor. apply Z.bits_inj'. intros i Hi.
  rewrite Z.land_spec, Z.bits_0.
  destruct (Z.lt_ge_cases i k) as [Hlt | Hge].
  - rewrite Z.mul_pow2_bits_low by exact Hlt. apply andb_false_r.
  - rewrite (testbit_in_range k a i) by lia. reflexivity.
Qed.

(** The word [hash_private_md5_decode] builds from four bytes. *)
Lemma md5_decode_word b0 b1 b2 b3 :
  Z.lor (Z.lor (Z.lor (Z_of_byte b0) (Z.shiftl (Z_of_byte b1) 8))
               (Z.shiftl (Z_of_byte b2) 16))
        (Z.shiftl (Z_of_byte b3) 24)
  = le_decode [b0; b1; b2; b3].
Proof.
  pose proof (Z_of_byte_range b0). pose proof (Z_of_byte_range b1).
  pose proof (Z_of_byte_range b2). pose proof (Z_of_byte_range b3).
  rewrite (lor_shiftl_add (Z_of_byte b0)) by lia.
  rewrite (lor_shiftl_add _ (Z_of_byte b2)) by lia.
  rewrite (lor_shiftl_add _ (Z_of_byte b3)) by lia.
  cbn [le_decode]. lia.
Qed.

Lemma md5_decode_eq input n :
  (4 * n <= length input)%nat ->
  MD5.hash_private_md5_decode input (4 * n)
  = map (fun i => le_decode (take 4 (drop (4 * i) input))) (seq 0 n).
Proof.
  intros H. unfold MD5.hash_private_md5_decode.
  replace (4 * n / 4)%nat with n by (rewrite Nat.mul_comm, Nat.div_mul; lia).
  apply map_ext_in. intros i Hi. apply in_seq in Hi. cbv zeta.
  rewrite md5_decode_word. f_equal. symmetry. apply take4_drop. lia.
Qed.

(** X13. [hash_private_md5_decode] and [hash_private_md5_encode] are
    inverse to each other: n words of 32 bits encoded into 4n bytes decode
    to the same words, and 4n bytes decoded into n words encode to the same
    bytes; the encoding leaves the bytes of the output after the first 4n
    as they were. *)
Theorem md5_encode_decode_round_trip (out input : list byte) (ws : list Z) (n : nat) :
  (n <= length ws)%nat -> (4 * n <= length out)%nat -> (4 * n <= length input)%nat ->
  Forall (fun w => 0 <= w < 2 ^ 32) ws ->
  MD5.hash_private_md5_decode (MD5.hash_private_md5_encode out ws (4 * n)) (4 * n)
  = take n ws /\
  MD5.hash_private_md5_encode out (MD5.hash_private_md5_decode input (4 * n)) (4 * n)
  = take (4 * n) input ++ drop (4 * n) out.
Proof.
  intros Hws Hout Hin Hrange. split.
  - rewrite md5_decode_eq by (rewrite md5_encode_length; exact Hout).
    rewrite (md5_encode_eq out ws n Hws Hout).
    set (tail := drop (4 * n) out). clearbody tail.
    revert n Hws Hout Hin. induction Hrange as [| w ws Hw Hrest IH]; intros n Hws Hout Hin.
    + destruct n; [ reflexivity | cbn in Hws; lia ].
    + destruct n as [| n]; [ reflexivity | ].
      cbn [take map concat seq]. rewrite <- app_assoc. f_equal.
      * rewrite Nat.mul_0_r, drop_0.
        rewrite take_app_length' by (rewrite length_le_encode; reflexivity).
        rewrite le_decode_encode. apply Z.mod_small. exact Hw.
      * rewrite <- seq_shift, map_map.
        etransitivity; [ | apply (IH n); cbn [length] in *; lia ].
        apply map_ext. intros i. do 2 f_equal.
        replace (4 * S i)%nat with (length (le_encode 4 w) + 4 * i)%nat
          by (rewrite length_le_encode; lia).
        apply drop_app_add.
  - rewrite md5_encode_eq by (rewrite ?md5_decode_eq, ?length_map, ?length_seq; lia).
    f_equal. rewrite md5_decode_eq by exact Hin.
    rewrite take_ge by (rewrite length_map, length_seq; lia).
    rewrite map_map.
    clear Hws Hout Hrange. revert input Hin. induction n as [| n IH]; intros input Hin.
    + reflexivity.
    + rewrite seq_S, map_app, concat_app. cbn [map concat Nat.add]. rewrite app_nil_r.
      rewrite IH by lia.
      assert (H4 : length (take 4 (drop (4 * n) input)) = 4%nat)
        by (rewrite length_take, length_drop; lia).
      rewrite <- H4 at 2. rewrite le_encode_decode.
      replace (4 * S n)%nat with (4 * n + 4)%nat by lia.
      rewrite <- take_take_drop. reflexivity.
Qed.

Lemma md5_encode_decode_round_trip_witness :
  MD5.hash_private_md5_decode
    (MD5.hash_private_md5_encode (replicate 8 x00) [0x67452301; 0xEFCDAB89] (4 * 2)) (4 * 2)
  = take 2 [0x67452301; 0xEFCDAB89] /\
  MD5.hash_private_md5_encode (replicate 8 x00)
    (MD5.hash_private_md5_decode (abc ++ abc ++ abc) (4 * 2)) (4 * 2)
  = take (4 * 2) (abc ++ abc ++ abc) ++ drop (4 * 2) (replicate 8 x00).
Proof.
  apply (md5_encode_decode_round_trip (replicate 8 x00) (abc ++ abc ++ abc)
           [0x67452301; 0xEFCDAB89] 2).
  - vm_compute. lia.
  - vm_compute. lia.
  - vm_compute. lia.
  - repeat (constructor; [ lia | ]). constructor.
Defined.

(** X14. Once an MD5 engine is finalized, its digest is final: an update
    that returns leaves the flag and the digest as they are, and a further
    finalization returns and does nothing, so the hex digest read after
    any number of such updates and another finalization is the one read
    before them.  Updates with chunks of fewer than 2^32 - 64 bytes each
    do return.  An update that sees 2^32 - 64 bytes or more while nothing
    is buffered, as it is after a finalization, does not return.  Only
    [hash_md5_init] starts a new digest. *)
Theorem md5_digest_final_after_finalize (m : MD5.Hash_Private_MD5)
  (chunks : list (list byte)) :
  MD5.finalized m <> 0 ->
  (forall m', md5_updates m chunks = Some m' ->
     MD5.finalized m' = MD5.finalized m /\ MD5.digest m' = MD5.digest m /\
     MD5.hash_md5_finalize m' = Some m' /\
     fst (MD5.hash_md5_hexdigest m') = fst (MD5.hash_md5_hexdigest m)) /\
  (Forall md5_size_ok chunks -> exists m', md5_updates m chunks = Some m') /\
  (forall input, md5_index m = 0 -> 2 ^ 32 - 64 <= md5_seen input ->
     MD5.hash_md5_update_binary m input = None).
Proof.
  intros Hfin. split; [ | split ].
  - intros m' Hup.
    assert (H : MD5.finalized m' = MD5.finalized m /\ MD5.digest m' = MD5.digest m).
    { revert m Hfin Hup. induction chunks as [| c chunks IH]; intros m Hfin Hup.
      - cbn [md5_updates] in Hup. apply (inj Some) in Hup. subst m'. split; reflexivity.
      - cbn [md5_updates] in Hup. unfold MD5.hash_md5_update_binary in Hup.
        destruct (MD5.hash_private_md5_update_binary m c) as [m1 |] eqn:E;
          [ | discriminate Hup ].
        destruct (md5_update_fields m c m1 E) as (Hf & Hd & _).
        destruct (IH m1) as (Hf' & Hd'); [ rewrite Hf; exact Hfin | exact Hup | ].
        split; [ rewrite Hf'; exact Hf | rewrite Hd'; exact Hd ]. }
    destruct H as (Hf & Hd). split; [ exact Hf | ]. split; [ exact Hd | ]. split.
    + unfold MD5.hash_md5_finalize.
      destruct (Z.eqb_spec (MD5.finalized m') 0) as [E | _]; [ | reflexivity ].
      rewrite Hf in E. contradiction.
    + unfold MD5.hash_md5_hexdigest. rewrite Hf, Hd.
      destruct (MD5.finalized m =? 0); reflexivity.
  - apply md5_updates_return.
  - intros input Hidx Hseen. unfold MD5.hash_md5_update_binary.
    destruct (MD5.hash_private_md5_update_binary m input) as [m1 |] eqn:E; [ | reflexivity ].
    exfalso.
    assert (Hret : exists m', MD5.hash_private_md5_update_binary m input = Some m')
      by (exists m1; exact E).
    apply md5_update_returns_iff in Hret. rewrite Hidx in Hret.
    change ((64 - 0) mod 64) with 0 in Hret. lia.
Qed.

Lemma md5_digest_final_after_finalize_witness :
  MD5.finalized md5_finalized_once <> 0 /\
  exists m', md5_updates md5_finalized_once [abc] = Some m' /\
    fst (MD5.hash_md5_hexdigest m') = fst (MD5.hash_md5_hexdigest md5_finalized_once).
Proof.
  assert (Hfin : MD5.finalized md5_finalized_once <> 0) by (vm_compute; discriminate).
  split; [ exact Hfin | ].
  destruct (md5_digest_final_after_finalize md5_finalized_once [abc] Hfin)
    as (Hkeep & Hret & _).
  destruct Hret as [m' E]; [ repeat constructor | ].
  exists m'. split; [ exact E | ]. apply (Hkeep m' E).
Defined.

(** ** FIPS 202: known answers *)

Example fips202_sha3_256_abc :
  hash_util_char_array_to_hex_string (FIPS202.SHA3_256 abc)
  = "3a985da74fe225b2045c172d6bd390bd855f086e3e9d525b46bfe24511431532"%string.
Proof. vm_compute. reflexivity. Qed.

Example fips202_sha3_224_abc :
  hash_util_char_array_to_hex_string (FIPS202.SHA3_224 abc)
  = "e642824c3f8cf24ad09234ee7d3c766fc9a3a5168d0c94ad73b46fdf"%string.
Proof. vm_compute. reflexivity. Qed.

Example fips202_sha3_384_abc :
  hash_util_char_array_to_hex_string (FIPS202.SHA3_384 abc)
  = "ec01498288516fc926459f58e2c6ad8df9b473cb0fc08c2596da7cf0e49be4b298d88cea927ac7f539f1edf228376d25"%string.
Proof. vm_compute. reflexivity. Qed.

Example fips202_sha3_512_abc :
  hash_util_char_array_to_hex_string (FIPS202.SHA3_512 abc)
  = "b751850b1a57168a5693cd924b6b096e08f621827444f70d884f5d0240d2712e10e116e9192af3c91a7ec57647e3934057340b4cf408d5a56592f8274eec53f0"%string.
Proof. vm_compute. reflexivity. Qed.

Example fips202_shake128_empty :
  hash_util_char_array_to_hex_string (FIPS202.SHAKE128 [] 32)
  = "7f9c2ba4e88f827d616045507605853ed73b8093f6efbc88eb1a6eacfa66ef26"%string.
Proof. vm_compute. reflexivity. Qed.

Example fips202_shake256_empty :
  hash_util_char_array_to_hex_string (FIPS202.SHAKE256 [] 32)
  = "46b9dd2b0ba88d13233b3feb743eeb243fcd52ea62b81b82b50c27646ed5762f"%string.
Proof. vm_compute. reflexivity. Qed.

(** A message of 200 bytes 0xA3 (two blocks for SHA3-256) and an output
    longer than the rate. *)
Example fips202_sha3_256_1600_bits :
  hash_util_char_array_to_hex_string (FIPS202.SHA3_256 (replicate 200 "163"%byte))
  = "79f38adec5c20307a98ef76e8324afbfd46cfd81b22e3973c65fa1bd9de31787"%string.
Proof. vm_compute. reflexivity. Qed.

(** ** Keccak: the state as bytes and as lanes *)

Lemma lanes_length S : length (FIPS202.lanes S) = 25%nat.
Proof. unfold FIPS202.lanes. rewrite length_map, length_seq. reflexivity. Qed.

Lemma lanes_lookup S i :
  (i < 25)%nat -> FIPS202.lanes S !!! i = le_decode (take 8 (drop (8 * i) S)).
Proof.
  intros Hi. unfold FIPS202.lanes.
  apply (lookup_total_map_seq (fun i => le_decode (take 8 (drop (8 * i) S)))). exact Hi.
Qed.

Lemma lanes_range S i : 0 <= FIPS202.lanes S !!! i < 2 ^ 64.
Proof.
  destruct (Nat.lt_ge_cases i 25) as [Hi | Hi].
  - rewrite lanes_lookup by exact Hi.
    pose proof (le_decode_range (take 8 (drop (8 * i) S))) as H.
    assert (Hl : (length (take 8 (drop (8 * i) S)) <= 8)%nat) by (rewrite length_take; lia).
    assert (Hp : 256 ^ Z.of_nat (length (take 8 (drop (8 * i) S))) <= 256 ^ 8)
      by (apply Z.pow_le_mono_r; lia).
    change (256 ^ 8) with (2 ^ 64) in Hp. lia.
  - rewrite list_lookup_total_alt, lookup_ge_None_2 by (rewrite lanes_length; exact Hi).
    cbn. lia.
Qed.

Lemma keccak_READLANE_lanes S x y :
  (x + 5 * y < 25)%nat ->
  Keccak.HASH_PRIVATE_KECCAK_READLANE S x y = KeccakLanes.READ (FIPS202.lanes S) x y.
Proof.
  intros H. unfold Keccak.HASH_PRIVATE_KECCAK_READLANE, KeccakLanes.READ,
    Keccak.HASH_PRIVATE_KECCAK_I, object_value.
  cbn [hash_util_is_little_endian]. rewrite lanes_lookup by exact H. reflexivity.
Qed.

(** Eight bytes of a state outside the lane that is stored. *)
Lemma chunk_memcpy_other (S src : list byte) i j :
  length src = 8%nat -> (8 * i + 8 <= length S)%nat -> j <> i ->
  take 8 (drop (8 * j) (memcpy S (8 * i) src)) = take 8 (drop (8 * j) S).
Proof.
  intros Hsrc Hlen Hji. rewrite memcpy_eq_app by lia. rewrite Hsrc.
  destruct (Nat.lt_ge_cases j i) as [Hlt | Hge].
  - rewrite <- (take_drop (8 * i) S) at 3.
    rewrite !drop_app_le by (rewrite length_take; lia).
    rewrite !take_app_le by (rewrite length_drop, length_take; lia).
    reflexivity.
  - rewrite drop_app_ge by (rewrite length_take; lia).
    rewrite length_take, Nat.min_l by lia.
    rewrite drop_app_ge by lia. rewrite Hsrc, drop_drop. do 2 f_equal. lia.
Qed.

Lemma chunk_memcpy_same (S src : list byte) i :
  length src = 8%nat -> (8 * i + 8 <= length S)%nat ->
  take 8 (drop (8 * i) (memcpy S (8 * i) src)) = src.
Proof.
  intros Hsrc Hlen. rewrite memcpy_eq_app by lia.
  rewrite drop_app_length' by (rewrite length_take; lia).
  rewrite take_app_length' by (symmetry; exact Hsrc). reflexivity.
Qed.

Lemma keccak_WRITELANE_lanes S x y v :
  length S = 200%nat -> (x + 5 * y < 25)%nat -> 0 <= v < 2 ^ 64 ->
  FIPS202.lanes (Keccak.hash_private_keccak_WRITELANE S x y v)
  = KeccakLanes.WRITE (FIPS202.lanes S) x y v.
Proof.
  intros Hlen Hxy Hv. unfold Keccak.hash_private_keccak_WRITELANE, KeccakLanes.WRITE,
    Keccak.HASH_PRIVATE_KECCAK_I, object_bytes.
  cbn [hash_util_is_little_endian].
  set (i := (x + 5 * y)%nat) in *.
  apply list_eq. intros j.
  destruct (Nat.lt_ge_cases j 25) as [Hj | Hj].
  - destruct (Nat.eq_dec j i) as [-> | Hne].
    + rewrite list_lookup_insert_eq by (rewrite lanes_length; exact Hxy).
      unfold FIPS202.lanes. change (map ?f ?l) with (f <$> l).
      rewrite list_lookup_fmap, lookup_seq_lt by exact Hxy. cbn [fmap option_fmap option_map].
      rewrite chunk_memcpy_same by (rewrite ?length_le_encode; lia).
      rewrite le_decode_encode. f_equal. apply Z.mod_small. exact Hv.
    + rewrite list_lookup_insert_ne by (intros E; apply Hne; symmetry; exact E).
      unfold FIPS202.lanes. change (map ?f ?l) with (f <$> l).
      rewrite !list_lookup_fmap, !lookup_seq_lt by exact Hj.
      cbn [fmap option_fmap option_map].
      rewrite chunk_memcpy_other by (rewrite ?length_le_encode; lia). reflexivity.
  - rewrite !lookup_ge_None_2; [ reflexivity | | ];
      rewrite ?length_insert, lanes_length; exact Hj.
Qed.

Lemma lxor_range a b : 0 <= a < 2 ^ 64 -> 0 <= b < 2 ^ 64 -> 0 <= Z.lxor a b < 2 ^ 64.
Proof.
  intros Ha Hb.
  assert (Hnn : 0 <= Z.lxor a b) by (apply Z.lxor_nonneg; lia).
  split; [ exact Hnn | ].
  apply range_of_testbit; [ lia | exact Hnn | ].
  intros i Hi. rewrite Z.lxor_spec, (testbit_in_range 64 a), (testbit_in_range 64 b) by lia.
  reflexivity.
Qed.

Lemma land_range a b : 0 <= a < 2 ^ 64 -> 0 <= b < 2 ^ 64 -> 0 <= Z.land a b < 2 ^ 64.
Proof.
  intros Ha Hb.
  assert (Hnn : 0 <= Z.land a b) by (apply Z.land_nonneg; lia).
  split; [ exact Hnn | ].
  apply range_of_testbit; [ lia | exact Hnn | ].
  intros i Hi. rewrite Z.land_spec, (testbit_in_range 64 a) by lia. reflexivity.
Qed.

Lemma not64_range a : 0 <= a < 2 ^ 64 -> 0 <= not64 a < 2 ^ 64.
Proof. intros Ha. unfold not64. apply lxor_range; [ exact Ha | lia ]. Qed.

(** On a 64-bit lane the rotation of the source, written with an
    exclusive or, is the rotation. *)
Lemma keccak_ROL64_rot a n :
  0 <= a < 2 ^ 64 -> 0 <= n <= 64 ->
  Keccak.HASH_PRIVATE_KECCAK_ROL64 a n = FIPS202.rot a n /\ 0 <= FIPS202.rot a n < 2 ^ 64.
Proof.
  intros Ha Hn. unfold Keccak.HASH_PRIVATE_KECCAK_ROL64, FIPS202.rot, uint64_t.
  assert (Hdis : Z.land (Z.shiftl a n mod 2 ^ 64) (Z.shiftr a (64 - n)) = 0).
  { apply Z.bits_inj'. intros i Hi. rewrite Z.land_spec, Z.bits_0, Z.shiftr_spec by lia.
    destruct (Z.lt_ge_cases i 64) as [H64 | H64].
    - rewrite Z.mod_pow2_bits_low by lia. rewrite Z.shiftl_spec by lia.
      destruct (Z.lt_ge_cases i n) as [Hin | Hin].
      + rewrite Z.testbit_neg_r by lia. reflexivity.
      + rewrite (testbit_in_range 64 a (i + (64 - n))) by lia. apply andb_false_r.
    - rewrite Z.mod_pow2_bits_high by lia. reflexivity. }
  assert (H1 : 0 <= Z.shiftl a n mod 2 ^ 64 < 2 ^ 64) by (apply Z.mod_pos_bound; lia).
  assert (H2 : 0 <= Z.shiftr a (64 - n) < 2 ^ 64).
  { split; [ apply Z.shiftr_nonneg; lia | ].
    rewrite Z.shiftr_div_pow2 by lia.
    assert (0 < 2 ^ (64 - n)) by (apply Z.pow_pos_nonneg; lia).
    apply Z.le_lt_trans with a; [ | lia ].
    apply Z.div_le_upper_bound; [ lia | nia ]. }
  rewrite <- (Z.add_nocarry_lxor _ _ Hdis), (Z.add_nocarry_lor _ _ Hdis).
  split; [ reflexivity | ].
  rewrite <- (Z.add_nocarry_lor _ _ Hdis), (Z.add_nocarry_lxor _ _ Hdis).
  apply lxor_range; assumption.
Qed.

(** ** Keccak: the permutation of the source on lanes *)

Lemma fold_left_sim {A B C} (R : A -> B -> Prop) (f : A -> C -> A) (g : B -> C -> B)
  (l : list C) a b :
  R a b -> (forall a b c, In c l -> R a b -> R (f a c) (g b c)) ->
  R (fold_left f l a) (fold_left g l b).
Proof.
  revert a b. induction l as [| c l IH]; intros a b Hab Hstep; cbn [fold_left].
  - exact Hab.
  - apply IH.
    + apply Hstep; [ left; reflexivity | exact Hab ].
    + intros a' b' c' Hin. apply Hstep. right. exact Hin.
Qed.

Lemma keccak_sim_READ S A x y :
  KeccakLanes.sim S A -> (x + 5 * y < 25)%nat ->
  Keccak.HASH_PRIVATE_KECCAK_READLANE S x y = KeccakLanes.READ A x y.
Proof. intros [_ <-] H. apply keccak_READLANE_lanes. exact H. Qed.

Lemma keccak_sim_READ_range S A x y :
  KeccakLanes.sim S A -> 0 <= KeccakLanes.READ A x y < 2 ^ 64.
Proof. intros [_ <-]. apply lanes_range. Qed.

Lemma keccak_sim_WRITE S A x y v :
  KeccakLanes.sim S A -> (x + 5 * y < 25)%nat -> 0 <= v < 2 ^ 64 ->
  KeccakLanes.sim (Keccak.hash_private_keccak_WRITELANE S x y v) (KeccakLanes.WRITE A x y v).
Proof.
  intros [Hlen <-] Hxy Hv. split.
  - rewrite keccak_WRITELANE_length. exact Hlen.
  - apply keccak_WRITELANE_lanes; assumption.
Qed.

Lemma keccak_sim_XOR S A x y d :
  KeccakLanes.sim S A -> (x + 5 * y < 25)%nat -> 0 <= d < 2 ^ 64 ->
  KeccakLanes.sim (Keccak.hash_private_keccak_XORLANE S x y d)
                  (KeccakLanes.WRITE A x y (Z.lxor (KeccakLanes.READ A x y) d)).
Proof.
  intros Hsim Hxy Hd. unfold Keccak.hash_private_keccak_XORLANE.
  rewrite (keccak_sim_READ S A x y Hsim Hxy).
  apply keccak_sim_WRITE; [ exact Hsim | exact Hxy | ].
  apply lxor_range; [ apply (keccak_sim_READ_range S A x y Hsim) | exact Hd ].
Qed.

Lemma keccak_theta_sim S A :
  KeccakLanes.sim S A -> KeccakLanes.sim (Keccak.theta S) (KeccakLanes.theta A).
Proof.
  intros Hsim. unfold Keccak.theta, KeccakLanes.theta. cbv zeta.
  set (Cs := map _ (seq 0 5)). set (Cl := map _ (seq 0 5)).
  assert (HC : Cs = Cl).
  { subst Cs Cl. apply map_ext_in. intros x Hx. apply in_seq in Hx.
    rewrite !(keccak_sim_READ S A) by (exact Hsim || lia). reflexivity. }
  assert (Hrange : forall k, 0 <= Cl !!! k < 2 ^ 64).
  { intros k. destruct (Nat.lt_ge_cases k 5) as [Hk | Hk].
    - subst Cl.
      rewrite (lookup_total_map_seq
                 (fun x => Z.lxor (Z.lxor (Z.lxor (Z.lxor (KeccakLanes.READ A x 0)
                    (KeccakLanes.READ A x 1)) (KeccakLanes.READ A x 2))
                    (KeccakLanes.READ A x 3)) (KeccakLanes.READ A x 4))) by exact Hk.
      repeat apply lxor_range; apply (keccak_sim_READ_range S A _ _ Hsim).
    - rewrite list_lookup_total_alt, lookup_ge_None_2
        by (subst Cl; rewrite length_map, length_seq; exact Hk).
      cbn. lia. }
  rewrite HC. clearbody Cl. clear Cs HC.
  apply (fold_left_sim KeccakLanes.sim); [ exact Hsim | ].
  intros S1 A1 x Hx Hsim1. apply in_seq in Hx.
  destruct (keccak_ROL64_rot (Cl !!! ((x + 1) mod 5)%nat) 1 (Hrange _) ltac:(lia))
    as [Hrot Hrot_range].
  rewrite Hrot.
  apply (fold_left_sim KeccakLanes.sim); [ exact Hsim1 | ].
  intros S2 A2 y Hy Hsim2. apply in_seq in Hy.
  apply keccak_sim_XOR; [ exact Hsim2 | lia | ].
  apply lxor_range; [ apply Hrange | exact Hrot_range ].
Qed.

Lemma keccak_rho_pi_sim S A :
  KeccakLanes.sim S A -> KeccakLanes.sim (Keccak.rho_pi S) (KeccakLanes.rho_pi A).
Proof.
  intros Hsim. unfold Keccak.rho_pi, KeccakLanes.rho_pi. cbv zeta.
  set (fs := fun (acc : list byte * nat * nat * Z) (t : nat) => _).
  set (fl := fun (acc : list Z * nat * nat * Z) (t : nat) => _).
  set (R := fun (a : list byte * nat * nat * Z) (b : list Z * nat * nat * Z) =>
              KeccakLanes.sim (fst (fst (fst a))) (fst (fst (fst b))) /\
              snd (fst (fst a)) = snd (fst (fst b)) /\
              snd (fst a) = snd (fst b) /\ snd a = snd b /\
              (snd (fst (fst a)) < 5)%nat /\ (snd (fst a) < 5)%nat /\
              0 <= snd a < 2 ^ 64).
  assert (H : R (fold_left fs (seq 0 24)
                   (S, 1%nat, 0%nat, Keccak.HASH_PRIVATE_KECCAK_READLANE S 1 0))
                (fold_left fl (seq 0 24) (A, 1%nat, 0%nat, KeccakLanes.READ A 1 0))).
  { apply (fold_left_sim R).
    - unfold R. cbn [fst snd]. split; [ exact Hsim | ].
      rewrite (keccak_sim_READ S A 1 0 Hsim) by lia.
      repeat split; try lia; apply (keccak_sim_READ_range S A _ _ Hsim).
    - intros [[[S1 x1] y1] c1] [[[A1 x2] y2] c2] t Ht. unfold R. cbn [fst snd].
      intros (Hs & <- & <- & <- & Hx & Hy & Hc). apply in_seq in Ht.
      subst fs fl. cbv beta iota zeta. cbn [fst snd].
      assert (HY : ((2 * x1 + 3 * y1) mod 5 < 5)%nat) by (apply Nat.mod_upper_bound; lia).
      assert (Hr : 0 <= Z.of_nat (((t + 1) * (t + 2) / 2) mod 64) <= 64).
      { pose proof (Nat.mod_upper_bound ((t + 1) * (t + 2) / 2) 64). lia. }
      destruct (keccak_ROL64_rot c1 _ Hc Hr) as [Hrot Hrot_range].
      rewrite Hrot.
      rewrite (keccak_sim_READ S1 A1 _ _ Hs) by lia.
      split; [ apply keccak_sim_WRITE; [ exact Hs | lia | exact Hrot_range ] | ].
      repeat split; try lia; apply (keccak_sim_READ_range S1 A1 _ _ Hs). }
  destruct (fold_left fs _ _) as [[[S1 x1] y1] c1].
  destruct (fold_left fl _ _) as [[[A1 x2] y2] c2].
  destruct H as (H & _). exact H.
Qed.

Lemma keccak_chi_sim S A :
  KeccakLanes.sim S A -> KeccakLanes.sim (Keccak.chi S) (KeccakLanes.chi A).
Proof.
  intros Hsim. unfold Keccak.chi, KeccakLanes.chi.
  apply (fold_left_sim KeccakLanes.sim); [ exact Hsim | ].
  intros S1 A1 y Hy Hsim1. apply in_seq in Hy. cbv zeta.
  set (ts := map _ (seq 0 5)). set (tl := map _ (seq 0 5)).
  assert (HT : ts = tl).
  { subst ts tl. apply map_ext_in. intros x Hx. apply in_seq in Hx.
    apply (keccak_sim_READ S1 A1); [ exact Hsim1 | lia ]. }
  assert (Hrange : forall k, 0 <= tl !!! k < 2 ^ 64).
  { intros k. destruct (Nat.lt_ge_cases k 5) as [Hk | Hk].
    - subst tl. rewrite (lookup_total_map_seq (fun x => KeccakLanes.READ A1 x y)) by exact Hk.
      apply (keccak_sim_READ_range S1 A1 _ _ Hsim1).
    - rewrite list_lookup_total_alt, lookup_ge_None_2
        by (subst tl; rewrite length_map, length_seq; exact Hk).
      cbn. lia. }
  rewrite HT. clearbody tl. clear ts HT.
  apply (fold_left_sim KeccakLanes.sim); [ exact Hsim1 | ].
  intros S2 A2 x Hx Hsim2. apply in_seq in Hx.
  apply keccak_sim_WRITE; [ exact Hsim2 | lia | ].
  apply lxor_range; [ apply Hrange | ].
  apply land_range; [ apply not64_range | ]; apply Hrange.
Qed.

Lemma keccak_iota_sim S A l :
  KeccakLanes.sim S A ->
  KeccakLanes.sim (fst (Keccak.iota (S, l))) (fst (KeccakLanes.iota (A, l))) /\
  snd (Keccak.iota (S, l)) = snd (KeccakLanes.iota (A, l)).
Proof.
  intros Hsim. unfold Keccak.iota, KeccakLanes.iota, KeccakLanes.round_constant.
  set (fs := fun (acc : list byte * Z) (j : nat) => _).
  set (fl := fun (acc : Z * Z) (j : nat) => _).
  set (R := fun (a : list byte * Z) (b : Z * Z) =>
              KeccakLanes.sim (fst a)
                (KeccakLanes.WRITE A 0 0 (Z.lxor (KeccakLanes.READ A 0 0) (fst b))) /\
              snd a = snd b /\ 0 <= fst b < 2 ^ 64).
  assert (Hlen : length A = 25%nat) by (destruct Hsim as [_ <-]; apply lanes_length).
  assert (H : R (fold_left fs (seq 0 7) (S, l)) (fold_left fl (seq 0 7) (0, l))).
  { apply (fold_left_sim R).
    - unfold R. cbn [fst snd]. rewrite Z.lxor_0_r.
      unfold KeccakLanes.WRITE, KeccakLanes.READ.
      rewrite list_insert_id
        by (apply list_lookup_lookup_total_lt; rewrite Hlen; cbn; lia).
      split; [ exact Hsim | ]. split; [ reflexivity | lia ].
    - intros [S1 l1] [rc l2] j Hj. unfold R. cbn [fst snd].
      intros (Hs & <- & Hrc). apply in_seq in Hj.
      subst fs fl. cbv beta iota zeta.
      destruct (Keccak.hash_private_keccak_LFSR86540 l1) as [bit l1'].
      destruct bit; cbn [fst snd]; [ | split; [ exact Hs | split; [ reflexivity | exact Hrc ] ] ].
      assert (Hb : 0 <= Z.shiftl 1 (Z.shiftl 1 (Z.of_nat j) - 1) < 2 ^ 64).
      { rewrite (Z.shiftl_1_l (Z.of_nat j)).
        assert (H1 : 1 <= 2 ^ Z.of_nat j) by (apply Z.pow_le_mono_r with (b := 0); lia).
        assert (H2 : 2 ^ Z.of_nat j <= 2 ^ 6) by (apply Z.pow_le_mono_r; lia).
        rewrite Z.shiftl_1_l. split; [ apply Z.pow_nonneg; lia | ].
        apply Z.pow_lt_mono_r; lia. }
      split; [ | split; [ reflexivity | apply lxor_range; assumption ] ].
      pose proof (keccak_sim_XOR S1 _ 0 0 _ Hs ltac:(lia) Hb) as Hx.
      unfold KeccakLanes.WRITE, KeccakLanes.READ in Hx |- *.
      rewrite list_lookup_total_insert_eq in Hx by (rewrite Hlen; cbn; lia).
      rewrite list_insert_insert_eq in Hx. rewrite <- Z.lxor_assoc. exact Hx. }
  destruct (fold_left fs _ _) as [S1 l1]. destruct (fold_left fl _ _) as [rc l2].
  unfold R in H. cbn [fst snd] in *. destruct H as (H1 & H2 & _).
  split; [ exact H1 | exact H2 ].
Qed.

Lemma keccak_F1600_sim S A :
  KeccakLanes.sim S A ->
  KeccakLanes.sim (Keccak.KeccakF1600 S) (KeccakLanes.KeccakF1600 A).
Proof.
  intros Hsim. unfold Keccak.KeccakF1600, KeccakLanes.KeccakF1600.
  set (R := fun (a : list byte * Z) (b : list Z * Z) =>
              KeccakLanes.sim (fst a) (fst b) /\ snd a = snd b).
  assert (H : forall l a b, R a b ->
            R (fold_left (fun (acc : list byte * Z) (round : nat) =>
                            let '(st, LFSRstate) := acc in
                            Keccak.iota (Keccak.chi (Keccak.rho_pi (Keccak.theta st)),
                                         LFSRstate)) l a)
              (fold_left (fun (acc : list Z * Z) (round : nat) =>
                            let '(A, LFSRstate) := acc in
                            KeccakLanes.iota
                              (KeccakLanes.chi (KeccakLanes.rho_pi (KeccakLanes.theta A)),
                               LFSRstate)) l b)).
  { intros l a b Hab. apply (fold_left_sim R); [ exact Hab | ].
    intros [S1 l1] [A1 l2] round _ [Hs Hl]. cbn [fst snd] in Hs, Hl. subst l2.
    apply keccak_iota_sim. apply keccak_chi_sim, keccak_rho_pi_sim, keccak_theta_sim.
    exact Hs. }
  apply (H (seq 0 24) (S, 1) (A, 1)). split; [ exact Hsim | reflexivity ].
Qed.

(** ** Keccak: the lane-level permutation is KECCAK-p[1600, 24] *)

Ltac explode25 A H :=
  do 25 (destruct A as [| ? A]; [ discriminate H | ]);
  destruct A; [ | discriminate H ].

Lemma keccak_lanes_theta A : length A = 25%nat -> KeccakLanes.theta A = FIPS202.theta A.
Proof.
  intros H. explode25 A H.
  cbv -[Z.lxor Z.land FIPS202.rot]. reflexivity.
Qed.

Lemma fips202_rot_0 a : 0 <= a < 2 ^ 64 -> FIPS202.rot a 0 = a.
Proof.
  intros Ha. unfold FIPS202.rot. rewrite Z.shiftl_0_r, Z.mod_small by exact Ha.
  rewrite Z.shiftr_div_pow2 by lia. change (64 - 0) with 64.
  rewrite Z.div_small by exact Ha. apply Z.lor_0_r.
Qed.

Lemma keccak_lanes_rho_pi A :
  length A = 25%nat -> 0 <= A !!! 0%nat < 2 ^ 64 ->
  KeccakLanes.rho_pi A = FIPS202.pi (FIPS202.rho A).
Proof.
  intros H H0. explode25 A H. cbn in H0.
  cbv -[Z.lxor Z.land FIPS202.rot]. rewrite (fips202_rot_0 _ H0). reflexivity.
Qed.

Lemma keccak_lanes_chi A : length A = 25%nat -> KeccakLanes.chi A = FIPS202.chi A.
Proof.
  intros H. explode25 A H.
  cbv -[Z.lxor Z.land FIPS202.rot]. reflexivity.
Qed.

Lemma le_chunks_round_trip w n (l : list byte) :
  (w * n <= length l)%nat ->
  concat (map (fun i => le_encode w (le_decode (take w (drop (w * i) l)))) (seq 0 n))
  = take (w * n) l.
Proof.
  induction n as [| n IH]; intros Hlen.
  - rewrite Nat.mul_0_r. reflexivity.
  - rewrite seq_S, map_app, concat_app. cbn [map concat Nat.add]. rewrite app_nil_r.
    rewrite IH by lia.
    assert (Hw : length (take w (drop (w * n) l)) = w)
      by (rewrite length_take, length_drop; lia).
    rewrite <- Hw at 2. rewrite le_encode_decode.
    replace (w * S n)%nat with (w * n + w)%nat by lia.
    rewrite <- take_take_drop. reflexivity.
Qed.

Lemma fips202_bytes_lanes S : length S = 200%nat -> FIPS202.bytes (FIPS202.lanes S) = S.
Proof.
  intros H. unfold FIPS202.bytes, FIPS202.lanes. rewrite map_map.
  rewrite (le_chunks_round_trip 8 25 S) by lia. apply take_ge. lia.
Qed.

(** The round constants the LFSR of the source generates are those of
    FIPS 202. *)
Lemma keccak_round_constants i :
  (i < 24)%nat ->
  fst (KeccakLanes.round_constant (KeccakLanes.lfsr_at i)) = FIPS202.RC !!! i.
Proof.
  intros Hi.
  assert (H : forallb (fun i => fst (KeccakLanes.round_constant (KeccakLanes.lfsr_at i))
                                =? FIPS202.RC !!! i) (seq 0 24) = true)
    by (vm_compute; reflexivity).
  rewrite forallb_forall in H. apply Z.eqb_eq. apply H. apply in_seq. lia.
Qed.

Lemma keccak_sim_lane_range S A k : KeccakLanes.sim S A -> 0 <= A !!! k < 2 ^ 64.
Proof. intros [_ <-]. apply lanes_range. Qed.

Lemma keccak_sim_length S A : KeccakLanes.sim S A -> length A = 25%nat.
Proof. intros [_ <-]. apply lanes_length. Qed.

(** One round of the source is Rnd. *)
Lemma keccak_round_fips S A i :
  KeccakLanes.sim S A -> (i < 24)%nat ->
  KeccakLanes.sim
    (fst (Keccak.iota (Keccak.chi (Keccak.rho_pi (Keccak.theta S)), KeccakLanes.lfsr_at i)))
    (FIPS202.Rnd A i) /\
  snd (Keccak.iota (Keccak.chi (Keccak.rho_pi (Keccak.theta S)), KeccakLanes.lfsr_at i))
  = KeccakLanes.lfsr_at (Datatypes.S i).
Proof.
  intros Hsim Hi.
  pose proof (keccak_theta_sim S A Hsim) as H1.
  rewrite (keccak_lanes_theta A (keccak_sim_length S A Hsim)) in H1.
  pose proof (keccak_rho_pi_sim _ _ H1) as H2.
  rewrite (keccak_lanes_rho_pi _ (keccak_sim_length _ _ H1) (keccak_sim_lane_range _ _ 0 H1))
    in H2.
  pose proof (keccak_chi_sim _ _ H2) as H3.
  rewrite (keccak_lanes_chi _ (keccak_sim_length _ _ H2)) in H3.
  destruct (keccak_iota_sim _ _ (KeccakLanes.lfsr_at i) H3) as [H4 H5].
  unfold KeccakLanes.iota in H4, H5.
  pose proof (keccak_round_constants i Hi) as Hrc.
  destruct (KeccakLanes.round_constant (KeccakLanes.lfsr_at i)) as [rc l'] eqn:E.
  cbn [fst snd] in H4, H5, Hrc. subst rc.
  split; [ exact H4 | ].
  rewrite H5. change (KeccakLanes.lfsr_at (Datatypes.S i))
    with (snd (KeccakLanes.round_constant (KeccakLanes.lfsr_at i))).
  rewrite E. reflexivity.
Qed.

(** The permutation of the source is KECCAK-p[1600, 24]. *)
Lemma keccak_F1600_fips S :
  length S = 200%nat -> Keccak.KeccakF1600 S = FIPS202.Keccak_p S.
Proof.
  intros Hlen. unfold Keccak.KeccakF1600, FIPS202.Keccak_p.
  set (step := fun (acc : list byte * Z) (round : nat) => _).
  set (P := fun (i : nat) (acc : list byte * Z) =>
              KeccakLanes.sim (fst acc) (fold_left FIPS202.Rnd (seq 0 i) (FIPS202.lanes S)) /\
              snd acc = KeccakLanes.lfsr_at i).
  assert (H : P (0 + 24)%nat (fold_left step (seq 0 24) (S, 1))).
  { apply fold_left_seq_inv.
    - unfold P. cbn [fst snd seq fold_left]. split; [ | reflexivity ].
      split; [ exact Hlen | reflexivity ].
    - intros i [S1 l1] Hi [Hs Hl]. cbn [fst snd] in Hs, Hl. subst l1.
      unfold P, step. rewrite seq_S, fold_left_app. cbn [fold_left Nat.add].
      apply keccak_round_fips; [ exact Hs | lia ]. }
  destruct H as [[Hl Hs] _]. cbn [Nat.add] in Hs. rewrite <- Hs.
  symmetry. apply fips202_bytes_lanes. exact Hl.
Qed.

(** ** Keccak: absorbing, padding and squeezing *)

Lemma list_eq_total {A} `{!Inhabited A} (l k : list A) :
  length l = length k -> (forall j, (j < length l)%nat -> l !!! j = k !!! j) -> l = k.
Proof.
  intros Hlen H. apply list_eq. intros j.
  destruct (Nat.lt_ge_cases j (length l)) as [Hj | Hj].
  - rewrite (list_lookup_lookup_total_lt l j Hj).
    rewrite (list_lookup_lookup_total_lt k j) by lia.
    f_equal. apply H. exact Hj.
  - rewrite !lookup_ge_None_2 by lia. reflexivity.
Qed.

Lemma lookup_total_zip_with {A B C} `{!Inhabited A, !Inhabited B, !Inhabited C}
  (f : A -> B -> C) (l : list A) (k : list B) j :
  (j < length l)%nat -> (j < length k)%nat ->
  zip_with f l k !!! j = f (l !!! j) (k !!! j).
Proof.
  intros Hl Hk. apply list_lookup_total_correct.
  rewrite lookup_zip_with.
  rewrite (list_lookup_lookup_total_lt l j Hl), (list_lookup_lookup_total_lt k j Hk).
  reflexivity.
Qed.

Lemma Z_of_byte_xor a b :
  Z_of_byte (Keccak.byte_xor a b) = Z.lxor (Z_of_byte a) (Z_of_byte b).
Proof.
  unfold Keccak.byte_xor. rewrite Z_of_byte_of_Z. apply Z.mod_small.
  pose proof (Z_of_byte_range a) as Ha. pose proof (Z_of_byte_range b) as Hb.
  assert (Hnn : 0 <= Z.lxor (Z_of_byte a) (Z_of_byte b)) by (apply Z.lxor_nonneg; lia).
  split; [ exact Hnn | ].
  change 256 with (2 ^ 8). apply range_of_testbit; [ lia | exact Hnn | ].
  intros i Hi. rewrite Z.lxor_spec.
  rewrite (testbit_in_range 8 (Z_of_byte a)), (testbit_in_range 8 (Z_of_byte b)) by lia.
  reflexivity.
Qed.

Lemma byte_xor_assoc a b c :
  Keccak.byte_xor (Keccak.byte_xor a b) c = Keccak.byte_xor a (Keccak.byte_xor b c).
Proof.
  unfold Keccak.byte_xor at 1 3. rewrite !Z_of_byte_xor, Z.lxor_assoc. reflexivity.
Qed.

Lemma byte_xor_x00 a : Keccak.byte_xor a x00 = a.
Proof.
  unfold Keccak.byte_xor. change (Z_of_byte x00) with 0.
  rewrite Z.lxor_0_r. apply byte_of_Z_of_byte.
Qed.

Lemma byte_xor_x80 d :
  Z.land (Z_of_byte d) 0x80 = 0 ->
  Keccak.byte_xor d x80 = byte_of_Z (Z.lor (Z_of_byte d) 0x80).
Proof.
  intros H. unfold Keccak.byte_xor. f_equal. change (Z_of_byte x80) with 0x80.
  rewrite <- (Z.add_nocarry_lxor _ _ H). apply Z.add_nocarry_lor. exact H.
Qed.

Lemma fips202_xor_block_length S P :
  (length P <= length S)%nat -> length (FIPS202.xor_block S P) = length S.
Proof.
  intros H. unfold FIPS202.xor_block.
  rewrite length_zip_with, length_app, length_replicate. lia.
Qed.

Lemma fips202_xor_block_lookup S P j :
  (length P <= length S)%nat -> (j < length S)%nat ->
  FIPS202.xor_block S P !!! j
  = if (j <? length P)%nat then Keccak.byte_xor (S !!! j) (P !!! j) else S !!! j.
Proof.
  intros HP Hj. unfold FIPS202.xor_block.
  rewrite lookup_total_zip_with by (rewrite ?length_app, ?length_replicate; lia).
  destruct (Nat.ltb_spec j (length P)) as [Hlt | Hge].
  - rewrite lookup_total_app_l by exact Hlt. reflexivity.
  - rewrite lookup_total_app_r by exact Hge.
    rewrite lookup_total_replicate_2 by lia. apply byte_xor_x00.
Qed.

Lemma keccak_xor_at_lookup sp i v j :
  (i < length (Keccak.state sp))%nat ->
  Keccak.state (Keccak.xor_at sp i v) !!! j
  = if (j =? i)%nat then Keccak.byte_xor (Keccak.state sp !!! j) v else Keccak.state sp !!! j.
Proof.
  intros Hi. cbn [Keccak.xor_at Keccak.state].
  destruct (Nat.eqb_spec j i) as [-> | Hne].
  - apply list_lookup_total_insert_eq. exact Hi.
  - apply list_lookup_total_insert_ne. intros E. apply Hne. symmetry. exact E.
Qed.

Lemma keccak_xor_block_lookup blk sp i j :
  (i + length blk <= length (Keccak.state sp))%nat ->
  Keccak.state (Keccak.xor_block sp i blk) !!! j
  = if ((i <=? j) && (j <? i + length blk))%nat
    then Keccak.byte_xor (Keccak.state sp !!! j) (blk !!! (j - i)%nat)
    else Keccak.state sp !!! j.
Proof.
  revert sp i. induction blk as [| b blk IH]; intros sp i Hlen.
  - cbn [Keccak.xor_block length]. rewrite Nat.add_0_r.
    destruct (Nat.leb_spec i j); destruct (Nat.ltb_spec j i); try reflexivity; lia.
  - cbn [Keccak.xor_block length] in *.
    rewrite IH by (rewrite keccak_xor_at_length; lia).
    rewrite keccak_xor_at_lookup by lia.
    destruct (Nat.leb_spec (S i) j) as [H1 | H1];
      destruct (Nat.ltb_spec j (S i + length blk)) as [H2 | H2];
      destruct (Nat.leb_spec i j) as [H3 | H3];
      destruct (Nat.ltb_spec j (i + S (length blk))) as [H4 | H4];
      destruct (Nat.eqb_spec j i) as [H5 | H5]; cbn [andb]; try lia; try reflexivity.
    + replace (j - i)%nat with (S (j - S i)) by lia. reflexivity.
    + subst j. rewrite Nat.sub_diag. reflexivity.
Qed.

(** XORing a block into the first bytes of the state. *)
Lemma keccak_xor_block_fips sp blk :
  (length blk <= length (Keccak.state sp))%nat ->
  Keccak.state (Keccak.xor_block sp 0 blk) = FIPS202.xor_block (Keccak.state sp) blk.
Proof.
  intros H. apply list_eq_total.
  - rewrite keccak_xor_block_length, fips202_xor_block_length by exact H. reflexivity.
  - intros j Hj. rewrite keccak_xor_block_length in Hj.
    rewrite keccak_xor_block_lookup by (cbn [Nat.add]; exact H).
    rewrite fips202_xor_block_lookup by assumption.
    cbn [Nat.leb andb Nat.add]. rewrite Nat.sub_0_r. reflexivity.
Qed.

Lemma fips202_xor_block_nil S : FIPS202.xor_block S [] = S.
Proof.
  apply list_eq_total.
  - apply fips202_xor_block_length. cbn. lia.
  - intros j Hj. rewrite fips202_xor_block_length in Hj by (cbn; lia).
    rewrite fips202_xor_block_lookup by (cbn; lia || exact Hj). reflexivity.
Qed.

Lemma fips202_Keccak_p_length S : length (FIPS202.Keccak_p S) = 200%nat.
Proof.
  unfold FIPS202.Keccak_p, FIPS202.bytes.
  assert (H : length (fold_left FIPS202.Rnd (seq 0 24) (FIPS202.lanes S)) = 25%nat).
  { apply (fold_left_inv (fun A => length A = 25%nat)); [ apply lanes_length | ].
    intros A i _. unfold FIPS202.Rnd, FIPS202.iota. rewrite length_insert.
    unfold FIPS202.chi, FIPS202.of_lanes. rewrite length_map, length_seq. reflexivity. }
  rewrite length_concat_le_encode, H. reflexivity.
Qed.

Lemma fips202_absorb_length r n S P :
  length S = 200%nat -> length (FIPS202.absorb r n S P) = 200%nat.
Proof.
  revert S P. induction n as [| n IH]; intros S P H; cbn [FIPS202.absorb]; [ exact H | ].
  apply IH. apply fips202_Keccak_p_length.
Qed.

(** The absorbing loop: the whole blocks of the input have gone through
    the permutation, the bytes after them are XORed into the state. *)
Lemma keccak_absorb_state fuel r sp input bs sp' pos :
  (0 < r <= 200)%nat -> length (Keccak.state sp) = 200%nat ->
  Keccak.absorb fuel r sp input bs = Some (sp', pos) ->
  Keccak.state sp'
  = FIPS202.xor_block (FIPS202.absorb r (length input / r) (Keccak.state sp) input)
                      (drop (r * (length input / r)) input).
Proof.
  intros Hr. revert sp input bs.
  induction fuel as [| fuel IH]; intros sp input bs Hlen H.
  - destruct input; cbn [Keccak.absorb] in H; [ | discriminate H ].
    injection H as <- _. cbn [length]. rewrite Nat.Div0.div_0_l.
    cbn [FIPS202.absorb]. rewrite drop_nil, fips202_xor_block_nil. reflexivity.
  - destruct input as [| b input'].
    { cbn [Keccak.absorb] in H. injection H as <- _. cbn [length].
      rewrite Nat.Div0.div_0_l. cbn [FIPS202.absorb].
      rewrite drop_nil, fips202_xor_block_nil. reflexivity. }
    cbn [Keccak.absorb] in H. cbv zeta in H.
    remember (b :: input') as input eqn:Einput.
    assert (Hpos : (1 <= length input)%nat) by (subst input; cbn; lia).
    clear Einput b input'.
    destruct (Nat.eqb_spec (Nat.min (length input) r) r) as [Hfull | Hpart].
    + assert (Hge : (r <= length input)%nat) by lia.
      rewrite Nat.min_r in H by exact Hge.
      apply IH in H; [ | rewrite keccak_permute_length, keccak_xor_block_length; exact Hlen ].
      rewrite H. rewrite length_drop.
      assert (Hdiv : (length input / r = S ((length input - r) / r))%nat).
      { replace (length input) with ((length input - r) + 1 * r)%nat at 1 by lia.
        rewrite Nat.div_add by lia. lia. }
      rewrite Hdiv. cbn [FIPS202.absorb].
      cbn [Keccak.hash_private_keccak_KeccakF1600_StatePermute Keccak.state].
      rewrite keccak_F1600_fips by (rewrite keccak_xor_block_length; exact Hlen).
      rewrite keccak_xor_block_fips by (rewrite length_take; lia).
      rewrite drop_drop. do 2 f_equal. lia.
    + assert (Hlt : (length input < r)%nat) by lia.
      rewrite Nat.min_l in H by lia. rewrite drop_all, take_ge in H by lia.
      assert (Hsp : sp' = Keccak.xor_block sp 0 input).
      { destruct fuel; cbn [Keccak.absorb] in H; injection H as <- _; reflexivity. }
      subst sp'. rewrite keccak_xor_block_fips by lia.
      rewrite Nat.div_small by exact Hlt. rewrite Nat.mul_0_r, drop_0. reflexivity.
Qed.

Lemma fips202_pad_length r d m :
  (0 < r)%nat -> length (FIPS202.pad r d m) = (r - m mod r)%nat.
Proof.
  intros Hr. unfold FIPS202.pad. cbv zeta.
  pose proof (Nat.mod_upper_bound m r ltac:(lia)) as Hm.
  destruct (Nat.eqb_spec (r - m mod r) 1) as [E | E].
  - rewrite E. reflexivity.
  - cbn [length]. rewrite length_app, length_replicate. cbn [length]. lia.
Qed.

Lemma fips202_pad_lookup r d m k :
  (0 < r)%nat -> (k < r - m mod r)%nat ->
  FIPS202.pad r d m !!! k
  = if (r - m mod r =? 1)%nat then byte_of_Z (Z.lor (Z_of_byte d) 0x80)
    else if (k =? 0)%nat then d
         else if (k =? r - m mod r - 1)%nat then x80 else x00.
Proof.
  intros Hr Hk. unfold FIPS202.pad. cbv zeta.
  destruct (Nat.eqb_spec (r - m mod r) 1) as [E | E].
  - replace k with 0%nat by lia. reflexivity.
  - destruct k as [| k]; [ reflexivity | ].
    destruct (Nat.eqb_spec (S k) 0) as [E0 | _]; [ lia | ].
    rewrite lookup_total_cons_ne_0 by lia. cbn [Nat.pred].
    destruct (Nat.eqb_spec (S k) (r - m mod r - 1)) as [E1 | E1].
    + rewrite lookup_total_app_r by (rewrite length_replicate; lia).
      rewrite length_replicate. replace (k - (r - m mod r - 2))%nat with 0%nat by lia.
      reflexivity.
    + rewrite lookup_total_app_l by (rewrite length_replicate; lia).
      apply lookup_total_replicate_2. lia.
Qed.

(** The padding of the source: the two XORs build the last block of the
    padded message. *)
Lemma keccak_pad_state r sp d S0 partial m :
  (0 < r <= 200)%nat -> Z.land (Z_of_byte d) 0x80 = 0 ->
  length S0 = 200%nat -> length partial = (m mod r)%nat ->
  Keccak.state sp = FIPS202.xor_block S0 partial ->
  Keccak.state (Keccak.pad r sp (m mod r) d)
  = FIPS202.Keccak_p (FIPS202.xor_block S0 (partial ++ FIPS202.pad r d m)).
Proof.
  intros Hr Hd HS0 Hpartial Hstate.
  pose proof (Nat.mod_upper_bound m r ltac:(lia)) as Hm.
  assert (Hlen : length (Keccak.state sp) = 200%nat)
    by (rewrite Hstate; rewrite fips202_xor_block_length; lia).
  unfold Keccak.pad. cbv zeta. rewrite Hd. cbn [Z.eqb negb andb].
  cbn [Keccak.hash_private_keccak_KeccakF1600_StatePermute Keccak.state].
  rewrite keccak_F1600_fips by (rewrite !keccak_xor_at_length; exact Hlen).
  f_equal.
  assert (Hblock : length (partial ++ FIPS202.pad r d m) = r)
    by (rewrite length_app, fips202_pad_length, Hpartial; lia).
  apply list_eq_total.
  - rewrite !keccak_xor_at_length, fips202_xor_block_length; lia.
  - intros j Hj. rewrite !keccak_xor_at_length in Hj.
    rewrite keccak_xor_at_lookup by (rewrite keccak_xor_at_length; lia).
    rewrite keccak_xor_at_lookup by lia.
    rewrite Hstate, !fips202_xor_block_lookup by lia.
    rewrite Hblock, Hpartial.
    destruct (Nat.ltb_spec j (m mod r)) as [H1 | H1].
    + (* a byte of the message *)
      destruct (Nat.eqb_spec j (r - 1)); [ lia | ].
      destruct (Nat.eqb_spec j (m mod r)); [ lia | ].
      destruct (Nat.ltb_spec j r); [ | lia ].
      rewrite lookup_total_app_l by lia. reflexivity.
    + destruct (Nat.ltb_spec j r) as [H2 | H2].
      * rewrite lookup_total_app_r by lia. rewrite Hpartial.
        rewrite fips202_pad_lookup by lia.
        destruct (Nat.eqb_spec (r - m mod r) 1) as [E1 | E1].
        -- destruct (Nat.eqb_spec j (r - 1)); [ | lia ].
           destruct (Nat.eqb_spec j (m mod r)); [ | lia ].
           rewrite byte_xor_assoc, byte_xor_x80 by exact Hd. reflexivity.
        -- destruct (Nat.eqb_spec (j - m mod r) 0) as [E2 | E2].
           ++ destruct (Nat.eqb_spec j (r - 1)); [ lia | ].
              destruct (Nat.eqb_spec j (m mod r)); [ | lia ]. reflexivity.
           ++ destruct (Nat.eqb_spec j (m mod r)); [ lia | ].
              destruct (Nat.eqb_spec (j - m mod r) (r - m mod r - 1)) as [E3 | E3];
                destruct (Nat.eqb_spec j (r - 1)); try lia; [ reflexivity | ].
              symmetry. apply byte_xor_x00.
      * destruct (Nat.eqb_spec j (r - 1)); [ lia | ].
        destruct (Nat.eqb_spec j (m mod r)); [ lia | ]. reflexivity.
Qed.

Lemma fips202_absorb_prefix r n S P X :
  (r * n <= length P)%nat -> FIPS202.absorb r n S (P ++ X) = FIPS202.absorb r n S P.
Proof.
  revert S P. induction n as [| n IH]; intros S P H; cbn [FIPS202.absorb]; [ reflexivity | ].
  rewrite take_app_le, drop_app_le by lia. apply IH. rewrite length_drop. lia.
Qed.

Lemma fips202_absorb_snoc r n S P :
  FIPS202.absorb r (n + 1) S P
  = FIPS202.Keccak_p (FIPS202.xor_block (FIPS202.absorb r n S P) (take r (drop (r * n) P))).
Proof.
  revert S P. induction n as [| n IH]; intros S P.
  - cbn [Nat.add FIPS202.absorb]. rewrite Nat.mul_0_r, drop_0. reflexivity.
  - cbn [Nat.add FIPS202.absorb]. rewrite IH, drop_drop.
    replace (r * Datatypes.S n)%nat with (r + r * n)%nat by lia. reflexivity.
Qed.

Lemma keccak_permute_state sp :
  Keccak.state (Keccak.hash_private_keccak_KeccakF1600_StatePermute sp)
  = Keccak.KeccakF1600 (Keccak.state sp).
Proof. reflexivity. Qed.

Lemma fips202_squeeze_head r k S :
  exists rest, FIPS202.squeeze r k S = take r S ++ rest.
Proof. destruct k; cbn [FIPS202.squeeze]; eexists; reflexivity. Qed.

(** The squeezing loop gives the first bytes of the squeezed blocks. *)
Lemma keccak_squeeze_fips fuel r sp n out sp' :
  (0 < r <= 200)%nat -> length (Keccak.state sp) = 200%nat ->
  Keccak.squeeze fuel r sp n = Some (out, sp') ->
  out = take n (FIPS202.squeeze r (n / r) (Keccak.state sp)).
Proof.
  intros Hr. revert sp n out sp'.
  induction fuel as [| fuel IH]; intros sp n out sp' Hlen H.
  - destruct n; cbn [Keccak.squeeze] in H; [ | discriminate H ].
    injection H as <- _. reflexivity.
  - destruct n as [| n'].
    { cbn [Keccak.squeeze] in H. injection H as <- _. reflexivity. }
    cbn [Keccak.squeeze] in H. cbv zeta in H.
    remember (S n') as n eqn:En.
    assert (Hpos : (1 <= n)%nat) by lia. clear En n'.
    destruct (Nat.ltb_spec 0 (n - Nat.min n r)) as [Hmore | Hdone].
    + assert (Hgt : (r < n)%nat) by lia.
      rewrite Nat.min_r in H by lia.
      destruct (Keccak.squeeze fuel r
                  (Keccak.hash_private_keccak_KeccakF1600_StatePermute sp) (n - r))
        as [[rest sp1] |] eqn:E; [ | discriminate H ].
      injection H as <- _.
      apply IH in E; [ | rewrite keccak_permute_length; exact Hlen ].
      rewrite keccak_permute_state, keccak_F1600_fips in E by exact Hlen.
      assert (Hdiv : (n / r = S ((n - r) / r))%nat).
      { replace n with ((n - r) + 1 * r)%nat at 1 by lia.
        rewrite Nat.div_add by lia. lia. }
      rewrite Hdiv. cbn [FIPS202.squeeze].
      rewrite take_app_ge by (rewrite length_take; lia).
      rewrite length_take, Nat.min_l by lia. rewrite E. reflexivity.
    + assert (Hle : (n <= r)%nat) by lia.
      rewrite Nat.min_l in H by lia. injection H as <- _.
      destruct (fips202_squeeze_head r (n / r) (Keccak.state sp)) as [rest ->].
      rewrite take_app_le by (rewrite length_take; lia).
      rewrite take_take, Nat.min_l by lia. reflexivity.
Qed.

(** The sponge function of the source is SPONGE[KECCAK-p[1600, 24],
    pad10*1, rate] of FIPS 202, for a rate that is a positive multiple of
    8 up to 1600 and a suffix byte below 0x80. *)
Lemma keccak_Keccak_fips rate capacity input d n :
  uint32_t (rate + capacity) = 1600 -> rate mod 8 = 0 -> 0 < rate <= 1600 ->
  Z.land (Z_of_byte d) 0x80 = 0 ->
  exists log,
    Keccak.hash_private_keccak_Keccak rate capacity input d n
    = Keccak.Written (FIPS202.sponge (Z.to_nat (rate / 8)) d input n) log.
Proof.
  intros Hsum Hmod Hrate Hd.
  destruct (keccak_Keccak_phases rate capacity input d n Hsum Hmod ltac:(lia))
    as (sp & out & sp2 & k & Habs & Hlen & Hsq & _ & Hrun).
  exists (Keccak.trace sp2). rewrite Hrun. f_equal.
  assert (Hr : (0 < Z.to_nat (rate / 8) <= 200)%nat).
  { assert (8 <= rate) by (apply Z.mod_divide in Hmod; [ destruct Hmod as [q Hq]; lia | lia ]).
    assert (1 <= rate / 8) by (apply Z.div_le_lower_bound; lia).
    assert (rate / 8 <= 200) by (apply Z.div_le_upper_bound; lia). lia. }
  set (r := Z.to_nat (rate / 8)) in *. clearbody r.
  pose proof (Nat.mod_upper_bound (length input) r ltac:(lia)) as Hm.
  pose proof (Nat.div_mod (length input) r ltac:(lia)) as Hdm.
  apply keccak_absorb_state in Habs; [ | exact Hr | apply length_replicate ].
  cbn [Keccak.state] in Habs.
  apply keccak_squeeze_fips in Hsq; [ | exact Hr | rewrite keccak_pad_length; exact Hlen ].
  rewrite Hsq. unfold FIPS202.sponge. cbv zeta.
  assert (Hpartial : length (drop (r * (length input / r)) input) = (length input mod r)%nat)
    by (rewrite length_drop; lia).
  rewrite (keccak_pad_state r sp d _ _ (length input) Hr Hd
             (fips202_absorb_length _ _ _ _ (length_replicate _ _)) Hpartial Habs).
  assert (Hblocks : (length (input ++ FIPS202.pad r d (length input)) / r
                     = length input / r + 1)%nat).
  { rewrite length_app, fips202_pad_length by lia.
    symmetry. apply Nat.div_unique_exact; lia. }
  rewrite Hblocks, fips202_absorb_snoc.
  rewrite fips202_absorb_prefix by lia.
  rewrite drop_app_le by lia.
  rewrite (take_ge (_ ++ _)); [ reflexivity | ].
  rewrite length_app, length_drop, fips202_pad_length by lia. lia.
Qed.

Lemma fips202_squeeze_length r k S :
  (r <= 200)%nat -> length S = 200%nat ->
  length (FIPS202.squeeze r k S) = ((k + 1) * r)%nat.
Proof.
  intros Hr. revert S. induction k as [| k IH]; intros S HS; cbn [FIPS202.squeeze].
  - rewrite app_nil_r, length_take. lia.
  - rewrite length_app, length_take, IH by apply fips202_Keccak_p_length. lia.
Qed.

Lemma fips202_sponge_length r d N len :
  (0 < r <= 200)%nat -> length (FIPS202.sponge r d N len) = len.
Proof.
  intros Hr. unfold FIPS202.sponge. cbv zeta. rewrite length_take.
  rewrite fips202_squeeze_length
    by (try apply fips202_absorb_length; try apply length_replicate; lia).
  pose proof (Nat.div_mod len r ltac:(lia)) as Hdm.
  pose proof (Nat.mod_upper_bound len r ltac:(lia)) as Hm. nia.
Qed.

(** X15. On a state of 200 bytes, the permutation of the source
    ([hash_private_keccak_KeccakF1600_StatePermute]: the steps theta, rho
    and pi, chi, iota with the rotation offsets computed as (t + 1)(t + 2) / 2
    and the round constants generated by the LFSR, 24 times) is
    KECCAK-p[1600, 24] of FIPS 202, with the offsets of its Table 2 and its
    round constants. *)
Theorem keccak_permutation_is_standard (S : list byte) :
  length S = 200%nat ->
  Keccak.KeccakF1600 S = FIPS202.Keccak_p S /\
  Keccak.state (Keccak.hash_private_keccak_KeccakF1600_StatePermute (Keccak.mk S []))
  = FIPS202.Keccak_p S.
Proof.
  intros H. split.
  - apply keccak_F1600_fips. exact H.
  - rewrite keccak_permute_state. apply keccak_F1600_fips. exact H.
Qed.

Lemma keccak_permutation_is_standard_witness :
  Keccak.KeccakF1600 (replicate 200 x00) = FIPS202.Keccak_p (replicate 200 x00) /\
  Keccak.state (Keccak.hash_private_keccak_KeccakF1600_StatePermute
                  (Keccak.mk (replicate 200 x00) []))
  = FIPS202.Keccak_p (replicate 200 x00).
Proof.
  apply (keccak_permutation_is_standard (replicate 200 x00)). reflexivity.
Defined.

(** X16. [hash_private_keccak_Keccak] is the sponge construction of
    FIPS 202.  For a rate that is a positive multiple of 8 up to 1600, with
    rate + capacity = 1600, and a suffix byte below 0x80 (0x06 and 0x1F in
    this header), it ends and stores exactly [outputByteLen] bytes: those
    of SPONGE[KECCAK-p[1600, 24], pad10*1, rate] applied to the input
    followed by the suffix bits.  When rate + capacity is not 1600 or the
    rate is not a multiple of 8 it returns at once and stores nothing. *)
Theorem keccak_sponge_is_standard (rate capacity : Z) (input : list byte) (d : byte)
  (outputByteLen : nat) :
  0 < rate <= 1600 ->
  Z.land (Z_of_byte d) 0x80 = 0 ->
  (uint32_t (rate + capacity) = 1600 /\ rate mod 8 = 0 ->
   exists log,
     Keccak.hash_private_keccak_Keccak rate capacity input d outputByteLen
     = Keccak.Written (FIPS202.sponge (Z.to_nat (rate / 8)) d input outputByteLen) log /\
     length (FIPS202.sponge (Z.to_nat (rate / 8)) d input outputByteLen) = outputByteLen) /\
  (uint32_t (rate + capacity) <> 1600 \/ rate mod 8 <> 0 ->
   Keccak.hash_private_keccak_Keccak rate capacity input d outputByteLen
   = Keccak.NothingWritten).
Proof.
  intros Hrate Hd. split.
  - intros [Hsum Hmod].
    destruct (keccak_Keccak_fips rate capacity input d outputByteLen Hsum Hmod Hrate Hd)
      as [log H].
    exists log. split; [ exact H | ].
    apply fips202_sponge_length.
    assert (8 <= rate) by (apply Z.mod_divide in Hmod; [ destruct Hmod as [q Hq]; lia | lia ]).
    assert (1 <= rate / 8) by (apply Z.div_le_lower_bound; lia).
    assert (rate / 8 <= 200) by (apply Z.div_le_upper_bound; lia). lia.
  - intros H. unfold Keccak.hash_private_keccak_Keccak. cbv zeta.
    destruct (Z.eqb_spec (uint32_t (rate + capacity)) 1600) as [E1 | E1];
      destruct (Z.eqb_spec (rate mod 8) 0) as [E2 | E2]; cbn [negb orb];
      try reflexivity.
    destruct H as [H | H]; contradiction.
Qed.

Lemma keccak_sponge_is_standard_witness :
  (uint32_t (1088 + 512) = 1600 /\ 1088 mod 8 = 0 ->
   exists log,
     Keccak.hash_private_keccak_Keccak 1088 512 abc x01 32
     = Keccak.Written (FIPS202.sponge (Z.to_nat (1088 / 8)) x01 abc 32) log /\
     length (FIPS202.sponge (Z.to_nat (1088 / 8)) x01 abc 32) = 32%nat) /\
  (uint32_t (1088 + 512) <> 1600 \/ 1088 mod 8 <> 0 ->
   Keccak.hash_private_keccak_Keccak 1088 512 abc x01 32 = Keccak.NothingWritten).
Proof.
  apply (keccak_sponge_is_standard 1088 512 abc x01 32).
  - lia.
  - reflexivity.
Defined.

(** ** Keccak: the padding step *)

Lemma keccak_xor_at_state sp i v :
  Keccak.state (Keccak.xor_at sp i v) = xor_into (Keccak.state sp) i v.
Proof. reflexivity. Qed.

Lemma xor_into_length S i v : length (xor_into S i v) = length S.
Proof. apply length_insert. Qed.

(** The byte [v] is XORed into byte [i], the other bytes stay. *)
Lemma xor_into_lookup S i v j :
  (i < length S)%nat ->
  Z_of_byte (xor_into S i v !!! j)
  = if (j =? i)%nat then Z.lxor (Z_of_byte (S !!! j)) (Z_of_byte v) else Z_of_byte (S !!! j).
Proof.
  intros Hi. unfold xor_into. destruct (Nat.eqb_spec j i) as [-> | Hne].
  - rewrite list_lookup_total_insert_eq by exact Hi.
    apply (Z_of_byte_xor (S !!! i) v).
  - rewrite list_lookup_total_insert_ne by (intros E; apply Hne; symmetry; exact E).
    reflexivity.
Qed.

(** The state after the padding step. *)
Lemma keccak_pad_state_steps r sp pos suffix :
  length (Keccak.state sp) = 200%nat ->
  Keccak.state (Keccak.pad r sp pos suffix)
  = FIPS202.Keccak_p
      (xor_into
         (if negb (Z.land (Z_of_byte suffix) 0x80 =? 0) && (pos =? r - 1)%nat
          then FIPS202.Keccak_p (xor_into (Keccak.state sp) pos suffix)
          else xor_into (Keccak.state sp) pos suffix)
         (r - 1) x80).
Proof.
  intros Hlen. unfold Keccak.pad. cbv zeta.
  destruct (negb (Z.land (Z_of_byte suffix) 0x80 =? 0) && (pos =? r - 1)%nat).
  - rewrite keccak_permute_state, keccak_F1600_fips
      by (rewrite keccak_xor_at_length, keccak_permute_length, keccak_xor_at_length;
          exact Hlen).
    rewrite keccak_xor_at_state, keccak_permute_state, keccak_F1600_fips
      by (rewrite keccak_xor_at_length; exact Hlen).
    rewrite keccak_xor_at_state. reflexivity.
  - rewrite keccak_permute_state, keccak_F1600_fips
      by (rewrite !keccak_xor_at_length; exact Hlen).
    rewrite !keccak_xor_at_state. reflexivity.
Qed.

(** The squeezing loop permutes once between two blocks of output. *)
Lemma keccak_squeeze_trace fuel r sp n out sp' :
  (0 < r)%nat ->
  Keccak.squeeze fuel r sp n = Some (out, sp') ->
  Keccak.trace sp' = Keccak.trace sp ++ replicate ((n - 1) / r) Keccak.Permute.
Proof.
  intros Hr. revert sp n out sp'.
  induction fuel as [| fuel IH]; intros sp n out sp' H.
  - destruct n; cbn [Keccak.squeeze] in H; [ | discriminate H ].
    injection H as _ <-. cbn [Nat.sub]. rewrite Nat.Div0.div_0_l. cbn [replicate].
    symmetry. apply app_nil_r.
  - destruct n as [| n'].
    { cbn [Keccak.squeeze] in H. injection H as _ <-. cbn [Nat.sub].
      rewrite Nat.Div0.div_0_l. cbn [replicate]. symmetry. apply app_nil_r. }
    cbn [Keccak.squeeze] in H. cbv zeta in H.
    remember (S n') as n eqn:En.
    assert (Hpos : (1 <= n)%nat) by lia. clear En n'.
    destruct (Nat.ltb_spec 0 (n - Nat.min n r)) as [Hmore | Hdone].
    + assert (Hgt : (r < n)%nat) by lia.
      rewrite Nat.min_r in H by lia.
      destruct (Keccak.squeeze fuel r
                  (Keccak.hash_private_keccak_KeccakF1600_StatePermute sp) (n - r))
        as [[rest sp1] |] eqn:E; [ | discriminate H ].
      injection H as _ <-.
      apply IH in E. rewrite E.
      cbn [Keccak.hash_private_keccak_KeccakF1600_StatePermute Keccak.trace].
      rewrite <- app_assoc. f_equal.
      replace ((n - 1) / r)%nat with (S ((n - r - 1) / r)).
      * reflexivity.
      * replace (n - 1)%nat with (1 * r + (n - r - 1))%nat by lia.
        rewrite Nat.div_add_l by lia. reflexivity.
    + injection H as _ <-.
      rewrite Nat.div_small by lia. cbn [replicate]. symmetry. apply app_nil_r.
Qed.

(** C8. After the absorbing loop the [delimitedSuffix] byte is XORed into
    the state at the next unabsorbed position ([inputByteLen] modulo the
    rate in bytes) and 0x80 into the last byte of the rate; between these
    two XORs the permutation KECCAK-p[1600, 24] runs once exactly when the
    suffix has its high bit set and that position is the last byte of the
    rate, and not at all otherwise.  The state after the absorbing loop
    is the one of the sponge construction: the whole blocks of the input
    absorbed, then the remaining bytes XORed in.  The state the padding
    step leaves is the permutation of the state so obtained, the bytes
    stored through [output] are squeezed from it, and the log of the call
    is: the log of the absorbing loop, the first XOR, that optional
    permutation, the second XOR, the permutation that starts the
    squeezing, and one permutation between two blocks of output. *)
Theorem keccak_padding_between_xors rate capacity input suffix outputByteLen :
  uint32_t (rate + capacity) = 1600 -> rate mod 8 = 0 -> 0 < rate <= 1600 ->
  let r := Z.to_nat (rate / 8) in
  let pos := (length input mod r)%nat in
  let extra := negb (Z.land (Z_of_byte suffix) 0x80 =? 0) && (pos =? r - 1)%nat in
  exists sp,
    Keccak.absorb (S (length input)) r (Keccak.mk (replicate 200 x00) []) input 0
    = Some (sp, pos) /\
    Keccak.state sp
    = FIPS202.xor_block (FIPS202.absorb r (length input / r) (replicate 200 x00) input)
                        (drop (r * (length input / r)) input) /\
    let S1 := xor_into (Keccak.state sp) pos suffix in
    let S2 := if extra then FIPS202.Keccak_p S1 else S1 in
    let S3 := xor_into S2 (r - 1) x80 in
    Keccak.state (Keccak.pad r sp pos suffix) = FIPS202.Keccak_p S3 /\
    Keccak.hash_private_keccak_Keccak rate capacity input suffix outputByteLen
    = Keccak.Written
        (take outputByteLen
              (FIPS202.squeeze r (outputByteLen / r) (FIPS202.Keccak_p S3)))
        (Keccak.trace sp
         ++ [Keccak.XorByte pos suffix]
         ++ (if extra then [Keccak.Permute] else [])
         ++ [Keccak.XorByte (r - 1) x80; Keccak.Permute]
         ++ replicate ((outputByteLen - 1) / r) Keccak.Permute).
Proof.
  intros Hsum Hmod Hrate. cbv zeta.
  destruct (keccak_Keccak_phases rate capacity input suffix outputByteLen Hsum Hmod
              ltac:(lia)) as (sp & out & sp2 & k & Habs & Hlen & Hsq & _ & Hrun).
  assert (Hr : (0 < Z.to_nat (rate / 8) <= 200)%nat).
  { assert (8 <= rate) by (apply Z.mod_divide in Hmod; [ destruct Hmod as [q Hq]; lia | lia ]).
    assert (1 <= rate / 8) by (apply Z.div_le_lower_bound; lia).
    assert (rate / 8 <= 200) by (apply Z.div_le_upper_bound; lia). lia. }
  set (r := Z.to_nat (rate / 8)) in *. clearbody r.
  exists sp. split; [ exact Habs | ].
  split.
  { apply keccak_absorb_state in Habs; [ exact Habs | exact Hr | apply length_replicate ]. }
  pose proof (keccak_pad_state_steps r sp (length input mod r)%nat suffix Hlen) as Hpad.
  split; [ exact Hpad | ].
  rewrite Hrun.
  rewrite (keccak_squeeze_trace _ _ _ _ _ _ (proj1 Hr) Hsq), keccak_pad_trace.
  apply keccak_squeeze_fips in Hsq; [ | exact Hr | rewrite keccak_pad_length; exact Hlen ].
  rewrite Hsq, Hpad. rewrite <- !app_assoc. reflexivity.
Qed.

Lemma keccak_padding_between_xors_witness :
  exists sp,
    Keccak.absorb 4 136 (Keccak.mk (replicate 200 x00) []) abc 0 = Some (sp, 3%nat) /\
    Keccak.state sp = FIPS202.xor_block (replicate 200 x00) abc /\
    Keccak.state (Keccak.pad 136 sp 3 "006"%byte)
    = FIPS202.Keccak_p (xor_into (xor_into (Keccak.state sp) 3 "006"%byte) 135 x80) /\
    Keccak.hash_private_keccak_Keccak 1088 512 abc "006"%byte 32
    = Keccak.Written
        (take 32 (FIPS202.squeeze 136 0
                    (FIPS202.Keccak_p
                       (xor_into (xor_into (Keccak.state sp) 3 "006"%byte) 135 x80))))
        (Keccak.trace sp
         ++ [Keccak.XorByte 3 "006"%byte]
         ++ [Keccak.XorByte 135 x80; Keccak.Permute]).
Proof.
  exact (keccak_padding_between_xors 1088 512 abc "006"%byte 32
           eq_refl eq_refl ltac:(lia)).
Defined.

(** X17. The four SHA-3 functions return the hex digits of the digests
    FIPS 202 defines: SHA3-224, SHA3-256, SHA3-384 and SHA3-512 of the
    input, for every input. *)
Theorem sha3_is_standard (data : list byte) :
  Sha3.hash_sha3_224_binary data
  = Some (hash_util_char_array_to_hex_string (FIPS202.SHA3_224 data)) /\
  Keccak.hash_sha3_256_binary data
  = Some (hash_util_char_array_to_hex_string (FIPS202.SHA3_256 data)) /\
  Sha3.hash_sha3_384_binary data
  = Some (hash_util_char_array_to_hex_string (FIPS202.SHA3_384 data)) /\
  Sha3.hash_sha3_512_binary data
  = Some (hash_util_char_array_to_hex_string (FIPS202.SHA3_512 data)).
Proof.
  destruct (keccak_Keccak_fips 1152 448 data "006"%byte 28 eq_refl eq_refl ltac:(lia) eq_refl)
    as [l1 H1].
  destruct (keccak_Keccak_fips 1088 512 data "006"%byte 32 eq_refl eq_refl ltac:(lia) eq_refl)
    as [l2 H2].
  destruct (keccak_Keccak_fips 832 768 data "006"%byte 48 eq_refl eq_refl ltac:(lia) eq_refl)
    as [l3 H3].
  destruct (keccak_Keccak_fips 576 1024 data "006"%byte 64 eq_refl eq_refl ltac:(lia) eq_refl)
    as [l4 H4].
  unfold Sha3.hash_sha3_224_binary, Keccak.hash_sha3_256_binary,
    Sha3.hash_sha3_384_binary, Sha3.hash_sha3_512_binary.
  rewrite H1, H2, H3, H4.
  change (Z.to_nat (1152 / 8)) with 144%nat. change (Z.to_nat (1088 / 8)) with 136%nat.
  change (Z.to_nat (832 / 8)) with 104%nat. change (Z.to_nat (576 / 8)) with 72%nat.
  repeat split; reflexivity.
Qed.

Lemma shake_binary_fips rate capacity limit malloc_ok data outsizeBytes buffer :
  uint32_t (rate + capacity) = 1600 -> rate mod 8 = 0 -> 0 < rate <= 1600 ->
  0 <= limit ->
  Keccak.shake_binary rate capacity limit malloc_ok data outsizeBytes buffer
  = if (if buffer then outsizeBytes / 2 <=? limit / 2
        else (outsizeBytes <=? limit) || (malloc_ok && (outsizeBytes * 3 + 1 <? 2 ^ 64)))
    then Returned (hash_util_char_array_to_hex_string
                     (FIPS202.sponge (Z.to_nat (rate / 8)) "031"%byte data
                                     (Z.to_nat (outsizeBytes / 2))))
    else UndefinedBehaviour.
Proof.
  intros Hsum Hmod Hrate Hlimit. unfold Keccak.shake_binary. cbv zeta.
  destruct (keccak_Keccak_fips rate capacity data "031"%byte (Z.to_nat (outsizeBytes / 2))
              Hsum Hmod Hrate eq_refl) as [log H].
  rewrite H.
  assert (Hhalf : outsizeBytes <= limit -> outsizeBytes / 2 <= limit / 2)
    by (intros; apply Z.div_le_mono; lia).
  destruct buffer; cbn [negb andb].
  - destruct (Z.ltb_spec (limit / 2) (outsizeBytes / 2));
      destruct (Z.leb_spec (outsizeBytes / 2) (limit / 2)); try lia; reflexivity.
  - destruct (Z.ltb_spec limit outsizeBytes);
      destruct (Z.leb_spec outsizeBytes limit); try lia; cbn [andb orb negb].
    + rewrite shake_block_overrun by lia.
      destruct malloc_ok; cbn [negb andb]; [ | reflexivity ].
      destruct (outsizeBytes * 3 + 1 <? 2 ^ 64); reflexivity.
    + destruct (Z.ltb_spec (limit / 2) (outsizeBytes / 2)); [ lia | reflexivity ].
Qed.

(** X18. [hash_shake128_binary] and [hash_shake256_binary] return the hex
    digits of the first [outsizeBytes / 2] bytes of SHAKE128 and SHAKE256
    (FIPS 202) of the input, whenever the call is defined.  Without a
    caller buffer that is for [outsizeBytes <= 64], and for a longer
    output when [malloc] returns a block and its size
    [outsizeBytes * 3 + 1] has not wrapped around in [size_t] (from
    [outsizeBytes = (2^64 - 1) / 3] on the block is too small for what is
    written to it).  With a caller buffer it is only for
    [outsizeBytes / 2 <= 32], since the digest bytes then go to the static
    array of 32 bytes, which a longer output overruns. *)
Theorem shake_is_standard (malloc_ok : bool) (data : list byte) (outsizeBytes : Z)
  (buffer : bool) :
  let defined := if buffer then outsizeBytes / 2 <=? 32
                 else (outsizeBytes <=? 64)
                      || (malloc_ok && (outsizeBytes * 3 + 1 <? 2 ^ 64)) in
  let digits := fun out => hash_util_char_array_to_hex_string out in
  Keccak.hash_shake128_binary malloc_ok data outsizeBytes buffer
  = (if defined
     then Returned (digits (FIPS202.SHAKE128 data (Z.to_nat (outsizeBytes / 2))))
     else UndefinedBehaviour) /\
  Keccak.hash_shake256_binary malloc_ok data outsizeBytes buffer
  = (if defined
     then Returned (digits (FIPS202.SHAKE256 data (Z.to_nat (outsizeBytes / 2))))
     else UndefinedBehaviour).
Proof.
  cbv zeta. unfold Keccak.hash_shake128_binary, Keccak.hash_shake256_binary.
  rewrite !shake_binary_fips by (reflexivity || (vm_compute; discriminate) || lia).
  change (Z.to_nat (1344 / 8)) with 168%nat. change (Z.to_nat (1088 / 8)) with 136%nat.
  split; reflexivity.
Qed.

(** X19. The C++ functions [Hash::shake128] and [Hash::shake256] return,
    for every input and every [outsizeBytes], the hex digits of the first
    [outsizeBytes / 2] bytes of SHAKE128 and SHAKE256: the digest bytes
    replace all the blanks of the string they are stored in.  They never
    overrun a buffer, and they agree with the C functions wherever those
    are defined. *)
Theorem cpp_shake_is_standard (data : list byte) (outsizeBytes : Z) :
  Sha3.shake128 data outsizeBytes
  = Some (hash_util_char_array_to_hex_string
            (FIPS202.SHAKE128 data (Z.to_nat (outsizeBytes / 2)))) /\
  Sha3.shake256 data outsizeBytes
  = Some (hash_util_char_array_to_hex_string
            (FIPS202.SHAKE256 data (Z.to_nat (outsizeBytes / 2)))) /\
  (forall malloc_ok buffer digest,
      Keccak.hash_shake128_binary malloc_ok data outsizeBytes buffer = Returned digest ->
      Sha3.shake128 data outsizeBytes = Some digest) /\
  (forall malloc_ok buffer digest,
      Keccak.hash_shake256_binary malloc_ok data outsizeBytes buffer = Returned digest ->
      Sha3.shake256 data outsizeBytes = Some digest).
Proof.
  assert (H : forall rate capacity,
             uint32_t (rate + capacity) = 1600 -> rate mod 8 = 0 -> 0 < rate <= 1600 ->
             (0 < Z.to_nat (rate / 8) <= 200)%nat ->
             Sha3.shake rate capacity data outsizeBytes
             = Some (hash_util_char_array_to_hex_string
                       (FIPS202.sponge (Z.to_nat (rate / 8)) "031"%byte data
                                       (Z.to_nat (outsizeBytes / 2))))).
  { intros rate capacity Hsum Hmod Hrate Hr. unfold Sha3.shake. cbv zeta.
    destruct (keccak_Keccak_fips rate capacity data "031"%byte (Z.to_nat (outsizeBytes / 2))
                Hsum Hmod Hrate eq_refl) as [log E].
    rewrite E. do 2 f_equal.
    rewrite memcpy_eq_app
      by (rewrite length_replicate, fips202_sponge_length by exact Hr; cbn [Nat.add]; lia).
    rewrite take_0. cbn [app Nat.add].
    rewrite drop_ge by (rewrite length_replicate, fips202_sponge_length by exact Hr; lia).
    apply app_nil_r. }
  assert (H128 := H 1344 256 eq_refl eq_refl ltac:(lia) ltac:(vm_compute; lia)).
  assert (H256 := H 1088 512 eq_refl eq_refl ltac:(lia) ltac:(vm_compute; lia)).
  change (Z.to_nat (1344 / 8)) with 168%nat in H128.
  change (Z.to_nat (1088 / 8)) with 136%nat in H256.
  split; [ exact H128 | ]. split; [ exact H256 | ].
  split; intros malloc_ok buffer digest Hc.
  - unfold Keccak.hash_shake128_binary in Hc.
    rewrite shake_binary_fips in Hc by (reflexivity || (vm_compute; discriminate) || lia).
    destruct (if buffer then _ else _); [ | discriminate Hc ].
    injection Hc as <-. exact H128.
  - unfold Keccak.hash_shake256_binary in Hc.
    rewrite shake_binary_fips in Hc by (reflexivity || (vm_compute; discriminate) || lia).
    destruct (if buffer then _ else _); [ | discriminate Hc ].
    injection Hc as <-. exact H256.
Qed.

(** ** ISO-8859-1 to UTF-8 *)

Lemma iso88591_to_utf8_concat str :
  Encode.Iso88591ToUtf8 str
  = concat (map (fun it =>
                   if Z_of_byte it <? 0x80 then [it]
                   else [byte_of_Z (Z.lor 0xC0 (Z.shiftr (Z_of_byte it) 6));
                         byte_of_Z (Z.lor 0x80 (Z.land (Z_of_byte it) 0x3F))]) str).
Proof.
  unfold Encode.Iso88591ToUtf8.
  assert (H : forall acc,
             fold_left (fun strOut it =>
                          let ch := uint8_t (Z_of_byte it) in
                          if ch <? 0x80 then strOut ++ [byte_of_Z ch]
                          else (strOut ++ [byte_of_Z (Z.lor 0xC0 (Z.shiftr ch 6))])
                                 ++ [byte_of_Z (Z.lor 0x80 (Z.land ch 0x3F))]) str acc
             = acc ++ concat (map (fun it =>
                   if Z_of_byte it <? 0x80 then [it]
                   else [byte_of_Z (Z.lor 0xC0 (Z.shiftr (Z_of_byte it) 6));
                         byte_of_Z (Z.lor 0x80 (Z.land (Z_of_byte it) 0x3F))]) str)).
  { induction str as [| it str IH]; intros acc.
    - cbn [fold_left map concat]. rewrite app_nil_r. reflexivity.
    - cbn [fold_left map concat]. rewrite IH. cbv zeta.
      assert (Hch : uint8_t (Z_of_byte it) = Z_of_byte it).
      { unfold uint8_t. apply Z.mod_small. pose proof (Z_of_byte_range it). lia. }
      rewrite Hch. destruct (Z_of_byte it <? 0x80).
      + rewrite byte_of_Z_of_byte, <- app_assoc. reflexivity.
      + rewrite <- !app_assoc. reflexivity. }
  apply (H []).
Qed.

(** X20. [Hash::Encode::Iso88591ToUtf8] returns well-formed UTF-8 (RFC
    3629) whose code points are the values of the input bytes, that is the
    characters of the ISO-8859-1 string; it has one byte more for each input
    byte of 0x80 or above, and an ASCII string is returned as it is. *)
Theorem iso88591_to_utf8_decodes (str : list byte) :
  UTF8.decode (Encode.Iso88591ToUtf8 str) = Some (map Z_of_byte str) /\
  length (Encode.Iso88591ToUtf8 str) = (length str + non_ascii str)%nat /\
  (non_ascii str = 0%nat -> Encode.Iso88591ToUtf8 str = str).
Proof.
  rewrite iso88591_to_utf8_concat. unfold non_ascii.
  induction str as [| it str (IH1 & IH2 & IH3)].
  - repeat split; reflexivity.
  - cbn [map concat List.filter length].
    split; [ | split ].
    + destruct (Z.ltb_spec (Z_of_byte it) 0x80) as [Hlt | Hge].
      * cbn [app UTF8.decode]. cbv zeta.
        destruct (Z.ltb_spec (Z_of_byte it) 0x80); [ | lia ].
        rewrite IH1. reflexivity.
      * cbn [app]. clear IH2 IH3. revert Hge IH1.
        generalize (concat (map (fun it0 =>
                   if Z_of_byte it0 <? 0x80 then [it0]
                   else [byte_of_Z (Z.lor 0xC0 (Z.shiftr (Z_of_byte it0) 6));
                         byte_of_Z (Z.lor 0x80 (Z.land (Z_of_byte it0) 0x3F))]) str)).
        intros rest Hge IH1.
        destruct it; try (exfalso; vm_compute in Hge; apply Hge; reflexivity);
          cbn; rewrite IH1; reflexivity.
    + destruct (Z.ltb_spec (Z_of_byte it) 0x80) as [Hlt | Hge];
        destruct (Z.leb_spec 0x80 (Z_of_byte it)); try lia;
        cbn [app length]; rewrite ?length_app, IH2; cbn [length]; lia.
    + destruct (Z.ltb_spec (Z_of_byte it) 0x80) as [Hlt | Hge];
        destruct (Z.leb_spec 0x80 (Z_of_byte it)); try lia; cbn [length app].
      * intros Hn. rewrite (IH3 Hn). reflexivity.
      * intros Hn. discriminate Hn.
Qed.

(** ** The hexadecimal string *)

Lemma hex_char_in n : 0 <= n < 16 -> In (hex_char n) hex_chars.
Proof.
  intros H. unfold hex_char. apply nth_In.
  change (length hex_chars) with 16%nat. lia.
Qed.

Lemma hex_char_inj n m : 0 <= n < 16 -> 0 <= m < 16 -> hex_char n = hex_char m -> n = m.
Proof.
  intros Hn Hm H. apply (f_equal hex_value) in H.
  rewrite !hex_value_hex_char in H by assumption. injection H as ->. reflexivity.
Qed.

Lemma byte_nibbles_range b :
  0 <= Z.shiftr (Z.land (Z_of_byte b) 0xF0) 4 < 16 /\ 0 <= Z.land (Z_of_byte b) 0x0F < 16 /\
  Z_of_byte b = 16 * Z.shiftr (Z.land (Z_of_byte b) 0xF0) 4 + Z.land (Z_of_byte b) 0x0F.
Proof. destruct b; vm_compute; repeat split; discriminate. Qed.

(** X21. [hash_util_char_array_to_hex_string] loses nothing: the string
    has two characters for each byte, all of them among 0-9 and a-f, and
    two arrays with the same string are the same array. *)
Theorem hex_string_faithful (a b : list byte) :
  String.length (hash_util_char_array_to_hex_string a) = (2 * length a)%nat /\
  Forall (fun c => In c hex_chars)
         (list_ascii_of_string (hash_util_char_array_to_hex_string a)) /\
  (hash_util_char_array_to_hex_string a = hash_util_char_array_to_hex_string b -> a = b).
Proof.
  split; [ apply length_hex_string | ]. split.
  - induction a as [| x a IH]; [ constructor | ].
    cbn [hash_util_char_array_to_hex_string list_ascii_of_string].
    destruct (byte_nibbles_range x) as (Hhi & Hlo & _).
    constructor; [ apply hex_char_in; exact Hhi | ].
    constructor; [ apply hex_char_in; exact Hlo | exact IH ].
  - revert b. induction a as [| x a IH]; intros b H.
    + destruct b; [ reflexivity | discriminate H ].
    + destruct b as [| y b]; [ discriminate H | ].
      cbn [hash_util_char_array_to_hex_string] in H.
      injection H as Hhi Hlo Hrest.
      destruct (byte_nibbles_range x) as (Hx1 & Hx2 & Hx).
      destruct (byte_nibbles_range y) as (Hy1 & Hy2 & Hy).
      apply hex_char_inj in Hhi; [ | assumption | assumption ].
      apply hex_char_inj in Hlo; [ | assumption | assumption ].
      f_equal; [ | apply IH; exact Hrest ].
      rewrite <- (byte_of_Z_of_byte x), <- (byte_of_Z_of_byte y).
      f_equal. rewrite Hx, Hy, Hhi, Hlo. reflexivity.
Qed.

(** ** SHA-512/t in the C++ interface *)

Lemma cpp_Sha512T_ctor_init ndebug s t :
  length (Sha512.buffer s) = 128%nat -> 4 <= t <= 2048 -> t <> 384 ->
  Hash.Sha512T_ctor ndebug s t = Sha512.hash_sha512t_init ndebug s t.
Proof.
  intros Hbuf Ht H384.
  rewrite (sha512t_init_valid ndebug s t Ht H384).
  unfold Hash.Sha512T_ctor. cbv zeta.
  destruct (Z.eqb_spec t 384) as [E | _]; [ contradiction | ]. cbn [negb].
  destruct (Z.leb_spec 4 t); [ | lia ].
  destruct (Z.leb_spec t 2048); [ | lia ]. cbn [andb].
  rewrite !assert_true. f_equal.
  unfold Sha512.sha512t_generate_iv. cbv zeta.
  rewrite (sha512t_label_decimal t) by lia.
  fold (Sha512.sha512t_seed s t).
  unfold Hash.Sha512_Update, Hash.Sha512_Finalize, Hash.Sha512_Hexdigest, Hash.Sha512_Reset.
  set (str := list_byte_of_string "SHA-512/" ++ to_decimal t).
  set (s1 := Sha512.hash_sha512_finalize
               (Sha512.hash_sha512_update_binary (Sha512.sha512t_seed s t) str)).
  assert (Hlen : String.length (Sha512.hash_sha512_hexdigest s1) = 128%nat).
  { rewrite sha512_hexdigest_words. subst s1.
    pose proof (sha512t_label_short t ltac:(lia)) as Hshort.
    rewrite (sha512t_label_decimal t) in Hshort by lia. fold str in Hshort.
    rewrite sha512_engine_spec;
      [ | apply sha512t_seed_wf, Hbuf | reflexivity | reflexivity | lia ].
    assert (H8 : length (FIPS180.final_hash (Sha512.h (Sha512.sha512t_seed s t)) str) = 8%nat)
      by (unfold FIPS180.final_hash; apply fips_hash_blocks_length; reflexivity).
    rewrite sha512_hex_words_bytes by exact H8.
    rewrite length_hex_string, length_concat_be_bytes, H8. reflexivity. }
  rewrite Hlen. reflexivity.
Qed.

(** X22. For every t with 4 <= t <= 2048 other than 384, the constructor
    [Sha512T(t)] of the C++ interface leaves the engine [hash_sha512t_init]
    leaves: the initial hash value of SHA-512/t (FIPS 180-4, 5.3.6).  With
    the updates and the finalization of the class, [Sha512T::Hexdigest]
    then returns the string [hash_sha512t_binary] returns: the first t / 4
    digits of the SHA-512/t final hash value. *)
Theorem cpp_sha512t_is_standard (ndebug : bool) (s : Sha512.Hash_Private_Sha512) (t : Z)
  (b : list byte) :
  length (Sha512.buffer s) = 128%nat ->
  4 <= t <= 2048 -> t <> 384 ->
  8 * Z.of_nat (length b) < 2 ^ 64 ->
  exists s0,
    Hash.Sha512T_ctor ndebug s t = Returned s0 /\
    Sha512.hash_sha512t_init ndebug s t = Returned s0 /\
    Sha512.h s0 = fips_sha512t_iv t /\
    Hash.Sha512T_Hexdigest (Hash.Sha512_Finalize (Hash.Sha512_Update s0 b))
    = substring 0 (Z.to_nat (t / 4))
        (hash_util_char_array_to_hex_string (fips_sha512t_bytes t b)) /\
    Sha512.hash_sha512t_binary ndebug s t b
    = Returned (Hash.Sha512T_Hexdigest (Hash.Sha512_Finalize (Hash.Sha512_Update s0 b))).
Proof.
  intros Hbuf Ht H384 Hlen.
  pose proof (sha512t_generate_iv_fields (Sha512.sha512t_seed s t) (Sha512.sha512t_label t))
    as (Hsize & Hbits & Htt & Hblen).
  pose proof (sha512t_generate_iv_fips s t Hbuf ltac:(lia)) as Hh.
  assert (Hw : words64 8 (fips_sha512t_iv t)).
  { unfold fips_sha512t_iv, FIPS180.final_hash.
    apply fips_hash_blocks_words64, fips_sha512t_seed_words64. }
  exists (Sha512.sha512t_generate_iv (Sha512.sha512t_seed s t) (Sha512.sha512t_label t)).
  split; [ rewrite (cpp_Sha512T_ctor_init ndebug s t Hbuf Ht H384);
           apply sha512t_init_valid; assumption | ].
  split; [ apply sha512t_init_valid; assumption | ].
  split; [ exact Hh | ].
  split.
  - unfold Hash.Sha512T_Hexdigest, Hash.Sha512_Finalize, Hash.Sha512_Update,
      Hash.Sha512_Hexdigest.
    rewrite sha512_finalize_t, sha512_update_t, Htt.
    cbn [Sha512.t Sha512.sha512t_seed].
    rewrite sha512_hexdigest_words.
    rewrite sha512_engine_spec; [ | | exact Hsize | exact Hbits | exact Hlen ].
    + rewrite Hh.
      rewrite sha512_hex_words_bytes
        by (unfold FIPS180.final_hash; apply fips_hash_blocks_length, Hw).
      reflexivity.
    + unfold sha512_wf. rewrite Hsize, Hbits, Hblen, Hh.
      repeat split; try lia; try exact Hbuf. apply Hw.
  - rewrite (sha512t_binary_Returned _ _ _ _ _ (sha512t_init_valid ndebug s t Ht H384)).
    reflexivity.
Qed.

Lemma cpp_sha512t_is_standard_witness :
  exists s0,
    Hash.Sha512T_ctor false zeroed_sha512 224 = Returned s0 /\
    Sha512.hash_sha512t_init false zeroed_sha512 224 = Returned s0 /\
    Sha512.h s0 = fips_sha512t_iv 224 /\
    Hash.Sha512T_Hexdigest (Hash.Sha512_Finalize (Hash.Sha512_Update s0 abc))
    = substring 0 (Z.to_nat (224 / 4))
        (hash_util_char_array_to_hex_string (fips_sha512t_bytes 224 abc)) /\
    Sha512.hash_sha512t_binary false zeroed_sha512 224 abc
    = Returned (Hash.Sha512T_Hexdigest (Hash.Sha512_Finalize (Hash.Sha512_Update s0 abc))).
Proof.
  apply (cpp_sha512t_is_standard false zeroed_sha512 224 abc).
  - reflexivity.
  - lia.
  - lia.
  - reflexivity.
Defined.

(** ** SHA-512/t: the label and its array *)

Lemma decimal_digits_length k fuel n acc :
  (1 <= k <= fuel)%nat -> 10 ^ (Z.of_nat k - 1) <= n < 10 ^ Z.of_nat k ->
  length (decimal_digits fuel n acc) = (length acc + k)%nat.
Proof.
  revert fuel n acc. induction k as [| k IH]; intros fuel n acc Hk Hn; [ lia | ].
  destruct fuel as [| fuel]; [ lia | ].
  cbn [decimal_digits]. cbv zeta.
  rewrite Nat2Z.inj_succ in Hn. replace (Z.succ (Z.of_nat k) - 1) with (Z.of_nat k) in Hn by lia.
  rewrite Z.pow_succ_r in Hn by lia.
  assert (Hp : 0 < 10 ^ Z.of_nat k) by (apply Z.pow_pos_nonneg; lia).
  destruct k as [| k].
  - change (10 ^ Z.of_nat 0) with 1 in Hn.
    rewrite Z.div_small by lia. cbn [Z.eqb length]. lia.
  - assert (Hq : 10 ^ (Z.of_nat (S k) - 1) <= n / 10 < 10 ^ Z.of_nat (S k)).
    { rewrite Nat2Z.inj_succ in *.
      replace (Z.succ (Z.of_nat k) - 1) with (Z.of_nat k) by lia.
      rewrite Z.pow_succ_r in * by lia.
      assert (0 < 10 ^ Z.of_nat k) by (apply Z.pow_pos_nonneg; lia).
      split.
      - apply Z.div_le_lower_bound; lia.
      - apply Z.div_lt_upper_bound; lia. }
    assert (Hnz : n / 10 <> 0).
    { assert (0 < 10 ^ (Z.of_nat (S k) - 1)) by (apply Z.pow_pos_nonneg; lia). lia. }
    destruct (Z.eqb_spec (n / 10) 0) as [E | _]; [ contradiction | ].
    rewrite (IH fuel (n / 10)) by (lia || exact Hq). cbn [length]. lia.
Qed.

Lemma decimal_digits_between k lo hi n :
  (1 <= k <= 20)%nat -> lo = 10 ^ (Z.of_nat k - 1) -> hi = 10 ^ Z.of_nat k ->
  lo <= n < hi -> length (to_decimal n) = k.
Proof.
  intros Hk -> -> Hn. unfold to_decimal.
  rewrite (decimal_digits_length k) by (lia || exact Hn). reflexivity.
Qed.

Lemma to_decimal_length_small n : 0 <= n < 10000 -> (length (to_decimal n) <= 4)%nat.
Proof.
  intros H.
  destruct (Z.eq_dec n 0) as [-> | Hz]; [ vm_compute; lia | ].
  destruct (Z.lt_ge_cases n 10);
    [ rewrite (decimal_digits_between 1 1 10) by (lia || reflexivity); lia | ].
  destruct (Z.lt_ge_cases n 100);
    [ rewrite (decimal_digits_between 2 10 100) by (lia || reflexivity); lia | ].
  destruct (Z.lt_ge_cases n 1000);
    [ rewrite (decimal_digits_between 3 100 1000) by (lia || reflexivity); lia | ].
  rewrite (decimal_digits_between 4 1000 10000) by (lia || reflexivity). lia.
Qed.

Lemma to_decimal_length_big n : 10000 <= n < 2 ^ 32 -> (5 <= length (to_decimal n))%nat.
Proof.
  intros H.
  destruct (Z.lt_ge_cases n 100000);
    [ rewrite (decimal_digits_between 5 10000 100000) by (lia || reflexivity); lia | ].
  destruct (Z.lt_ge_cases n 1000000);
    [ rewrite (decimal_digits_between 6 100000 1000000) by (lia || reflexivity); lia | ].
  destruct (Z.lt_ge_cases n 10000000);
    [ rewrite (decimal_digits_between 7 1000000 10000000) by (lia || reflexivity); lia | ].
  destruct (Z.lt_ge_cases n 100000000);
    [ rewrite (decimal_digits_between 8 10000000 100000000) by (lia || reflexivity); lia | ].
  destruct (Z.lt_ge_cases n 1000000000);
    [ rewrite (decimal_digits_between 9 100000000 1000000000) by (lia || reflexivity); lia | ].
  rewrite (decimal_digits_between 10 1000000000 10000000000) by (lia || reflexivity). lia.
Qed.

(** X23. With NDEBUG defined, [hash_sha512t_init] checks nothing: it
    prints the label "SHA-512/t", with t converted to [unsigned int], into
    an array of 13 characters.  When that number is below 10000 the label
    fits and the function returns the engine with the derived initial
    value; from 10000 on the label and its terminator need 14 characters or
    more and the array is overrun.  (With assertions enabled such a t is
    rejected before, and the C++ constructor builds the label in a
    [std::string].) *)
Theorem sha512t_init_label_overflow (s : Sha512.Hash_Private_Sha512) (t : Z) :
  Sha512.hash_sha512t_init true s t
  = (if 10000 <=? uint32_t t then UndefinedBehaviour
     else Returned (Sha512.sha512t_generate_iv (Sha512.sha512t_seed s t)
                                               (Sha512.sha512t_label t))) /\
  is_returned (Hash.Sha512T_ctor true s t) = true.
Proof.
  split; [ | apply cpp_Sha512T_ctor_Returned ].
  unfold Sha512.hash_sha512t_init, assert. cbv iota.
  pose proof (uint32_t_range t) as Hr.
  assert (Hlen : length (Sha512.sha512t_label t)
                 = (8 + length (to_decimal (uint32_t t)))%nat).
  { unfold Sha512.sha512t_label. rewrite length_app. reflexivity. }
  rewrite Hlen.
  destruct (Z.leb_spec 10000 (uint32_t t)) as [Hbig | Hsmall].
  - pose proof (to_decimal_length_big (uint32_t t) ltac:(lia)) as H.
    destruct (Nat.leb_spec 13 (8 + length (to_decimal (uint32_t t)))); [ reflexivity | lia ].
  - pose proof (to_decimal_length_small (uint32_t t) ltac:(lia)) as H.
    destruct (Nat.leb_spec 13 (8 + length (to_decimal (uint32_t t)))); [ lia | reflexivity ].
Qed.
